(** * AquaTimer: schedule interpolation, fade control, time keeping

    A shallow embedding of [src/main.cpp], the firmware of a light dimmer
    that follows a 24-hour brightness schedule, and the properties of it
    that its specification states.

    - C++ [float] is IEEE 754 binary32 and [double] is binary64; both are
      modelled bit for bit through the Standard Library's [SpecFloat]
      (round to nearest, ties to even), so that every arithmetic step of
      the firmware can be evaluated, and reasoned about, as it happens on
      the device.
    - The global variables of the sketch are the fields of [State]; every
      function of the sketch is a function on [State].
    - What the sketch gets from its platform (std::sort, the wall clock
      behind [time(nullptr)], ArduinoJson's parser) is gathered in the
      class [Platform]; [refPlatform] is an instance that can be run.

    The file has three parts: the model, the definitions that the
    statements need, and the properties. *)

From Stdlib Require Import ZArith QArith Qabs List Bool String Ascii Lia.
From Stdlib Require Import Permutation Sorted.
From Stdlib Require Import Floats.SpecFloat.
Import ListNotations.
Local Open Scope string_scope.
Local Open Scope list_scope.
Local Open Scope Z_scope.

(** ** Floating point *)

(** C++ [float] on the ESP32: IEEE 754 binary32. *)
Definition float : Type := spec_float.

Module F32.
Definition prec : Z := 24.
Definition emax : Z := 128.

Definition valid (x : float) : bool := valid_binary prec emax x.
Definition add : float -> float -> float := SFadd prec emax.
Definition sub : float -> float -> float := SFsub prec emax.
Definition mul : float -> float -> float := SFmul prec emax.
Definition div : float -> float -> float := SFdiv prec emax.
Definition abs : float -> float := SFabs.
Definition ltb : float -> float -> bool := SFltb.
Definition leb : float -> float -> bool := SFleb.
Definition eqb : float -> float -> bool := SFeqb.

(** [(float) n] for an integer [n]. *)
Definition of_int (n : Z) : float := binary_normalize prec emax n 0 false.

Definition is_nan (x : float) : bool :=
  match x with S754_nan => true | _ => false end.

(** Zero or a finite non-zero number: neither an infinity nor a NaN. *)
Definition is_finite (x : float) : bool :=
  match x with S754_zero _ | S754_finite _ _ _ => true | _ => false end.

(** The rational number a finite float stands for. *)
Definition to_Q (x : float) : Q :=
  match x with
  | S754_finite s m e => (inject_Z (cond_Zopp s (Zpos m)) * Qpower 2 e)%Q
  | _ => 0%Q
  end.
End F32.

(** C++ [double]: IEEE 754 binary64.  The sketch computes in [double]
    wherever a literal such as [60.0] takes part in an expression. *)
Definition double : Type := spec_float.

Module F64.
Definition prec : Z := 53.
Definition emax : Z := 1024.

Definition add : double -> double -> double := SFadd prec emax.
Definition div : double -> double -> double := SFdiv prec emax.
Definition of_int (n : Z) : double := binary_normalize prec emax n 0 false.

(** Narrowing conversion [double -> float]. *)
Definition to_float (d : double) : float :=
  match d with
  | S754_finite s m e =>
      binary_normalize F32.prec F32.emax (cond_Zopp s (Zpos m)) e s
  | _ => d
  end.
End F64.

(** The constants of the sketch. *)
Definition F0 : float := F32.of_int 0.
Definition F24 : float := F32.of_int 24.
Definition F100 : float := F32.of_int 100.

(** [constrain(amt, low, high)], the Arduino macro
    [((amt)<(low)?(low):((amt)>(high)?(high):(amt)))].  The sketch calls it
    with a [float] amount and the [double] bounds [0.0] and [100.0]; the
    promotion of a [float] to [double] is exact and the result is narrowed
    back to [float], so comparing in binary32 gives the same value. *)
Definition constrain (amt low high : float) : float :=
  if F32.ltb amt low then low
  else if F32.ltb high amt then high
  else amt.

(** ** Arduino [String] operations *)

(** [s.indexOf(c)]: index of the first occurrence, [-1] when absent. *)
Fixpoint indexOf_from (c : ascii) (s : string) (i : Z) : Z :=
  match s with
  | EmptyString => -1
  | String a s' => if Ascii.eqb a c then i else indexOf_from c s' (i + 1)
  end.

Definition indexOf (c : ascii) (s : string) : Z := indexOf_from c s 0.

(** [s.substring(left, right)]: the characters at indices [left <= i < right];
    the bounds are swapped when [left > right] and [right] is capped at the
    length. *)
Definition substring (s : string) (left right : Z) : string :=
  let lo := Z.min left right in
  let hi := Z.min (Z.max left right) (Z.of_nat (String.length s)) in
  String.substring (Z.to_nat lo) (Z.to_nat (hi - lo)) s.

(** [s.substring(left)]. *)
Definition substring_from (s : string) (left : Z) : string :=
  substring s left (Z.of_nat (String.length s)).

Definition isspace (c : ascii) : bool :=
  let n := nat_of_ascii c in
  (Nat.eqb n 32 || (Nat.leb 9 n && Nat.leb n 13))%bool.

Definition isdigit (c : ascii) : bool :=
  let n := nat_of_ascii c in (Nat.leb 48 n && Nat.leb n 57)%bool.

Fixpoint skip_spaces (s : string) : string :=
  match s with
  | String c s' => if isspace c then skip_spaces s' else s
  | EmptyString => s
  end.

(** Value of the longest prefix of decimal digits, continuing from [acc]. *)
Fixpoint leading_digits (s : string) (acc : Z) : Z :=
  match s with
  | String c s' =>
      if isdigit c
      then leading_digits s' (acc * 10 + (Z.of_nat (nat_of_ascii c) - 48))
      else acc
  | EmptyString => acc
  end.

Definition LONG_MIN : Z := - 2 ^ 31.
Definition LONG_MAX : Z := 2 ^ 31 - 1.

(** [s.toInt()], which the Arduino core implements as [atol(buffer)]: skip
    leading white space, read an optional sign and the longest run of
    decimal digits, ignore whatever follows; no digits give 0.  [long] has
    32 bits and the C library saturates on overflow. *)
Definition toInt (s : string) : Z :=
  let s1 := skip_spaces s in
  let v :=
    match s1 with
    | String c s2 =>
        if Ascii.eqb c "-" then - leading_digits s2 0
        else if Ascii.eqb c "+" then leading_digits s2 0
        else leading_digits s1 0
    | EmptyString => 0
    end in
  Z.max LONG_MIN (Z.min LONG_MAX v).

(** ** Data model *)

(** [struct SchedulePoint { float time; int duty; }]. *)
Record SchedulePoint : Type := mkPoint { time : float; duty : Z }.

(** One element of the parsed JSON array, as the sketch reads it:
    [obj["time"].as<String>()] and [obj["duty"].as<int>()]. *)
Record JsonEntry : Type := mkEntry { entry_time : string; entry_duty : Z }.

(** [Preferences]: the key-value store, addressed by name space and key.
    Writes always succeed in this model. *)
Definition Preferences : Type := string -> string -> option string.

Definition getString (p : Preferences) (ns key dflt : string) : string :=
  match p ns key with Some v => v | None => dflt end.

Definition putString (p : Preferences) (ns key v : string) : Preferences :=
  fun ns' key' =>
    if (String.eqb ns ns' && String.eqb key key')%bool then Some v
    else p ns' key'.

(** The global variables of the sketch, and the two things of its
    environment that its behaviour depends on: the milliseconds elapsed
    since boot and the number of times the SNTP client was started. *)
Record State : Type := mkState {
  schedulePoints : list SchedulePoint;
  currentDutyPWM : float;
  fadeStep : float;
  timezoneOffset : Z;
  lastNTPSync : Z;
  preferences : Preferences;
  uptime_ms : Z;
  sntpStarts : nat
}.

Definition set_schedulePoints (l : list SchedulePoint) (st : State) : State :=
  mkState l (currentDutyPWM st) (fadeStep st) (timezoneOffset st)
          (lastNTPSync st) (preferences st) (uptime_ms st) (sntpStarts st).

Definition set_currentDutyPWM (v : float) (st : State) : State :=
  mkState (schedulePoints st) v (fadeStep st) (timezoneOffset st)
          (lastNTPSync st) (preferences st) (uptime_ms st) (sntpStarts st).

Definition set_lastNTPSync (v : Z) (st : State) : State :=
  mkState (schedulePoints st) (currentDutyPWM st) (fadeStep st)
          (timezoneOffset st) v (preferences st) (uptime_ms st)
          (sntpStarts st).

Definition set_preferences (p : Preferences) (st : State) : State :=
  mkState (schedulePoints st) (currentDutyPWM st) (fadeStep st)
          (timezoneOffset st) (lastNTPSync st) p (uptime_ms st)
          (sntpStarts st).

(** [delay(ms)]: the only way time passes inside the model. *)
Definition delay (ms : Z) (st : State) : State :=
  mkState (schedulePoints st) (currentDutyPWM st) (fadeStep st)
          (timezoneOffset st) (lastNTPSync st) (preferences st)
          (uptime_ms st + ms) (sntpStarts st).

(** [configTime(0, 0, "pool.ntp.org", "time.nist.gov")]: (re)starts the
    SNTP client with a UTC time zone. *)
Definition configTime (st : State) : State :=
  mkState (schedulePoints st) (currentDutyPWM st) (fadeStep st)
          (timezoneOffset st) (lastNTPSync st) (preferences st)
          (uptime_ms st) (S (sntpStarts st)).

(** [millis()]: a 32-bit [unsigned long]. *)
Definition millis (st : State) : Z := uptime_ms st mod 2 ^ 32.

(** [const unsigned long NTP_SYNC_INTERVAL = 3600000]. *)
Definition NTP_SYNC_INTERVAL : Z := 3600000.

(** [float fadeStep = 0.2]: the [double] literal narrowed to [float]. *)
Definition fadeStep_init : float :=
  F64.to_float (F64.div (F64.of_int 2) (F64.of_int 10)).

(** What the sketch takes from its platform. *)
Class Platform : Type := {
  (** [std::sort(first, last, [](a, b){ return a.time < b.time; })] *)
  std_sort : list SchedulePoint -> list SchedulePoint;
  (** [time(nullptr)], in seconds, as a function of the time since boot;
      it jumps whenever an SNTP answer arrives *)
  time_at : Z -> Z;
  (** [deserializeJson(doc, text)] followed by [doc.as<JsonArray>()] and,
      for each element, the conversions [as<String>()] and [as<int>()] of
      its members; [None] is a [DeserializationError] *)
  deserializeJson : string -> option (list JsonEntry)
}.

(** ** The sketch *)

(** The [int] of a 32-bit two's complement pattern. *)
Definition int_of (z : Z) : Z := (z + 2 ^ 31) mod 2 ^ 32 - 2 ^ 31.

(** [a * b] on two [int]s: a product that no [int] holds wraps around on
    the device. *)
Definition int_mul (a b : Z) : Z := int_of (a * b).

Section Sketch.
Context {P : Platform}.

(** [time(nullptr)] moved by the time zone, as [getCurrentTimeInHours()]
    and [getFormattedTime()] compute it:
    [now += timezoneOffset * 3600], the product being one of [int]s. *)
Definition localNow (st : State) : Z :=
  time_at (uptime_ms st) + int_mul (timezoneOffset st) 3600.

(** [getCurrentTimeInHours()].  After [configTime(0, 0, ...)] the local
    time of [localtime_r] is UTC. *)
Definition getCurrentTimeInHours (st : State) : float :=
  let now := localNow st in
  let tm_hour := (now / 3600) mod 24 in
  let tm_min := (now / 60) mod 60 in
  let tm_sec := now mod 60 in
  F64.to_float
    (F64.add
       (F64.add (F64.of_int tm_hour)
                (F64.div (F64.of_int tm_min) (F64.of_int 60)))
       (F64.div (F64.of_int tm_sec) (F64.of_int 3600))).

(** The locals [before], [after], [foundBefore], [foundAfter] of
    [calculateCurrentDuty]. *)
Record Scan : Type := mkScan {
  sc_before : SchedulePoint;
  sc_after : SchedulePoint;
  foundBefore : bool;
  foundAfter : bool
}.

Definition scan_init : Scan :=
  mkScan (mkPoint F0 0) (mkPoint F24 0) false false.

(** One iteration of the [for] loop over the sorted points. *)
Definition scan_step (currentTime : float) (s : Scan) (p : SchedulePoint)
  : Scan :=
  let s1 :=
    if F32.leb (time p) currentTime
    then mkScan p (sc_after s) true (foundAfter s)
    else s in
  if (F32.leb currentTime (time p) && negb (foundAfter s1))%bool
  then mkScan (sc_before s1) p (foundBefore s1) true
  else s1.

Definition scan (pts : list SchedulePoint) (currentTime : float) : Scan :=
  fold_left (scan_step currentTime) pts scan_init.

(** The two points between which [calculateCurrentDuty] interpolates,
    after its edge cases. *)
Definition bracket (pts : list SchedulePoint) (s : Scan)
  : SchedulePoint * SchedulePoint :=
  let ba :=
    if negb (foundBefore s)
    then (mkPoint F0 0, hd (mkPoint F0 0) pts)
    else (sc_before s, sc_after s) in
  if negb (foundAfter s)
  then (last pts (mkPoint F0 0), mkPoint F24 0)
  else ba.

(** [calculateCurrentDuty()] from the loop on, for the sorted vector. *)
Definition interpolate (pts : list SchedulePoint) (currentTime : float)
  : float :=
  let s := scan pts currentTime in
  if (negb (foundBefore s) && negb (foundAfter s))%bool then F0
  else
    let '(before, after) := bracket pts s in
    if F32.eqb (time before) (time after) then F32.of_int (duty before)
    else
      let timeDiff := F32.sub (time after) (time before) in
      let timeFromBefore := F32.sub currentTime (time before) in
      let ratio := F32.div timeFromBefore timeDiff in
      let duty' :=
        F32.add (F32.of_int (duty before))
                (F32.mul (F32.sub (F32.of_int (duty after))
                                  (F32.of_int (duty before)))
                         ratio) in
      constrain duty' F0 F100.

(** [calculateCurrentDuty()]: the duty and the state it leaves, the
    vector now being sorted in place. *)
Definition calculateCurrentDuty (st : State) : float * State :=
  if Nat.eqb (List.length (schedulePoints st)) 0 then (F0, st)
  else
    let currentTime := getCurrentTimeInHours st in
    let st1 := set_schedulePoints (std_sort (schedulePoints st)) st in
    (interpolate (schedulePoints st1) currentTime, st1).

(** The value [calculateCurrentDuty] returns for the stored points
    [model] when the clock reads [currentHours]. *)
Definition computeDuty (model : list SchedulePoint) (currentHours : float)
  : float :=
  match model with
  | [] => F0
  | _ :: _ => interpolate (std_sort model) currentHours
  end.

(** The fade of [updatePWMFromSchedule()]: the new [currentDutyPWM].
    All three variables are [float]s, and [abs] is the one of [<cmath>]. *)
Definition fade (targetDuty current step : float) : float :=
  if F32.leb (F32.abs (F32.sub targetDuty current)) step then targetDuty
  else if F32.ltb current targetDuty then F32.add current step
  else F32.sub current step.

(** [updatePWMFromSchedule()].  Its last call, [setPWMDuty], writes the
    new duty to the LEDC peripheral and leaves the globals alone. *)
Definition updatePWMFromSchedule (st : State) : State :=
  let '(targetDuty, st1) := calculateCurrentDuty st in
  set_currentDutyPWM
    (fade targetDuty (currentDutyPWM st1) (fadeStep st1)) st1.

(** [float timeInHours = hours + (minutes / 60.0)]: computed in [double],
    then narrowed. *)
Definition timeInHours (hours minutes : Z) : float :=
  F64.to_float
    (F64.add (F64.of_int hours)
             (F64.div (F64.of_int minutes) (F64.of_int 60))).

(** The body of the loop over the JSON array: [None] when the entry is
    skipped. *)
Definition parseEntry (obj : JsonEntry) : option SchedulePoint :=
  let timeStr := entry_time obj in
  let duty := entry_duty obj in
  let colonPos := indexOf ":" timeStr in
  if 0 <? colonPos then
    let hours := toInt (substring timeStr 0 colonPos) in
    let minutes := toInt (substring_from timeStr (colonPos + 1)) in
    Some (mkPoint (timeInHours hours minutes) duty)
  else None.

Definition push_entry (pts : list SchedulePoint) (obj : JsonEntry)
  : list SchedulePoint :=
  match parseEntry obj with
  | Some p => pts ++ [p]
  | None => pts
  end.

(** [loadScheduleFromPreferences()]. *)
Definition loadScheduleFromPreferences (st : State) : State :=
  let pointsJson := getString (preferences st) "schedule" "points" "[]" in
  let st1 := set_schedulePoints [] st in
  match deserializeJson pointsJson with
  | None => st1
  | Some array => set_schedulePoints (fold_left push_entry array []) st1
  end.

(** The [while] loop of [setupTime()]; it runs at most ten times, which
    is the fuel [setupTime] gives it. *)
Fixpoint setupTime_loop (fuel : nat) (now retry : Z) (st : State) : State :=
  match fuel with
  | O => st
  | S fuel' =>
      if ((now <? 8 * 3600 * 2) && (retry <? 10))%bool then
        let st1 := delay 1000 st in
        setupTime_loop fuel' (time_at (uptime_ms st1)) (retry + 1) st1
      else st
  end.

(** [setupTime()]. *)
Definition setupTime (st : State) : State :=
  let st1 := configTime st in
  let st2 := setupTime_loop 10 (time_at (uptime_ms st1)) 0 st1 in
  set_lastNTPSync (millis st2) st2.

(** The test of [syncTimeIfNeeded()], in 32-bit unsigned arithmetic. *)
Definition syncDue (st : State) : bool :=
  NTP_SYNC_INTERVAL <=? (millis st - lastNTPSync st) mod 2 ^ 32.

(** [syncTimeIfNeeded()]. *)
Definition syncTimeIfNeeded (st : State) : State :=
  if syncDue st then setupTime st else st.

(** *** The web handlers *)

(** The arguments of a request. *)
Definition Request : Type := list (string * string).

Fixpoint arg_opt (req : Request) (name : string) : option string :=
  match req with
  | [] => None
  | (k, v) :: req' => if String.eqb k name then Some v else arg_opt req' name
  end.

Definition hasArg (req : Request) (name : string) : bool :=
  match arg_opt req name with Some _ => true | None => false end.

Definition arg (req : Request) (name : string) : string :=
  match arg_opt req name with Some v => v | None => EmptyString end.

(** The document [handleStatus] serialises. *)
Record Status : Type := mkStatus {
  st_currentTime : Z;
  st_currentTimeHours : float;
  st_currentDuty : float;
  st_schedulePoints : nat
}.

Inductive Body : Type :=
| Text (s : string)
| StatusJson (doc : Status).

Record Response : Type := mkResponse {
  code : Z;
  contentType : string;
  body : Body
}.

(** [handleSaveSchedule()]. *)
Definition handleSaveSchedule (req : Request) (st : State)
  : Response * State :=
  if hasArg req "schedule" then
    let st1 :=
      set_preferences
        (putString (preferences st) "schedule" "points"
                   (arg req "schedule")) st in
    let st2 := loadScheduleFromPreferences st1 in
    let st3 := updatePWMFromSchedule st2 in
    (mkResponse 200 "text/plain" (Text "Schedule saved"), st3)
  else (mkResponse 400 "text/plain" (Text "Missing schedule data"), st).

(** [handleLoadSchedule()]. *)
Definition handleLoadSchedule (st : State) : Response * State :=
  let points := getString (preferences st) "schedule" "points" "[]" in
  (mkResponse 200 "application/json" (Text points), st).

(** [handleStatus()]; [st_currentTime] is the [time_t] that
    [getFormattedTime()] prints. *)
Definition handleStatus (st : State) : Response * State :=
  let '(currentDuty, st1) := calculateCurrentDuty st in
  let currentTime := getCurrentTimeInHours st1 in
  let doc :=
    mkStatus (localNow st1)
             currentTime currentDuty
             (List.length (schedulePoints st1)) in
  (mkResponse 200 "application/json" (StatusJson doc), st1).
End Sketch.

(** ** A reference platform

    An instance of [Platform] on which the sketch can be run inside Rocq:
    an insertion sort (which is what libstdc++'s [std::sort] does on a range
    of at most 16 elements; on longer ranges [std::sort] may order tied
    points differently), a wall clock that was synchronised at boot, and
    a reader for the persisted schedule format.  It serves the examples,
    which sort a few points only; the theorems hold for every
    [Platform]. *)

Fixpoint insert_point (x : SchedulePoint) (l : list SchedulePoint)
  : list SchedulePoint :=
  match l with
  | [] => [x]
  | y :: l' =>
      if F32.ltb (time x) (time y) then x :: l else y :: insert_point x l'
  end.

Definition insertion_sort (l : list SchedulePoint) : list SchedulePoint :=
  fold_left (fun acc x => insert_point x acc) l [].

(** *** A reader for the schedule format

    JSON text restricted to what the page of the sketch sends: an array of
    flat objects whose values are strings or integers, [time] being a string
    and [duty] an integer.  Strings are delimited by double or single
    quotes (ArduinoJson reads both) and hold no escapes.  Every other
    text is refused, well-formed JSON that ArduinoJson reads included:
    the reader is used on the documents of the examples only. *)

Inductive Token : Type :=
| TLBracket | TRBracket | TLBrace | TRBrace | TColon | TComma
| TString (s : string)
| TNumber (n : Z).

(** The characters up to the closing quote [q], and what follows it. *)
Fixpoint read_quoted (q : ascii) (s : string) : option (string * string) :=
  match s with
  | EmptyString => None
  | String c s' =>
      if Ascii.eqb c q then Some (EmptyString, s')
      else if Ascii.eqb c "\" then None
      else match read_quoted q s' with
           | Some (str, rest) => Some (String c str, rest)
           | None => None
           end
  end.

Fixpoint drop_digits (s : string) : string :=
  match s with
  | String c s' => if isdigit c then drop_digits s' else s
  | EmptyString => s
  end.

Definition isquote (c : ascii) : bool :=
  let n := nat_of_ascii c in (Nat.eqb n 34 || Nat.eqb n 39)%bool.

Fixpoint lex (fuel : nat) (s : string) : option (list Token) :=
  match fuel with
  | O => None
  | S fuel' =>
      match s with
      | EmptyString => Some []
      | String c s' =>
          let punct (t : Token) :=
            option_map (cons t) (lex fuel' s') in
          if isspace c then lex fuel' s'
          else if Ascii.eqb c "[" then punct TLBracket
          else if Ascii.eqb c "]" then punct TRBracket
          else if Ascii.eqb c "{" then punct TLBrace
          else if Ascii.eqb c "}" then punct TRBrace
          else if Ascii.eqb c ":" then punct TColon
          else if Ascii.eqb c "," then punct TComma
          else if isquote c then
            match read_quoted c s' with
            | Some (str, rest) =>
                option_map (cons (TString str)) (lex fuel' rest)
            | None => None
            end
          else if isdigit c then
            option_map (cons (TNumber (leading_digits s 0)))
                       (lex fuel' (drop_digits s))
          else if (Ascii.eqb c "-" && match s' with
                                      | String d _ => isdigit d
                                      | EmptyString => false
                                      end)%bool then
            option_map (cons (TNumber (- leading_digits s' 0)))
                       (lex fuel' (drop_digits s'))
          else None
      end
  end.

Definition set_member (k : string) (v : Token) (obj : JsonEntry)
  : option JsonEntry :=
  match v with
  | TString s =>
      if String.eqb k "time" then Some (mkEntry s (entry_duty obj))
      else if String.eqb k "duty" then None
      else Some obj
  | TNumber n =>
      if String.eqb k "duty" then Some (mkEntry (entry_time obj) n)
      else if String.eqb k "time" then None
      else Some obj
  | _ => None
  end.

(** The members of an object, after its opening brace. *)
Fixpoint parse_members (toks : list Token) (obj : JsonEntry)
  : option (JsonEntry * list Token) :=
  match toks with
  | TString k :: TColon :: v :: rest =>
      match set_member k v obj with
      | None => None
      | Some obj' =>
          match rest with
          | TComma :: rest' => parse_members rest' obj'
          | TRBrace :: rest' => Some (obj', rest')
          | _ => None
          end
      end
  | _ => None
  end.

(** A member that is absent reads as ArduinoJson reads a null: the string
    [null] and the integer 0. *)
Definition null_entry : JsonEntry := mkEntry "null" 0.

Definition parse_object (toks : list Token)
  : option (JsonEntry * list Token) :=
  match toks with
  | TLBrace :: TRBrace :: rest => Some (null_entry, rest)
  | TLBrace :: rest => parse_members rest null_entry
  | _ => None
  end.

(** The elements of an array, after its opening bracket. *)
Fixpoint parse_elements (fuel : nat) (toks : list Token)
  : option (list JsonEntry) :=
  match fuel with
  | O => None
  | S fuel' =>
      match parse_object toks with
      | Some (obj, TComma :: rest) =>
          option_map (cons obj) (parse_elements fuel' rest)
      | Some (obj, [TRBracket]) => Some [obj]
      | _ => None
      end
  end.

Definition readScheduleJson (text : string) : option (list JsonEntry) :=
  match lex (S (String.length text)) text with
  | Some [TLBracket; TRBracket] => Some []
  | Some (TLBracket :: toks) => parse_elements (List.length toks) toks
  | _ => None
  end.

(** The reference platform whose clock showed [t0] seconds at boot. *)
Definition refPlatform (t0 : Z) : Platform :=
  {| std_sort := insertion_sort;
     time_at := fun ms => t0 + ms / 1000;
     deserializeJson := readScheduleJson |}.

(** A freshly booted device: the initial values of the globals. *)
Definition boot : State :=
  mkState [] F0 fadeStep_init 0 0 (fun _ _ => None) 0 0.

(** ** The PWM output *)

(** The conversions of C++ that the sketch relies on, beside the ones of
    [F64]. *)
Module Cast.
(** [float -> double], which is exact. *)
Definition to_double (x : float) : double :=
  match x with
  | S754_finite s m e =>
      binary_normalize F64.prec F64.emax (cond_Zopp s (Zpos m)) e s
  | _ => x
  end.

Definition INT_MIN : Z := - 2 ^ 31.
Definition INT_MAX : Z := 2 ^ 31 - 1.

(** [(int) d]: the fraction is discarded; the conversion of a NaN, of an
    infinity or of a value that no [int] holds is undefined, which is
    [None] here. *)
Definition to_int (d : double) : option Z :=
  match d with
  | S754_zero _ => Some 0
  | S754_finite s m e =>
      let t :=
        if 0 <=? e then cond_Zopp s (Z.pos m) * 2 ^ e
        else Z.quot (cond_Zopp s (Z.pos m)) (2 ^ (- e)) in
      if ((INT_MIN <=? t) && (t <=? INT_MAX))%bool then Some t else None
  | _ => None
  end.
End Cast.

(** The product of two [double]s. *)
Definition F64_mul : double -> double -> double := SFmul F64.prec F64.emax.

(** The [double] literal [0.5]. *)
Definition F64_half : double := F64.div (F64.of_int 1) (F64.of_int 2).

(** The value [setPWMDuty(dutyPercent)] hands to [ledcWrite]:
    [(int)((dutyPercent / 100.0) * 4095.0 + 0.5)] after the clamp, computed
    in [double]. *)
Definition pwmValue (dutyPercent : float) : option Z :=
  let dutyPercent := constrain dutyPercent F0 F100 in
  Cast.to_int
    (F64.add
       (F64_mul (F64.div (Cast.to_double dutyPercent) (F64.of_int 100))
                (F64.of_int 4095))
       F64_half).

(** ** The device

    The parts of the sketch that the functions above leave out: the
    integers of the store, the PWM register, the start-up in one of two
    network modes, the routes of the web server and the main loop. *)

(** The integers of [Preferences]: [getInt], [putInt]. *)
Definition IntPreferences : Type := string -> string -> option Z.

Definition getInt (p : IntPreferences) (ns key : string) (dflt : Z) : Z :=
  match p ns key with Some v => v | None => dflt end.

Definition putInt (p : IntPreferences) (ns key : string) (v : Z)
  : IntPreferences :=
  fun ns' key' =>
    if (String.eqb ns ns' && String.eqb key key')%bool then Some v
    else p ns' key'.

Definition set_timezoneOffset (v : Z) (st : State) : State :=
  mkState (schedulePoints st) (currentDutyPWM st) (fadeStep st) v
          (lastNTPSync st) (preferences st) (uptime_ms st) (sntpStarts st).

(** [WiFi.status() == WL_CONNECTED], for a station that was started with
    the given name and password, as a function of the time since boot. *)
Class Radio : Type := {
  connected : string -> string -> Z -> bool
}.

(** The two sets of routes that [server.on] registers. *)
Inductive Mode : Type := AccessPoint | Station.

(** The globals, and what else the sketch keeps: the integers of the
    store, the duty register of LEDC channel 0 ([None] once an undefined
    value was written to it), the [static] local of [loop] and the routes
    being served. *)
Record Device : Type := mkDevice {
  globals : State;
  settings : IntPreferences;
  ledc : option Z;
  lastPWMUpdate : Z;
  mode : option Mode
}.

Definition set_globals (g : State) (dev : Device) : Device :=
  mkDevice g (settings dev) (ledc dev) (lastPWMUpdate dev) (mode dev).

Definition set_settings (p : IntPreferences) (dev : Device) : Device :=
  mkDevice (globals dev) p (ledc dev) (lastPWMUpdate dev) (mode dev).

Definition set_ledc (v : option Z) (dev : Device) : Device :=
  mkDevice (globals dev) (settings dev) v (lastPWMUpdate dev) (mode dev).

Definition set_lastPWMUpdate (v : Z) (dev : Device) : Device :=
  mkDevice (globals dev) (settings dev) (ledc dev) v (mode dev).

Definition set_mode (m : Mode) (dev : Device) : Device :=
  mkDevice (globals dev) (settings dev) (ledc dev) (lastPWMUpdate dev)
           (Some m).

(** A request as the web server hands it to the sketch. *)
Inductive Method : Type := GET | POST.

Record HttpRequest : Type := mkHttpRequest {
  path : string;
  method : Method;
  args : Request
}.

(** What the sketch sends back: a response with its body, a page whose
    HTML is not modelled, the redirection of [handleSetTimezone], or the
    web server's own answer to a request that has no route. *)
Inductive Answer : Type :=
| Reply (r : Response)
| Html (status : Z)
| SeeOther (location : string)
| NoRoute.

(** [ESP.restart()] does not return. *)
Inductive Outcome : Type :=
| Running (dev : Device)
| Restarting (dev : Device).

Section Firmware.
Context {P : Platform} {R : Radio}.

(** [setupPWM()]. *)
Definition setupPWM (dev : Device) : Device := set_ledc (Some 0) dev.

(** [setPWMDuty(dutyPercent)]. *)
Definition setPWMDuty (dutyPercent : float) (dev : Device) : Device :=
  set_ledc (pwmValue dutyPercent) dev.

(** [updatePWMFromSchedule()], with the write to the register. *)
Definition updatePWM (dev : Device) : Device :=
  let g := updatePWMFromSchedule (globals dev) in
  setPWMDuty (currentDutyPWM g) (set_globals g dev).

(** [startAPMode()]. *)
Definition startAPMode (dev : Device) : Device := set_mode AccessPoint dev.

(** The [while] loop of [startSTAMode()]: it polls every 500 ms for 15 s,
    that is at most 30 times. *)
Fixpoint awaitConnection (fuel : nat) (ssid pass : string)
         (startAttemptTime : Z) (st : State) : State :=
  match fuel with
  | O => st
  | S fuel' =>
      if (negb (connected ssid pass (uptime_ms st))
          && ((millis st - startAttemptTime) mod 2 ^ 32 <? 15000))%bool
      then awaitConnection fuel' ssid pass startAttemptTime (delay 500 st)
      else st
  end.

(** [startSTAMode()]. *)
Definition startSTAMode (dev : Device) : Device :=
  let g := globals dev in
  let sta_ssid := getString (preferences g) "wifi" "ssid" EmptyString in
  let sta_pass := getString (preferences g) "wifi" "password" EmptyString in
  if String.eqb sta_ssid EmptyString then startAPMode dev
  else
    let g1 := awaitConnection 30 sta_ssid sta_pass (millis g) g in
    if connected sta_ssid sta_pass (uptime_ms g1) then
      let g2 :=
        set_timezoneOffset (getInt (settings dev) "settings" "timezone" 0)
                           g1 in
      let g3 := loadScheduleFromPreferences (setupTime g2) in
      set_mode Station (set_globals g3 dev)
    else startAPMode (set_globals g1 dev).

(** [setup()]. *)
Definition setup (dev : Device) : Device :=
  let dev1 := set_globals (delay 1000 (globals dev)) dev in
  let dev2 := startSTAMode (setupPWM dev1) in
  let '(duty, g) := calculateCurrentDuty (globals dev2) in
  setPWMDuty duty (set_globals (set_currentDutyPWM duty g) dev2).

(** [handleSetTimezone()]. *)
Definition handleSetTimezone (req : Request) (dev : Device)
  : Answer * Device :=
  if hasArg req "offset" then
    let offset := toInt (arg req "offset") in
    let dev1 := set_globals (set_timezoneOffset offset (globals dev)) dev in
    (SeeOther "/",
     set_settings (putInt (settings dev1) "settings" "timezone" offset) dev1)
  else
    (Reply (mkResponse 400 "text/plain" (Text "Missing timezone offset")),
     dev).

(** [handleSave()]. *)
Definition handleSave (req : Request) (dev : Device) : Answer * Outcome :=
  if (hasArg req "ssid" && hasArg req "password")%bool then
    let g := globals dev in
    let p1 := putString (preferences g) "wifi" "ssid" (arg req "ssid") in
    let p2 := putString p1 "wifi" "password" (arg req "password") in
    (Html 200, Restarting (set_globals (delay 2000 (set_preferences p2 g)) dev))
  else
    (Reply (mkResponse 400 "text/plain" (Text "Missing SSID or Password")),
     Running dev).

(** [handleRoot()]: the page of [generateNetworkList()]. *)
Definition handleRoot (dev : Device) : Answer * Device := (Html 200, dev).

(** [handleMain()]: the page is built from the formatted time and from
    [calculateCurrentDuty()], which sorts the vector. *)
Definition handleMain (dev : Device) : Answer * Device :=
  (Html 200, set_globals (snd (calculateCurrentDuty (globals dev))) dev).

(** [handleSaveSchedule()], with the write to the register that its call
    of [updatePWMFromSchedule()] ends with. *)
Definition saveSchedule (req : Request) (dev : Device) : Answer * Device :=
  let '(r, g) := handleSaveSchedule req (globals dev) in
  (Reply r,
   if hasArg req "schedule"
   then setPWMDuty (currentDutyPWM g) (set_globals g dev)
   else set_globals g dev).

(** A handler of the sketch that works on the globals alone. *)
Definition onGlobals (h : State -> Response * State) (dev : Device)
  : Answer * Outcome :=
  let '(r, g) := h (globals dev) in (Reply r, Running (set_globals g dev)).

Definition running (r : Answer * Device) : Answer * Outcome :=
  (fst r, Running (snd r)).

(** [server.handleClient()] for one request: the routes of [startAPMode]
    and of [startSTAMode]. *)
Definition route (rq : HttpRequest) (dev : Device) : Answer * Outcome :=
  match mode dev with
  | Some AccessPoint =>
      if String.eqb (path rq) "/" then running (handleRoot dev)
      else if String.eqb (path rq) "/save" then
        match method rq with
        | POST => handleSave (args rq) dev
        | GET => (NoRoute, Running dev)
        end
      else (NoRoute, Running dev)
  | Some Station =>
      if String.eqb (path rq) "/" then running (handleMain dev)
      else if String.eqb (path rq) "/settimezone" then
        match method rq with
        | POST => running (handleSetTimezone (args rq) dev)
        | GET => (NoRoute, Running dev)
        end
      else if String.eqb (path rq) "/saveschedule" then
        match method rq with
        | POST => running (saveSchedule (args rq) dev)
        | GET => (NoRoute, Running dev)
        end
      else if String.eqb (path rq) "/loadschedule" then
        match method rq with
        | GET => onGlobals handleLoadSchedule dev
        | POST => (NoRoute, Running dev)
        end
      else if String.eqb (path rq) "/status" then
        match method rq with
        | GET => onGlobals handleStatus dev
        | POST => (NoRoute, Running dev)
        end
      else (NoRoute, Running dev)
  | None => (NoRoute, Running dev)
  end.

(** The rest of [loop()], after [server.handleClient()]. *)
Definition everySecond (dev : Device) : Device :=
  let now := millis (globals dev) in
  if 1000 <=? (now - lastPWMUpdate dev) mod 2 ^ 32 then
    let dev1 := updatePWM (set_lastPWMUpdate now dev) in
    set_globals (syncTimeIfNeeded (globals dev1)) dev1
  else dev.

(** [loop()], with the request that is waiting, if any. *)
Definition loop (rq : option HttpRequest) (dev : Device)
  : option Answer * Outcome :=
  match rq with
  | None => (None, Running (everySecond dev))
  | Some rq =>
      match route rq dev with
      | (a, Running dev1) => (Some a, Running (everySecond dev1))
      | (a, Restarting dev1) => (Some a, Restarting dev1)
      end
  end.
End Firmware.

(** The device at power-up: the globals at their initial values, nothing
    written to the register yet. *)
Definition powerUp (strings : Preferences) (ints : IntPreferences) : Device :=
  mkDevice (set_preferences strings boot) ints None 0 None.

(** * Definitions for the statements *)

(** ** The contract of [std::sort] *)

(** The sorted vector holds the same points. *)
Definition SortPermutes (P : Platform) : Prop :=
  forall l, Permutation l (std_sort l).

(** No point of the sorted vector is strictly before an earlier one. *)
Definition SortOrders (P : Platform) : Prop :=
  forall l,
    StronglySorted (fun a b => F32.ltb (time b) (time a) = false)
                   (std_sort l).

(** Stability, which [std::sort] does not promise: points none of which
    is strictly before another keep their order. *)
Definition TiesKeepOrder (P : Platform) : Prop :=
  forall l,
    (forall a b, In a l -> In b l -> F32.ltb (time a) (time b) = false) ->
    std_sort l = l.

(** ** More platforms and devices *)

(** A platform whose sort is as good a [std::sort], but puts tied points
    in the opposite order. *)
Definition tieReversingPlatform : Platform :=
  {| std_sort := fun l => insertion_sort (rev l);
     time_at := fun ms => ms / 1000;
     deserializeJson := readScheduleJson |}.

(** A platform whose clock never gets synchronised: [time(nullptr)] stays
    at 0, far below the threshold of [setupTime]. *)
Definition unsyncedPlatform : Platform :=
  {| std_sort := insertion_sort;
     time_at := fun _ => 0;
     deserializeJson := readScheduleJson |}.

(** A device whose store holds [text] as its schedule. *)
Definition with_schedule_text (text : string) : State :=
  set_preferences (putString (fun _ _ => None) "schedule" "points" text) boot.

(** ** The order and the value of floats *)

(** The order of two finite floats of the same sign, as [SFcompare]
    computes it: by exponent, then by mantissa. *)
Definition lexcmp (e1 : Z) (m1 : positive) (e2 : Z) (m2 : positive)
  : comparison :=
  match Z.compare e1 e2 with
  | Lt => Lt
  | Gt => Gt
  | Eq => Pos.compare_cont Eq m1 m2
  end.

(** [a < b], spelled out. *)
Definition flt (a b : float) : Prop :=
  match a, b with
  | S754_nan, _ | _, S754_nan => False
  | S754_infinity sa, S754_infinity sb => sa = true /\ sb = false
  | S754_infinity sa, _ => sa = true
  | _, S754_infinity sb => sb = false
  | S754_zero _, S754_zero _ => False
  | S754_zero _, S754_finite sb _ _ => sb = false
  | S754_finite sa _ _, S754_zero _ => sa = true
  | S754_finite sa ma ea, S754_finite sb mb eb =>
      match sa, sb with
      | true, false => True
      | false, true => False
      | false, false => ea < eb \/ (ea = eb /\ (ma < mb)%positive)
      | true, true => eb < ea \/ (ea = eb /\ (mb < ma)%positive)
      end
  end.

(** The value of a float that is not negative, in units of [2^-149]. *)
Definition ulps (x : float) : Z :=
  match x with
  | S754_finite false m e => Z.pos m * 2 ^ (e + 149)
  | _ => 0
  end.

(** Zero or positive and finite. *)
Definition nonneg (x : float) : bool :=
  match x with
  | S754_zero _ | S754_finite false _ _ => true
  | _ => false
  end.

(** ** Domains *)

(** A time of the day: a valid float of [[0, 24)]. *)
Definition in_day (t : float) : Prop :=
  F32.valid t = true /\ F32.leb F0 t = true /\ F32.ltb t F24 = true.

(** A point of the documented domain. *)
Definition in_domain (p : SchedulePoint) : Prop :=
  in_day (time p) /\ 0 <= duty p <= 100.

(** A time of [[0, 24]], which the two virtual points have as well. *)
Definition day_closed (t : float) : Prop :=
  F32.valid t = true /\ nonneg t = true /\ ulps t <= ulps F24.

(** [(float) d] is finite and lies in [[0, 100]]. *)
Definition percent_ok (d : Z) : bool :=
  (F32.is_finite (F32.of_int d) && F32.leb F0 (F32.of_int d)
   && F32.leb (F32.of_int d) F100)%bool.

(** ** Checks by evaluation *)

(** [f] holds at the [n] integers from [k] on. *)
Fixpoint all_from (f : Z -> bool) (n : nat) (k : Z) : bool :=
  match n with
  | O => true
  | S n' => (f k && all_from f n' (k + 1))%bool
  end.

(** The float [24 - k * 2^-19]: for [1 <= k <= 2^22] these are the binary32
    numbers of [[16, 24)], counted downwards from 24. *)
Definition below24 (k : Z) : float :=
  match 12582912 - k with
  | Zpos m => S754_finite false m (-19)
  | _ => F0
  end.

(** ** Runs of the fade *)

(** The value of [currentDutyPWM] after [n] ticks that start from 0 with
    the target held at 100 and the step of the sketch. *)
Definition fade_run (n : nat) : float :=
  Nat.iter n (fun current => fade F100 current fadeStep_init) F0.

(** The exact change of [currentDutyPWM] made by tick [n + 1]. *)
Definition fade_change (n : nat) : Q :=
  Qabs (F32.to_Q (fade_run (S n)) - F32.to_Q (fade_run n)).

(** The same run on the device: the schedule holds the duty at 100 from
    11:00 to 13:00, the clock shows noon at boot, and the main loop makes
    one tick per second. *)
Definition plateau : State :=
  set_schedulePoints
    [mkPoint (F32.of_int 11) 100; mkPoint (F32.of_int 13) 100] boot.

Definition ticks (n : nat) : State :=
  Nat.iter n
           (fun st =>
              updatePWMFromSchedule (P := refPlatform 43200) (delay 1000 st))
           plateau.

(** A property of every tick of the run, checked along the run. *)
Fixpoint run_check (ok : float -> float -> bool) (n : nat) (current : float)
  : bool :=
  match n with
  | O => true
  | S n' =>
      let next := fade F100 current fadeStep_init in
      (ok current next && run_check ok n' next)%bool
  end.

(** ** What is loaded, what is reported *)

(** The number that a string of decimal digits denotes. *)
Definition decimal (digits : string) : Z :=
  fold_left (fun acc c => acc * 10 + (Z.of_nat (nat_of_ascii c) - 48))
            (list_ascii_of_string digits) 0.

(** The string is empty or begins with a character that is no digit. *)
Definition no_digit_first (s : string) : Prop :=
  match s with
  | String c _ => isdigit c = false
  | EmptyString => True
  end.

(** What one entry of the array adds to the stored points. *)
Definition kept (obj : JsonEntry) : list SchedulePoint :=
  match parseEntry obj with
  | Some p => [p]
  | None => []
  end.

(** The document in the answer of [handleStatus]. *)
Definition statusOf {P : Platform} (st : State) : Status :=
  mkStatus (localNow st)
           (getCurrentTimeInHours st)
           (computeDuty (schedulePoints st) (getCurrentTimeInHours st))
           (List.length (schedulePoints (snd (calculateCurrentDuty st)))).

(** ** The invariant of the scan *)

(** What the locals of the loop say about the points [l] scanned so far:
    a point that was found is one of them and lies on its side of the
    current time; a flag that is still down means that no point lies on
    that side. *)
Definition ScanInv (cur : float) (l : list SchedulePoint) (s : Scan) : Prop :=
  (foundBefore s = true ->
   In (sc_before s) l /\ F32.leb (time (sc_before s)) cur = true) /\
  (foundAfter s = true ->
   In (sc_after s) l /\ F32.leb cur (time (sc_after s)) = true) /\
  (foundBefore s = false ->
   forall p, In p l -> F32.leb (time p) cur = false) /\
  (foundAfter s = false ->
   forall p, In p l -> F32.leb cur (time p) = false).

(** ** Rounding, on integers *)

(** The position of the rational [N / D] between [N / D] rounded down and
    the next integer. *)
Definition loc_of (N D : Z) : location :=
  if N mod D =? 0 then loc_Exact else loc_Inexact (2 * (N mod D) ?= D).

(** [N / D] rounded to the nearest integer, ties to even. *)
Definition rne (N D : Z) : Z := round_nearest_even (N / D) (loc_of N D).

(** The exponent of the last place of a number of [q] units, in units:
    numbers of at most [prec] digits are kept to the unit. *)
Definition grid (prec q : Z) : Z := Z.max (Zdigits2 q - prec) 0.

(** The rational [A / B], counted in units of the smallest positive number
    of the format, rounded to the format: the result in the same units. *)
Definition rnd (prec A B : Z) : Z :=
  let g := grid prec (A / B) in rne A (B * 2 ^ g) * 2 ^ g.

(** [U] units are a number of the format (overflow apart). *)
Definition repr (prec U : Z) : Prop := U mod 2 ^ grid prec U = 0.

(** The record of a shifted mantissa holds [N / D]: its integral part and
    the position of the rest. *)
Definition RecLoc (N D : Z) (mrs : shr_record) : Prop :=
  shr_m mrs = N / D /\ loc_of_shr_record mrs = loc_of N D.

(** The value of a finite number in units of the smallest positive number,
    with its sign. *)
Definition sval (prec emax : Z) (x : spec_float) : Z :=
  match x with
  | S754_finite s m e => cond_Zopp s (Z.pos m * 2 ^ (e - emin prec emax))
  | _ => 0
  end.

(** [rnd] for both signs: rounding to nearest is symmetric. *)
Definition srnd (prec A B : Z) : Z :=
  if A <? 0 then - rnd prec (- A) B else rnd prec A B.

(** A number of the format that is neither a NaN nor an infinity. *)
Definition fin (prec emax : Z) (x : spec_float) : bool :=
  (valid_binary prec emax x && F32.is_finite x)%bool.

(** The first power of two that overflows, in units. *)
Definition ovf (prec emax : Z) : Z := 2 ^ (emax - emin prec emax).

(** ** The interpolation, on integers *)

(** The interpolation of [calculateCurrentDuty] on integers: times and
    the result in units of [2^-149], every operation followed by its
    rounding. *)
Definition interp_ulps (ub ua uc db da : Z) : Z :=
  let num := rnd F32.prec (uc - ub) 1 in
  let den := rnd F32.prec (ua - ub) 1 in
  let ratio := rnd F32.prec (num * 2 ^ 149) den in
  let prod := srnd F32.prec ((da - db) * 2 ^ 149 * ratio) (2 ^ 149) in
  rnd F32.prec (db * 2 ^ 149 + prod) 1.

(** What [calculateCurrentDuty] returns once the two points are known. *)
Definition segment (before after : SchedulePoint) (currentTime : float)
  : float :=
  if F32.eqb (time before) (time after) then F32.of_int (duty before)
  else
    constrain
      (F32.add (F32.of_int (duty before))
               (F32.mul (F32.sub (F32.of_int (duty after))
                                 (F32.of_int (duty before)))
                        (F32.div (F32.sub currentTime (time before))
                                 (F32.sub (time after) (time before)))))
      F0 F100.

(** The duty on the segment between two points, in units of [2^-149]. *)
Definition segment_ulps (before after : SchedulePoint) (currentTime : float)
  : Z :=
  interp_ulps (ulps (time before)) (ulps (time after)) (ulps currentTime)
              (duty before) (duty after).

(** The order that [std::sort] leaves between an earlier and a later
    element: the later one is not before the earlier one. *)
Definition by_time (a b : SchedulePoint) : Prop :=
  F32.ltb (time b) (time a) = false.

(** The float [v] is a number that is not negative, and it is the
    interpolation between [b] and [a] at the time [cur], rounded as the
    sketch rounds it. *)
Definition follows_segment (v : float) (b a : SchedulePoint) (cur : float)
  : Prop :=
  F32.valid v = true /\ nonneg v = true /\ ulps v = segment_ulps b a cur.

(** ** The fade and the level *)

(** [n] ticks of the fade towards a target that does not move. *)
Definition fade_to (target : float) (n : nat) (start : float) : float :=
  Nat.iter n (fun current => fade target current fadeStep_init) start.

(** A valid float of [[0, 100]]. *)
Definition percent (x : float) : Prop :=
  F32.valid x = true /\ nonneg x = true /\ ulps x <= 100 * 2 ^ 149.

(** The level of a duty of [[0, 100]], in [double] arithmetic on
    integers. *)
Definition level_ulps (u : Z) : Z :=
  let q := rnd F64.prec (u * 2 ^ 925 * 2 ^ 1074) (100 * 2 ^ 1074) in
  let p := rnd F64.prec (q * (4095 * 2 ^ 1074)) (2 ^ 1074) in
  rnd F64.prec (p + 2 ^ 1073) 1 / 2 ^ 1074.

(** ** Runs of the device *)

(** A run of the device: before each pass through [loop] some time goes
    by, and a request may be waiting.  A restart ends the run. *)
Fixpoint run {P : Platform} {R : Radio}
         (passes : list (Z * option HttpRequest)) (dev : Device) : Outcome :=
  match passes with
  | [] => Running dev
  | (ms, rq) :: passes' =>
      match snd (loop rq (set_globals (delay ms (globals dev)) dev)) with
      | Running dev' => run passes' dev'
      | Restarting dev' => Restarting dev'
      end
  end.

(** The device an outcome leaves. *)
Definition device (o : Outcome) : Device :=
  match o with Running dev | Restarting dev => dev end.

(** A radio that never connects. *)
Definition noRadio : Radio := {| connected := fun _ _ _ => false |}.

(** A radio that is connected from [t] ms after boot on. *)
Definition radioFrom (t : Z) : Radio :=
  {| connected := fun _ _ ms => t <=? ms |}.

(** The lamp is off and nothing can light it. *)
Definition dark (dev : Device) : Prop :=
  mode dev = Some AccessPoint /\
  schedulePoints (globals dev) = [] /\
  currentDutyPWM (globals dev) = F0 /\
  fadeStep (globals dev) = fadeStep_init /\
  ledc dev = Some 0.

(** ** What a run keeps *)

(** A float that is a number, of at most [K] units either way. *)
Definition within (K : Z) (x : float) : Prop :=
  fin F32.prec F32.emax x = true /\ Z.abs (sval F32.prec F32.emax x) <= K.

(** A point as [loadScheduleFromPreferences] can store it: the time is
    made of two [long]s, the duty is an [int]. *)
Definition storable (p : SchedulePoint) : Prop :=
  within (2 ^ 32 * 2 ^ 149) (time p) /\
  Cast.INT_MIN <= duty p <= Cast.INT_MAX.

(** A stored point whose duty is one of the duties [okDuty]. *)
Definition pointOK (okDuty : Z -> Prop) (p : SchedulePoint) : Prop :=
  within (2 ^ 32 * 2 ^ 149) (time p) /\ okDuty (duty p).

(** The globals that decide the light: the points are stored points, the
    duty is one of the duties [okLight], the step is the one of the
    sketch. *)
Definition lightOK (okDuty : Z -> Prop) (okLight : float -> Prop)
           (st : State) : Prop :=
  Forall (pointOK okDuty) (schedulePoints st) /\
  okLight (currentDutyPWM st) /\
  fadeStep st = fadeStep_init.

(** The device: its globals, and the register that shows the level of
    [currentDutyPWM]. *)
Definition deviceOK (okDuty : Z -> Prop) (okLight : float -> Prop)
           (dev : Device) : Prop :=
  lightOK okDuty okLight (globals dev) /\
  ledc dev = pwmValue (currentDutyPWM (globals dev)).

(** Every document that is parsed holds duties of [okDuty] only. *)
Definition ParsesDuties (P : Platform) (okDuty : Z -> Prop) : Prop :=
  forall text array,
    deserializeJson text = Some array ->
    Forall (fun obj => okDuty (entry_duty obj)) array.

(** The document [text], if it parses, holds duties of [okDuty] only. *)
Definition documentOK {P : Platform} (okDuty : Z -> Prop) (text : string)
  : Prop :=
  forall array,
    deserializeJson text = Some array ->
    Forall (fun obj => okDuty (entry_duty obj)) array.

(** A request that [handleSaveSchedule] serves with a schedule. *)
Definition postsSchedule (rq : HttpRequest) : Prop :=
  path rq = "/saveschedule" /\ method rq = POST /\
  hasArg (args rq) "schedule" = true.

(** A pass of the loop whose request, if it posts a schedule, posts a
    document of duties of [okDuty]. *)
Definition passOK {P : Platform} (okDuty : Z -> Prop)
           (pass : Z * option HttpRequest) : Prop :=
  match snd pass with
  | Some rq =>
      postsSchedule rq -> documentOK okDuty (arg (args rq) "schedule")
  | None => True
  end.

(** The duty of an [int]: what [as<int>()] can return. *)
Definition isInt (d : Z) : Prop := Cast.INT_MIN <= d <= Cast.INT_MAX.

(** A duty of the documented range. *)
Definition isPercentage (d : Z) : Prop := 0 <= d <= 100.

(** A duty that is a number: no NaN, no infinity. *)
Definition isNumber (x : float) : Prop := within (2 ^ 31 * 2 ^ 149) x.

(** A parser that keeps every duty within [lo] and [hi]. *)
Definition clampDuty (lo hi : Z) (obj : JsonEntry) : JsonEntry :=
  mkEntry (entry_time obj) (Z.max lo (Z.min hi (entry_duty obj))).

(** The reference platform with such a parser. *)
Definition clampingPlatform (lo hi t0 : Z) : Platform :=
  {| std_sort := insertion_sort;
     time_at := fun ms => t0 + ms / 1000;
     deserializeJson :=
       fun text => option_map (map (clampDuty lo hi)) (readScheduleJson text)
  |}.

(** ** Clock times and updates *)

(** The time that is stored for the minute [k] of the day. *)
Definition minuteTime (k : Z) : float := timeInHours (k / 60) (k mod 60).

(** The updates of a run: before each one some time goes by. *)
Definition updates {P : Platform} (waits : list Z) (st : State) : State :=
  fold_left (fun s ms => updatePWMFromSchedule (delay ms s)) waits st.

(** An entry as the page of the device writes it: a clock time, hours
    before the first colon and minutes after it, and a percentage. *)
Definition clockEntry (obj : JsonEntry) : Prop :=
  exists pre post,
    entry_time obj = (pre ++ String ":" post)%string /\
    pre <> EmptyString /\
    ~ In ":"%char (list_ascii_of_string pre) /\
    0 <= toInt pre < 24 /\ 0 <= toInt post < 60 /\
    0 <= entry_duty obj <= 100.

(** No two points of the list stand at the same time. *)
Definition distinctTimes (l : list SchedulePoint) : Prop :=
  forall p q, In p l -> In q l -> F32.eqb (time p) (time q) = true -> p = q.

(** A schedule for the examples: 20 % at 8:00, 100 % at 20:00. *)
Definition dayModel : list SchedulePoint :=
  [mkPoint (F32.of_int 8) 20; mkPoint (F32.of_int 20) 100].

(** * Properties *)

(** Goals settled by running the model. *)
Ltac evaluate := vm_compute; reflexivity.

(** [0 < 2 ^ k] for a [k] that is not negative. *)
Ltac pow2_pos := apply Z.pow_pos_nonneg; lia.


(** ** Comparisons of floats *)

Lemma SFcompare_refl (x : float) :
  F32.is_nan x = false -> SFcompare x x = Some Eq.
Proof.
  destruct x as [s | s | | s m e]; simpl; try discriminate; intros _.
  - reflexivity.
  - now destruct s.
  - rewrite Z.compare_refl, Pos.compare_cont_refl. now destruct s.
Qed.

Lemma ltb_irrefl (x : float) : F32.ltb x x = false.
Proof.
  unfold F32.ltb, SFltb. destruct (F32.is_nan x) eqn:N.
  - destruct x; try discriminate; reflexivity.
  - now rewrite SFcompare_refl.
Qed.

Lemma leb_refl (x : float) : F32.is_nan x = false -> F32.leb x x = true.
Proof. intros N. unfold F32.leb, SFleb. now rewrite SFcompare_refl. Qed.

Lemma eqb_refl (x : float) : F32.is_nan x = false -> F32.eqb x x = true.
Proof. intros N. unfold F32.eqb, SFeqb. now rewrite SFcompare_refl. Qed.

Lemma lexcmp_Lt (e1 : Z) (m1 : positive) (e2 : Z) (m2 : positive) :
  lexcmp e1 m1 e2 m2 = Lt <-> e1 < e2 \/ (e1 = e2 /\ (m1 < m2)%positive).
Proof.
  unfold lexcmp. fold (Pos.compare m1 m2).
  destruct (Z.compare_spec e1 e2) as [E | L | G].
  - rewrite Pos.compare_lt_iff.
    split; [now right | intros [H | [_ H]]; [lia | exact H]].
  - split; [now left | reflexivity].
  - split; [discriminate | intros [H | [H _]]; lia].
Qed.

Lemma lexcmp_Gt (e1 : Z) (m1 : positive) (e2 : Z) (m2 : positive) :
  lexcmp e1 m1 e2 m2 = Gt <-> e2 < e1 \/ (e1 = e2 /\ (m2 < m1)%positive).
Proof.
  unfold lexcmp. fold (Pos.compare m1 m2).
  destruct (Z.compare_spec e1 e2) as [E | L | G].
  - rewrite Pos.compare_gt_iff.
    split; [now right | intros [H | [_ H]]; [lia | exact H]].
  - split; [discriminate | intros [H | [H _]]; lia].
  - split; [left; lia | reflexivity].
Qed.

Lemma SFcompare_finite (s1 : bool) (m1 : positive) (e1 : Z)
      (s2 : bool) (m2 : positive) (e2 : Z) :
  SFcompare (S754_finite s1 m1 e1) (S754_finite s2 m2 e2)
  = Some match s1, s2 with
         | true, false => Lt
         | false, true => Gt
         | false, false => lexcmp e1 m1 e2 m2
         | true, true => CompOpp (lexcmp e1 m1 e2 m2)
         end.
Proof.
  simpl. destruct s1, s2; try reflexivity. f_equal.
  unfold lexcmp. now destruct (e1 ?= e2).
Qed.

Lemma ltb_flt (a b : float) : F32.ltb a b = true <-> flt a b.
Proof.
  unfold F32.ltb, SFltb.
  destruct a as [sa | sa | | sa ma ea], b as [sb | sb | | sb mb eb];
    try (simpl; split; [discriminate | tauto]);
    try (destruct sa; simpl; split;
         (discriminate || tauto || reflexivity));
    try (destruct sb; simpl; split;
         (discriminate || tauto || reflexivity || congruence)).
  - destruct sa, sb; simpl; split; try discriminate; try tauto;
      try reflexivity; intros [? ?]; congruence.
  - rewrite SFcompare_finite. unfold flt.
    destruct sa, sb; try (split; [discriminate | tauto]);
      try (split; [tauto | reflexivity]).
    + rewrite <- lexcmp_Gt.
      destruct (lexcmp ea ma eb mb); simpl; split; congruence.
    + rewrite <- lexcmp_Lt.
      destruct (lexcmp ea ma eb mb); simpl; split; congruence.
Qed.

Lemma flt_trans (a b c : float) : flt a b -> flt b c -> flt a c.
Proof.
  destruct a as [sa | sa | | sa ma ea], b as [sb | sb | | sb mb eb],
           c as [sc | sc | | sc mc ec]; simpl; try tauto; try congruence;
    try (intros; subst; tauto);
    try (destruct sa, sb, sc; simpl; intros; try tauto; try congruence; lia).
  all: try (intros [? ?] ?; subst; try tauto; try congruence).
  all: try (intros ? [? ?]; subst; try tauto; try congruence).
Qed.

Lemma ltb_trans (a b c : float) :
  F32.ltb a b = true -> F32.ltb b c = true -> F32.ltb a c = true.
Proof. rewrite !ltb_flt. apply flt_trans. Qed.

Lemma ltb_asym (a b : float) : F32.ltb a b = true -> F32.ltb b a = false.
Proof.
  intros H. destruct (F32.ltb b a) eqn:E; [| reflexivity].
  pose proof (ltb_trans a b a H E) as C. now rewrite ltb_irrefl in C.
Qed.

(** ** Rounding, step by step *)

Lemma digits2_pos_size (p : positive) : digits2_pos p = Pos.size p.
Proof. induction p; simpl; congruence. Qed.

Lemma Zdigits2_log2 (m : Z) : 0 < m -> Zdigits2 m = Z.log2 m + 1.
Proof.
  destruct m as [| p | p]; try lia. intros _. simpl Zdigits2.
  rewrite digits2_pos_size.
  destruct p; simpl; rewrite ?Pos2Z.inj_succ; lia.
Qed.

Lemma Zdigits2_0 : Zdigits2 0 = 0.
Proof. reflexivity. Qed.

Lemma Zdigits2_nonneg (m : Z) : 0 <= Zdigits2 m.
Proof. destruct m; simpl; lia. Qed.

Lemma shr_1_m (mrs : shr_record) :
  0 <= shr_m mrs -> shr_m (shr_1 mrs) = shr_m mrs / 2.
Proof.
  destruct mrs as [m r s]. simpl. intros H.
  destruct m as [| [p | p |] | p]; try lia; simpl shr_m.
  - reflexivity.
  - rewrite Pos2Z.inj_xI.
    replace (2 * Z.pos p + 1) with (1 + Z.pos p * 2) by lia.
    rewrite Z.div_add by lia. reflexivity.
  - rewrite Pos2Z.inj_xO.
    replace (2 * Z.pos p) with (0 + Z.pos p * 2) by lia.
    rewrite Z.div_add by lia. reflexivity.
  - reflexivity.
Qed.

Lemma iter_shr_1_m (p : positive) :
  forall mrs, 0 <= shr_m mrs ->
              shr_m (iter_pos shr_1 p mrs) = shr_m mrs / 2 ^ Z.pos p.
Proof.
  induction p as [p IH | p IH |]; intros mrs H; simpl iter_pos.
  - assert (H1 : 0 <= shr_m (shr_1 mrs))
      by (rewrite shr_1_m by assumption; apply Z.div_pos; lia).
    assert (H2 : 0 <= shr_m (iter_pos shr_1 p (shr_1 mrs)))
      by (rewrite IH by assumption; apply Z.div_pos; lia).
    rewrite IH, IH, shr_1_m by assumption.
    rewrite !Z.div_div by lia. f_equal.
    replace (Z.pos p~1) with (Z.pos p + Z.pos p + 1) by lia.
    rewrite !Z.pow_add_r, Z.pow_1_r by lia. ring.
  - assert (H2 : 0 <= shr_m (iter_pos shr_1 p mrs))
      by (rewrite IH by assumption; apply Z.div_pos; lia).
    rewrite IH, IH by assumption.
    rewrite !Z.div_div by lia. f_equal.
    replace (Z.pos p~0) with (Z.pos p + Z.pos p) by lia.
    rewrite !Z.pow_add_r by lia. ring.
  - now apply shr_1_m.
Qed.

(** [shr]: the mantissa is divided by [2^n], the exponent raised by [n]. *)
Lemma shr_spec (mrs : shr_record) (e n : Z) :
  0 <= shr_m mrs ->
  shr_m (fst (shr mrs e n)) = shr_m mrs / 2 ^ Z.max 0 n /\
  snd (shr mrs e n) = e + Z.max 0 n.
Proof.
  intros H. unfold shr. destruct n as [| p | p]; simpl fst; simpl snd.
  - rewrite Z.max_id. simpl. rewrite Z.div_1_r. lia.
  - rewrite iter_shr_1_m by assumption. rewrite Z.max_r by lia. lia.
  - rewrite Z.max_l by lia. simpl. rewrite Z.div_1_r. lia.
Qed.

Lemma shr_record_of_loc_m (m : Z) (l : location) :
  shr_m (shr_record_of_loc m l) = m.
Proof. destruct l as [| []]; reflexivity. Qed.

Lemma round_nearest_even_cases (m : Z) (l : location) :
  round_nearest_even m l = m \/ round_nearest_even m l = m + 1.
Proof.
  destruct l as [| []]; simpl; auto. destruct (Z.even m); auto.
Qed.

(** The two shifts and the rounding in between that make up
    [binary_round_aux]. *)
Lemma binary_round_aux_spec (prec emax : Z) (s : bool) (m e : Z)
      (l : location) :
  0 <= m ->
  exists m1 e1 m2 e2,
    e1 = e + Z.max 0 (fexp prec emax (Zdigits2 m + e) - e) /\
    (m1 = m / 2 ^ (e1 - e) \/ m1 = m / 2 ^ (e1 - e) + 1) /\
    e2 = e1 + Z.max 0 (fexp prec emax (Zdigits2 m1 + e1) - e1) /\
    m2 = m1 / 2 ^ (e2 - e1) /\
    binary_round_aux prec emax s m e l
    = match m2 with
      | Z0 => S754_zero s
      | Zpos p =>
          if e2 <=? emax - prec then S754_finite s p e2
          else S754_infinity s
      | Zneg _ => S754_nan
      end.
Proof.
  intros Hm. unfold binary_round_aux, shr_fexp.
  pose proof (shr_spec (shr_record_of_loc m l) e
                       (fexp prec emax (Zdigits2 m + e) - e)) as H1.
  rewrite shr_record_of_loc_m in H1. specialize (H1 Hm).
  destruct (shr (shr_record_of_loc m l) e _) as [mrs1 e1].
  cbn [fst snd] in H1. destruct H1 as [Hm1 He1].
  set (m1 := round_nearest_even (shr_m mrs1) (loc_of_shr_record mrs1)).
  assert (Hm1' : 0 <= shr_m mrs1)
    by (rewrite Hm1; apply Z.div_pos; [lia | apply Z.pow_pos_nonneg; lia]).
  assert (Hc : m1 = shr_m mrs1 \/ m1 = shr_m mrs1 + 1)
    by apply round_nearest_even_cases.
  assert (Hm1nn : 0 <= m1) by lia.
  pose proof (shr_spec (shr_record_of_loc m1 loc_Exact) e1
                       (fexp prec emax (Zdigits2 m1 + e1) - e1)) as H2.
  rewrite shr_record_of_loc_m in H2. specialize (H2 Hm1nn).
  destruct (shr (shr_record_of_loc m1 loc_Exact) e1 _) as [mrs2 e2].
  cbn [fst snd] in H2. destruct H2 as [Hm2 He2].
  exists m1, e1, (shr_m mrs2), e2.
  split; [exact He1 |].
  split.
  { replace (e1 - e) with (Z.max 0 (fexp prec emax (Zdigits2 m + e) - e))
      by lia.
    rewrite <- Hm1. exact Hc. }
  split; [exact He2 |].
  split.
  { replace (e2 - e1) with (Z.max 0 (fexp prec emax (Zdigits2 m1 + e1) - e1))
      by lia.
    exact Hm2. }
  reflexivity.
Qed.

(** ** Numbers of digits *)

Lemma Zdigits2_mono (a b : Z) : 0 <= a <= b -> Zdigits2 a <= Zdigits2 b.
Proof.
  intros [Ha Hab]. destruct (Z.eq_dec a 0) as [-> | Hn].
  - apply Zdigits2_nonneg.
  - rewrite !Zdigits2_log2 by lia.
    pose proof (Z.log2_le_mono a b Hab). lia.
Qed.

Lemma Zdigits2_succ (m : Z) : 0 <= m -> Zdigits2 (m + 1) <= Zdigits2 m + 1.
Proof.
  intros Hm. destruct (Z.eq_dec m 0) as [-> | Hn]; [simpl; lia |].
  rewrite !Zdigits2_log2 by lia.
  pose proof (Z.log2_succ_le m). unfold Z.succ in *. lia.
Qed.

Lemma Zdigits2_mul_pow2 (m k : Z) :
  0 < m -> 0 <= k -> Zdigits2 (m * 2 ^ k) = Zdigits2 m + k.
Proof.
  intros Hm Hk.
  assert (0 < 2 ^ k) by pow2_pos.
  rewrite !Zdigits2_log2 by nia.
  rewrite Z.log2_mul_pow2 by lia. lia.
Qed.

Lemma Zdigits2_lt_pow2 (m : Z) : 0 <= m -> m < 2 ^ Zdigits2 m.
Proof.
  intros Hm. destruct (Z.eq_dec m 0) as [-> | Hn]; [simpl; lia |].
  rewrite Zdigits2_log2 by lia.
  apply (Z.log2_spec m). lia.
Qed.

Lemma Zdigits2_ge_pow2 (m : Z) : 0 < m -> 2 ^ (Zdigits2 m - 1) <= m.
Proof.
  intros Hm. rewrite Zdigits2_log2 by lia.
  replace (Z.log2 m + 1 - 1) with (Z.log2 m) by lia.
  apply (Z.log2_spec m). lia.
Qed.

(** Dropping [k] low digits. *)
Lemma Zdigits2_div_pow2 (m k : Z) :
  0 <= m -> 0 <= k ->
  (m / 2 ^ k = 0 /\ Zdigits2 m <= k) \/
  (0 < m / 2 ^ k /\ Zdigits2 (m / 2 ^ k) = Zdigits2 m - k).
Proof.
  intros Hm Hk.
  assert (Hp : 0 < 2 ^ k) by pow2_pos.
  destruct (Z.eq_dec (m / 2 ^ k) 0) as [E | N].
  - left. split; [exact E |].
    apply Z.div_small_iff in E; [| lia].
    destruct E as [[_ E] | E]; [| lia].
    destruct (Z.eq_dec m 0) as [-> | Hn]; [simpl; lia |].
    rewrite Zdigits2_log2 by lia.
    apply Z.log2_lt_pow2 in E; lia.
  - right.
    assert (Hq : 0 < m / 2 ^ k)
      by (pose proof (Z.div_pos m (2 ^ k) Hm Hp); lia).
    split; [exact Hq |].
    assert (Hmk : 2 ^ k <= m).
    { destruct (Z_lt_le_dec m (2 ^ k)) as [L | G]; [| exact G].
      rewrite Z.div_small in N by lia. congruence. }
    rewrite !Zdigits2_log2 by lia.
    rewrite <- Z.shiftr_div_pow2 by lia.
    rewrite Z.log2_shiftr by lia.
    apply Z.log2_le_pow2 in Hmk; lia.
Qed.

(** ** Rounding to binary32 *)

Lemma fexp32 (k : Z) : fexp F32.prec F32.emax k = Z.max (k - 24) (-149).
Proof. reflexivity. Qed.

(** A number of at most 127 binary digits before the point is rounded
    without overflow. *)
Lemma round32_finite (s : bool) (m e : Z) (l : location) :
  0 <= m -> e <= 104 -> Zdigits2 m + e <= 127 ->
  F32.is_finite (binary_round_aux F32.prec F32.emax s m e l) = true.
Proof.
  intros Hm He Hd.
  destruct (binary_round_aux_spec F32.prec F32.emax s m e l Hm)
    as (m1 & e1 & m2 & e2 & He1 & Hm1 & He2 & Hm2 & ->).
  rewrite fexp32 in He1, He2.
  assert (Hk : 0 <= e1 - e) by lia.
  assert (Hp : 0 < 2 ^ (e1 - e)) by pow2_pos.
  pose proof (Z.div_pos m _ Hm Hp) as Hq.
  assert (Hm1nn : 0 <= m1) by lia.
  assert (Hd1 : Zdigits2 m1 + e1 <= 128).
  { assert (Zdigits2 m1 <= Zdigits2 (m / 2 ^ (e1 - e)) + 1).
    { destruct Hm1 as [-> | ->]; [lia | now apply Zdigits2_succ]. }
    destruct (Zdigits2_div_pow2 m (e1 - e) Hm Hk) as [[E _] | [_ E]];
      rewrite E in *; simpl Zdigits2 in *; lia. }
  assert (Hp2 : 0 < 2 ^ (e2 - e1)) by pow2_pos.
  pose proof (Z.div_pos m1 _ Hm1nn Hp2) as Hq2. rewrite <- Hm2 in Hq2.
  destruct m2 as [| p | p]; [reflexivity | | lia].
  replace (e2 <=? F32.emax - F32.prec) with true; [reflexivity |].
  symmetry. apply Z.leb_le. change (F32.emax - F32.prec) with 104. lia.
Qed.

(** A positive number given with an exponent that binary32 has, and not
    too large, is rounded to a positive number with the same number of
    digits before the point, or one more. *)
Lemma round32_positive (s : bool) (m e : Z) (l : location) :
  0 < m -> -149 <= e <= 104 -> Zdigits2 m + e <= 127 ->
  exists p e',
    binary_round_aux F32.prec F32.emax s m e l = S754_finite s p e' /\
    Zdigits2 m + e <= Zdigits2 (Z.pos p) + e' <= Zdigits2 m + e + 1.
Proof.
  intros Hm He Hd.
  destruct (binary_round_aux_spec F32.prec F32.emax s m e l ltac:(lia))
    as (m1 & e1 & m2 & e2 & He1 & Hm1 & He2 & Hm2 & ->).
  rewrite fexp32 in He1, He2.
  assert (Hd0 : 1 <= Zdigits2 m)
    by (rewrite Zdigits2_log2 by lia; pose proof (Z.log2_nonneg m); lia).
  assert (Hk : 0 <= e1 - e) by lia.
  destruct (Zdigits2_div_pow2 m (e1 - e) ltac:(lia) Hk) as [[_ E] | [Hq E]];
    [lia |].
  assert (Hm1pos : 0 < m1) by lia.
  assert (Hd1 : Zdigits2 m - (e1 - e) <= Zdigits2 m1
                <= Zdigits2 m - (e1 - e) + 1).
  { destruct Hm1 as [-> | ->]; [lia |].
    split.
    - rewrite <- E. apply Zdigits2_mono. lia.
    - rewrite <- E. apply Zdigits2_succ. lia. }
  assert (Hd1' : 1 <= Zdigits2 m1)
    by (rewrite Zdigits2_log2 by lia; pose proof (Z.log2_nonneg m1); lia).
  assert (Hk2 : 0 <= e2 - e1) by lia.
  destruct (Zdigits2_div_pow2 m1 (e2 - e1) ltac:(lia) Hk2)
    as [[_ E2] | [Hq2 E2]]; [lia |].
  rewrite <- Hm2 in Hq2, E2.
  destruct m2 as [| p | p]; try lia.
  exists p, e2.
  replace (e2 <=? F32.emax - F32.prec) with true
    by (symmetry; apply Z.leb_le; change (F32.emax - F32.prec) with 104; lia).
  split; [reflexivity | lia].
Qed.

Lemma shl_align_spec (mx : positive) (ex ex' : Z) :
  Z.pos (fst (shl_align mx ex ex')) = Z.pos mx * 2 ^ (ex - Z.min ex ex') /\
  snd (shl_align mx ex ex') = Z.min ex ex'.
Proof.
  unfold shl_align. destruct (ex' - ex) as [| d | d] eqn:E; cbn [fst snd].
  - rewrite Z.min_l by lia. rewrite Z.sub_diag. simpl. lia.
  - rewrite Z.min_l by lia. rewrite Z.sub_diag. simpl. lia.
  - rewrite Z.min_r by lia.
    replace (ex - ex') with (Z.pos d) by lia.
    change (Pos.iter xO mx d) with (shift_pos d mx).
    rewrite shift_pos_correct. rewrite Zpower_pos_nat, Zpower_nat_Z.
    rewrite positive_nat_Z. lia.
Qed.

(** [binary_round] on a positive mantissa, in binary32. *)
Lemma normalize32_positive (s : bool) (m : positive) (e : Z) :
  -149 <= e <= 104 -> Zdigits2 (Z.pos m) + e <= 127 ->
  exists p e',
    binary_round F32.prec F32.emax s m e = S754_finite s p e' /\
    Zdigits2 (Z.pos m) + e <= Zdigits2 (Z.pos p) + e'
    <= Zdigits2 (Z.pos m) + e + 1.
Proof.
  intros He Hd. unfold binary_round.
  pose proof (shl_align_spec
                m e (fexp F32.prec F32.emax (Z.pos (digits2_pos m) + e)))
    as [Hm Hz].
  destruct (shl_align m e _) as [mz ez]. cbn [fst snd] in Hm, Hz.
  rewrite fexp32 in Hm, Hz.
  change (Z.pos (digits2_pos m)) with (Zdigits2 (Z.pos m)) in Hm, Hz.
  assert (Hdz : Zdigits2 (Z.pos mz) + ez = Zdigits2 (Z.pos m) + e).
  { rewrite Hm, Zdigits2_mul_pow2 by lia. lia. }
  destruct (round32_positive s (Z.pos mz) ez loc_Exact)
    as (p & e' & E & B); try lia.
  exists p, e'. split; [exact E | lia].
Qed.

(** ** Valid floats *)

Lemma valid32_finite (s : bool) (m : positive) (e : Z) :
  F32.valid (S754_finite s m e) = true ->
  -149 <= e <= 104 /\
  Zdigits2 (Z.pos m) <= 24 /\
  (-149 < e -> Zdigits2 (Z.pos m) = 24).
Proof.
  unfold F32.valid, valid_binary, bounded, canonical_mantissa.
  rewrite fexp32. change (F32.emax - F32.prec) with 104.
  change (Z.pos (digits2_pos m)) with (Zdigits2 (Z.pos m)).
  intros H. apply andb_true_iff in H. destruct H as [H1 H2].
  apply Z.eqb_eq in H1. apply Z.leb_le in H2. lia.
Qed.

Lemma ulps_finite_pos (m : positive) (e : Z) :
  -149 <= e -> 0 < ulps (S754_finite false m e).
Proof.
  intros He. unfold ulps.
  assert (0 < 2 ^ (e + 149)) by pow2_pos. nia.
Qed.

Lemma ulps_digits (m : positive) (e : Z) :
  -149 <= e ->
  Zdigits2 (ulps (S754_finite false m e)) = Zdigits2 (Z.pos m) + e + 149.
Proof. intros He. unfold ulps. rewrite Zdigits2_mul_pow2 by lia. lia. Qed.

Lemma pow2_split (a b : Z) : 0 <= a -> 0 <= b -> 2 ^ (a + b) = 2 ^ a * 2 ^ b.
Proof. intros. now rewrite Z.pow_add_r. Qed.

Lemma ulps_lt_by_exponent (m1 m2 : positive) (e1 e2 : Z) :
  F32.valid (S754_finite false m1 e1) = true ->
  F32.valid (S754_finite false m2 e2) = true ->
  e1 < e2 ->
  ulps (S754_finite false m1 e1) < ulps (S754_finite false m2 e2).
Proof.
  intros V1 V2 H.
  apply valid32_finite in V1, V2.
  destruct V1 as (He1 & Hd1 & _), V2 as (He2 & _ & Hd2).
  specialize (Hd2 ltac:(lia)). unfold ulps.
  pose proof (Zdigits2_lt_pow2 (Z.pos m1) ltac:(lia)) as L1.
  pose proof (Zdigits2_ge_pow2 (Z.pos m2) ltac:(lia)) as L2.
  rewrite Hd2 in L2.
  assert (L1' : Z.pos m1 < 2 ^ 24).
  { eapply Z.lt_le_trans; [exact L1 |]. apply Z.pow_le_mono_r; lia. }
  replace (e2 + 149) with ((e1 + 149) + (e2 - e1 - 1) + 1) by lia.
  rewrite (pow2_split (e1 + 149 + (e2 - e1 - 1)) 1),
    (pow2_split (e1 + 149) (e2 - e1 - 1)) by lia.
  assert (0 < 2 ^ (e1 + 149)) by pow2_pos.
  assert (0 < 2 ^ (e2 - e1 - 1)) by pow2_pos.
  change (2 ^ (24 - 1)) with 8388608 in L2.
  change (2 ^ 24) with 16777216 in L1'. change (2 ^ 1) with 2.
  set (A := 2 ^ (e1 + 149)) in *. set (B := 2 ^ (e2 - e1 - 1)) in *.
  assert (S1 : Z.pos m1 * A < 16777216 * A) by nia.
  assert (S2 : 16777216 * A <= Z.pos m2 * A * 2) by nia.
  assert (S3 : Z.pos m2 * A * 2 * 1 <= Z.pos m2 * A * 2 * B)
    by (apply Z.mul_le_mono_nonneg_l; nia).
  nia.
Qed.

(** On valid floats that are not negative, the comparison of [SFcompare]
    is that of the values. *)
Lemma compare_ulps (x y : float) :
  F32.valid x = true -> F32.valid y = true ->
  nonneg x = true -> nonneg y = true ->
  SFcompare x y = Some (ulps x ?= ulps y).
Proof.
  intros Vx Vy Nx Ny.
  destruct x as [sx | sx | | sx mx ex], y as [sy | sy | | sy my ey];
    try discriminate.
  - reflexivity.
  - destruct sy; [discriminate |].
    pose proof (ulps_finite_pos my ey
                  ltac:(apply valid32_finite in Vy; lia)) as H.
    simpl SFcompare. f_equal. symmetry. apply Z.compare_lt_iff. exact H.
  - destruct sx; [discriminate |].
    pose proof (ulps_finite_pos mx ex
                  ltac:(apply valid32_finite in Vx; lia)) as H.
    simpl SFcompare. f_equal. symmetry. apply Z.compare_gt_iff. exact H.
  - destruct sx, sy; try discriminate.
    rewrite SFcompare_finite. f_equal. unfold lexcmp.
    destruct (Z.compare_spec ex ey) as [-> | L | G].
    + fold (Pos.compare mx my). unfold ulps.
      assert (0 < 2 ^ (ey + 149))
        by (apply Z.pow_pos_nonneg; [lia |];
            apply valid32_finite in Vy; lia).
      destruct (Pos.compare_spec mx my) as [-> | L | G]; symmetry.
      * apply Z.compare_refl.
      * apply Z.compare_lt_iff. nia.
      * apply Z.compare_gt_iff. nia.
    + symmetry. apply Z.compare_lt_iff. now apply ulps_lt_by_exponent.
    + symmetry. apply Z.compare_gt_iff. now apply ulps_lt_by_exponent.
Qed.

Lemma Zdigits2_le_of_lt_pow2 (q k : Z) :
  0 <= q < 2 ^ k -> 0 <= k -> Zdigits2 q <= k.
Proof.
  intros [H0 H1] Hk. destruct (Z.eq_dec q 0) as [-> | Hn]; [simpl; lia |].
  rewrite Zdigits2_log2 by lia.
  apply Z.log2_lt_pow2 in H1; lia.
Qed.

(** ** Subtraction and division in binary32 *)

(** The difference of two valid floats that are not negative, the second
    not above the first: zero when they are equal, and otherwise positive
    with the number of digits before the point of the exact difference,
    or one more. *)
Lemma sub32_spec (x y : float) :
  F32.valid x = true -> F32.valid y = true ->
  nonneg x = true -> nonneg y = true ->
  ulps y <= ulps x ->
  Zdigits2 (ulps x) <= 276 ->
  (ulps x = ulps y -> exists s, F32.sub x y = S754_zero s) /\
  (ulps y < ulps x ->
   exists p e,
     F32.sub x y = S754_finite false p e /\
     Zdigits2 (ulps x - ulps y) - 149 <= Zdigits2 (Z.pos p) + e
     <= Zdigits2 (ulps x - ulps y) - 149 + 1).
Proof.
  intros Vx Vy Nx Ny Hle Hd.
  destruct x as [sx | sx | | sx mx ex], y as [sy | sy | | sy my ey];
    try discriminate.
  - split; [| simpl; lia]. intros _. destruct sx, sy; eexists; reflexivity.
  - destruct sy; [discriminate |].
    pose proof (ulps_finite_pos my ey
                  ltac:(apply valid32_finite in Vy; lia)).
    change (ulps (S754_zero sx)) with 0 in Hle. lia.
  - destruct sx; [discriminate |].
    assert (He : -149 <= ex) by (apply valid32_finite in Vx; lia).
    pose proof (ulps_finite_pos mx ex He).
    change (ulps (S754_zero sy)) with 0 in *.
    split; [lia |]. intros _. exists mx, ex. split; [reflexivity |].
    rewrite Z.sub_0_r, ulps_digits by exact He. lia.
  - destruct sx, sy; try discriminate.
    pose proof (valid32_finite _ _ _ Vx) as (Hex & _).
    pose proof (valid32_finite _ _ _ Vy) as (Hey & _).
    unfold F32.sub, SFsub. cbn [cond_Zopp].
    set (ez := Z.min ex ey).
    destruct (shl_align_spec mx ex ez) as [Hmx _].
    destruct (shl_align_spec my ey ez) as [Hmy _].
    rewrite Hmx, Hmy.
    replace (Z.min ex ez) with ez by lia.
    replace (Z.min ey ez) with ez by lia.
    set (M := Z.pos mx * 2 ^ (ex - ez) - Z.pos my * 2 ^ (ey - ez)).
    assert (HM : M * 2 ^ (ez + 149)
                 = ulps (S754_finite false mx ex)
                   - ulps (S754_finite false my ey)).
    { unfold M, ulps. rewrite Z.mul_sub_distr_r, <- !Z.mul_assoc.
      rewrite <- !pow2_split by lia.
      now replace (ex - ez + (ez + 149)) with (ex + 149) by lia;
        replace (ey - ez + (ez + 149)) with (ey + 149) by lia. }
    assert (Hp : 0 < 2 ^ (ez + 149)) by pow2_pos.
    split.
    + intros E. assert (M = 0) by nia. rewrite H. simpl. now exists false.
    + intros L. assert (HMpos : 0 < M) by nia.
      destruct M as [| p | p] eqn:EM; try lia. simpl binary_normalize.
      rewrite <- HM.
      rewrite Zdigits2_mul_pow2 by lia.
      assert (HdM : Zdigits2 (Z.pos p) + ez <= 127).
      { assert (Zdigits2 (Z.pos p * 2 ^ (ez + 149))
                <= Zdigits2 (ulps (S754_finite false mx ex))).
        { apply Zdigits2_mono. rewrite HM.
          pose proof (ulps_finite_pos my ey ltac:(lia)). nia. }
        rewrite Zdigits2_mul_pow2 in H by lia. lia. }
      destruct (normalize32_positive false p ez ltac:(lia) HdM)
        as (q & e' & E & B).
      exists q, e'. split; [exact E | lia].
Qed.

(** A quotient whose operands are at most 126 binary orders of magnitude
    apart does not overflow. *)
Lemma div32_finite (sx : bool) (mx : positive) (ex : Z)
      (sy : bool) (my : positive) (ey : Z) :
  Zdigits2 (Z.pos mx) + ex - (Zdigits2 (Z.pos my) + ey) <= 126 ->
  F32.is_finite (F32.div (S754_finite sx mx ex) (S754_finite sy my ey))
  = true.
Proof.
  intros H. unfold F32.div, SFdiv, SFdiv_core_binary.
  rewrite fexp32.
  set (d1 := Zdigits2 (Z.pos mx)) in *. set (d2 := Zdigits2 (Z.pos my)) in *.
  set (e' := Z.min (Z.max (d1 + ex - (d2 + ey) - 24) (-149)) (ex - ey)).
  set (s := ex - ey - e').
  assert (Hs : 0 <= s) by (unfold s, e'; lia).
  set (m' := match s with
             | 0 => Z.pos mx
             | Z.pos _ => Z.shiftl (Z.pos mx) s
             | Z.neg _ => 0
             end).
  assert (Hm' : m' = Z.pos mx * 2 ^ s).
  { unfold m'. destruct s as [| ps | ps] eqn:Es; try lia.
    now rewrite Z.shiftl_mul_pow2 by lia. }
  destruct (Z.div_eucl m' (Z.pos my)) as [q r] eqn:E.
  assert (Hq : q = m' / Z.pos my) by (unfold Z.div; now rewrite E).
  assert (Hp : 0 < 2 ^ s) by pow2_pos.
  assert (Hm'pos : 0 < m') by nia.
  assert (Hq0 : 0 <= q) by (rewrite Hq; apply Z.div_pos; lia).
  assert (Hd1 : 1 <= d1)
    by (unfold d1; rewrite Zdigits2_log2 by lia;
        pose proof (Z.log2_nonneg (Z.pos mx)); lia).
  assert (Hd2 : 1 <= d2)
    by (unfold d2; rewrite Zdigits2_log2 by lia;
        pose proof (Z.log2_nonneg (Z.pos my)); lia).
  assert (Hdq : Zdigits2 q <= Z.max 0 (d1 + s - d2 + 1)).
  { pose proof (Zdigits2_lt_pow2 (Z.pos mx) ltac:(lia)) as U1.
    pose proof (Zdigits2_ge_pow2 (Z.pos my) ltac:(lia)) as L2.
    fold d1 in U1. fold d2 in L2.
    assert (Um : m' < 2 ^ (d1 + s))
      by (rewrite Hm', pow2_split by lia; nia).
    pose proof (Z.mul_div_le m' (Z.pos my) ltac:(lia)) as Hql.
    rewrite <- Hq in Hql.
    destruct (Z_le_gt_dec (d1 + s - d2 + 1) 0) as [Le | Gt].
    - assert (2 ^ (d1 + s) <= 2 ^ (d2 - 1))
        by (apply Z.pow_le_mono_r; lia).
      assert (q = 0) by nia. subst q. rewrite H1. simpl. lia.
    - rewrite Z.max_r by lia. apply Zdigits2_le_of_lt_pow2; [| lia].
      split; [exact Hq0 |].
      assert (Sp : 2 ^ (d1 + s) = 2 ^ (d1 + s - d2 + 1) * 2 ^ (d2 - 1))
        by (rewrite <- pow2_split by lia; f_equal; lia).
      assert (0 < 2 ^ (d2 - 1)) by pow2_pos.
      nia. }
  apply round32_finite; [exact Hq0 | unfold e'; lia |].
  unfold s in Hdq. unfold e' in *. lia.
Qed.

(** ** No NaN from finite operands *)

Lemma round_not_nan (prec emax : Z) (s : bool) (m e : Z) (l : location) :
  0 <= m -> F32.is_nan (binary_round_aux prec emax s m e l) = false.
Proof.
  intros Hm.
  destruct (binary_round_aux_spec prec emax s m e l Hm)
    as (m1 & e1 & m2 & e2 & He1 & Hm1 & He2 & Hm2 & ->).
  assert (0 <= m1).
  { assert (0 <= m / 2 ^ (e1 - e))
      by (apply Z.div_pos; [lia | apply Z.pow_pos_nonneg; lia]).
    lia. }
  assert (0 <= m2)
    by (rewrite Hm2; apply Z.div_pos; [lia | apply Z.pow_pos_nonneg; lia]).
  destruct m2 as [| p | p]; [reflexivity | | lia].
  now destruct (e2 <=? emax - prec).
Qed.

Lemma normalize_not_nan (prec emax m e : Z) (sz : bool) :
  F32.is_nan (binary_normalize prec emax m e sz) = false.
Proof.
  destruct m as [| p | p]; simpl; [reflexivity | |];
    unfold binary_round;
    destruct (shl_align p e _) as [mz ez]; apply round_not_nan; lia.
Qed.

Lemma mul32_not_nan (x y : float) :
  F32.is_finite x = true -> F32.is_finite y = true ->
  F32.is_nan (F32.mul x y) = false.
Proof.
  destruct x as [sx | sx | | sx mx ex]; try discriminate;
    destruct y as [sy | sy | | sy my ey]; try discriminate; intros _ _.
  - reflexivity.
  - reflexivity.
  - reflexivity.
  - unfold F32.mul, SFmul. apply round_not_nan. lia.
Qed.

Lemma add32_not_nan (x y : float) :
  F32.is_finite x = true -> F32.is_nan y = false ->
  F32.is_nan (F32.add x y) = false.
Proof.
  destruct x as [sx | sx | | sx mx ex]; try discriminate;
    destruct y as [sy | sy | | sy my ey]; try discriminate; intros _ _.
  - now destruct sx, sy.
  - reflexivity.
  - reflexivity.
  - reflexivity.
  - reflexivity.
  - unfold F32.add, SFadd. apply normalize_not_nan.
Qed.

(** ** Clamping *)

Lemma SFcompare_antisym (x y : float) :
  SFcompare y x = option_map CompOpp (SFcompare x y).
Proof.
  destruct x as [sx | sx | | sx mx ex], y as [sy | sy | | sy my ey].
  16: { rewrite !SFcompare_finite. simpl. f_equal. unfold lexcmp.
        fold (Pos.compare mx my) (Pos.compare my mx).
        rewrite (Z.compare_antisym ex ey), (Pos.compare_antisym mx my).
        destruct sx, sy; try reflexivity;
          destruct (ex ?= ey); simpl; try reflexivity;
          destruct (mx ?= my)%positive; reflexivity. }
  all: try reflexivity.
  all: try (destruct sx; reflexivity).
  all: try (destruct sy; reflexivity).
  all: destruct sx, sy; reflexivity.
Qed.

Lemma SFcompare_defined (x y : float) :
  F32.is_nan x = false -> F32.is_nan y = false -> SFcompare x y <> None.
Proof.
  destruct x as [sx | sx | | sx mx ex]; try discriminate;
    destruct y as [sy | sy | | sy my ey]; try discriminate;
    intros _ _; simpl; discriminate.
Qed.

Lemma constrain_in_range (x : float) :
  F32.is_nan x = false ->
  F32.leb F0 (constrain x F0 F100) = true /\
  F32.leb (constrain x F0 F100) F100 = true.
Proof.
  intros N. unfold constrain.
  destruct (F32.ltb x F0) eqn:L0; [split; reflexivity |].
  destruct (F32.ltb F100 x) eqn:L1; [split; reflexivity |].
  unfold F32.ltb, F32.leb, SFltb, SFleb in *.
  rewrite (SFcompare_antisym x F0).
  rewrite (SFcompare_antisym x F100) in L1.
  pose proof (SFcompare_defined x F0 N eq_refl) as D0.
  pose proof (SFcompare_defined x F100 N eq_refl) as D1.
  destruct (SFcompare x F0) as [[] |]; try congruence;
    destruct (SFcompare x F100) as [[] |]; try congruence;
    simpl in *; try discriminate; auto.
Qed.

(** ** Checking a property on a range of integers by evaluation *)

Lemma all_from_spec (f : Z -> bool) (n : nat) :
  forall k0, all_from f n k0 = true ->
  forall k, k0 <= k < k0 + Z.of_nat n -> f k = true.
Proof.
  induction n as [| n IH]; intros k0 H k Hk.
  - lia.
  - simpl in H. apply andb_true_iff in H. destruct H as [H0 H1].
    destruct (Z.eq_dec k k0) as [-> | Hne]; [exact H0 |].
    apply (IH (k0 + 1) H1). lia.
Qed.

(** ** Times of the day and percentages *)

Lemma leb_ulps (x y : float) :
  F32.valid x = true -> F32.valid y = true ->
  nonneg x = true -> nonneg y = true ->
  F32.leb x y = (ulps x <=? ulps y).
Proof.
  intros. unfold F32.leb, SFleb. rewrite compare_ulps by assumption.
  unfold Z.leb. now destruct (ulps x ?= ulps y).
Qed.

Lemma ltb_ulps (x y : float) :
  F32.valid x = true -> F32.valid y = true ->
  nonneg x = true -> nonneg y = true ->
  F32.ltb x y = (ulps x <? ulps y).
Proof.
  intros. unfold F32.ltb, SFltb. rewrite compare_ulps by assumption.
  unfold Z.ltb. now destruct (ulps x ?= ulps y).
Qed.

Lemma eqb_ulps (x y : float) :
  F32.valid x = true -> F32.valid y = true ->
  nonneg x = true -> nonneg y = true ->
  F32.eqb x y = (ulps x =? ulps y).
Proof.
  intros. unfold F32.eqb, SFeqb. rewrite compare_ulps by assumption.
  destruct (Z.eqb_spec (ulps x) (ulps y)) as [E | N].
  - now rewrite E, Z.compare_refl.
  - destruct (ulps x ?= ulps y) eqn:C; try reflexivity.
    apply Z.compare_eq in C. contradiction.
Qed.

Lemma in_day_closed (t : float) :
  in_day t -> day_closed t /\ ulps t < ulps F24.
Proof.
  intros (V & L0 & L24).
  assert (N : nonneg t = true).
  { destruct t as [s | s | | s m e]; try reflexivity; try discriminate.
    - destruct s; discriminate.
    - destruct s; [discriminate | reflexivity]. }
  rewrite ltb_ulps in L24 by (assumption || reflexivity).
  apply Z.ltb_lt in L24. repeat split; (assumption || lia).
Qed.

Lemma day_closed_F0 : day_closed F0.
Proof. repeat split. vm_compute. discriminate. Qed.

Lemma day_closed_F24 : day_closed F24.
Proof. repeat split. apply Z.le_refl. Qed.

Lemma of_int_percent (d : Z) : 0 <= d <= 100 -> percent_ok d = true.
Proof.
  intros H.
  assert (A : all_from percent_ok 101 0 = true) by evaluate.
  apply (all_from_spec _ _ _ A). lia.
Qed.

Lemma sub_percent_finite (a b : Z) :
  0 <= a <= 100 -> 0 <= b <= 100 ->
  F32.is_finite (F32.sub (F32.of_int a) (F32.of_int b)) = true.
Proof.
  intros Ha Hb.
  assert (A : all_from
                (fun a =>
                   all_from
                     (fun b => F32.is_finite
                                 (F32.sub (F32.of_int a) (F32.of_int b)))
                     101 0)
                101 0 = true) by evaluate.
  pose proof (all_from_spec _ _ _ A a ltac:(lia)) as B.
  apply (all_from_spec _ _ _ B). lia.
Qed.

(** ** The interpolation never yields a NaN *)

Lemma ulps_F24_digits : Zdigits2 (ulps F24) = 154.
Proof. evaluate. Qed.

Lemma ulps_nonneg (x : float) : F32.valid x = true -> 0 <= ulps x.
Proof.
  intros V. destruct x as [s | s | | [|] m e]; simpl; try lia.
  pose proof (ulps_finite_pos m e ltac:(apply valid32_finite in V; lia)).
  simpl in H. lia.
Qed.

Lemma interpolation_not_nan (tb ta cur : float) (db da : Z) :
  day_closed tb -> day_closed ta -> day_closed cur ->
  ulps tb <= ulps cur <= ulps ta ->
  ulps tb <> ulps ta ->
  0 <= db <= 100 -> 0 <= da <= 100 ->
  F32.is_nan
    (F32.add (F32.of_int db)
             (F32.mul (F32.sub (F32.of_int da) (F32.of_int db))
                      (F32.div (F32.sub cur tb) (F32.sub ta tb))))
  = false.
Proof.
  intros (Vb & Nb & Ub) (Va & Na & Ua) (Vc & Nc & Uc) Hord Hne Hdb Hda.
  pose proof (ulps_nonneg _ Vb) as Pb.
  assert (Da : Zdigits2 (ulps ta) <= 276).
  { pose proof (Zdigits2_mono (ulps ta) (ulps F24) ltac:(lia)).
    rewrite ulps_F24_digits in H. lia. }
  assert (Dc : Zdigits2 (ulps cur) <= 276).
  { pose proof (Zdigits2_mono (ulps cur) (ulps F24) ltac:(lia)).
    rewrite ulps_F24_digits in H. lia. }
  destruct (sub32_spec ta tb Va Vb Na Nb ltac:(lia) Da) as [_ Hden].
  destruct (Hden ltac:(lia)) as (pd & ed & Eden & Bden).
  destruct (sub32_spec cur tb Vc Vb Nc Nb ltac:(lia) Dc) as [Hz Hnum].
  assert (R : F32.is_finite (F32.div (F32.sub cur tb) (F32.sub ta tb))
              = true).
  { rewrite Eden.
    destruct (Z.eq_dec (ulps cur) (ulps tb)) as [E | N].
    - destruct (Hz E) as (s & ->). reflexivity.
    - destruct (Hnum ltac:(lia)) as (pn & en & -> & Bnum).
      apply div32_finite.
      pose proof (Zdigits2_mono (ulps cur - ulps tb) (ulps ta - ulps tb)
                                ltac:(lia)).
      lia. }
  apply add32_not_nan.
  - pose proof (of_int_percent db Hdb) as H. unfold percent_ok in H.
    now destruct (F32.is_finite (F32.of_int db)).
  - apply mul32_not_nan; [now apply sub_percent_finite | exact R].
Qed.

(** ** The contract of [std::sort] *)

Lemma insert_point_perm (x : SchedulePoint) (l : list SchedulePoint) :
  Permutation (x :: l) (insert_point x l).
Proof.
  induction l as [| y l IH]; simpl.
  - apply Permutation_refl.
  - destruct (F32.ltb (time x) (time y)).
    + apply Permutation_refl.
    + eapply perm_trans; [apply perm_swap |]. now apply perm_skip.
Qed.

Lemma fold_insert_perm (l acc : list SchedulePoint) :
  Permutation (acc ++ l) (fold_left (fun a x => insert_point x a) l acc).
Proof.
  revert acc. induction l as [| x l IH]; intros acc; simpl.
  - rewrite app_nil_r. apply Permutation_refl.
  - eapply perm_trans; [| apply IH].
    eapply perm_trans;
      [| apply Permutation_app_tail, insert_point_perm].
    simpl. apply Permutation_sym, Permutation_middle.
Qed.

Lemma insertion_sort_perm (l : list SchedulePoint) :
  Permutation l (insertion_sort l).
Proof. apply (fold_insert_perm l []). Qed.

Lemma refPlatform_permutes (t0 : Z) : SortPermutes (refPlatform t0).
Proof. intros l. apply insertion_sort_perm. Qed.

Lemma insert_point_tie (x : SchedulePoint) (l : list SchedulePoint) :
  (forall y, In y l -> F32.ltb (time x) (time y) = false) ->
  insert_point x l = l ++ [x].
Proof.
  induction l as [| y l IH]; simpl; intros H.
  - reflexivity.
  - rewrite (H y (or_introl eq_refl)). f_equal. apply IH.
    intros z Hz. apply H. now right.
Qed.

Lemma fold_insert_tie (l acc : list SchedulePoint) :
  (forall a b, In a (acc ++ l) -> In b (acc ++ l) ->
               F32.ltb (time a) (time b) = false) ->
  fold_left (fun a x => insert_point x a) l acc = acc ++ l.
Proof.
  revert acc. induction l as [| x l IH]; intros acc H; simpl.
  - now rewrite app_nil_r.
  - rewrite insert_point_tie.
    + rewrite IH; rewrite <- app_assoc; simpl; [reflexivity | exact H].
    + intros y Hy. apply H; apply in_or_app; [right; now left | now left].
Qed.

Lemma refPlatform_ties (t0 : Z) : TiesKeepOrder (refPlatform t0).
Proof. intros l H. apply (fold_insert_tie l [] H). Qed.

Lemma insert_point_in (x y : SchedulePoint) (l : list SchedulePoint) :
  In y (insert_point x l) -> y = x \/ In y l.
Proof.
  intros H. apply Permutation_in with (l' := x :: l) in H.
  - destruct H as [-> | H]; auto.
  - apply Permutation_sym, insert_point_perm.
Qed.

Lemma insert_point_sorted (x : SchedulePoint) (l : list SchedulePoint) :
  StronglySorted (fun a b => F32.ltb (time b) (time a) = false) l ->
  StronglySorted (fun a b => F32.ltb (time b) (time a) = false)
                 (insert_point x l).
Proof.
  induction 1 as [| y l Hs IH Hy]; simpl.
  - repeat constructor.
  - destruct (F32.ltb (time x) (time y)) eqn:Hxy.
    + constructor; [now constructor |].
      constructor; [now apply ltb_asym |].
      rewrite Forall_forall in *. intros z Hz.
      destruct (F32.ltb (time z) (time x)) eqn:Hzx; [| reflexivity].
      rewrite <- (Hy z Hz). symmetry. now apply ltb_trans with (time x).
    + constructor; [exact IH |].
      rewrite Forall_forall in *. intros z Hz.
      destruct (insert_point_in _ _ _ Hz) as [-> | Hz']; auto.
Qed.

Lemma fold_insert_sorted (l : list SchedulePoint) :
  forall acc,
    StronglySorted (fun a b => F32.ltb (time b) (time a) = false) acc ->
    StronglySorted (fun a b => F32.ltb (time b) (time a) = false)
                   (fold_left (fun a x => insert_point x a) l acc).
Proof.
  induction l as [| x l IH]; intros acc H; simpl; [exact H |].
  now apply IH, insert_point_sorted.
Qed.

Lemma refPlatform_orders (t0 : Z) : SortOrders (refPlatform t0).
Proof. intros l. apply fold_insert_sorted. constructor. Qed.

Lemma sort_singleton {P : Platform} (p : SchedulePoint) :
  SortPermutes P -> std_sort [p] = [p].
Proof.
  intros HP. apply Permutation_length_1_inv, HP.
Qed.

(** ** The duty computation *)

Section DutyFacts.
Context {P : Platform}.

Lemma calculateCurrentDuty_value (st : State) :
  fst (calculateCurrentDuty st)
  = computeDuty (schedulePoints st) (getCurrentTimeInHours st).
Proof.
  unfold calculateCurrentDuty, computeDuty.
  destruct (schedulePoints st); reflexivity.
Qed.

Lemma calculateCurrentDuty_points (st : State) :
  schedulePoints (snd (calculateCurrentDuty st))
  = match schedulePoints st with
    | [] => []
    | _ :: _ => std_sort (schedulePoints st)
    end.
Proof.
  unfold calculateCurrentDuty.
  destruct (schedulePoints st) eqn:E; simpl; [exact E | reflexivity].
Qed.

Lemma calculateCurrentDuty_state (st : State) :
  snd (calculateCurrentDuty st)
  = set_schedulePoints (schedulePoints (snd (calculateCurrentDuty st))) st.
Proof.
  unfold calculateCurrentDuty.
  destruct (Nat.eqb (List.length (schedulePoints st)) 0); simpl;
    [now destruct st | reflexivity].
Qed.

Lemma computeDuty_empty (currentHours : float) :
  computeDuty [] currentHours = F0.
Proof. reflexivity. Qed.
End DutyFacts.

(** C2.  With the single point (12.0, 80) the duty is 40 at 6.0 and at
    18.0, 80 at 12.0 and 0 at 0.0, all exactly in single precision; at 6.0
    the interpolation is between the virtual point (0, 0) and the point, at
    18.0 between the point and the virtual point (24, 0).  Towards 24 the
    duty falls to 0: at each of the last 4096 floats [h] below 24 it lies
    between 0 and [10 * (24 - h)], and at the very last one it is
    [2^-16]. *)
Theorem single_point_interpolation {P : Platform} :
  SortPermutes P ->
  let model := [mkPoint (F32.of_int 12) 80] in
  computeDuty model (F32.of_int 6) = F32.of_int 40 /\
  computeDuty model (F32.of_int 18) = F32.of_int 40 /\
  computeDuty model (F32.of_int 12) = F32.of_int 80 /\
  computeDuty model (F32.of_int 0) = F32.of_int 0 /\
  bracket model (scan model (F32.of_int 6))
  = (mkPoint F0 0, mkPoint (F32.of_int 12) 80) /\
  bracket model (scan model (F32.of_int 18))
  = (mkPoint (F32.of_int 12) 80, mkPoint F24 0) /\
  (forall k, 1 <= k <= 4096 ->
     F32.leb F0 (computeDuty model (below24 k)) = true /\
     (F32.to_Q (computeDuty model (below24 k))
      <= 10 * (24 - F32.to_Q (below24 k)))%Q) /\
  computeDuty model (below24 1) = S754_finite false 8388608 (-39).
Proof.
  intros HP model.
  assert (E : forall h, computeDuty model h
                        = interpolate [mkPoint (F32.of_int 12) 80] h).
  { intros h. unfold model, computeDuty. now rewrite (sort_singleton _ HP). }
  rewrite !E.
  split; [evaluate |].
  split; [evaluate |].
  split; [evaluate |].
  split; [evaluate |].
  split; [reflexivity |].
  split; [reflexivity |].
  split; [| vm_compute; reflexivity].
  intros k Hk. rewrite E.
  assert (H : all_from
                (fun k =>
                   let h := below24 k in
                   let d := interpolate [mkPoint (F32.of_int 12) 80] h in
                   (F32.leb F0 d
                    && Qle_bool (F32.to_Q d) (10 * (24 - F32.to_Q h)))%bool)
                (Z.to_nat 4096) 1 = true)
    by evaluate.
  pose proof (all_from_spec _ _ _ H k) as Hk'.
  rewrite Z2Nat.id in Hk' by lia.
  cbv zeta in Hk'. apply andb_true_iff in Hk'; [| lia].
  destruct Hk' as [H0 H1]. split; [exact H0 | now apply Qle_bool_iff].
Qed.

Lemma single_point_interpolation_witness :
  let model := [mkPoint (F32.of_int 12) 80] in
  computeDuty (P := refPlatform 0) model (F32.of_int 6) = F32.of_int 40 /\
  computeDuty (P := refPlatform 0) model (F32.of_int 18) = F32.of_int 40.
Proof.
  pose proof (single_point_interpolation (P := refPlatform 0)
                (refPlatform_permutes 0)) as H.
  cbv zeta in H. destruct H as (H6 & H18 & _). split; assumption.
Defined.

(** ** Two points at the same time *)

Lemma interpolate_tie (t : float) (d1 d2 : Z) :
  F32.is_nan t = false ->
  interpolate [mkPoint t d1; mkPoint t d2] t = F32.of_int d2.
Proof.
  intros N. unfold interpolate, scan, scan_step, bracket. simpl.
  rewrite (leb_refl t N). simpl. now rewrite (eqb_refl t N).
Qed.

(** C3.  Two points stored with the same time [t], with duties [d1] then
    [d2]: when the sort keeps tied points in their order, the duty at [t]
    is [d2]. *)
Theorem duplicate_time_second_duty {P : Platform} (t : float) (d1 d2 : Z) :
  TiesKeepOrder P ->
  F32.is_nan t = false ->
  computeDuty [mkPoint t d1; mkPoint t d2] t = F32.of_int d2.
Proof.
  intros HT N. unfold computeDuty. rewrite HT.
  - now apply interpolate_tie.
  - intros a b [<- | [<- | []]] [<- | [<- | []]]; apply ltb_irrefl.
Qed.

Lemma duplicate_time_second_duty_witness :
  computeDuty (P := refPlatform 0)
              [mkPoint (F32.of_int 7) 30; mkPoint (F32.of_int 7) 90]
              (F32.of_int 7)
  = F32.of_int 90.
Proof.
  apply (duplicate_time_second_duty (P := refPlatform 0)).
  - apply refPlatform_ties.
  - reflexivity.
Defined.

Lemma tieReversing_permutes : SortPermutes tieReversingPlatform.
Proof.
  intros l. simpl. eapply perm_trans; [apply Permutation_rev |].
  apply insertion_sort_perm.
Qed.

(** Without stability the first duty is returned instead. *)
Lemma duplicate_time_first_duty_when_unstable (t : float) (d1 d2 : Z) :
  F32.is_nan t = false ->
  computeDuty (P := tieReversingPlatform) [mkPoint t d1; mkPoint t d2] t
  = F32.of_int d1.
Proof.
  intros N. unfold computeDuty. simpl std_sort.
  unfold insertion_sort. simpl. rewrite ltb_irrefl.
  now apply interpolate_tie.
Qed.

(** ** The scan *)

Lemma scan_step_inv (cur : float) (l : list SchedulePoint) (s : Scan)
      (p : SchedulePoint) :
  ScanInv cur l s -> ScanInv cur (l ++ [p]) (scan_step cur s p).
Proof.
  intros (I1 & I2 & I3 & I4). unfold scan_step, ScanInv.
  destruct (F32.leb (time p) cur) eqn:A, (F32.leb cur (time p)) eqn:B,
           (foundAfter s) eqn:FA, (foundBefore s) eqn:FB;
    cbn [foundBefore foundAfter sc_before sc_after negb andb];
    rewrite ?FA, ?FB;
    repeat split; try discriminate; intros; try (rewrite in_app_iff);
    repeat match goal with
           | H : In _ (_ ++ _) |- _ => apply in_app_iff in H
           | H : In _ [_] |- _ => destruct H as [<- | []]
           | H : _ \/ _ |- _ => destruct H
           end;
    try (left; now apply I1); try (left; now apply I2);
    try (right; now left); try assumption;
    try (now apply I3); try (now apply I4); try (now apply I1);
    try (now apply I2).
Qed.

Lemma scan_inv (cur : float) (l : list SchedulePoint) :
  ScanInv cur l (scan l cur).
Proof.
  induction l as [| p l IH] using rev_ind.
  - repeat split; try discriminate; intros _ p [].
  - unfold scan. rewrite fold_left_app. now apply scan_step_inv.
Qed.

Lemma hd_in (d : SchedulePoint) (l : list SchedulePoint) :
  l <> [] -> In (hd d l) l.
Proof. destruct l; [congruence | now left]. Qed.

Lemma last_in (d : SchedulePoint) (l : list SchedulePoint) :
  l <> [] -> In (last l d) l.
Proof.
  induction l as [| a l IH]; [congruence |]. intros _.
  destruct l as [| b l]; [now left |].
  right. apply IH. discriminate.
Qed.

(** The points between which the duty is interpolated have times of
    [[0, 24]] on either side of the current time, and percentages as
    duties. *)
Lemma bracket_spec (cur : float) (l : list SchedulePoint) :
  Forall in_domain l -> in_day cur ->
  (foundBefore (scan l cur) && foundAfter (scan l cur)
   || foundBefore (scan l cur) || foundAfter (scan l cur))%bool = true ->
  let '(b, a) := bracket l (scan l cur) in
  day_closed (time b) /\ day_closed (time a) /\
  ulps (time b) <= ulps cur <= ulps (time a) /\
  0 <= duty b <= 100 /\ 0 <= duty a <= 100.
Proof.
  intros Hl Hc Hf.
  destruct (in_day_closed cur Hc) as [(Vc & Nc & _) Lc].
  pose proof (scan_inv cur l) as (I1 & I2 & I3 & I4).
  rewrite Forall_forall in Hl.
  assert (Dom : forall p, In p l ->
                  day_closed (time p) /\ 0 <= duty p <= 100 /\
                  F32.leb (time p) cur = (ulps (time p) <=? ulps cur) /\
                  F32.leb cur (time p) = (ulps cur <=? ulps (time p))).
  { intros p Hp. destruct (Hl p Hp) as [Hd Hr].
    destruct (in_day_closed _ Hd) as [(Vp & Np & Up) _].
    repeat split; try assumption; try lia; now apply leb_ulps. }
  unfold bracket.
  destruct (foundBefore (scan l cur)) eqn:FB,
           (foundAfter (scan l cur)) eqn:FA; try discriminate;
    cbn [negb].
  - destruct (I1 eq_refl) as [Hb Lb]. destruct (I2 eq_refl) as [Ha La].
    destruct (Dom _ Hb) as (Db & Rb & Eb & _).
    destruct (Dom _ Ha) as (Da & Ra & _ & Ea).
    rewrite Eb in Lb. rewrite Ea in La.
    apply Z.leb_le in Lb, La.
    split; [exact Db |]. split; [exact Da |]. lia.
  - destruct (I1 eq_refl) as [Hb _].
    assert (Hne : l <> []) by (intros ->; destruct Hb).
    pose proof (last_in (mkPoint F0 0) l Hne) as Hlast.
    destruct (Dom _ Hlast) as (Db & Rb & _ & Eb).
    pose proof (I4 eq_refl _ Hlast) as Lb. rewrite Eb in Lb.
    apply Z.leb_gt in Lb. cbn [time duty].
    split; [exact Db |]. split; [exact day_closed_F24 |]. lia.
  - destruct (I2 eq_refl) as [Ha _].
    assert (Hne : l <> []) by (intros ->; destruct Ha).
    pose proof (hd_in (mkPoint F0 0) l Hne) as Hhd.
    destruct (Dom _ Hhd) as (Da & Ra & Ea & _).
    pose proof (I3 eq_refl _ Hhd) as La. rewrite Ea in La.
    apply Z.leb_gt in La. cbn [time duty].
    pose proof (ulps_nonneg cur Vc).
    split; [exact day_closed_F0 |]. split; [exact Da |].
    change (ulps F0) with 0. lia.
Qed.

(** C5.  For points of the documented domain and a time of the day the
    duty lies in [[0, 100]]; without points it is 0. *)
Theorem computeDuty_in_range {P : Platform}
        (model : list SchedulePoint) (currentHours : float) :
  SortPermutes P ->
  Forall in_domain model ->
  in_day currentHours ->
  F32.leb F0 (computeDuty model currentHours) = true /\
  F32.leb (computeDuty model currentHours) F100 = true /\
  computeDuty [] currentHours = F0.
Proof.
  intros HP Hm Hc.
  assert (G : F32.leb F0 (computeDuty model currentHours) = true /\
              F32.leb (computeDuty model currentHours) F100 = true);
    [| now destruct G].
  unfold computeDuty. destruct model as [| p0 model']; [split; reflexivity |].
  set (l := std_sort (p0 :: model')).
  assert (Hl : Forall in_domain l).
  { rewrite Forall_forall in *. intros p Hp. apply Hm.
    eapply Permutation_in; [apply Permutation_sym, HP | exact Hp]. }
  unfold interpolate.
  pose proof (bracket_spec currentHours l Hl Hc) as B.
  destruct (foundBefore (scan l currentHours)) eqn:FB,
           (foundAfter (scan l currentHours)) eqn:FA;
    cbn [negb andb orb] in *; try (split; reflexivity);
    specialize (B eq_refl);
    destruct (bracket l (scan l currentHours)) as [b a];
    destruct B as ((Vb & Nb & Ub) & (Va & Na & Ua) & Hord & Rb & Ra);
    (rewrite eqb_ulps by assumption;
     destruct (Z.eqb_spec (ulps (time b)) (ulps (time a))) as [E | N];
     [ pose proof (of_int_percent (duty b) Rb) as Hp;
       unfold percent_ok in Hp;
       apply andb_true_iff in Hp; destruct Hp as [Hp H100];
       apply andb_true_iff in Hp; destruct Hp as [_ H0]; now split
     | apply constrain_in_range, interpolation_not_nan;
       try assumption;
       destruct (in_day_closed _ Hc) as [D _]; try exact D;
       repeat split; assumption ]).
Qed.

Lemma computeDuty_in_range_witness :
  let model := [mkPoint (F32.of_int 8) 20; mkPoint (F32.of_int 20) 100] in
  let h := timeInHours 13 30 in
  F32.leb F0 (computeDuty (P := refPlatform 0) model h) = true /\
  F32.leb (computeDuty (P := refPlatform 0) model h) F100 = true.
Proof.
  assert (D : forall t d, F32.valid t = true -> F32.leb F0 t = true ->
                          F32.ltb t F24 = true -> 0 <= d <= 100 ->
                          in_domain (mkPoint t d))
    by (intros t d V L0 L24 R; repeat split; (assumption || apply R)).
  destruct (computeDuty_in_range
              (P := refPlatform 0)
              [mkPoint (F32.of_int 8) 20; mkPoint (F32.of_int 20) 100]
              (timeInHours 13 30)
              (refPlatform_permutes 0)) as (H0 & H100 & _).
  - repeat constructor; apply D; (reflexivity || lia).
  - repeat split; reflexivity.
  - split; assumption.
Defined.

(** ** The fade *)

Lemma fade_at_target : fade F100 F100 fadeStep_init = F100.
Proof. evaluate. Qed.

Lemma fade_run_501 : fade_run 501 = F100.
Proof. evaluate. Qed.

Lemma fade_run_succ (n : nat) :
  fade_run (S n) = fade F100 (fade_run n) fadeStep_init.
Proof. reflexivity. Qed.

Lemma fade_run_settled (n : nat) : (501 <= n)%nat -> fade_run n = F100.
Proof.
  induction 1 as [| m Hm IH].
  - exact fade_run_501.
  - rewrite fade_run_succ, IH. exact fade_at_target.
Qed.

Lemma run_check_spec (ok : float -> float -> bool) (n : nat) :
  forall k, run_check ok n (fade_run k) = true ->
  forall i, (k <= i < k + n)%nat ->
            ok (fade_run i) (fade_run (S i)) = true.
Proof.
  induction n as [| n IH]; intros k H i Hi; [lia |].
  simpl in H. apply andb_true_iff in H. destruct H as [H0 H1].
  destruct (Nat.eq_dec i k) as [-> | Hne].
  - now rewrite fade_run_succ.
  - rewrite <- fade_run_succ in H1. apply (IH (S k) H1). lia.
Qed.

Lemma fade_run_before (n : nat) :
  (n <= 500)%nat -> F32.ltb (fade_run n) F100 = true.
Proof.
  intros Hn.
  assert (H : run_check (fun a _ => F32.ltb a F100) 501 (fade_run 0) = true)
    by evaluate.
  apply (run_check_spec _ _ _ H n). lia.
Qed.

Lemma fade_change_bound (n : nat) : (fade_change n <= 52429 # 262144)%Q.
Proof.
  destruct (Nat.le_gt_cases n 500) as [Hn | Hn].
  - assert (H : run_check
                  (fun a b => Qle_bool (Qabs (F32.to_Q b - F32.to_Q a))
                                       (52429 # 262144))
                  501 (fade_run 0) = true)
      by evaluate.
    apply Qle_bool_iff. apply (run_check_spec _ _ _ H n). lia.
  - unfold fade_change.
    rewrite (fade_run_settled (S n)), (fade_run_settled n) by lia.
    vm_compute. discriminate.
Qed.

(** C4 (as stated, refuted).  In single precision the run that starts at
    0 with the target at 100 and the step 0.2 has not reached 100 after 500
    ticks, and its third tick changes the duty by more than the step. *)
Lemma fade_500_ticks_not_100 :
  fade_run 500 = S754_finite false 13107150 (-17) /\
  fade_run 500 <> F100 /\
  currentDutyPWM (ticks 500) <> F100 /\
  (2 # 10 < fade_change 2)%Q /\
  (F32.to_Q fadeStep_init < fade_change 2)%Q.
Proof.
  split; [evaluate |].
  split; [vm_compute; discriminate |].
  split; [vm_compute; discriminate |].
  split; vm_compute; reflexivity.
Qed.

(** C4 (as amended).  A tick sets the duty to the target when they are at
    most one step apart, and otherwise adds the step to it or subtracts the
    step from it, whichever leads towards the target, rounding to single
    precision.  From 0, with the target at 100 and the step of the sketch,
    the duty is below 100 for the first 500 ticks, is 100 from tick 501 on,
    and no tick changes it by more than 52429 / 2^18 = 0.20000076...; the
    device itself, ticking once per second under a schedule that holds
    100, goes through this run. *)
Theorem fade_tick_and_run (target current step : float) :
  (F32.leb (F32.abs (F32.sub target current)) step = true ->
   fade target current step = target) /\
  (F32.leb (F32.abs (F32.sub target current)) step = false ->
   F32.ltb current target = true ->
   fade target current step = F32.add current step) /\
  (F32.leb (F32.abs (F32.sub target current)) step = false ->
   F32.ltb current target = false ->
   fade target current step = F32.sub current step) /\
  (forall n, fade_run n = F100 <-> (501 <= n)%nat) /\
  (forall n, (fade_change n <= 52429 # 262144)%Q) /\
  currentDutyPWM (ticks 500) = fade_run 500 /\
  currentDutyPWM (ticks 501) = F100.
Proof.
  unfold fade.
  split; [now intros -> |].
  split; [now intros -> -> |].
  split; [now intros -> -> |].
  split; [| split; [exact fade_change_bound | split; evaluate]].
  intros n. split.
  - intros H. destruct (Nat.le_gt_cases n 500) as [Hn | Hn]; [| lia].
    pose proof (fade_run_before n Hn) as L. rewrite H in L.
    now rewrite ltb_irrefl in L.
  - apply fade_run_settled.
Qed.

Lemma fade_tick_and_run_witness :
  fade F100 F0 fadeStep_init = fadeStep_init /\
  fade F100 (fade_run 500) fadeStep_init = F100 /\
  fade F0 F100 fadeStep_init = F32.sub F100 fadeStep_init.
Proof.
  split; [| split].
  - destruct (fade_tick_and_run F100 F0 fadeStep_init) as (_ & H & _).
    rewrite H; reflexivity.
  - destruct (fade_tick_and_run F100 (fade_run 500) fadeStep_init)
      as (H & _).
    apply H. vm_compute. reflexivity.
  - destruct (fade_tick_and_run F0 F100 fadeStep_init) as (_ & _ & H & _).
    apply H; reflexivity.
Defined.

(** ** Replacing the schedule *)

Lemma getString_putString (p : Preferences) (ns key v dflt : string) :
  getString (putString p ns key v) ns key dflt = v.
Proof. unfold getString, putString. now rewrite !String.eqb_refl. Qed.

Section ReplaceFacts.
Context {P : Platform}.

Lemma load_parse_error (st : State) :
  deserializeJson (getString (preferences st) "schedule" "points" "[]")
  = None ->
  loadScheduleFromPreferences st = set_schedulePoints [] st.
Proof. intros H. unfold loadScheduleFromPreferences. now rewrite H. Qed.

Lemma update_empty (st : State) :
  schedulePoints st = [] ->
  updatePWMFromSchedule st
  = set_currentDutyPWM (fade F0 (currentDutyPWM st) (fadeStep st)) st.
Proof.
  intros H. unfold updatePWMFromSchedule, calculateCurrentDuty.
  now rewrite H.
Qed.

(** C1 (as amended).  When the text given to [handleSaveSchedule] fails
    to parse, the stored points are cleared and the duty is 0 whatever
    the clock reads; the text itself has been persisted, and
    [handleLoadSchedule] answers with it. *)
Theorem malformed_schedule_clears_model (req : Request) (st : State) :
  hasArg req "schedule" = true ->
  deserializeJson (arg req "schedule") = None ->
  let st' := snd (handleSaveSchedule req st) in
  schedulePoints st' = [] /\
  (forall currentHours,
      computeDuty (schedulePoints st') currentHours = F0) /\
  (forall ms, fst (calculateCurrentDuty (delay ms st')) = F0) /\
  body (fst (handleLoadSchedule st')) = Text (arg req "schedule").
Proof.
  intros Harg Herr st'. unfold st', handleSaveSchedule. rewrite Harg.
  cbn [snd]. rewrite load_parse_error
    by (cbn [preferences set_preferences]; now rewrite getString_putString).
  rewrite update_empty by reflexivity.
  split; [reflexivity |]. split; [reflexivity |].
  split; [reflexivity |].
  unfold handleLoadSchedule.
  cbn [fst body preferences set_currentDutyPWM set_schedulePoints
       set_preferences].
  now rewrite getString_putString.
Qed.
End ReplaceFacts.

Lemma malformed_schedule_clears_model_witness :
  let st' :=
    snd (handleSaveSchedule (P := refPlatform 0)
                            [("schedule", "[{'time':'12:00','duty':80},")]
                            boot) in
  schedulePoints st' = [] /\
  body (fst (handleLoadSchedule st'))
  = Text "[{'time':'12:00','duty':80},".
Proof.
  pose proof (malformed_schedule_clears_model
                (P := refPlatform 0)
                [("schedule", "[{'time':'12:00','duty':80},")] boot
                eq_refl eq_refl) as H.
  cbv zeta in H. destruct H as (H1 & _ & _ & H4). split; assumption.
Defined.

(** C1 (as stated, refuted).  After a schedule that does not parse has
    been saved, [handleLoadSchedule] answers with that text, not with
    [[]]. *)
Lemma malformed_schedule_is_served_back :
  let text := "{oops" in
  let st' :=
    snd (handleSaveSchedule (P := refPlatform 0) [("schedule", text)] boot) in
  deserializeJson (Platform := refPlatform 0) text = None /\
  schedulePoints st' = [] /\
  body (fst (handleLoadSchedule st')) = Text text /\
  body (fst (handleLoadSchedule st')) <> Text "[]".
Proof.
  cbv zeta. repeat split; try reflexivity. vm_compute. discriminate.
Qed.

(** ** Strings *)

Lemma indexOf_from_found (c : ascii) (s : string) :
  forall i j, indexOf_from c s i = j -> j <> -1 -> 0 <= i ->
  exists pre post,
    s = (pre ++ String c post)%string /\
    ~ In c (list_ascii_of_string pre) /\
    j = i + Z.of_nat (String.length pre).
Proof.
  induction s as [| a s IH]; simpl; intros i j Hj Hne Hi.
  - congruence.
  - destruct (Ascii.eqb_spec a c) as [-> | Hac].
    + exists EmptyString, s. simpl. repeat split; [tauto | lia].
    + destruct (IH (i + 1) j Hj Hne ltac:(lia)) as (pre & post & -> & Hn & ->).
      exists (String a pre), post. simpl. repeat split.
      * intros [E | E]; [congruence | tauto].
      * lia.
Qed.

Lemma indexOf_from_app (c : ascii) (pre post : string) :
  ~ In c (list_ascii_of_string pre) ->
  forall i, indexOf_from c (pre ++ String c post)%string i
            = i + Z.of_nat (String.length pre).
Proof.
  induction pre as [| a pre IH]; simpl; intros Hn i.
  - rewrite Ascii.eqb_refl. lia.
  - destruct (Ascii.eqb_spec a c) as [-> | Hac]; [tauto |].
    rewrite IH by tauto. lia.
Qed.

Lemma substring_prefix (pre rest : string) :
  String.substring 0 (String.length pre) (pre ++ rest)%string = pre.
Proof.
  induction pre as [| a pre IH]; simpl.
  - now destruct rest.
  - now rewrite IH.
Qed.

Lemma substring_all (s : string) :
  String.substring 0 (String.length s) s = s.
Proof. induction s as [| a s IH]; simpl; [reflexivity | now rewrite IH]. Qed.

Lemma substring_suffix (pre : string) (c : ascii) (post : string) :
  String.substring (S (String.length pre)) (String.length post)
                   (pre ++ String c post)%string = post.
Proof.
  induction pre as [| a pre IH]; simpl.
  - apply substring_all.
  - exact IH.
Qed.

Lemma length_app (a b : string) :
  String.length (a ++ b)%string = (String.length a + String.length b)%nat.
Proof. induction a as [| c a IH]; simpl; [reflexivity | now rewrite IH]. Qed.

Lemma substring_hours (pre post : string) :
  substring (pre ++ String ":" post)%string 0 (Z.of_nat (String.length pre)) = pre.
Proof.
  unfold substring. rewrite length_app. simpl String.length.
  rewrite Z.min_l, Z.max_r, Z.min_l by lia.
  rewrite Z.sub_0_r, Nat2Z.id. apply substring_prefix.
Qed.

Lemma substring_minutes (pre post : string) :
  substring_from (pre ++ String ":" post)%string
                 (Z.of_nat (String.length pre) + 1) = post.
Proof.
  unfold substring_from, substring. rewrite length_app. simpl String.length.
  rewrite Z.min_l, Z.max_r, Z.min_l by lia.
  replace (Z.to_nat (Z.of_nat (String.length pre) + 1))
    with (S (String.length pre)) by lia.
  replace (Z.to_nat _) with (String.length post) by lia.
  apply substring_suffix.
Qed.

Lemma leading_digits_no_digit (s : string) (acc : Z) :
  (forall c, In c (list_ascii_of_string s) -> isdigit c = false) ->
  leading_digits s acc = acc.
Proof.
  destruct s as [| a s]; simpl; intros H; [reflexivity |].
  now rewrite (H a (or_introl eq_refl)).
Qed.

Lemma skip_spaces_incl (s : string) (c : ascii) :
  In c (list_ascii_of_string (skip_spaces s)) ->
  In c (list_ascii_of_string s).
Proof.
  induction s as [| a s IH]; simpl; [tauto |].
  destruct (isspace a); simpl; tauto.
Qed.

(** A string without any decimal digit reads as 0. *)
Lemma toInt_no_digit (s : string) :
  (forall c, In c (list_ascii_of_string s) -> isdigit c = false) ->
  toInt s = 0.
Proof.
  intros H. unfold toInt.
  assert (H' : forall c, In c (list_ascii_of_string (skip_spaces s)) ->
                         isdigit c = false)
    by (intros c Hc; apply H, skip_spaces_incl, Hc).
  destruct (skip_spaces s) as [| a s2]; [reflexivity |].
  assert (H2 : leading_digits s2 0 = 0)
    by (apply leading_digits_no_digit; intros c Hc; apply H'; now right).
  rewrite H2, (leading_digits_no_digit (String a s2) 0 H').
  destruct (Ascii.eqb a "-"), (Ascii.eqb a "+"); reflexivity.
Qed.

Lemma digit_plain (c : ascii) :
  isdigit c = true ->
  isspace c = false /\ Ascii.eqb c "-" = false /\ Ascii.eqb c "+" = false /\
  0 <= Z.of_nat (nat_of_ascii c) - 48 <= 9.
Proof.
  unfold isdigit, isspace. cbv zeta. intros H.
  apply andb_true_iff in H. destruct H as [H1 H2].
  apply Nat.leb_le in H1, H2.
  assert (E : forall d, (nat_of_ascii d < 48)%nat -> Ascii.eqb c d = false).
  { intros d Hd. apply Ascii.eqb_neq. intros ->. lia. }
  split; [| split; [apply E; cbn; lia | split; [apply E; cbn; lia | lia]]].
  apply orb_false_iff. split.
  - apply Nat.eqb_neq. lia.
  - apply andb_false_iff. right. apply Nat.leb_gt. lia.
Qed.

Lemma leading_digits_number (ds rest : string) :
  (forall c, In c (list_ascii_of_string ds) -> isdigit c = true) ->
  no_digit_first rest ->
  forall acc,
    leading_digits (ds ++ rest) acc
    = fold_left (fun a c => a * 10 + (Z.of_nat (nat_of_ascii c) - 48))
                (list_ascii_of_string ds) acc.
Proof.
  intros Hd Hr. induction ds as [| d ds IH]; intros acc.
  - cbn [append list_ascii_of_string fold_left].
    destruct rest as [| c rest]; [reflexivity |].
    cbn [leading_digits]. cbn [no_digit_first] in Hr. now rewrite Hr.
  - cbn [append list_ascii_of_string fold_left leading_digits].
    rewrite (Hd d (or_introl eq_refl)).
    apply IH. intros c Hc. apply Hd. now right.
Qed.

Lemma fold_digits_nonneg (l : list ascii) :
  (forall c, In c l -> isdigit c = true) ->
  forall acc, 0 <= acc ->
    0 <= fold_left (fun a c => a * 10 + (Z.of_nat (nat_of_ascii c) - 48))
                   l acc.
Proof.
  induction l as [| d l IH]; intros Hd acc Ha; [exact Ha |].
  cbn [fold_left]. apply IH; [intros c Hc; apply Hd; now right |].
  destruct (digit_plain d (Hd d (or_introl eq_refl))) as (_ & _ & _ & H).
  lia.
Qed.

(** A string that begins with decimal digits reads as the number they
    denote, up to the largest [long], whatever follows the digits. *)
Lemma toInt_leading_number (ds rest : string) :
  ds <> EmptyString ->
  (forall c, In c (list_ascii_of_string ds) -> isdigit c = true) ->
  no_digit_first rest ->
  toInt (ds ++ rest) = Z.min LONG_MAX (decimal ds).
Proof.
  intros Hne Hd Hr. destruct ds as [| d ds]; [congruence |].
  destruct (digit_plain d (Hd d (or_introl eq_refl))) as (Hs & Hm & Hp & _).
  unfold toInt. cbn [append skip_spaces]. rewrite Hs, Hm, Hp.
  change (String d (ds ++ rest)) with (String d ds ++ rest)%string.
  rewrite (leading_digits_number (String d ds) rest Hd Hr 0).
  fold (decimal (String d ds)).
  pose proof (fold_digits_nonneg _ Hd 0 ltac:(lia)) as H0.
  fold (decimal (String d ds)) in H0.
  unfold LONG_MIN, LONG_MAX. lia.
Qed.

(** ** Loading the schedule *)

Lemma fold_push_entry (array : list JsonEntry) :
  forall acc, fold_left push_entry array acc = acc ++ flat_map kept array.
Proof.
  induction array as [| obj array IH]; intros acc; simpl.
  - now rewrite app_nil_r.
  - rewrite IH. unfold push_entry, kept.
    destruct (parseEntry obj); simpl; [now rewrite <- app_assoc | reflexivity].
Qed.

Lemma load_parsed {P : Platform} (st : State) (array : list JsonEntry) :
  deserializeJson (getString (preferences st) "schedule" "points" "[]")
  = Some array ->
  schedulePoints (loadScheduleFromPreferences st) = flat_map kept array.
Proof.
  intros H. unfold loadScheduleFromPreferences. rewrite H.
  cbn [schedulePoints set_schedulePoints]. apply fold_push_entry.
Qed.

(** An entry is kept exactly when its time string is [pre:post] with [pre]
    not empty and free of colons; the point is then made of the integers
    read from [pre] and [post] and of the duty as it is. *)
Lemma parseEntry_some_iff (obj : JsonEntry) (p : SchedulePoint) :
  parseEntry obj = Some p <->
  exists pre post,
    entry_time obj = (pre ++ String ":" post)%string /\
    pre <> EmptyString /\
    ~ In ":"%char (list_ascii_of_string pre) /\
    p = mkPoint (timeInHours (toInt pre) (toInt post)) (entry_duty obj).
Proof.
  unfold parseEntry. split.
  - destruct (0 <? indexOf ":" (entry_time obj)) eqn:Hpos; [| discriminate].
    apply Z.ltb_lt in Hpos. intros Hp.
    destruct (indexOf_from_found ":" (entry_time obj) 0 _ eq_refl)
      as (pre & post & E & Hn & Hj); [unfold indexOf in Hpos; lia | lia |].
    fold (indexOf ":" (entry_time obj)) in Hj.
    exists pre, post. rewrite Hj, E in Hp. simpl Z.add in Hp.
    rewrite substring_hours, substring_minutes in Hp.
    repeat split; try assumption; [| congruence].
    intros ->. simpl in Hj. lia.
  - intros (pre & post & E & Hne & Hn & ->).
    unfold indexOf. rewrite E, (indexOf_from_app ":" pre post Hn 0).
    simpl Z.add.
    assert (Hlen : 0 < Z.of_nat (String.length pre))
      by (destruct pre; [congruence | simpl; lia]).
    apply Z.ltb_lt in Hlen. rewrite Hlen.
    now rewrite substring_hours, substring_minutes.
Qed.

(** C6 (as amended).  When the stored text parses, the points loaded are
    those of the entries that are kept, in their order.  An entry is kept
    if and only if the first colon of its time string is not the first
    character of the string, that is, if the string is [pre:post] with
    [pre] not empty and free of colons; a string that begins with a colon
    is dropped, whatever colons follow.  [pre] and [post] are read as
    integers by [toInt], which gives 0 for a string without digits and,
    for a string that begins with digits, the number they denote
    whatever follows them (4 for [4x]); the time of the point is
    hours + minutes / 60, rounded to single precision. *)
Theorem load_keeps_entries_with_inner_colon {P : Platform}
        (st : State) (array : list JsonEntry) :
  deserializeJson (getString (preferences st) "schedule" "points" "[]")
  = Some array ->
  schedulePoints (loadScheduleFromPreferences st) = flat_map kept array /\
  (forall obj p,
      In p (kept obj) <->
      exists pre post,
        entry_time obj = (pre ++ String ":" post)%string /\
        pre <> EmptyString /\
        ~ In ":"%char (list_ascii_of_string pre) /\
        p = mkPoint (timeInHours (toInt pre) (toInt post))
                    (entry_duty obj)) /\
  (forall obj, kept obj <> [] <-> 0 < indexOf ":" (entry_time obj)) /\
  (forall duty post, kept (mkEntry (String ":" post) duty) = []) /\
  (forall s, (forall c, In c (list_ascii_of_string s) -> isdigit c = false) ->
             toInt s = 0) /\
  (forall digits rest,
      digits <> EmptyString ->
      (forall c, In c (list_ascii_of_string digits) -> isdigit c = true) ->
      no_digit_first rest ->
      toInt (digits ++ rest) = Z.min LONG_MAX (decimal digits)) /\
  toInt "4x" = 4.
Proof.
  intros H. split; [now apply load_parsed |].
  split; [| split; [| split; [| split; [exact toInt_no_digit
                                       | split; [exact toInt_leading_number
                                                | reflexivity]]]]].
  - intros obj p. rewrite <- parseEntry_some_iff. unfold kept.
    destruct (parseEntry obj) as [q |]; simpl.
    + split; [intros [-> | []]; reflexivity | intros [= ->]; now left].
    + split; [tauto | discriminate].
  - intros obj. unfold kept, parseEntry. cbv zeta.
    destruct (Z.ltb_spec 0 (indexOf ":" (entry_time obj))) as [L | G].
    + split; [intros _; exact L | intros _; discriminate].
    + split; [intros N; now contradiction N | lia].
  - intros duty post. reflexivity.
Qed.

Lemma load_keeps_entries_with_inner_colon_witness :
  schedulePoints
    (loadScheduleFromPreferences (P := refPlatform 0)
       (with_schedule_text
          "[{'time':'12:00','duty':80},{'time':'1230','duty':5}]"))
  = flat_map kept [mkEntry "12:00" 80; mkEntry "1230" 5].
Proof.
  apply (load_keeps_entries_with_inner_colon (P := refPlatform 0)).
  reflexivity.
Defined.

(** C6 (as stated, refuted).  The time string [:30] holds a colon, and the
    entry is dropped all the same. *)
Lemma entry_with_leading_colon_dropped :
  let st :=
    with_schedule_text
      "[{'time':':30','duty':50},{'time':'12:00','duty':80}]" in
  deserializeJson (Platform := refPlatform 0)
                  (getString (preferences st) "schedule" "points" "[]")
  = Some [mkEntry ":30" 50; mkEntry "12:00" 80] /\
  In ":"%char (list_ascii_of_string ":30") /\
  schedulePoints (loadScheduleFromPreferences (P := refPlatform 0) st)
  = [mkPoint (F32.of_int 12) 80].
Proof.
  cbv zeta. split; [reflexivity |]. split; [now left | reflexivity].
Qed.

(** C10 (as amended).  Nothing is checked against the documented ranges.
    For every entry of the parsed array whose first separator is not the
    first character of its time string, that is, whose time string is
    [pre:post] with [pre] not empty and free of colons, the point made of the
    integers read from [pre] and [post] and of the duty, as it is, is
    among the stored points.  So [99:99] with duty 500 is stored with the
    duty 500 and the time 13192397 / 2^17, the float next to 100.65. *)
Theorem load_stores_points_unvalidated {P : Platform}
        (st : State) (array : list JsonEntry) (obj : JsonEntry)
        (pre post : string) :
  deserializeJson (getString (preferences st) "schedule" "points" "[]")
  = Some array ->
  In obj array ->
  entry_time obj = (pre ++ String ":" post)%string ->
  pre <> EmptyString ->
  ~ In ":"%char (list_ascii_of_string pre) ->
  In (mkPoint (timeInHours (toInt pre) (toInt post)) (entry_duty obj))
     (schedulePoints (loadScheduleFromPreferences st)) /\
  kept (mkEntry "99:99" 500)
  = [mkPoint (S754_finite false 13192397 (-17)) 500] /\
  (Qabs (F32.to_Q (S754_finite false 13192397 (-17)) - (10065 # 100))
   <= 1 # 262144)%Q /\
  F32.ltb F24 (S754_finite false 13192397 (-17)) = true.
Proof.
  intros H Hin E Hne Hn.
  split; [| split; [reflexivity | split; [| reflexivity]]].
  - rewrite (load_parsed st array H). apply in_flat_map.
    exists obj. split; [exact Hin |].
    unfold kept.
    assert (Hp : parseEntry obj
                 = Some (mkPoint (timeInHours (toInt pre) (toInt post))
                                 (entry_duty obj)))
      by (apply parseEntry_some_iff; exists pre, post; auto).
    rewrite Hp. now left.
  - vm_compute. discriminate.
Qed.

Lemma load_stores_points_unvalidated_witness :
  In (mkPoint (timeInHours (toInt "99") (toInt "99")) 500)
     (schedulePoints
        (loadScheduleFromPreferences (P := refPlatform 0)
           (with_schedule_text "[{'time':'99:99','duty':500}]"))).
Proof.
  refine (proj1 (load_stores_points_unvalidated
                   (P := refPlatform 0)
                   (with_schedule_text "[{'time':'99:99','duty':500}]")
                   [mkEntry "99:99" 500] (mkEntry "99:99" 500) "99" "99"
                   eq_refl (or_introl eq_refl) eq_refl _ _)).
  - discriminate.
  - simpl. intros [H | [H | []]]; discriminate H.
Defined.

(** C10 (as stated, refuted).  The time string [:99] holds a separator,
    and the entry is not stored. *)
Lemma entry_with_separator_not_stored :
  let st := with_schedule_text "[{'time':':99','duty':500}]" in
  deserializeJson (Platform := refPlatform 0)
                  (getString (preferences st) "schedule" "points" "[]")
  = Some [mkEntry ":99" 500] /\
  In ":"%char (list_ascii_of_string ":99") /\
  schedulePoints (loadScheduleFromPreferences (P := refPlatform 0) st) = [].
Proof.
  cbv zeta. split; [reflexivity |]. split; [now left | reflexivity].
Qed.

(** ** Time keeping *)

Section TimeFacts.
Context {P : Platform}.

Lemma delay_delay (a b : Z) (st : State) :
  delay a (delay b st) = delay (b + a) st.
Proof. unfold delay; simpl. f_equal. lia. Qed.

Lemma delay_0 (st : State) : delay 0 st = st.
Proof. destruct st; unfold delay; simpl. f_equal. lia. Qed.

(** Apart from the time that passes, the wait changes nothing. *)
Lemma setupTime_loop_frame (fuel : nat) :
  forall now retry st,
  exists d, 0 <= d <= 1000 * Z.of_nat fuel /\
            setupTime_loop fuel now retry st = delay d st.
Proof.
  induction fuel as [| fuel IH]; intros now retry st.
  - exists 0. split; [lia |]. simpl. now rewrite delay_0.
  - cbn [setupTime_loop].
    destruct ((now <? 8 * 3600 * 2) && (retry <? 10))%bool.
    + destruct (IH (time_at (uptime_ms (delay 1000 st))) (retry + 1)
                   (delay 1000 st)) as (d & Hd & E).
      exists (1000 + d). split; [lia |]. now rewrite E, delay_delay.
    + exists 0. split; [lia |]. now rewrite delay_0.
Qed.

(** Ten rounds are all the loop can make: more fuel changes nothing. *)
Lemma setupTime_loop_fuel (fuel : nat) :
  forall extra now retry st,
    0 <= retry -> 10 - retry <= Z.of_nat fuel ->
    setupTime_loop (fuel + extra) now retry st
    = setupTime_loop fuel now retry st.
Proof.
  induction fuel as [| fuel IH]; intros extra now retry st H0 H.
  - destruct extra as [| extra]; [reflexivity |]. simpl.
    assert (E : (retry <? 10) = false) by (apply Z.ltb_ge; lia).
    now rewrite E, andb_false_r.
  - simpl. destruct (_ && _)%bool; [| reflexivity].
    apply IH; lia.
Qed.

Lemma setupTime_marks_now (st : State) :
  let st' := setupTime st in
  sntpStarts st' = S (sntpStarts st) /\
  lastNTPSync st' = millis st' /\
  uptime_ms st <= uptime_ms st' <= uptime_ms st + 10000 /\
  schedulePoints st' = schedulePoints st /\
  currentDutyPWM st' = currentDutyPWM st.
Proof.
  cbn zeta. unfold setupTime.
  destruct (setupTime_loop_frame 10 (time_at (uptime_ms (configTime st)))
                                 0 (configTime st)) as (d & Hd & E).
  rewrite E. cbn. repeat split; lia.
Qed.

Lemma syncDue_after_mark (st : State) (d : Z) :
  lastNTPSync st = millis st -> 0 <= d < 2 ^ 32 ->
  (syncDue (delay d st) = true <-> NTP_SYNC_INTERVAL <= d).
Proof.
  intros Hm Hd. unfold syncDue, millis in *. cbn [uptime_ms delay lastNTPSync].
  rewrite Hm.
  replace ((uptime_ms st + d) mod 2 ^ 32 - uptime_ms st mod 2 ^ 32)
    with (d + (- ((uptime_ms st + d) / 2 ^ 32)
               + uptime_ms st / 2 ^ 32) * 2 ^ 32).
  - rewrite Z.mod_add by lia. rewrite Z.mod_small by lia.
    apply Z.leb_le.
  - pose proof (Z.div_mod (uptime_ms st + d) (2 ^ 32) ltac:(lia)).
    pose proof (Z.div_mod (uptime_ms st) (2 ^ 32) ltac:(lia)).
    lia.
Qed.

(** C7.  [syncTimeIfNeeded] starts a synchronisation exactly when the
    time elapsed since the marker, in the 32-bit arithmetic of
    [millis()], is at least one hour.  An attempt waits at most ten
    seconds whatever the clock answers, and always ends by setting the
    marker to the current [millis()]; from then on the next attempt is
    due exactly when a further hour has passed. *)
Theorem resync_when_due (st : State) :
  let st' := syncTimeIfNeeded st in
  NTP_SYNC_INTERVAL = 60 * 60 * 1000 /\
  (syncDue st = true <->
   NTP_SYNC_INTERVAL <= (millis st - lastNTPSync st) mod 2 ^ 32) /\
  (syncDue st = false -> st' = st) /\
  (syncDue st = true ->
   sntpStarts st' = S (sntpStarts st) /\
   lastNTPSync st' = millis st' /\
   uptime_ms st <= uptime_ms st' <= uptime_ms st + 10000 /\
   st' = setupTime st /\
   forall d, 0 <= d < 2 ^ 32 ->
             (syncDue (delay d st') = true <-> NTP_SYNC_INTERVAL <= d)).
Proof.
  cbn zeta. unfold syncTimeIfNeeded.
  split; [reflexivity |].
  split; [unfold syncDue; apply Z.leb_le |].
  split; [now intros -> |].
  intros ->. destruct (setupTime_marks_now st) as (H1 & H2 & H3 & _).
  repeat split; try assumption; try lia.
  - now apply syncDue_after_mark.
  - now apply syncDue_after_mark.
Qed.
End TimeFacts.

Lemma resync_when_due_witness :
  let st := delay 3600000 boot in
  let st' := syncTimeIfNeeded (P := unsyncedPlatform) st in
  syncDue st = true /\
  sntpStarts st' = 1%nat /\
  lastNTPSync st' = 3610000 /\
  syncDue (delay 3599999 st') = false /\
  syncTimeIfNeeded (P := unsyncedPlatform) boot = boot.
Proof.
  destruct (resync_when_due (P := unsyncedPlatform) (delay 3600000 boot))
    as (_ & _ & _ & H).
  destruct (resync_when_due (P := unsyncedPlatform) boot)
    as (_ & _ & H0 & _).
  cbv zeta. split; [reflexivity |].
  destruct (H eq_refl) as (H1 & H2 & _).
  split; [exact H1 |]. split; [rewrite H2; reflexivity |].
  split; [reflexivity |]. apply H0. reflexivity.
Defined.

(** ** What reading the duty does to the state *)

Section FrameFacts.
Context {P : Platform}.

(** C8 (as amended).  [calculateCurrentDuty] neither adds, drops nor
    alters a point, and touches nothing else of the state; but it sorts
    the stored vector in place, so that the stored sequence after the
    call is a permutation of the one before, in ascending order of time.
    An empty vector is left as it is.  The tick, the status request, the
    resynchronisation and the schedule request do no more to the stored
    points than that; only loading replaces them. *)
Theorem calculateCurrentDuty_sorts_in_place (st : State) :
  SortPermutes P ->
  SortOrders P ->
  let st' := snd (calculateCurrentDuty st) in
  Permutation (schedulePoints st) (schedulePoints st') /\
  StronglySorted (fun a b => F32.ltb (time b) (time a) = false)
                 (schedulePoints st') /\
  st' = set_schedulePoints (schedulePoints st') st /\
  (schedulePoints st = [] -> st' = st) /\
  Permutation (schedulePoints st)
              (schedulePoints (updatePWMFromSchedule st)) /\
  Permutation (schedulePoints st) (schedulePoints (snd (handleStatus st))) /\
  schedulePoints (syncTimeIfNeeded st) = schedulePoints st /\
  snd (handleLoadSchedule st) = st.
Proof.
  intros HP HO st'. unfold st'.
  assert (HPerm : Permutation
                    (schedulePoints st)
                    (schedulePoints (snd (calculateCurrentDuty st)))).
  { rewrite calculateCurrentDuty_points.
    destruct (schedulePoints st); [constructor | apply HP]. }
  split; [exact HPerm |].
  split.
  { rewrite calculateCurrentDuty_points.
    destruct (schedulePoints st); [constructor | apply HO]. }
  split; [apply calculateCurrentDuty_state |].
  split; [intros E; unfold calculateCurrentDuty; now rewrite E |].
  split.
  { unfold updatePWMFromSchedule.
    rewrite (surjective_pairing (calculateCurrentDuty st)). exact HPerm. }
  split.
  { unfold handleStatus.
    rewrite (surjective_pairing (calculateCurrentDuty st)). exact HPerm. }
  split; [| reflexivity].
  unfold syncTimeIfNeeded. destruct (syncDue st); [| reflexivity].
  now destruct (setupTime_marks_now st) as (_ & _ & _ & H & _).
Qed.
End FrameFacts.

Lemma calculateCurrentDuty_sorts_in_place_witness :
  let st :=
    set_schedulePoints [mkPoint (F32.of_int 12) 80; mkPoint (F32.of_int 6) 40]
                       boot in
  Permutation
    (schedulePoints st)
    (schedulePoints (snd (calculateCurrentDuty (P := refPlatform 0) st))).
Proof.
  exact (proj1 (calculateCurrentDuty_sorts_in_place
                  (P := refPlatform 0)
                  (set_schedulePoints
                     [mkPoint (F32.of_int 12) 80; mkPoint (F32.of_int 6) 40]
                     boot)
                  (refPlatform_permutes 0) (refPlatform_orders 0))).
Defined.

(** C8 (as stated, refuted).  With the points (12.0, 80) and (6.0, 40)
    stored in this order, a call of [calculateCurrentDuty] leaves them
    stored in the other order. *)
Lemma calculateCurrentDuty_reorders_points :
  let st :=
    set_schedulePoints [mkPoint (F32.of_int 12) 80; mkPoint (F32.of_int 6) 40]
                       boot in
  let st' := snd (calculateCurrentDuty (P := refPlatform 0) st) in
  schedulePoints st' = [mkPoint (F32.of_int 6) 40; mkPoint (F32.of_int 12) 80]
  /\ schedulePoints st' <> schedulePoints st.
Proof.
  cbv zeta. split; [reflexivity |]. vm_compute. discriminate.
Qed.

(** ** The status *)

Section StatusFacts.
Context {P : Platform}.

Lemma getCurrentTimeInHours_frame (st : State) (l : list SchedulePoint) :
  getCurrentTimeInHours (set_schedulePoints l st) = getCurrentTimeInHours st.
Proof. reflexivity. Qed.

Lemma handleStatus_answer (st : State) :
  fst (handleStatus st)
  = mkResponse 200 "application/json" (StatusJson (statusOf st)).
Proof.
  unfold handleStatus, statusOf.
  rewrite <- calculateCurrentDuty_value.
  rewrite (surjective_pairing (calculateCurrentDuty st)). cbn [fst snd].
  rewrite (calculateCurrentDuty_state st) at 1 2 3.
  reflexivity.
Qed.

(** Two floats that are more than a step apart are different. *)
Lemma apart_not_equal (target current step : float) :
  F32.is_finite current = true ->
  F32.leb F0 step = true ->
  F32.leb (F32.abs (F32.sub target current)) step = false ->
  F32.eqb target current = false.
Proof.
  intros Hf Hs Ha. destruct (F32.eqb target current) eqn:E; [| reflexivity].
  exfalso.
  assert (Z0 : F32.abs (F32.sub target current) = S754_zero false).
  { unfold F32.eqb, SFeqb in E.
    destruct target as [st | st | | st mt et],
             current as [sc | sc | | sc mc ec];
      try discriminate Hf; try discriminate E;
      try (destruct st, sc; discriminate E).
    - now destruct st, sc.
    - rewrite SFcompare_finite in E.
      assert (st = sc /\ et = ec /\ mt = mc) as (-> & -> & ->).
      { unfold lexcmp in E. fold (Pos.compare mt mc) in E.
        destruct st, sc; try discriminate;
          destruct (Z.compare_spec et ec); try discriminate;
          destruct (Pos.compare_spec mt mc); try discriminate; auto. }
      unfold F32.sub, SFsub. rewrite Z.min_id.
      unfold shl_align. now rewrite Z.sub_diag. }
  rewrite Z0 in Ha. change (S754_zero false) with F0 in Ha. congruence.
Qed.

(** C9.  The duty in the answer of [handleStatus] is the target that the
    schedule gives for the time of the request; [currentDutyPWM] does not
    enter the answer and is not changed by the request.  As long as the
    fade has the output more than one step away from that target, the two
    values differ. *)
Theorem status_reports_schedule_target (st : State) :
  F32.is_finite (currentDutyPWM st) = true ->
  F32.leb F0 (fadeStep st) = true ->
  let doc := statusOf st in
  fst (handleStatus st)
  = mkResponse 200 "application/json" (StatusJson doc) /\
  st_currentDuty doc
  = computeDuty (schedulePoints st) (getCurrentTimeInHours st) /\
  st_currentDuty doc = fst (calculateCurrentDuty st) /\
  (forall v, fst (handleStatus (set_currentDutyPWM v st))
             = fst (handleStatus st)) /\
  currentDutyPWM (snd (handleStatus st)) = currentDutyPWM st /\
  (F32.leb (F32.abs (F32.sub (st_currentDuty doc) (currentDutyPWM st)))
           (fadeStep st) = false ->
   F32.eqb (st_currentDuty doc) (currentDutyPWM st) = false).
Proof.
  intros Hf Hs doc.
  split; [apply handleStatus_answer |].
  split; [reflexivity |].
  split; [symmetry; apply calculateCurrentDuty_value |].
  split; [| split].
  - intros v. rewrite !handleStatus_answer. unfold statusOf.
    now rewrite !calculateCurrentDuty_points.
  - unfold handleStatus.
    rewrite (surjective_pairing (calculateCurrentDuty st)). cbn [snd].
    now rewrite calculateCurrentDuty_state.
  - now apply apart_not_equal.
Qed.
End StatusFacts.

(** One tick after boot at noon, with the single point (12:00, 80): the
    output has moved to one step above 0 while the status says 80. *)
Lemma status_reports_schedule_target_witness :
  let st :=
    updatePWMFromSchedule
      (P := refPlatform 43200)
      (set_schedulePoints [mkPoint (F32.of_int 12) 80] boot) in
  currentDutyPWM st = fadeStep_init /\
  st_currentDuty (statusOf (P := refPlatform 43200) st) = F32.of_int 80 /\
  F32.eqb (st_currentDuty (statusOf (P := refPlatform 43200) st))
          (currentDutyPWM st) = false.
Proof.
  cbv zeta.
  split; [reflexivity |]. split; [reflexivity |].
  refine (proj2 (proj2 (proj2 (proj2 (proj2
            (status_reports_schedule_target
               (P := refPlatform 43200)
               (updatePWMFromSchedule
                  (P := refPlatform 43200)
                  (set_schedulePoints [mkPoint (F32.of_int 12) 80] boot))
               eq_refl eq_refl))))) _).
  reflexivity.
Defined.

(** ** Saving a schedule *)

Section SaveFacts.
Context {P : Platform}.

Lemma load_frame (st : State) :
  loadScheduleFromPreferences st
  = set_schedulePoints (schedulePoints (loadScheduleFromPreferences st)) st.
Proof.
  unfold loadScheduleFromPreferences.
  destruct (deserializeJson _); destruct st; reflexivity.
Qed.

Lemma update_frame (st : State) :
  updatePWMFromSchedule st
  = set_currentDutyPWM
      (fade (computeDuty (schedulePoints st) (getCurrentTimeInHours st))
            (currentDutyPWM st) (fadeStep st))
      (snd (calculateCurrentDuty st)).
Proof.
  unfold updatePWMFromSchedule.
  rewrite <- calculateCurrentDuty_value.
  destruct (calculateCurrentDuty st) as [d st1] eqn:E.
  cbn [fst snd].
  assert (H : st1 = snd (calculateCurrentDuty st)) by now rewrite E.
  rewrite H, calculateCurrentDuty_state. destruct st; reflexivity.
Qed.

(** X1.  A schedule that is posted is answered with 200 and is what
    [handleLoadSchedule] serves from then on, character for character,
    whether or not it is a schedule at all; the other keys of the store,
    the time zone, the clock and the fade step are left alone. *)
Theorem saved_text_is_served_back (req : Request) (st : State) :
  hasArg req "schedule" = true ->
  let st' := snd (handleSaveSchedule req st) in
  code (fst (handleSaveSchedule req st)) = 200 /\
  body (fst (handleLoadSchedule st')) = Text (arg req "schedule") /\
  (forall ns key,
      (String.eqb "schedule" ns && String.eqb "points" key)%bool = false ->
      preferences st' ns key = preferences st ns key) /\
  timezoneOffset st' = timezoneOffset st /\
  lastNTPSync st' = lastNTPSync st /\
  uptime_ms st' = uptime_ms st /\
  sntpStarts st' = sntpStarts st /\
  fadeStep st' = fadeStep st.
Proof.
  intros Harg st'. unfold st', handleSaveSchedule. rewrite Harg.
  cbn [fst snd code]. rewrite update_frame, calculateCurrentDuty_state.
  rewrite load_frame.
  cbn [preferences set_currentDutyPWM set_schedulePoints set_preferences
       timezoneOffset lastNTPSync uptime_ms sntpStarts fadeStep
       handleLoadSchedule fst body].
  rewrite getString_putString.
  repeat split; try reflexivity.
  intros ns key H. unfold putString. now rewrite H.
Qed.

(** X2.  Saving a schedule that parses replaces the points in memory by the
    ones of the posted document (sorted, since the handler runs one
    update), and that update moves the duty one fade step from where it
    was towards the duty of the new schedule: the light does not jump. *)
Theorem save_replaces_and_fades (req : Request) (st : State)
        (array : list JsonEntry) :
  SortPermutes P ->
  hasArg req "schedule" = true ->
  deserializeJson (arg req "schedule") = Some array ->
  let st' := snd (handleSaveSchedule req st) in
  let loaded := flat_map kept array in
  Permutation loaded (schedulePoints st') /\
  currentDutyPWM st'
  = fade (computeDuty loaded (getCurrentTimeInHours st))
         (currentDutyPWM st) (fadeStep st).
Proof.
  intros HP Harg Hparse st' loaded. unfold st', handleSaveSchedule.
  rewrite Harg. cbn [snd]. rewrite update_frame.
  set (st1 := set_preferences _ st).
  assert (Hl : schedulePoints (loadScheduleFromPreferences st1) = loaded).
  { apply load_parsed. unfold st1. cbn [preferences set_preferences].
    now rewrite getString_putString. }
  cbn [schedulePoints set_currentDutyPWM currentDutyPWM].
  rewrite calculateCurrentDuty_points, Hl. split.
  - destruct loaded; [constructor | apply HP].
  - rewrite (load_frame st1), getCurrentTimeInHours_frame.
    reflexivity.
Qed.

(** [loadScheduleFromPreferences] rebuilds the points from the store
    alone: the points held before do not matter, loading twice is loading
    once, and nothing but the points changes. *)
Lemma load_is_a_function_of_the_store (st : State)
        (l : list SchedulePoint) :
  loadScheduleFromPreferences (set_schedulePoints l st)
  = loadScheduleFromPreferences st /\
  loadScheduleFromPreferences (loadScheduleFromPreferences st)
  = loadScheduleFromPreferences st /\
  loadScheduleFromPreferences st
  = set_schedulePoints (schedulePoints (loadScheduleFromPreferences st)) st.
Proof.
  assert (H : forall l' st',
             loadScheduleFromPreferences (set_schedulePoints l' st')
             = loadScheduleFromPreferences st').
  { intros l' st'. unfold loadScheduleFromPreferences.
    cbn [preferences set_schedulePoints].
    destruct (deserializeJson _); reflexivity. }
  split; [apply H | split; [| apply load_frame]].
  rewrite (load_frame st) at 1. apply H.
Qed.
End SaveFacts.

(** ** The clock, day after day *)

Lemma clock_fields_mod_day (a b : Z) :
  a mod 86400 = b mod 86400 ->
  (a / 3600) mod 24 = (b / 3600) mod 24 /\
  (a / 60) mod 60 = (b / 60) mod 60 /\
  a mod 60 = b mod 60.
Proof.
  intros H.
  assert (Ha : forall x, (x / 3600) mod 24 = (x mod 86400) / 3600 /\
                         (x / 60) mod 60 = ((x mod 86400) / 60) mod 60 /\
                         x mod 60 = (x mod 86400) mod 60).
  { intros x.
    pose proof (Z.div_mod x 86400 ltac:(lia)) as D.
    pose proof (Z.mod_pos_bound x 86400 ltac:(lia)) as B.
    set (r := x mod 86400) in *. set (q := x / 86400) in *.
    assert (E : x = r + q * 86400) by lia. clearbody r q. clear D. subst x.
    split; [| split].
    - replace (r + q * 86400) with (r + (q * 24) * 3600) by lia.
      rewrite Z.div_add by lia. rewrite Z.add_mod by lia.
      rewrite Z.mod_mul by lia. rewrite Z.add_0_r, Z.mod_mod by lia.
      apply Z.mod_small. split.
      + apply Z.div_pos; lia.
      + apply Z.div_lt_upper_bound; lia.
    - replace (r + q * 86400) with (r + (q * 1440) * 60) by lia.
      rewrite Z.div_add by lia.
      replace (r / 60 + q * 1440) with (r / 60 + (q * 24) * 60) by lia.
      now rewrite Z.mod_add by lia.
    - replace (r + q * 86400) with (r + (q * 1440) * 60) by lia.
      now rewrite Z.mod_add by lia. }
  destruct (Ha a) as (A1 & A2 & A3), (Ha b) as (B1 & B2 & B3).
  rewrite A1, A2, A3, B1, B2, B3, H. auto.
Qed.

Section Daily.
Context {P : Platform}.

(** As long as the product fits an [int], which it does for offsets up to
    596523 hours either way, the local time is the plain sum. *)
Lemma localNow_plain (st : State) :
  - 596523 <= timezoneOffset st <= 596523 ->
  localNow st = time_at (uptime_ms st) + timezoneOffset st * 3600.
Proof.
  intros H. unfold localNow, int_mul, int_of. f_equal.
  rewrite Z.mod_small; lia.
Qed.

(** X3.  The reading of the clock depends on the second of the local day
    only, the local time being [time(nullptr)] moved by the [int]
    product of the offset and 3600 as the device computes it: two
    moments whose local times are a whole number of days apart read the
    same, and with the same points the schedule asks for the same
    duty. *)
Theorem reading_repeats_daily (st1 st2 : State) :
  localNow st1 mod 86400 = localNow st2 mod 86400 ->
  getCurrentTimeInHours st1 = getCurrentTimeInHours st2 /\
  (schedulePoints st1 = schedulePoints st2 ->
   fst (calculateCurrentDuty st1) = fst (calculateCurrentDuty st2)).
Proof.
  intros H. apply clock_fields_mod_day in H as (H1 & H2 & H3).
  assert (E : getCurrentTimeInHours st1 = getCurrentTimeInHours st2).
  { unfold getCurrentTimeInHours. cbv zeta. now rewrite H1, H2, H3. }
  split; [exact E |].
  intros Hs. rewrite !calculateCurrentDuty_value. now rewrite E, Hs.
Qed.
End Daily.

(** ** Rounding to nearest, ties to even *)

(** *** Nearest integers *)

Lemma rne_spec (N D : Z) :
  0 < D ->
  (rne N D = N / D /\ 2 * (N mod D) <= D /\
   (2 * (N mod D) = D -> Z.even (N / D) = true)) \/
  (rne N D = N / D + 1 /\ D <= 2 * (N mod D) /\
   (2 * (N mod D) = D -> Z.even (N / D) = false)).
Proof.
  intros HD. unfold rne, loc_of.
  pose proof (Z.mod_pos_bound N D HD) as B.
  destruct (Z.eqb_spec (N mod D) 0) as [E | E].
  - left. rewrite E. cbn [round_nearest_even]. repeat split; lia.
  - destruct (Z.compare_spec (2 * (N mod D)) D) as [C | C | C];
      cbn [round_nearest_even].
    + destruct (Z.even (N / D)) eqn:Ev.
      * left. split; [reflexivity | split; [lia | reflexivity]].
      * right. split; [reflexivity | split; [lia | reflexivity]].
    + left. repeat split; lia.
    + right. repeat split; lia.
Qed.

Lemma rne_upper (N D W : Z) : 0 < D -> N <= W * D -> rne N D <= W.
Proof.
  intros HD H. pose proof (Z.div_mod N D ltac:(lia)) as E.
  pose proof (Z.mod_pos_bound N D HD) as B.
  destruct (rne_spec N D HD) as [(R & _) | (R & C & _)]; rewrite R; nia.
Qed.

Lemma rne_lower (N D W : Z) : 0 < D -> W * D <= N -> W <= rne N D.
Proof.
  intros HD H. pose proof (Z.div_mod N D ltac:(lia)) as E.
  pose proof (Z.mod_pos_bound N D HD) as B.
  destruct (rne_spec N D HD) as [(R & _) | (R & C & _)]; rewrite R; nia.
Qed.

Lemma rne_exact (W D : Z) : 0 < D -> rne (W * D) D = W.
Proof.
  intros HD. apply Z.le_antisymm.
  - apply rne_upper; lia.
  - apply rne_lower; lia.
Qed.

Lemma rne_mono (N D N' D' : Z) :
  0 < D -> 0 < D' -> N * D' <= N' * D -> rne N D <= rne N' D'.
Proof.
  intros HD HD' H.
  pose proof (Z.div_mod N D ltac:(lia)) as E.
  pose proof (Z.mod_pos_bound N D HD) as B.
  pose proof (Z.div_mod N' D' ltac:(lia)) as E'.
  pose proof (Z.mod_pos_bound N' D' HD') as B'.
  set (q := N / D) in *. set (r := N mod D) in *.
  set (q' := N' / D') in *. set (r' := N' mod D') in *.
  assert (Hq : q <= q').
  { apply Z.div_le_lower_bound; [lia |].
    apply (Z.mul_le_mono_pos_r _ _ D); [lia |].
    assert (D * q <= N) by lia.
    assert (D' * (D * q) <= D' * N) by (apply Z.mul_le_mono_nonneg_l; lia).
    lia. }
  destruct (Z.eq_dec q q') as [Q | Q].
  - assert (Hr : r * D' <= r' * D) by (subst q'; nia).
    destruct (rne_spec N D HD) as [(R & C1 & C2) | (R & C1 & C2)];
      destruct (rne_spec N' D' HD') as [(R' & C1' & C2') | (R' & C1' & C2')];
      fold q r in R, C1, C2; fold q' r' in R', C1', C2';
      rewrite R, R'; try lia.
    exfalso.
    assert (X1 : 2 * r = D) by nia.
    assert (X2 : 2 * r' = D') by nia.
    specialize (C2 X1). specialize (C2' X2). rewrite Q in C2. congruence.
  - assert (rne N D <= q + 1)
      by (destruct (rne_spec N D HD) as [(R & _) | (R & _)];
          fold q in R; lia).
    assert (q' <= rne N' D')
      by (destruct (rne_spec N' D' HD') as [(R & _) | (R & _)];
          fold q' in R; lia).
    lia.
Qed.

Lemma rne_scale (N D c : Z) :
  0 < D -> 0 < c -> rne (N * c) (D * c) = rne N D.
Proof.
  intros HD Hc. apply Z.le_antisymm; apply rne_mono; nia.
Qed.

Lemma rne_error (N D : Z) :
  0 < D -> 2 * Z.abs (rne N D * D - N) <= D.
Proof.
  intros HD. pose proof (Z.div_mod N D ltac:(lia)) as E.
  pose proof (Z.mod_pos_bound N D HD) as B.
  destruct (rne_spec N D HD) as [(R & C & _) | (R & C & _)]; rewrite R; nia.
Qed.

Lemma rne_nonneg (N D : Z) : 0 < D -> 0 <= N -> 0 <= rne N D.
Proof. intros HD HN. apply rne_lower; lia. Qed.

(** *** The shifts of [SpecFloat] *)

Lemma shr_1_spec (m : Z) (r s : bool) :
  0 <= m ->
  shr_1 (Build_shr_record m r s)
  = Build_shr_record (m / 2) (Z.odd m) (r || s).
Proof.
  intros H. destruct m as [| [p | p |] | p]; try lia; simpl shr_1.
  - reflexivity.
  - assert (E : Z.pos p~1 / 2 = Z.pos p).
    { rewrite Pos2Z.inj_xI.
      replace (2 * Z.pos p + 1) with (1 + Z.pos p * 2) by lia.
      rewrite Z.div_add by lia. reflexivity. }
    rewrite E. reflexivity.
  - assert (E : Z.pos p~0 / 2 = Z.pos p).
    { rewrite Pos2Z.inj_xO.
      replace (2 * Z.pos p) with (0 + Z.pos p * 2) by lia.
      rewrite Z.div_add by lia. reflexivity. }
    rewrite E. reflexivity.
  - reflexivity.
Qed.

Lemma loc_record_inv (mrs : shr_record) :
  shr_record_of_loc (shr_m mrs) (loc_of_shr_record mrs) = mrs.
Proof. destruct mrs as [m [] []]; reflexivity. Qed.

Lemma record_loc_inv (m : Z) (l : location) :
  loc_of_shr_record (shr_record_of_loc m l) = l.
Proof. destruct l as [| []]; reflexivity. Qed.

Lemma RecLoc_step (N D : Z) (mrs : shr_record) :
  0 <= N -> 0 < D -> RecLoc N D mrs -> RecLoc N (D * 2) (shr_1 mrs).
Proof.
  intros HN HD [Hm Hl]. destruct mrs as [m r s]. cbn [shr_m] in Hm.
  assert (Hm0 : 0 <= m) by (rewrite Hm; apply Z.div_pos; lia).
  rewrite shr_1_spec by assumption. split; cbn [shr_m].
  - rewrite Hm, Z.div_div by lia. reflexivity.
  - pose proof (Z.mod_pos_bound N D HD) as B.
    assert (Hmod : N mod (D * 2) = N mod D + D * (m mod 2))
      by (rewrite Hm; apply Z.rem_mul_r; lia).
    assert (Hodd : m mod 2 = if Z.odd m then 1 else 0)
      by (rewrite Zmod_odd; reflexivity).
    unfold loc_of in *. rewrite Hmod, Hodd.
    destruct (Z.eqb_spec (N mod D) 0) as [E | E].
    + assert (Hrs : r = false /\ s = false)
        by (destruct r, s; cbn [loc_of_shr_record] in Hl;
            try discriminate; auto).
      destruct Hrs as [-> ->]. rewrite E.
      destruct (Z.odd m); cbn [loc_of_shr_record orb].
      * destruct (Z.eqb_spec (0 + D * 1) 0); [lia |].
        destruct (Z.compare_spec (2 * (0 + D * 1)) (D * 2)); try lia.
        reflexivity.
      * destruct (Z.eqb_spec (0 + D * 0) 0); [reflexivity | lia].
    + assert (Hrs : (r || s)%bool = true)
        by (destruct r, s; cbn [loc_of_shr_record] in Hl;
            try discriminate; reflexivity).
      rewrite Hrs. destruct (Z.odd m); cbn [loc_of_shr_record].
      * destruct (Z.eqb_spec (N mod D + D * 1) 0); [lia |].
        destruct (Z.compare_spec (2 * (N mod D + D * 1)) (D * 2)); try lia.
        reflexivity.
      * destruct (Z.eqb_spec (N mod D + D * 0) 0); [lia |].
        destruct (Z.compare_spec (2 * (N mod D + D * 0)) (D * 2)); try lia.
        reflexivity.
Qed.

Lemma RecLoc_iter (p : positive) :
  forall N D mrs,
    0 <= N -> 0 < D -> RecLoc N D mrs ->
    RecLoc N (D * 2 ^ Z.pos p) (iter_pos shr_1 p mrs).
Proof.
  induction p as [p IH | p IH |]; intros N D mrs HN HD H; simpl iter_pos.
  - replace (D * 2 ^ Z.pos p~1)
      with (D * 2 * 2 ^ Z.pos p * 2 ^ Z.pos p).
    + apply IH; [lia | |].
      * assert (0 < 2 ^ Z.pos p) by (apply Z.pow_pos_nonneg; lia). nia.
      * apply IH; [lia | lia |]. now apply RecLoc_step.
    + replace (Z.pos p~1) with (1 + Z.pos p + Z.pos p) by lia.
      rewrite !Z.pow_add_r by lia. ring.
  - replace (D * 2 ^ Z.pos p~0) with (D * 2 ^ Z.pos p * 2 ^ Z.pos p).
    + apply IH; [lia | |].
      * assert (0 < 2 ^ Z.pos p) by (apply Z.pow_pos_nonneg; lia). nia.
      * now apply IH.
    + replace (Z.pos p~0) with (Z.pos p + Z.pos p) by lia.
      rewrite !Z.pow_add_r by lia. ring.
  - rewrite Z.pow_1_r. now apply RecLoc_step.
Qed.

Lemma RecLoc_shr (N D : Z) (mrs : shr_record) (e n : Z) :
  0 <= N -> 0 < D -> 0 <= n -> RecLoc N D mrs ->
  RecLoc N (D * 2 ^ n) (fst (shr mrs e n)) /\ snd (shr mrs e n) = e + n.
Proof.
  intros HN HD Hn H. unfold shr. destruct n as [| p | p]; try lia.
  - cbn [fst snd]. rewrite Z.pow_0_r, Z.mul_1_r, Z.add_0_r. auto.
  - cbn [fst snd]. split; [now apply RecLoc_iter | reflexivity].
Qed.

Lemma Zdigits2_unique (q d : Z) :
  0 < d -> 2 ^ (d - 1) <= q < 2 ^ d -> Zdigits2 q = d.
Proof.
  intros Hd [H1 H2].
  assert (0 < 2 ^ (d - 1)) by (apply Z.pow_pos_nonneg; lia).
  assert (Zdigits2 q <= d) by (apply Zdigits2_le_of_lt_pow2; lia).
  pose proof (Zdigits2_lt_pow2 q ltac:(lia)) as H3.
  assert (d - 1 < Zdigits2 q).
  { apply (Z.pow_lt_mono_r_iff 2); [lia | apply Zdigits2_nonneg | lia]. }
  lia.
Qed.

(** ** Rounding a rational to the format *)

Lemma div_le_cross (N D N' D' : Z) :
  0 < D -> 0 < D' -> N * D' <= N' * D -> N / D <= N' / D'.
Proof.
  intros HD HD' H.
  pose proof (Z.div_mod N D ltac:(lia)) as E.
  pose proof (Z.mod_pos_bound N D HD) as B.
  apply Z.div_le_lower_bound; [lia |].
  apply (Z.mul_le_mono_pos_r _ _ D); [lia |].
  assert (D * (N / D) <= N) by lia.
  assert (D' * (D * (N / D)) <= D' * N)
    by (apply Z.mul_le_mono_nonneg_l; lia).
  lia.
Qed.

Lemma pow2_mod_0 (x a b : Z) : 0 <= a <= b -> (x * 2 ^ b) mod 2 ^ a = 0.
Proof.
  intros H. replace b with (b - a + a) by lia.
  rewrite Z.pow_add_r by lia. rewrite Z.mul_assoc.
  apply Z.mod_mul. apply Z.pow_nonzero; lia.
Qed.

Lemma grid_nonneg (prec q : Z) : 0 <= grid prec q.
Proof. unfold grid. lia. Qed.

Lemma grid_mono (prec a b : Z) : 0 <= a <= b -> grid prec a <= grid prec b.
Proof.
  intros H. unfold grid. pose proof (Zdigits2_mono a b H). lia.
Qed.

Lemma repr_multiple (prec U : Z) :
  repr prec U -> exists W, U = W * 2 ^ grid prec U.
Proof.
  intros H. exists (U / 2 ^ grid prec U).
  pose proof (Z.div_mod U (2 ^ grid prec U)) as E.
  assert (0 < 2 ^ grid prec U)
    by (apply Z.pow_pos_nonneg; [lia | apply grid_nonneg]).
  unfold repr in H. rewrite H in E. lia.
Qed.

Section RoundRational.
Variable prec : Z.
Hypothesis Hprec : 0 < prec.

Lemma rnd_nonneg (A B : Z) : 0 <= A -> 0 < B -> 0 <= rnd prec A B.
Proof using Hprec.
  intros HA HB. unfold rnd.
  assert (0 < 2 ^ grid prec (A / B))
    by (apply Z.pow_pos_nonneg; [lia | apply grid_nonneg]).
  apply Z.mul_nonneg_nonneg; [| lia]. apply rne_nonneg; nia.
Qed.

Lemma rnd_upper (A B U : Z) :
  0 <= A -> 0 < B -> repr prec U -> A <= U * B -> rnd prec A B <= U.
Proof using Hprec.
  intros HA HB HU H. unfold rnd.
  set (q := A / B). set (g := grid prec q).
  assert (Hq0 : 0 <= q) by (apply Z.div_pos; lia).
  assert (HqU : q <= U)
    by (apply Z.div_le_upper_bound; lia).
  assert (Hg : 0 <= g <= grid prec U)
    by (split; [apply grid_nonneg | apply grid_mono; lia]).
  destruct (repr_multiple prec U HU) as [W HW].
  assert (Hpg : 0 < 2 ^ g) by (apply Z.pow_pos_nonneg; lia).
  assert (HU' : U = W * 2 ^ (grid prec U - g) * 2 ^ g).
  { rewrite <- Z.mul_assoc, <- Z.pow_add_r by lia.
    now replace (grid prec U - g + g) with (grid prec U) by lia. }
  assert (rne A (B * 2 ^ g) <= W * 2 ^ (grid prec U - g)).
  { apply rne_upper; [nia |]. rewrite HU' in H. lia. }
  rewrite HU' at 1. apply Z.mul_le_mono_nonneg_r; lia.
Qed.

Lemma rnd_floor (A B : Z) :
  0 <= A -> 0 < B ->
  (A / B) / 2 ^ grid prec (A / B) * 2 ^ grid prec (A / B) <= rnd prec A B.
Proof using Hprec.
  intros HA HB. unfold rnd. set (g := grid prec (A / B)).
  assert (Hg : 0 <= g) by apply grid_nonneg.
  assert (Hpg : 0 < 2 ^ g) by (apply Z.pow_pos_nonneg; lia).
  apply Z.mul_le_mono_nonneg_r; [lia |].
  apply rne_lower; [nia |]. rewrite Z.div_div by lia.
  pose proof (Z.div_mod A (B * 2 ^ g) ltac:(nia)) as E.
  pose proof (Z.mod_pos_bound A (B * 2 ^ g) ltac:(nia)) as Bd.
  lia.
Qed.

Lemma rnd_lower (A B U : Z) :
  0 <= A -> 0 < B -> 0 <= U -> repr prec U -> U * B <= A ->
  U <= rnd prec A B.
Proof using Hprec.
  intros HA HB HU0 HU H.
  apply Z.le_trans with (2 := rnd_floor A B HA HB).
  set (q := A / B). set (g := grid prec q).
  assert (HqU : U <= q) by (apply Z.div_le_lower_bound; lia).
  assert (Hg : 0 <= g) by apply grid_nonneg.
  assert (Hpg : 0 < 2 ^ g) by (apply Z.pow_pos_nonneg; lia).
  pose proof (Zdigits2_mono U q ltac:(lia)) as Hd.
  destruct (Z.eq_dec g 0) as [G0 | G0].
  - rewrite G0. simpl. rewrite Z.div_1_r. lia.
  - assert (Egq : g = Zdigits2 q - prec) by (unfold g, grid in *; lia).
    destruct (Z.eq_dec (Zdigits2 U) (Zdigits2 q)) as [Ed | Ed].
    + destruct (repr_multiple prec U HU) as [W HW].
      assert (EgU : grid prec U = g) by (unfold grid; lia).
      rewrite EgU in HW.
      assert (W <= q / 2 ^ g)
        by (apply Z.div_le_lower_bound; lia).
      rewrite HW. apply Z.mul_le_mono_nonneg_r; lia.
    + assert (Hq1 : 0 < q).
      { destruct (Z.eq_dec q 0) as [Q | Q]; [| lia].
        rewrite Q in Egq. simpl in Egq. lia. }
      pose proof (Zdigits2_lt_pow2 U HU0) as HU1.
      pose proof (Zdigits2_ge_pow2 q Hq1) as Hq2.
      assert (2 ^ Zdigits2 U <= 2 ^ (Zdigits2 q - 1))
        by (apply Z.pow_le_mono_r; lia).
      assert (E2 : 2 ^ (Zdigits2 q - 1)
                   = 2 ^ (Zdigits2 q - 1 - g) * 2 ^ g).
      { rewrite <- Z.pow_add_r by lia. f_equal. lia. }
      assert (2 ^ (Zdigits2 q - 1 - g) <= q / 2 ^ g)
        by (apply Z.div_le_lower_bound; lia).
      assert (2 ^ (Zdigits2 q - 1 - g) * 2 ^ g <= q / 2 ^ g * 2 ^ g)
        by (apply Z.mul_le_mono_nonneg_r; lia).
      lia.
Qed.

Lemma repr_pow2 (d : Z) : 0 <= d -> repr prec (2 ^ d).
Proof using Hprec.
  intros Hd. unfold repr.
  assert (Zdigits2 (2 ^ d) = d + 1).
  { apply Zdigits2_unique; [lia |].
    replace (d + 1 - 1) with d by lia. split; [lia |].
    apply Z.pow_lt_mono_r; lia. }
  replace (2 ^ d) with (1 * 2 ^ d) at 1 by lia.
  apply pow2_mod_0. unfold grid. lia.
Qed.

Lemma repr_0 : repr prec 0.
Proof using Hprec. unfold repr. apply Z.mod_0_l. apply Z.pow_nonzero; [lia | apply grid_nonneg]. Qed.

Lemma rnd_mono (A B A' B' : Z) :
  0 <= A -> 0 < B -> 0 <= A' -> 0 < B' ->
  A * B' <= A' * B -> rnd prec A B <= rnd prec A' B'.
Proof using Hprec.
  intros HA HB HA' HB' H.
  pose proof (div_le_cross A B A' B' HB HB' H) as Hq.
  assert (Hq0 : 0 <= A / B) by (apply Z.div_pos; lia).
  pose proof (grid_mono prec (A / B) (A' / B') ltac:(lia)) as Hg.
  pose proof (grid_nonneg prec (A / B)) as Hg0.
  destruct (Z.eq_dec (grid prec (A / B)) (grid prec (A' / B'))) as [G | G].
  - unfold rnd. rewrite <- G. set (g := grid prec (A / B)) in *.
    assert (Hpg : 0 < 2 ^ g) by (apply Z.pow_pos_nonneg; lia).
    apply Z.mul_le_mono_nonneg_r; [lia |].
    apply rne_mono; nia.
  - set (d := Zdigits2 (A / B)).
    assert (Hd0 : 0 <= d) by apply Zdigits2_nonneg.
    assert (Hdd : d < Zdigits2 (A' / B')) by (unfold grid, d in *; lia).
    apply Z.le_trans with (2 ^ d).
    + apply rnd_upper; [lia | lia | now apply repr_pow2 |].
      pose proof (Zdigits2_lt_pow2 (A / B) Hq0) as U. fold d in U.
      pose proof (Z.div_mod A B ltac:(lia)) as E.
      pose proof (Z.mod_pos_bound A B HB) as Bd. nia.
    + apply rnd_lower; [lia | lia | lia | now apply repr_pow2 |].
      assert (Hq1 : 0 < A' / B').
      { destruct (Z.eq_dec (A' / B') 0) as [Q | Q]; [| lia].
        rewrite Q in Hdd. simpl in Hdd. lia. }
      pose proof (Zdigits2_ge_pow2 (A' / B') Hq1) as L.
      assert (2 ^ d <= 2 ^ (Zdigits2 (A' / B') - 1))
        by (apply Z.pow_le_mono_r; lia).
      pose proof (Z.div_mod A' B' ltac:(lia)) as E.
      pose proof (Z.mod_pos_bound A' B' HB') as Bd. nia.
Qed.

Lemma rnd_ext (A B A' B' : Z) :
  0 <= A -> 0 < B -> 0 <= A' -> 0 < B' ->
  A * B' = A' * B -> rnd prec A B = rnd prec A' B'.
Proof using Hprec.
  intros HA HB HA' HB' H. apply Z.le_antisymm; apply rnd_mono; lia.
Qed.

Lemma rnd_exact (U B : Z) :
  0 <= U -> 0 < B -> repr prec U -> rnd prec (U * B) B = U.
Proof using Hprec.
  intros HU HB HR. apply Z.le_antisymm.
  - apply rnd_upper; [nia | lia | assumption | lia].
  - apply rnd_lower; [nia | lia | lia | assumption | lia].
Qed.

Lemma rnd_0 (B : Z) : 0 < B -> rnd prec 0 B = 0.
Proof using Hprec. intros HB. apply (rnd_exact 0 B); [lia | lia | apply repr_0]. Qed.

Lemma rnd_repr (A B : Z) : 0 <= A -> 0 < B -> repr prec (rnd prec A B).
Proof using Hprec.
  intros HA HB. unfold rnd. set (q := A / B). set (g := grid prec q).
  assert (Hq0 : 0 <= q) by (apply Z.div_pos; lia).
  assert (Hg : 0 <= g) by apply grid_nonneg.
  assert (Hpg : 0 < 2 ^ g) by (apply Z.pow_pos_nonneg; lia).
  assert (HD : 0 < B * 2 ^ g) by nia.
  set (f := A / (B * 2 ^ g)).
  assert (Hf : f = q / 2 ^ g) by (unfold f, q; now rewrite Z.div_div by lia).
  assert (Hfb : 0 <= f < 2 ^ prec).
  { split; [apply Z.div_pos; lia |].
    destruct (Zdigits2_div_pow2 q g Hq0 Hg) as [[Hz _] | [Hp Hd]].
    - rewrite Hf, Hz. apply Z.pow_pos_nonneg; lia.
    - rewrite <- Hf in Hp, Hd.
      pose proof (Zdigits2_lt_pow2 f ltac:(lia)) as U.
      assert (2 ^ Zdigits2 f <= 2 ^ prec)
        by (apply Z.pow_le_mono_r; unfold g, grid in *; lia).
      lia. }
  set (v := rne A (B * 2 ^ g)).
  assert (Hv : 0 <= v <= 2 ^ prec).
  { unfold v. destruct (rne_spec A (B * 2 ^ g) HD) as [(R & _) | (R & _)];
      fold f in R; lia. }
  unfold repr.
  destruct (Z.eq_dec v 0) as [V0 | V0].
  { rewrite V0. simpl. apply Z.mod_0_l. apply Z.pow_nonzero; [lia | apply grid_nonneg]. }
  destruct (Z.eq_dec v (2 ^ prec)) as [V1 | V1].
  - rewrite V1, <- Z.pow_add_r by lia.
    replace (2 ^ (prec + g)) with (1 * 2 ^ (prec + g)) at 1 by lia.
    apply pow2_mod_0. split; [apply grid_nonneg |].
    assert (Zdigits2 (2 ^ (prec + g)) = prec + g + 1).
    { apply Zdigits2_unique; [lia |].
      replace (prec + g + 1 - 1) with (prec + g) by lia. split; [lia |].
      apply Z.pow_lt_mono_r; lia. }
    unfold grid. lia.
  - apply pow2_mod_0. split; [apply grid_nonneg |].
    unfold grid. rewrite (Zdigits2_mul_pow2 v g) by lia.
    assert (Zdigits2 v <= prec) by (apply Zdigits2_le_of_lt_pow2; lia).
    lia.
Qed.

Lemma rnd_error (A B : Z) :
  0 <= A -> 0 < B ->
  2 * Z.abs (rnd prec A B * B - A) <= B * 2 ^ grid prec (A / B).
Proof using Hprec.
  intros HA HB. unfold rnd. set (g := grid prec (A / B)).
  assert (Hg : 0 <= g) by apply grid_nonneg.
  assert (Hpg : 0 < 2 ^ g) by (apply Z.pow_pos_nonneg; lia).
  pose proof (rne_error A (B * 2 ^ g) ltac:(nia)) as E.
  replace (rne A (B * 2 ^ g) * 2 ^ g * B)
    with (rne A (B * 2 ^ g) * (B * 2 ^ g)) by ring.
  exact E.
Qed.
Lemma srnd_exact (z : Z) :
  repr prec (Z.abs z) -> srnd prec z 1 = z.
Proof using Hprec.
  intros H. unfold srnd. destruct (Z.ltb_spec z 0).
  - replace (- z) with (Z.abs z * 1) by lia.
    rewrite rnd_exact by (assumption || lia). lia.
  - replace z with (Z.abs z * 1) at 1 by lia.
    rewrite rnd_exact by (assumption || lia). lia.
Qed.

End RoundRational.
Lemma Zdigits2_scale_div (N D j : Z) :
  0 < D -> 0 < N / D -> 0 <= j ->
  Zdigits2 (N * 2 ^ j / D) = Zdigits2 (N / D) + j.
Proof.
  intros HD Hm Hj.
  pose proof (Z.div_mod N D ltac:(lia)) as E.
  pose proof (Z.mod_pos_bound N D HD) as B.
  set (m := N / D) in *. set (d := Zdigits2 m).
  pose proof (Zdigits2_lt_pow2 m ltac:(lia)) as U. fold d in U.
  pose proof (Zdigits2_ge_pow2 m Hm) as L. fold d in L.
  assert (Hd : 0 < d).
  { unfold d. destruct m; try lia. simpl. lia. }
  assert (Hpj : 0 < 2 ^ j) by (apply Z.pow_pos_nonneg; lia).
  apply Zdigits2_unique; [lia |]. split.
  - apply Z.div_le_lower_bound; [lia |].
    replace (d + j - 1) with (d - 1 + j) by lia.
    rewrite Z.pow_add_r by lia.
    assert (D * 2 ^ (d - 1) <= N).
    { apply Z.le_trans with (D * m); [| lia].
      apply Z.mul_le_mono_nonneg_l; lia. }
    assert (D * 2 ^ (d - 1) * 2 ^ j <= N * 2 ^ j)
      by (apply Z.mul_le_mono_nonneg_r; lia).
    lia.
  - apply Z.div_lt_upper_bound; [lia |].
    rewrite Z.pow_add_r by lia.
    assert (N < D * 2 ^ d).
    { apply Z.lt_le_trans with (D * (m + 1)); [lia |].
      apply Z.mul_le_mono_nonneg_l; lia. }
    assert (N * 2 ^ j < D * 2 ^ d * 2 ^ j)
      by (apply Z.mul_lt_mono_pos_r; lia).
    lia.
Qed.

Lemma loc_of_1 (N : Z) : loc_of N 1 = loc_Exact.
Proof. unfold loc_of. now rewrite Z.mod_1_r. Qed.

Lemma srnd_nonneg_arg (prec A B : Z) : 0 <= A -> srnd prec A B = rnd prec A B.
Proof.
  intros H. unfold srnd. destruct (Z.ltb_spec A 0); [lia | reflexivity].
Qed.

Lemma srnd_neg_arg (prec A B : Z) :
  0 < prec -> 0 < B -> A <= 0 -> srnd prec A B = - rnd prec (- A) B.
Proof.
  intros Hp HB H. unfold srnd. destruct (Z.ltb_spec A 0); [reflexivity |].
  assert (A = 0) by lia. subst A. simpl. rewrite rnd_0 by assumption.
  reflexivity.
Qed.

Lemma srnd_cond_Zopp (prec : Z) (s : bool) (A B : Z) :
  0 < prec -> 0 < B -> 0 <= A ->
  srnd prec (cond_Zopp s A) B = cond_Zopp s (rnd prec A B).
Proof.
  intros Hp HB HA. destruct s; simpl.
  - rewrite srnd_neg_arg by lia. now rewrite Z.opp_involutive.
  - now apply srnd_nonneg_arg.
Qed.

Lemma Zdigits2_ge (q k : Z) : 2 ^ (k - 1) <= q -> 0 < q -> k <= Zdigits2 q.
Proof.
  intros H Hq. destruct (Z_le_gt_dec k (Zdigits2 q)) as [L | G]; [exact L |].
  exfalso. pose proof (Zdigits2_lt_pow2 q ltac:(lia)) as U.
  pose proof (Zdigits2_nonneg q).
  assert (2 ^ Zdigits2 q <= 2 ^ (k - 1)) by (apply Z.pow_le_mono_r; lia).
  lia.
Qed.

Lemma Zdigits2_mul_ge (a b : Z) :
  0 < a -> 0 < b -> Zdigits2 a + Zdigits2 b - 1 <= Zdigits2 (a * b).
Proof.
  intros Ha Hb.
  pose proof (Zdigits2_ge_pow2 a Ha) as La.
  pose proof (Zdigits2_ge_pow2 b Hb) as Lb.
  assert (0 < Zdigits2 a) by (destruct a; try lia; simpl; lia).
  assert (0 < Zdigits2 b) by (destruct b; try lia; simpl; lia).
  apply Zdigits2_ge; [| nia].
  replace (Zdigits2 a + Zdigits2 b - 1 - 1)
    with ((Zdigits2 a - 1) + (Zdigits2 b - 1)) by lia.
  rewrite Z.pow_add_r by lia.
  assert (0 < 2 ^ (Zdigits2 a - 1)) by (apply Z.pow_pos_nonneg; lia).
  assert (0 < 2 ^ (Zdigits2 b - 1)) by (apply Z.pow_pos_nonneg; lia).
  nia.
Qed.

Lemma new_location_loc_of (N D : Z) :
  0 < D -> new_location D (N mod D) = loc_of N D.
Proof.
  intros HD. pose proof (Z.mod_pos_bound N D HD) as B.
  unfold new_location, new_location_even, new_location_odd, loc_of.
  destruct (Z.even D) eqn:Ev; [reflexivity |].
  destruct (Z.eqb_spec (N mod D) 0); [reflexivity |]. f_equal.
  assert (Ho : Z.odd D = true) by (rewrite <- Z.negb_even, Ev; reflexivity).
  apply Z.odd_spec in Ho as [k Hk].
  destruct (Z.compare_spec (2 * (N mod D) + 1) D);
    destruct (Z.compare_spec (2 * (N mod D)) D); try reflexivity; lia.
Qed.

Lemma pow2_max_pos (a : Z) : 0 < 2 ^ Z.max a 0.
Proof. apply Z.pow_pos_nonneg; [reflexivity | apply Z.le_max_r]. Qed.

Section Format.
Variables prec emax : Z.
Hypothesis Hprec : 0 < prec.
Hypothesis Hemax : 2 <= emax.

Lemma fexp_max (k : Z) :
  fexp prec emax k = Z.max (k - prec) (emin prec emax).
Proof using Hprec Hemax. reflexivity. Qed.

Lemma round_aux_rne (s : bool) (N D e : Z) :
  0 <= N -> 0 < D ->
  e <= fexp prec emax (Zdigits2 (N / D) + e) ->
  let e1 := fexp prec emax (Zdigits2 (N / D) + e) in
  let v := rne N (D * 2 ^ (e1 - e)) in
  exists m2 e2,
    binary_round_aux prec emax s (N / D) e (loc_of N D)
    = match m2 with
      | Z0 => S754_zero s
      | Zpos p =>
          if e2 <=? emax - prec then S754_finite s p e2
          else S754_infinity s
      | Zneg _ => S754_nan
      end /\
    0 <= m2 /\ e1 <= e2 /\ m2 * 2 ^ (e2 - e1) = v /\
    (0 < m2 -> fexp prec emax (Zdigits2 m2 + e2) = e2).
Proof using Hprec Hemax.
  intros HN HD Hready e1 v.
  set (m := N / D) in *.
  assert (Hm : 0 <= m) by (apply Z.div_pos; lia).
  set (k := e1 - e).
  assert (Hk : 0 <= k) by (unfold k, e1; lia).
  assert (Hpk : 0 < 2 ^ k) by (apply Z.pow_pos_nonneg; lia).
  assert (HDk : 0 < D * 2 ^ k) by nia.
  unfold binary_round_aux, shr_fexp.
  fold e1. fold k.
  destruct (RecLoc_shr N D (shr_record_of_loc m (loc_of N D)) e k HN HD Hk)
    as [[Hm1 Hl1] He1].
  { split; [apply shr_record_of_loc_m | apply record_loc_inv]. }
  destruct (shr (shr_record_of_loc m (loc_of N D)) e k) as [mrs1 e1'].
  cbn [fst snd] in Hm1, Hl1, He1.
  assert (Hv : round_nearest_even (shr_m mrs1) (loc_of_shr_record mrs1) = v)
    by (rewrite Hm1, Hl1; reflexivity).
  rewrite Hv.
  assert (He1' : e1' = e1) by (unfold k in He1; lia).
  clear He1. subst e1'.
  set (f := N / (D * 2 ^ k)).
  assert (Hf : f = m / 2 ^ k) by (unfold f, m; now rewrite Z.div_div by lia).
  assert (Hvf : v = f \/ v = f + 1).
  { unfold v. fold k.
    destruct (rne_spec N (D * 2 ^ k) HDk) as [(R & _) | (R & _)];
      fold f in R; auto. }
  assert (Hf0 : 0 <= f) by (apply Z.div_pos; lia).
  assert (Hv0 : 0 <= v) by lia.
  pose proof (shr_spec (shr_record_of_loc v loc_Exact) e1
                       (fexp prec emax (Zdigits2 v + e1) - e1)) as H2.
  rewrite shr_record_of_loc_m in H2. specialize (H2 Hv0).
  destruct (shr (shr_record_of_loc v loc_Exact) e1 _) as [mrs2 e2].
  cbn [fst snd] in H2. destruct H2 as [Hm2 He2].
  assert (Hcases :
            (fexp prec emax (Zdigits2 v + e1) <= e1 /\
             (0 < v -> fexp prec emax (Zdigits2 v + e1) = e1)) \/
            (fexp prec emax (Zdigits2 v + e1) = e1 + 1 /\ v = 2 ^ prec)).
  { pose proof (fexp_max (Zdigits2 m + e)) as F1. fold e1 in F1.
    destruct (Z_le_gt_dec (emin prec emax) (Zdigits2 m + e - prec))
      as [Hn | Hs].
    - (* normal *)
      assert (Ee1 : e1 = Zdigits2 m + e - prec) by lia.
      assert (Ek : k = Zdigits2 m - prec) by (unfold k; lia).
      destruct (Zdigits2_div_pow2 m k Hm Hk) as [[_ Hd] | [Hfp Hd]];
        [lia |].
      rewrite <- Hf in Hfp, Hd.
      assert (Hdf : Zdigits2 f = prec) by lia.
      pose proof (Zdigits2_lt_pow2 f Hf0) as U. rewrite Hdf in U.
      pose proof (Zdigits2_ge_pow2 f Hfp) as L. rewrite Hdf in L.
      destruct (Z_lt_ge_dec v (2 ^ prec)) as [Hlt | Hge].
      + left. assert (Zdigits2 v = prec)
          by (apply Zdigits2_unique; lia).
        rewrite fexp_max. lia.
      + right. assert (Ev : v = 2 ^ prec) by lia. split; [| exact Ev].
        assert (Zdigits2 v = prec + 1).
        { apply Zdigits2_unique; [lia |].
          replace (prec + 1 - 1) with prec by lia. rewrite Ev.
          split; [lia |]. apply Z.pow_lt_mono_r; lia. }
        rewrite fexp_max. lia.
    - (* subnormal *)
      assert (Ee1 : e1 = emin prec emax) by lia.
      assert (Hfb : f < 2 ^ (prec - 1)).
      { destruct (Zdigits2_div_pow2 m k Hm Hk) as [[Hz _] | [Hfp Hd]].
        - rewrite Hf, Hz. apply Z.pow_pos_nonneg; lia.
        - rewrite <- Hf in Hd.
          pose proof (Zdigits2_lt_pow2 f Hf0) as U.
          assert (2 ^ Zdigits2 f <= 2 ^ (prec - 1))
            by (apply Z.pow_le_mono_r; unfold k in *; lia).
          lia. }
      left.
      assert (Hvb : v < 2 ^ prec).
      { assert (2 ^ (prec - 1) < 2 ^ prec)
          by (apply Z.pow_lt_mono_r; lia). lia. }
      assert (Zdigits2 v <= prec)
        by (apply Zdigits2_le_of_lt_pow2; lia).
      rewrite fexp_max. lia. }
  destruct Hcases as [[Hle Hcan] | [Hn2 Ev]].
  - exists v, e1.
    assert (Em : shr_m mrs2 = v).
    { rewrite Hm2, Z.max_l by lia. simpl. apply Z.div_1_r. }
    assert (Ee : e2 = e1) by lia. clear He2. subst e2.
    split; [rewrite <- Em; reflexivity |].
    split; [exact Hv0 |]. split; [lia |].
    split; [rewrite Z.sub_diag; simpl; lia |].
    exact Hcan.
  - exists (2 ^ (prec - 1)), (e1 + 1).
    assert (Em : shr_m mrs2 = 2 ^ (prec - 1)).
    { rewrite Hm2, Hn2. replace (Z.max 0 (e1 + 1 - e1)) with 1 by lia.
      rewrite Ev. replace prec with (prec - 1 + 1) at 1 by lia.
      rewrite Z.pow_add_r by lia. apply Z.div_mul. lia. }
    assert (Ee : e2 = e1 + 1) by lia. clear He2. subst e2.
    assert (Hp : 0 < 2 ^ (prec - 1)) by (apply Z.pow_pos_nonneg; lia).
    split; [rewrite <- Em; reflexivity |].
    split; [lia |]. split; [lia |].
    split.
    { replace (e1 + 1 - e1) with 1 by lia. rewrite Ev.
      replace prec with (prec - 1 + 1) at 2 by lia.
      now rewrite Z.pow_add_r by lia. }
    intros _.
    assert (Zdigits2 (2 ^ (prec - 1)) = prec).
    { apply Zdigits2_unique; [lia |]. split; [lia |].
      apply Z.pow_lt_mono_r; lia. }
    rewrite fexp_max.
    pose proof (fexp_max (Zdigits2 m + e)) as F1. fold e1 in F1. lia.
Qed.
Lemma emin_nonpos : emin prec emax <= 0.
Proof using Hprec Hemax. unfold emin. lia. Qed.

Lemma round_aux_rnd (s : bool) (N D e : Z) :
  0 <= N -> 0 < D ->
  e <= fexp prec emax (Zdigits2 (N / D) + e) ->
  let A := N * 2 ^ Z.max (e - emin prec emax) 0 in
  let B := D * 2 ^ Z.max (emin prec emax - e) 0 in
  let R := binary_round_aux prec emax s (N / D) e (loc_of N D) in
  rnd prec A B < ovf prec emax ->
  fin prec emax R = true /\ sval prec emax R = cond_Zopp s (rnd prec A B).
Proof using Hprec Hemax.
  intros HN HD Hready A B R Hovf.
  destruct (round_aux_rne s N D e HN HD Hready)
    as (m2 & e2 & HR & Hm2 & He12 & Hval & Hcan).
  fold R in HR.
  set (e1 := fexp prec emax (Zdigits2 (N / D) + e)) in *.
  set (em := emin prec emax) in *.
  set (m := N / D) in *.
  assert (Hm : 0 <= m) by (apply Z.div_pos; lia).
  pose proof (fexp_max (Zdigits2 m + e)) as F1.
  fold e1 em in F1.
  assert (He1 : em <= e1) by lia.
  (* the rounded value, in units of the smallest positive number *)
  assert (Hrnd : rnd prec A B = rne N (D * 2 ^ (e1 - e)) * 2 ^ (e1 - em)).
  { unfold rnd.
    assert (Hg : grid prec (A / B) = e1 - em).
    { unfold grid, A, B.
      destruct (Z_le_gt_dec em e) as [Hge | Hlt].
      - rewrite (Z.max_r (em - e) 0) by lia. rewrite Z.mul_1_r.
        rewrite (Z.max_l (e - em) 0) by lia.
        destruct (Z.eq_dec e em) as [Ee | Ee].
        + replace (e - em) with 0 by lia. rewrite Z.mul_1_r. fold m. lia.
        + assert (0 < m).
          { destruct (Z.eq_dec m 0) as [M0 | M0]; [| lia].
            rewrite M0 in F1. simpl in F1. lia. }
          rewrite Zdigits2_scale_div by (fold m; lia). fold m. lia.
      - rewrite (Z.max_l (em - e) 0) by lia.
        rewrite (Z.max_r (e - em) 0) by lia. rewrite Z.mul_1_r.
        rewrite <- Z.div_div by (try apply Z.pow_pos_nonneg; lia).
        fold m.
        destruct (Zdigits2_div_pow2 m (em - e) Hm ltac:(lia))
          as [[Hz Hd] | [Hp Hd]].
        + rewrite Hz. simpl. lia.
        + rewrite Hd. lia. }
    rewrite Hg. f_equal. unfold A, B.
    destruct (Z_le_gt_dec em e) as [Hge | Hlt].
    - rewrite (Z.max_r (em - e) 0) by lia. rewrite Z.mul_1_r.
      rewrite (Z.max_l (e - em) 0) by lia.
      replace (D * 2 ^ (e1 - em))
        with (D * 2 ^ (e1 - e) * 2 ^ (e - em)).
      + apply rne_scale.
        * assert (0 < 2 ^ (e1 - e)) by (apply Z.pow_pos_nonneg; lia). nia.
        * apply Z.pow_pos_nonneg; lia.
      + rewrite <- Z.mul_assoc, <- Z.pow_add_r by lia.
        do 2 f_equal. lia.
    - rewrite (Z.max_l (em - e) 0) by lia.
      rewrite (Z.max_r (e - em) 0) by lia. rewrite Z.mul_1_r.
      f_equal. rewrite <- Z.mul_assoc, <- Z.pow_add_r by lia.
      do 2 f_equal. lia. }
  assert (Hu : rnd prec A B = m2 * 2 ^ (e2 - em)).
  { rewrite Hrnd, <- Hval, <- Z.mul_assoc, <- Z.pow_add_r by lia.
    do 2 f_equal. lia. }
  destruct m2 as [| p | p]; [| | lia].
  - rewrite HR. split; [reflexivity |].
    rewrite Hu. simpl. now destruct s.
  - specialize (Hcan ltac:(lia)).
    pose proof (fexp_max (Zdigits2 (Z.pos p) + e2)) as F2.
    fold em in F2.
    assert (Hfit : e2 <= emax - prec).
    { destruct (Z_le_gt_dec e2 (emax - prec)) as [Hle | Hgt]; [exact Hle |].
      exfalso.
      assert (Hd : Zdigits2 (Z.pos p) = prec) by (unfold em, emin in *; lia).
      pose proof (Zdigits2_ge_pow2 (Z.pos p) ltac:(lia)) as L.
      rewrite Hd in L.
      assert (2 ^ (emax - em) <= 2 ^ (prec - 1) * 2 ^ (e2 - em)).
      { rewrite <- Z.pow_add_r by lia. apply Z.pow_le_mono_r; lia. }
      assert (0 < 2 ^ (e2 - em)) by (apply Z.pow_pos_nonneg; lia).
      assert (2 ^ (prec - 1) * 2 ^ (e2 - em) <= Z.pos p * 2 ^ (e2 - em))
        by (apply Z.mul_le_mono_nonneg_r; lia).
      unfold ovf in Hovf. fold em in Hovf. lia. }
    rewrite HR.
    destruct (Z.leb_spec e2 (emax - prec)) as [_ | Hgt]; [| lia].
    split.
    + unfold fin, valid_binary, bounded, canonical_mantissa.
      change (Z.pos (digits2_pos p)) with (Zdigits2 (Z.pos p)).
      rewrite Hcan, Z.eqb_refl.
      destruct (Z.leb_spec e2 (emax - prec)); [reflexivity | lia].
    + unfold sval. fold em. now rewrite Hu.
Qed.
Lemma fin_finite (s : bool) (m : positive) (e : Z) :
  fin prec emax (S754_finite s m e) = true ->
  emin prec emax <= e <= emax - prec /\
  fexp prec emax (Zdigits2 (Z.pos m) + e) = e.
Proof using Hprec Hemax.
  unfold fin, valid_binary, bounded, canonical_mantissa.
  change (Z.pos (digits2_pos m)) with (Zdigits2 (Z.pos m)).
  intros H. apply andb_prop in H as [H _]. apply andb_prop in H as [H1 H2].
  apply Z.eqb_eq in H1. apply Z.leb_le in H2.
  pose proof (fexp_max (Zdigits2 (Z.pos m) + e)). lia.
Qed.

Lemma fin_repr (x : spec_float) :
  fin prec emax x = true ->
  repr prec (Z.abs (sval prec emax x)) /\
  Z.abs (sval prec emax x) < ovf prec emax.
Proof using Hprec Hemax.
  intros H.
  assert (H0 : repr prec 0 /\ 0 < ovf prec emax).
  { split; [now apply repr_0 |]. unfold ovf. apply Z.pow_pos_nonneg;
      unfold emin; lia. }
  destruct x as [s | s | | s m e]; try exact H0.
  apply fin_finite in H as [[He1 He2] Hc].
  pose proof (fexp_max (Zdigits2 (Z.pos m) + e)) as F.
  set (em := emin prec emax) in *.
  assert (Hp : 0 < 2 ^ (e - em)) by (apply Z.pow_pos_nonneg; lia).
  assert (Ha : Z.abs (sval prec emax (S754_finite s m e))
               = Z.pos m * 2 ^ (e - em)).
  { assert (0 < Z.pos m * 2 ^ (e - em)) by (apply Z.mul_pos_pos; lia).
    unfold sval. fold em. destruct s; cbn [cond_Zopp]; lia. }
  rewrite Ha. split.
  - unfold repr. apply pow2_mod_0. split; [apply grid_nonneg |].
    unfold grid. rewrite Zdigits2_mul_pow2 by lia. lia.
  - unfold ovf. fold em.
    pose proof (Zdigits2_lt_pow2 (Z.pos m) ltac:(lia)) as U.
    assert (2 ^ Zdigits2 (Z.pos m) * 2 ^ (e - em) <= 2 ^ (emax - em)).
    { rewrite <- Z.pow_add_r by (try apply Zdigits2_nonneg; lia).
      apply Z.pow_le_mono_r; lia. }
    nia.
Qed.

Lemma round_aux_exact (s : bool) (M e : Z) :
  0 <= M ->
  e <= fexp prec emax (Zdigits2 M + e) ->
  let A := M * 2 ^ Z.max (e - emin prec emax) 0 in
  let B := 2 ^ Z.max (emin prec emax - e) 0 in
  let R := binary_round_aux prec emax s M e loc_Exact in
  rnd prec A B < ovf prec emax ->
  fin prec emax R = true /\ sval prec emax R = cond_Zopp s (rnd prec A B).
Proof using Hprec Hemax.
  intros HM Hready A B R Hovf.
  pose proof (round_aux_rnd  s M 1 e HM ltac:(lia)) as H.
  rewrite Z.div_1_r, loc_of_1, Z.mul_1_l in H.
  exact (H Hready Hovf).
Qed.

Lemma normalize_sval (M e : Z) (sz : bool) :
  let A := M * 2 ^ Z.max (e - emin prec emax) 0 in
  let B := 2 ^ Z.max (emin prec emax - e) 0 in
  let R := binary_normalize prec emax M e sz in
  rnd prec (Z.abs A) B < ovf prec emax ->
  fin prec emax R = true /\ sval prec emax R = srnd prec A B.
Proof using Hprec Hemax.
  intros A B R Hovf.
  set (em := emin prec emax) in *.
  assert (HB : 0 < B) by (apply Z.pow_pos_nonneg; lia).
  assert (HP : 0 < 2 ^ Z.max (e - em) 0) by (apply Z.pow_pos_nonneg; lia).
  assert (Hkey : forall s p,
             rnd prec (Z.pos p * 2 ^ Z.max (e - em) 0) B < ovf prec emax ->
             fin prec emax (binary_round prec emax s p e) = true /\
             sval prec emax (binary_round prec emax s p e)
             = cond_Zopp s (rnd prec (Z.pos p * 2 ^ Z.max (e - em) 0) B)).
  { intros s p Ho. unfold binary_round.
    pose proof (shl_align_spec p e (fexp prec emax (Z.pos (digits2_pos p) + e)))
      as [Hmz Hez].
    change (Z.pos (digits2_pos p)) with (Zdigits2 (Z.pos p)) in *.
    set (F := fexp prec emax (Zdigits2 (Z.pos p) + e)) in *.
    destruct (shl_align p e F) as [mz ez]. cbn [fst snd] in Hmz, Hez.
    assert (Hd : Zdigits2 (Z.pos mz) + ez = Zdigits2 (Z.pos p) + e).
    { rewrite Hmz, Zdigits2_mul_pow2 by lia. lia. }
    assert (Hready : ez <= fexp prec emax (Zdigits2 (Z.pos mz) + ez))
      by (rewrite Hd; fold F; lia).
    assert (Hext : rnd prec (Z.pos mz * 2 ^ Z.max (ez - em) 0)
                       (2 ^ Z.max (em - ez) 0)
                   = rnd prec (Z.pos p * 2 ^ Z.max (e - em) 0) B).
    { pose proof (pow2_max_pos (ez - em)). pose proof (pow2_max_pos (em - ez)).
      apply rnd_ext;
        [assumption | apply Z.mul_nonneg_nonneg; lia | assumption
         | apply Z.mul_nonneg_nonneg; lia | assumption |].
      unfold B. rewrite Hmz. clear - Hez.
      rewrite <- !Z.mul_assoc, <- !Z.pow_add_r by lia.
      do 2 f_equal. lia. }
    pose proof (round_aux_exact s (Z.pos mz) ez ltac:(lia) Hready) as H.
    fold em in H. cbv zeta in H. rewrite Hext in H. exact (H Ho). }
  unfold R, A in *. destruct M as [| p | p].
  - split; [reflexivity |]. simpl. rewrite srnd_nonneg_arg by lia.
    now rewrite rnd_0.
  - rewrite Z.abs_eq in Hovf by lia.
    destruct (Hkey false p Hovf) as [H1 H2]. split; [exact H1 |].
    simpl binary_normalize. rewrite H2. simpl cond_Zopp.
    rewrite srnd_nonneg_arg by lia. reflexivity.
  - assert (E : Z.abs (Z.neg p * 2 ^ Z.max (e - em) 0)
                = Z.pos p * 2 ^ Z.max (e - em) 0) by lia.
    rewrite E in Hovf.
    destruct (Hkey true p Hovf) as [H1 H2]. split; [exact H1 |].
    simpl binary_normalize. rewrite H2.
    replace (Z.neg p * 2 ^ Z.max (e - em) 0)
      with (cond_Zopp true (Z.pos p * 2 ^ Z.max (e - em) 0))
      by (cbn [cond_Zopp]; now rewrite <- Z.mul_opp_l).
    rewrite srnd_cond_Zopp by lia. reflexivity.
Qed.

Lemma aligned_sval (s : bool) (m : positive) (e ez : Z) :
  emin prec emax <= ez <= e ->
  cond_Zopp s (Z.pos (fst (shl_align m e ez)))
  * 2 ^ Z.max (ez - emin prec emax) 0
  = sval prec emax (S754_finite s m e).
Proof using Hprec Hemax.
  intros H. pose proof (shl_align_spec m e ez) as [Hm _].
  assert (E : Z.pos (fst (shl_align m e ez))
              * 2 ^ Z.max (ez - emin prec emax) 0
              = Z.pos m * 2 ^ (e - emin prec emax)).
  { rewrite Hm, Z.min_r, Z.max_l by lia.
    rewrite <- Z.mul_assoc, <- Z.pow_add_r by lia. do 2 f_equal. lia. }
  unfold sval. destruct s; cbn [cond_Zopp].
  - now rewrite Z.mul_opp_l, E.
  - exact E.
Qed.

Lemma add_sval (x y : spec_float) :
  fin prec emax x = true -> fin prec emax y = true ->
  rnd prec (Z.abs (sval prec emax x + sval prec emax y)) 1 < ovf prec emax ->
  fin prec emax (SFadd prec emax x y) = true /\
  sval prec emax (SFadd prec emax x y)
  = srnd prec (sval prec emax x + sval prec emax y) 1.
Proof using Hprec Hemax.
  intros Hx Hy Hovf.
  pose proof (fin_repr x Hx) as [Rx _]. pose proof (fin_repr y Hy) as [Ry _].
  destruct x as [sx | sx | | sx mx ex]; try discriminate Hx;
    destruct y as [sy | sy | | sy my ey]; try discriminate Hy.
  - split; [now destruct sx, sy |].
    destruct sx, sy; simpl; rewrite srnd_nonneg_arg, rnd_0; lia.
  - split; [exact Hy |]. cbn [SFadd]. rewrite Z.add_0_l.
    now rewrite srnd_exact.
  - split; [exact Hx |]. cbn [SFadd]. rewrite Z.add_0_r.
    now rewrite srnd_exact.
  - pose proof (fin_finite _ _ _ Hx) as [[Hx1 _] _].
    pose proof (fin_finite _ _ _ Hy) as [[Hy1 _] _].
    cbn [SFadd].
    set (ez := Z.min ex ey).
    set (M := cond_Zopp sx (Z.pos (fst (shl_align mx ex ez)))
              + cond_Zopp sy (Z.pos (fst (shl_align my ey ez)))).
    assert (HM : M * 2 ^ Z.max (ez - emin prec emax) 0
                 = sval prec emax (S754_finite sx mx ex)
                   + sval prec emax (S754_finite sy my ey)).
    { unfold M. rewrite Z.mul_add_distr_r.
      rewrite !aligned_sval by (unfold ez; lia). reflexivity. }
    pose proof (normalize_sval M ez false) as H. cbv zeta in H.
    rewrite HM in H.
    replace (Z.max (emin prec emax - ez) 0) with 0 in H by (unfold ez; lia).
    exact (H Hovf).
Qed.

Lemma sub_sval (x y : spec_float) :
  fin prec emax x = true -> fin prec emax y = true ->
  rnd prec (Z.abs (sval prec emax x - sval prec emax y)) 1 < ovf prec emax ->
  fin prec emax (SFsub prec emax x y) = true /\
  sval prec emax (SFsub prec emax x y)
  = srnd prec (sval prec emax x - sval prec emax y) 1.
Proof using Hprec Hemax.
  intros Hx Hy Hovf.
  pose proof (fin_repr x Hx) as [Rx _]. pose proof (fin_repr y Hy) as [Ry _].
  destruct x as [sx | sx | | sx mx ex]; try discriminate Hx;
    destruct y as [sy | sy | | sy my ey]; try discriminate Hy.
  - split; [now destruct sx, sy |].
    destruct sx, sy; simpl; rewrite srnd_nonneg_arg, rnd_0; lia.
  - cbn [SFsub]. split.
    + unfold fin in *. exact Hy.
    + rewrite Z.sub_0_l. rewrite srnd_exact by (try exact Hprec; now rewrite Z.abs_opp).
      unfold sval. destruct sy; simpl; lia.
  - split; [exact Hx |]. cbn [SFsub]. rewrite Z.sub_0_r.
    now rewrite srnd_exact.
  - pose proof (fin_finite _ _ _ Hx) as [[Hx1 _] _].
    pose proof (fin_finite _ _ _ Hy) as [[Hy1 _] _].
    cbn [SFsub].
    set (ez := Z.min ex ey).
    set (M := cond_Zopp sx (Z.pos (fst (shl_align mx ex ez)))
              - cond_Zopp sy (Z.pos (fst (shl_align my ey ez)))).
    assert (HM : M * 2 ^ Z.max (ez - emin prec emax) 0
                 = sval prec emax (S754_finite sx mx ex)
                   - sval prec emax (S754_finite sy my ey)).
    { unfold M. rewrite Z.mul_sub_distr_r.
      rewrite !aligned_sval by (unfold ez; lia). reflexivity. }
    pose proof (normalize_sval M ez false) as H. cbv zeta in H.
    rewrite HM in H.
    replace (Z.max (emin prec emax - ez) 0) with 0 in H by (unfold ez; lia).
    exact (H Hovf).
Qed.
Lemma mul_sval (x y : spec_float) :
  fin prec emax x = true -> fin prec emax y = true ->
  rnd prec (Z.abs (sval prec emax x * sval prec emax y))
      (2 ^ (- emin prec emax)) < ovf prec emax ->
  fin prec emax (SFmul prec emax x y) = true /\
  sval prec emax (SFmul prec emax x y)
  = srnd prec (sval prec emax x * sval prec emax y) (2 ^ (- emin prec emax)).
Proof using Hprec Hemax.
  intros Hx Hy Hovf.
  pose proof (emin_nonpos ) as Hem.
  set (em := emin prec emax) in *.
  assert (HB : 0 < 2 ^ (- em)) by (apply Z.pow_pos_nonneg; lia).
  assert (Hz : srnd prec 0 (2 ^ (- em)) = 0)
    by (rewrite srnd_nonneg_arg, rnd_0; lia).
  destruct x as [sx | sx | | sx mx ex]; try discriminate Hx;
    destruct y as [sy | sy | | sy my ey]; try discriminate Hy;
    try (split; [reflexivity | cbn [SFmul sval];
                 rewrite ?Z.mul_0_l, ?Z.mul_0_r; now rewrite Hz]).
  pose proof (fin_finite  _ _ _ Hx) as [[Hx1 Hx2] Hxc].
  pose proof (fin_finite  _ _ _ Hy) as [[Hy1 Hy2] Hyc].
  pose proof (fexp_max (Zdigits2 (Z.pos mx) + ex)) as Fx.
  pose proof (fexp_max (Zdigits2 (Z.pos my) + ey)) as Fy.
  fold em in Hx1, Hy1, Fx, Fy.
  cbn [SFmul]. rewrite Pos2Z.inj_mul.
  set (M := Z.pos mx * Z.pos my). set (e := ex + ey).
  assert (HM : 0 < M) by (unfold M; lia).
  pose proof (Zdigits2_mul_ge (Z.pos mx) (Z.pos my) ltac:(lia) ltac:(lia))
    as Hd. fold M in Hd.
  assert (0 < Zdigits2 (Z.pos mx)) by (simpl; lia).
  assert (0 < Zdigits2 (Z.pos my)) by (simpl; lia).
  assert (Hready : e <= fexp prec emax (Zdigits2 M + e)).
  { rewrite fexp_max. fold em. unfold e. lia. }
  set (ux := Z.pos mx * 2 ^ (ex - em)).
  set (uy := Z.pos my * 2 ^ (ey - em)).
  assert (Hux : 0 < ux)
    by (apply Z.mul_pos_pos; [lia | apply Z.pow_pos_nonneg; lia]).
  assert (Huy : 0 < uy)
    by (apply Z.mul_pos_pos; [lia | apply Z.pow_pos_nonneg; lia]).
  assert (Hs : sval prec emax (S754_finite sx mx ex)
               * sval prec emax (S754_finite sy my ey)
               = cond_Zopp (xorb sx sy) (ux * uy)).
  { unfold sval. fold em ux uy. destruct sx, sy; cbn [cond_Zopp xorb]; ring. }
  rewrite Hs in *.
  assert (Habs : Z.abs (cond_Zopp (xorb sx sy) (ux * uy)) = ux * uy)
    by (pose proof (Z.mul_pos_pos ux uy Hux Huy);
        destruct (xorb sx sy); cbn [cond_Zopp]; lia).
  rewrite Habs in Hovf.
  assert (Hext : rnd prec (M * 2 ^ Z.max (e - em) 0) (2 ^ Z.max (em - e) 0)
                 = rnd prec (ux * uy) (2 ^ (- em))).
  { pose proof (pow2_max_pos (e - em)). pose proof (pow2_max_pos (em - e)).
    pose proof (Z.mul_pos_pos ux uy Hux Huy).
    apply rnd_ext;
      [assumption | apply Z.mul_nonneg_nonneg; lia | assumption
       | lia | assumption |].
    unfold ux, uy, M.
    replace (Z.pos mx * 2 ^ (ex - em) * (Z.pos my * 2 ^ (ey - em))
             * 2 ^ Z.max (em - e) 0)
      with (Z.pos mx * Z.pos my
            * (2 ^ (ex - em) * 2 ^ (ey - em) * 2 ^ Z.max (em - e) 0))
      by ring.
    unfold e. clear - Hx1 Hy1 Hem.
    rewrite <- !Z.mul_assoc, <- !Z.pow_add_r by lia.
    do 3 f_equal. lia. }
  pose proof (round_aux_exact (xorb sx sy) M e
                              ltac:(lia) Hready) as Hra.
  fold em in Hra. cbv zeta in Hra. rewrite Hext in Hra.
  destruct (Hra Hovf) as [H1 H2]. split; [exact H1 |].
  rewrite H2. symmetry.
  apply srnd_cond_Zopp; [assumption | assumption |].
  apply Z.lt_le_incl, Z.mul_pos_pos; assumption.
Qed.

Lemma div_core_spec (mx : positive) (ex : Z) (my : positive) (ey : Z) :
  let e' := Z.min (fexp prec emax (Zdigits2 (Z.pos mx) + ex
                                   - (Zdigits2 (Z.pos my) + ey)))
                  (ex - ey) in
  let N := Z.pos mx * 2 ^ (ex - ey - e') in
  SFdiv_core_binary prec emax (Z.pos mx) ex (Z.pos my) ey
  = (N / Z.pos my, e', loc_of N (Z.pos my)).
Proof using Hprec Hemax.
  intros e' N. unfold SFdiv_core_binary. fold e'.
  set (s := ex - ey - e') in *.
  assert (Hs : 0 <= s) by (unfold s, e'; lia).
  assert (Hm : match s with
               | Z.pos _ => Z.shiftl (Z.pos mx) s
               | 0 => Z.pos mx
               | Z.neg _ => 0
               end = N).
  { unfold N. destruct s as [| p | p]; try lia.
    now rewrite Z.shiftl_mul_pow2 by lia. }
  rewrite Hm.
  rewrite <- (new_location_loc_of N (Z.pos my)) by lia.
  unfold Z.div, Z.modulo.
  destruct (Z.div_eucl N (Z.pos my)) as [q r]. reflexivity.
Qed.

Lemma div_abs_sval (x y : spec_float) :
  fin prec emax x = true -> fin prec emax y = true ->
  sval prec emax y <> 0 ->
  rnd prec (Z.abs (sval prec emax x) * 2 ^ (- emin prec emax))
      (Z.abs (sval prec emax y))
  < ovf prec emax ->
  fin prec emax (SFdiv prec emax x y) = true /\
  sval prec emax (SFdiv prec emax x y)
  = cond_Zopp (xorb (sval prec emax x <? 0) (sval prec emax y <? 0))
      (rnd prec (Z.abs (sval prec emax x) * 2 ^ (- emin prec emax))
           (Z.abs (sval prec emax y))).
Proof using Hprec Hemax.
  intros Hx Hy Hy0 Hovf.
  pose proof (emin_nonpos ) as Hem.
  set (em := emin prec emax) in *.
  assert (HB : 0 < 2 ^ (- em)) by (apply Z.pow_pos_nonneg; lia).
  destruct y as [sy | sy | | sy my ey]; try discriminate Hy;
    try (cbn [sval] in Hy0; lia).
  pose proof (fin_finite  _ _ _ Hy) as [[Hy1 Hy2] Hyc].
  fold em in Hy1.
  set (uy := Z.pos my * 2 ^ (ey - em)).
  assert (Huy : 0 < uy)
    by (apply Z.mul_pos_pos; [lia | apply Z.pow_pos_nonneg; lia]).
  assert (Sy : sval prec emax (S754_finite sy my ey) = cond_Zopp sy uy)
    by reflexivity.
  assert (Ay : Z.abs (sval prec emax (S754_finite sy my ey)) = uy)
    by (rewrite Sy; destruct sy; cbn [cond_Zopp]; lia).
  assert (Ny : (sval prec emax (S754_finite sy my ey) <? 0) = sy).
  { rewrite Sy. destruct sy; cbn [cond_Zopp];
      [apply Z.ltb_lt | apply Z.ltb_ge]; lia. }
  rewrite Ay in Hovf |- *. rewrite Ny. clear Sy Ay Ny Hy0.
  destruct x as [sx | sx | | sx mx ex]; try discriminate Hx.
  { split; [reflexivity |]. cbn [SFdiv sval Z.abs]. rewrite Z.mul_0_l.
    rewrite rnd_0 by assumption. now destruct (xorb _ _). }
  pose proof (fin_finite  _ _ _ Hx) as [[Hx1 Hx2] Hxc].
  fold em in Hx1.
  set (ux := Z.pos mx * 2 ^ (ex - em)).
  assert (Hux : 0 < ux)
    by (apply Z.mul_pos_pos; [lia | apply Z.pow_pos_nonneg; lia]).
  assert (Sx : sval prec emax (S754_finite sx mx ex) = cond_Zopp sx ux)
    by reflexivity.
  assert (Ax : Z.abs (sval prec emax (S754_finite sx mx ex)) = ux)
    by (rewrite Sx; destruct sx; cbn [cond_Zopp]; lia).
  assert (Nx : (sval prec emax (S754_finite sx mx ex) <? 0) = sx).
  { rewrite Sx. destruct sx; cbn [cond_Zopp];
      [apply Z.ltb_lt | apply Z.ltb_ge]; lia. }
  rewrite Ax in Hovf |- *. rewrite Nx. clear Sx Ax Nx.
  cbn [SFdiv]. rewrite div_core_spec.
  set (d1 := Zdigits2 (Z.pos mx)). set (d2 := Zdigits2 (Z.pos my)).
  set (e' := Z.min (fexp prec emax (d1 + ex - (d2 + ey))) (ex - ey)).
  set (s := ex - ey - e').
  assert (Hs : 0 <= s) by (unfold s, e'; lia).
  set (N := Z.pos mx * 2 ^ s).
  assert (Hps : 0 < 2 ^ s) by (apply Z.pow_pos_nonneg; lia).
  assert (HN : 0 < N) by (unfold N; nia).
  assert (Hq0 : 0 <= N / Z.pos my) by (apply Z.div_pos; lia).
  assert (Hdq : d1 + s - d2 <= Zdigits2 (N / Z.pos my)).
  { pose proof (Zdigits2_nonneg (N / Z.pos my)).
    destruct (Z_le_gt_dec (d1 + s - d2) 0) as [L | G]; [lia |].
    pose proof (Zdigits2_ge_pow2 (Z.pos mx) ltac:(lia)) as L1. fold d1 in L1.
    pose proof (Zdigits2_lt_pow2 (Z.pos my) ltac:(lia)) as U2. fold d2 in U2.
    assert (0 < d2) by (unfold d2; simpl; lia).
    assert (0 < d1) by (unfold d1; simpl; lia).
    assert (Hq : 2 ^ (d1 + s - d2 - 1) <= N / Z.pos my).
    { apply Z.div_le_lower_bound; [lia |].
      assert (E : 2 ^ (d1 - 1) * 2 ^ s
                  = 2 ^ d2 * 2 ^ (d1 + s - d2 - 1)).
      { rewrite <- !Z.pow_add_r by lia. f_equal. lia. }
      assert (0 < 2 ^ (d1 + s - d2 - 1)) by (apply Z.pow_pos_nonneg; lia).
      unfold N. nia. }
    assert (0 < 2 ^ (d1 + s - d2 - 1)) by (apply Z.pow_pos_nonneg; lia).
    apply Zdigits2_ge; lia. }
  assert (Hready : e' <= fexp prec emax (Zdigits2 (N / Z.pos my) + e')).
  { pose proof (fexp_max (Zdigits2 (N / Z.pos my) + e')).
    pose proof (fexp_max (d1 + ex - (d2 + ey))).
    unfold s, e' in *. lia. }
  assert (Hext : rnd prec (N * 2 ^ Z.max (e' - em) 0)
                     (Z.pos my * 2 ^ Z.max (em - e') 0)
                 = rnd prec (ux * 2 ^ (- em)) uy).
  { pose proof (pow2_max_pos (e' - em)). pose proof (pow2_max_pos (em - e')).
    apply rnd_ext;
      [assumption | apply Z.mul_nonneg_nonneg; lia
       | apply Z.mul_pos_pos; [reflexivity | assumption]
       | apply Z.mul_nonneg_nonneg; lia | assumption |].
    unfold ux, uy, N.
    replace (Z.pos mx * 2 ^ s * 2 ^ Z.max (e' - em) 0
             * (Z.pos my * 2 ^ (ey - em)))
      with (Z.pos mx * Z.pos my
            * (2 ^ s * 2 ^ Z.max (e' - em) 0 * 2 ^ (ey - em))) by ring.
    replace (Z.pos mx * 2 ^ (ex - em) * 2 ^ (- em)
             * (Z.pos my * 2 ^ Z.max (em - e') 0))
      with (Z.pos mx * Z.pos my
            * (2 ^ (ex - em) * 2 ^ (- em) * 2 ^ Z.max (em - e') 0)) by ring.
    assert (He' : e' <= ex - ey) by (unfold e'; apply Z.le_min_r).
    unfold s. clear - Hx1 Hy1 Hem He'.
    rewrite <- !Z.pow_add_r by lia.
    do 2 f_equal. lia. }
  pose proof (round_aux_rnd (xorb sx sy) N (Z.pos my) e'
                            ltac:(lia) ltac:(lia) Hready) as Hra.
  fold em in Hra. cbv zeta in Hra. rewrite Hext in Hra.
  exact (Hra Hovf).
Qed.

Lemma div_sval (x y : spec_float) :
  fin prec emax x = true -> fin prec emax y = true ->
  0 <= sval prec emax x -> 0 < sval prec emax y ->
  rnd prec (sval prec emax x * 2 ^ (- emin prec emax)) (sval prec emax y)
  < ovf prec emax ->
  fin prec emax (SFdiv prec emax x y) = true /\
  sval prec emax (SFdiv prec emax x y)
  = rnd prec (sval prec emax x * 2 ^ (- emin prec emax)) (sval prec emax y).
Proof using Hprec Hemax.
  intros Hx Hy Hx0 Hy0 Hovf.
  pose proof (div_abs_sval x y Hx Hy ltac:(lia)) as H.
  rewrite !Z.abs_eq in H by lia.
  replace (sval prec emax x <? 0) with false in H
    by (symmetry; apply Z.ltb_ge; lia).
  replace (sval prec emax y <? 0) with false in H
    by (symmetry; apply Z.ltb_ge; lia).
  exact (H Hovf).
Qed.
End Format.

(** ** The operations of binary32 *)

Lemma prec32_pos : 0 < F32.prec.
Proof. reflexivity. Qed.

Lemma emax32_ok : 2 <= F32.emax.
Proof. discriminate. Qed.

Lemma ulps_sval (x : float) :
  nonneg x = true -> sval F32.prec F32.emax x = ulps x.
Proof.
  destruct x as [s | s | | [|] m e]; try discriminate; reflexivity.
Qed.

Lemma fin32_nonneg (x : float) :
  fin F32.prec F32.emax x = true -> 0 <= sval F32.prec F32.emax x ->
  nonneg x = true.
Proof.
  intros F H. destruct x as [s | s | | [|] m e]; try discriminate F;
    try reflexivity.
  exfalso. pose proof (fin_finite F32.prec F32.emax prec32_pos emax32_ok _ _ _ F)
    as [[He _] _].
  unfold sval in H. cbn [cond_Zopp] in H.
  assert (0 < Z.pos m * 2 ^ (e - emin F32.prec F32.emax)); [| lia].
  apply Z.mul_pos_pos; [reflexivity | apply Z.pow_pos_nonneg; lia].
Qed.

Lemma fin32_valid (x : float) :
  fin F32.prec F32.emax x = true ->
  F32.valid x = true /\ F32.is_finite x = true.
Proof. intros F. now apply andb_prop in F. Qed.

Lemma valid_nonneg_fin (x : float) :
  F32.valid x = true -> nonneg x = true -> fin F32.prec F32.emax x = true.
Proof.
  intros V N. unfold fin. apply andb_true_intro. split; [exact V |].
  destruct x; try discriminate; reflexivity.
Qed.

Lemma ovf32_big (U : Z) : U <= 2 ^ 200 -> U < ovf F32.prec F32.emax.
Proof.
  intros H. apply Z.le_lt_trans with (1 := H). reflexivity.
Qed.

Lemma repr_small (prec n j : Z) :
  0 < prec -> 0 <= n < 2 ^ prec -> 0 <= j -> repr prec (n * 2 ^ j).
Proof.
  intros Hp Hn Hj. unfold repr.
  destruct (Z.eq_dec n 0) as [-> | N0].
  - simpl. apply Z.mod_0_l. apply Z.pow_nonzero; [lia | apply grid_nonneg].
  - apply pow2_mod_0. split; [apply grid_nonneg |].
    unfold grid. rewrite Zdigits2_mul_pow2 by lia.
    assert (Zdigits2 n <= prec) by (apply Zdigits2_le_of_lt_pow2; lia).
    lia.
Qed.

Lemma of_int_sval (n : Z) :
  Z.abs n < 2 ^ 24 ->
  fin F32.prec F32.emax (F32.of_int n) = true /\
  sval F32.prec F32.emax (F32.of_int n) = n * 2 ^ 149.
Proof.
  intros Hn.
  pose proof (normalize_sval F32.prec F32.emax prec32_pos emax32_ok n 0 false)
    as H. cbv zeta in H.
  change (Z.max (0 - emin F32.prec F32.emax) 0) with 149 in H.
  change (2 ^ Z.max (emin F32.prec F32.emax - 0) 0) with 1 in H.
  assert (R : repr F32.prec (Z.abs (n * 2 ^ 149))).
  { rewrite Z.abs_mul, (Z.abs_eq (2 ^ 149)) by lia.
    apply repr_small; [reflexivity | | lia]. unfold F32.prec. lia. }
  fold (F32.of_int n) in H.
  rewrite srnd_exact in H by (assumption || reflexivity).
  apply H.
  replace (Z.abs (n * 2 ^ 149)) with (Z.abs (n * 2 ^ 149) * 1) by lia.
  rewrite rnd_exact by (assumption || reflexivity || lia).
  apply ovf32_big. lia.
Qed.

Lemma add32 (x y : float) :
  fin F32.prec F32.emax x = true -> fin F32.prec F32.emax y = true ->
  rnd F32.prec (Z.abs (sval F32.prec F32.emax x + sval F32.prec F32.emax y)) 1
  < ovf F32.prec F32.emax ->
  fin F32.prec F32.emax (F32.add x y) = true /\
  sval F32.prec F32.emax (F32.add x y)
  = srnd F32.prec (sval F32.prec F32.emax x + sval F32.prec F32.emax y) 1.
Proof. exact (add_sval F32.prec F32.emax prec32_pos emax32_ok x y). Qed.

Lemma sub32 (x y : float) :
  fin F32.prec F32.emax x = true -> fin F32.prec F32.emax y = true ->
  rnd F32.prec (Z.abs (sval F32.prec F32.emax x - sval F32.prec F32.emax y)) 1
  < ovf F32.prec F32.emax ->
  fin F32.prec F32.emax (F32.sub x y) = true /\
  sval F32.prec F32.emax (F32.sub x y)
  = srnd F32.prec (sval F32.prec F32.emax x - sval F32.prec F32.emax y) 1.
Proof. exact (sub_sval F32.prec F32.emax prec32_pos emax32_ok x y). Qed.

Lemma mul32 (x y : float) :
  fin F32.prec F32.emax x = true -> fin F32.prec F32.emax y = true ->
  rnd F32.prec (Z.abs (sval F32.prec F32.emax x * sval F32.prec F32.emax y))
      (2 ^ 149) < ovf F32.prec F32.emax ->
  fin F32.prec F32.emax (F32.mul x y) = true /\
  sval F32.prec F32.emax (F32.mul x y)
  = srnd F32.prec (sval F32.prec F32.emax x * sval F32.prec F32.emax y)
         (2 ^ 149).
Proof. exact (mul_sval F32.prec F32.emax prec32_pos emax32_ok x y). Qed.

Lemma div32 (x y : float) :
  fin F32.prec F32.emax x = true -> fin F32.prec F32.emax y = true ->
  0 <= sval F32.prec F32.emax x -> 0 < sval F32.prec F32.emax y ->
  rnd F32.prec (sval F32.prec F32.emax x * 2 ^ 149) (sval F32.prec F32.emax y)
  < ovf F32.prec F32.emax ->
  fin F32.prec F32.emax (F32.div x y) = true /\
  sval F32.prec F32.emax (F32.div x y)
  = rnd F32.prec (sval F32.prec F32.emax x * 2 ^ 149)
        (sval F32.prec F32.emax y).
Proof. exact (div_sval F32.prec F32.emax prec32_pos emax32_ok x y). Qed.

(** The interpolated duty lies between the duties of the two points. *)
Lemma interpolation_between (tb ta cur : float) (db da : Z) :
  day_closed tb -> day_closed ta -> day_closed cur ->
  ulps tb <= ulps cur <= ulps ta ->
  ulps tb <> ulps ta ->
  0 <= db <= 100 -> 0 <= da <= 100 ->
  let r := F32.add (F32.of_int db)
             (F32.mul (F32.sub (F32.of_int da) (F32.of_int db))
                      (F32.div (F32.sub cur tb) (F32.sub ta tb))) in
  F32.valid r = true /\ nonneg r = true /\
  ulps r = interp_ulps (ulps tb) (ulps ta) (ulps cur) db da /\
  Z.min db da * 2 ^ 149 <= ulps r <= Z.max db da * 2 ^ 149.
Proof.
  intros (Vb & Nb & Ub) (Va & Na & Ua) (Vc & Nc & Uc) Hord Hne Hdb Hda r.
  set (sv := sval F32.prec F32.emax).
  set (FIN := fin F32.prec F32.emax).
  pose proof prec32_pos as Hp. pose proof emax32_ok as He.
  pose proof (valid_nonneg_fin _ Vb Nb) as Fb.
  pose proof (valid_nonneg_fin _ Va Na) as Fa.
  pose proof (valid_nonneg_fin _ Vc Nc) as Fc.
  pose proof (ulps_sval _ Nb) as Sb. pose proof (ulps_sval _ Na) as Sa.
  pose proof (ulps_sval _ Nc) as Sc.
  pose proof (ulps_nonneg _ Vb) as Pb.
  assert (U24 : ulps F24 = 24 * 2 ^ 149) by reflexivity.
  assert (R1 : repr F32.prec (2 ^ 154)) by (apply repr_pow2; [exact Hp | lia]).
  assert (Rone : repr F32.prec (2 ^ 149))
    by (apply repr_pow2; [exact Hp | lia]).
  assert (Runit : repr F32.prec 1)
    by (apply (repr_pow2 F32.prec Hp 0); lia).
  (* the two differences of times *)
  assert (Hnum : FIN (F32.sub cur tb) = true /\
                 sv (F32.sub cur tb) = rnd F32.prec (ulps cur - ulps tb) 1).
  { pose proof (sub32 cur tb Fc Fb) as H.
    rewrite Sc, Sb, Z.abs_eq, srnd_nonneg_arg in H by lia.
    apply H. apply ovf32_big.
    apply Z.le_trans with (2 ^ 154); [| lia].
    apply rnd_upper; [exact Hp | lia | lia | exact R1 | lia]. }
  assert (Hden : FIN (F32.sub ta tb) = true /\
                 sv (F32.sub ta tb) = rnd F32.prec (ulps ta - ulps tb) 1).
  { pose proof (sub32 ta tb Fa Fb) as H.
    rewrite Sa, Sb, Z.abs_eq, srnd_nonneg_arg in H by lia.
    apply H. apply ovf32_big.
    apply Z.le_trans with (2 ^ 154); [| lia].
    apply rnd_upper; [exact Hp | lia | lia | exact R1 | lia]. }
  destruct Hnum as [Fnum Snum]. destruct Hden as [Fden Sden].
  set (num := F32.sub cur tb) in *. set (den := F32.sub ta tb) in *.
  assert (Nnum : 0 <= sv num)
    by (rewrite Snum; apply rnd_nonneg; [exact Hp | lia | lia]).
  assert (Pden : 0 < sv den).
  { rewrite Sden.
    assert (1 <= rnd F32.prec (ulps ta - ulps tb) 1); [| lia].
    apply rnd_lower; [exact Hp | lia | lia | lia | exact Runit | lia]. }
  assert (Hle : sv num <= sv den).
  { rewrite Snum, Sden. apply rnd_mono; [exact Hp | lia ..]. }
  (* the ratio is at most 1 *)
  assert (Hratio : FIN (F32.div num den) = true /\
                   sv (F32.div num den) = rnd F32.prec (sv num * 2 ^ 149) (sv den)
                   /\ 0 <= sv (F32.div num den) <= 2 ^ 149).
  { pose proof (div32 num den Fnum Fden Nnum Pden) as H.
    assert (B : rnd F32.prec (sv num * 2 ^ 149) (sv den) <= 2 ^ 149).
    { apply rnd_upper; [exact Hp | lia | lia | exact Rone |].
      rewrite (Z.mul_comm (2 ^ 149)).
      apply Z.mul_le_mono_nonneg_r; lia. }
    destruct H as [H1 H2]; [apply ovf32_big; fold sv; lia |].
    split; [exact H1 |]. fold sv in H2. rewrite H2.
    split; [reflexivity |]. split; [| exact B].
    apply rnd_nonneg; [exact Hp | lia | lia]. }
  destruct Hratio as (Fratio & Sratio & Bratio).
  set (ratio := F32.div num den) in *.
  (* the difference of the duties is exact *)
  destruct (of_int_sval db ltac:(lia)) as [Fdb Sdb].
  destruct (of_int_sval da ltac:(lia)) as [Fda Sda].
  fold FIN in Fdb, Fda. fold sv in Sdb, Sda.
  assert (Rdiff : repr F32.prec (Z.abs (da - db) * 2 ^ 149)).
  { apply repr_small; [exact Hp | | lia]. unfold F32.prec. lia. }
  assert (Hx : FIN (F32.sub (F32.of_int da) (F32.of_int db)) = true /\
               sv (F32.sub (F32.of_int da) (F32.of_int db))
               = (da - db) * 2 ^ 149).
  { pose proof (sub32 _ _ Fda Fdb) as H.
    fold sv in H. rewrite Sda, Sdb in H.
    replace (da * 2 ^ 149 - db * 2 ^ 149) with ((da - db) * 2 ^ 149) in H
      by ring.
    assert (Ea : Z.abs ((da - db) * 2 ^ 149) = Z.abs (da - db) * 2 ^ 149)
      by (rewrite Z.abs_mul; f_equal).
    rewrite srnd_exact in H by (rewrite ?Ea; assumption || exact Hp).
    apply H. rewrite Ea.
    replace (Z.abs (da - db) * 2 ^ 149)
      with (Z.abs (da - db) * 2 ^ 149 * 1) by lia.
    rewrite rnd_exact by (assumption || lia).
    apply ovf32_big. lia. }
  destruct Hx as [Fx Sx].
  set (x := F32.sub (F32.of_int da) (F32.of_int db)) in *.
  (* the product is no larger than the difference *)
  assert (Bprod : rnd F32.prec (Z.abs (da - db) * 2 ^ 149 * sv ratio)
                      (2 ^ 149)
                  <= Z.abs (da - db) * 2 ^ 149).
  { apply rnd_upper; [exact Hp | | lia | exact Rdiff |].
    - apply Z.mul_nonneg_nonneg; lia.
    - apply Z.mul_le_mono_nonneg_l; lia. }
  assert (Nprod : 0 <= rnd F32.prec (Z.abs (da - db) * 2 ^ 149 * sv ratio)
                          (2 ^ 149)).
  { apply rnd_nonneg; [exact Hp | | lia]. apply Z.mul_nonneg_nonneg; lia. }
  assert (Hprod : FIN (F32.mul x ratio) = true /\
                  sv (F32.mul x ratio)
                  = srnd F32.prec ((da - db) * 2 ^ 149 * sv ratio) (2 ^ 149) /\
                  (db <= da ->
                   0 <= sv (F32.mul x ratio) <= (da - db) * 2 ^ 149) /\
                  (da <= db ->
                   (da - db) * 2 ^ 149 <= sv (F32.mul x ratio) <= 0)).
  { pose proof (mul32 x ratio Fx Fratio) as H.
    fold sv in H. rewrite Sx in H.
    assert (Ea : Z.abs ((da - db) * 2 ^ 149 * sv ratio)
                 = Z.abs (da - db) * 2 ^ 149 * sv ratio).
    { rewrite !Z.abs_mul, (Z.abs_eq (2 ^ 149)), (Z.abs_eq (sv ratio)) by lia.
      reflexivity. }
    rewrite Ea in H.
    destruct H as [H1 H2]; [apply ovf32_big; lia |].
    split; [exact H1 |]. rewrite H2. split; [reflexivity |].
    split; intros Hd.
    - rewrite srnd_nonneg_arg
        by (apply Z.mul_nonneg_nonneg; [apply Z.mul_nonneg_nonneg |]; lia).
      rewrite Z.abs_eq in Bprod, Nprod by lia. lia.
    - rewrite srnd_neg_arg; [| exact Hp | lia |].
      + replace (- ((da - db) * 2 ^ 149 * sv ratio))
          with (Z.abs (da - db) * 2 ^ 149 * sv ratio)
          by (rewrite Z.abs_neq by lia; ring).
        lia.
      + apply Z.mul_nonpos_nonneg; [| lia].
        apply Z.mul_nonpos_nonneg; lia. }
  destruct Hprod as (Fprod & Sprod & Pup & Pdown).
  set (prod := F32.mul x ratio) in *.
  (* the sum *)
  assert (Rmin : repr F32.prec (Z.min db da * 2 ^ 149)).
  { apply repr_small; [exact Hp | | lia]. unfold F32.prec. lia. }
  assert (Rmax : repr F32.prec (Z.max db da * 2 ^ 149)).
  { apply repr_small; [exact Hp | | lia]. unfold F32.prec. lia. }
  assert (Hz : Z.min db da * 2 ^ 149 <= db * 2 ^ 149 + sv prod
               <= Z.max db da * 2 ^ 149).
  { destruct (Z_le_gt_dec db da) as [L | G].
    - specialize (Pup L). rewrite Z.min_l, Z.max_r by lia. lia.
    - specialize (Pdown ltac:(lia)). rewrite Z.min_r, Z.max_l by lia. lia. }
  pose proof (add32 _ _ Fdb Fprod) as H.
  fold sv in H. rewrite Sdb in H.
  assert (Nsum : 0 <= db * 2 ^ 149 + sv prod) by lia.
  rewrite Z.abs_eq, srnd_nonneg_arg in H by exact Nsum.
  assert (Bup : rnd F32.prec (db * 2 ^ 149 + sv prod) 1
                <= Z.max db da * 2 ^ 149)
    by (apply rnd_upper; [exact Hp | lia | lia | exact Rmax | lia]).
  assert (Blo : Z.min db da * 2 ^ 149
                <= rnd F32.prec (db * 2 ^ 149 + sv prod) 1)
    by (apply rnd_lower; [exact Hp | lia | lia | lia | exact Rmin | lia]).
  destruct H as [H1 H2]; [apply ovf32_big; lia |].
  fold r in H1, H2. fold sv in H2.
  assert (Nr : nonneg r = true)
    by (apply fin32_nonneg; [exact H1 | fold sv; rewrite H2; lia]).
  split; [exact (proj1 (fin32_valid r H1)) |]. split; [exact Nr |].
  rewrite <- (ulps_sval r Nr). fold sv. rewrite H2.
  split; [| lia].
  unfold interp_ulps. cbv zeta.
  rewrite <- Snum, <- Sden, <- Sratio, <- Sprod. reflexivity.
Qed.

(** ** The interpolation as a function of the time *)

Section InterpUlps.
Variables ub ua db da : Z.
Hypothesis Hb : 0 <= ub.
Hypothesis Hab : ub < ua.
Hypothesis Hdb : 0 <= db <= 100.
Hypothesis Hda : 0 <= da <= 100.

Lemma interp_ulps_at_before : interp_ulps ub ua ub db da = db * 2 ^ 149.
Proof using Hb Hab Hdb Hda.
  unfold interp_ulps. cbv zeta. rewrite Z.sub_diag.
  pose proof prec32_pos as Hp.
  assert (1 <= rnd F32.prec (ua - ub) 1).
  { apply rnd_lower; [exact Hp | lia | lia | lia | | lia].
    apply (repr_pow2 F32.prec Hp 0). lia. }
  rewrite (rnd_0 F32.prec Hp 1) by lia. rewrite Z.mul_0_l.
  rewrite (rnd_0 F32.prec Hp) by lia. rewrite Z.mul_0_r.
  rewrite srnd_nonneg_arg by lia. rewrite (rnd_0 F32.prec Hp) by lia.
  rewrite Z.add_0_r.
  replace (db * 2 ^ 149) with (db * 2 ^ 149 * 1) at 1 by lia.
  apply rnd_exact; [exact Hp | lia | lia |].
  apply repr_small; [exact Hp | | lia]. unfold F32.prec. lia.
Qed.

Lemma interp_ulps_mono (uc uc' : Z) :
  ub <= uc <= uc' -> uc' <= ua ->
  (db <= da -> interp_ulps ub ua uc db da <= interp_ulps ub ua uc' db da) /\
  (da <= db -> interp_ulps ub ua uc' db da <= interp_ulps ub ua uc db da).
Proof using Hb Hab Hdb Hda.
  intros Hc Hc'. unfold interp_ulps. cbv zeta.
  pose proof prec32_pos as Hp.
  set (den := rnd F32.prec (ua - ub) 1).
  assert (Hden : 1 <= den).
  { apply rnd_lower; [exact Hp | lia | lia | lia | | lia].
    apply (repr_pow2 F32.prec Hp 0). lia. }
  set (n := rnd F32.prec (uc - ub) 1). set (n' := rnd F32.prec (uc' - ub) 1).
  assert (Hn : 0 <= n) by (apply rnd_nonneg; [exact Hp | lia | lia]).
  assert (Hnn : n <= n') by (apply rnd_mono; [exact Hp | lia ..]).
  set (q := rnd F32.prec (n * 2 ^ 149) den).
  set (q' := rnd F32.prec (n' * 2 ^ 149) den).
  assert (Hq : 0 <= q) by (apply rnd_nonneg; [exact Hp | lia | lia]).
  assert (Hqq : q <= q').
  { apply rnd_mono; [exact Hp | lia | lia | lia | lia |].
    apply Z.mul_le_mono_nonneg_r; lia. }
  split; intros Hd.
  - rewrite !srnd_nonneg_arg
      by (apply Z.mul_nonneg_nonneg; [apply Z.mul_nonneg_nonneg |]; lia).
    assert (Hpp : rnd F32.prec ((da - db) * 2 ^ 149 * q) (2 ^ 149)
                  <= rnd F32.prec ((da - db) * 2 ^ 149 * q') (2 ^ 149)).
    { apply rnd_mono; [exact Hp | | lia | | lia |];
        try (apply Z.mul_nonneg_nonneg; [apply Z.mul_nonneg_nonneg |]; lia).
      apply Z.mul_le_mono_nonneg_r; [lia |].
      apply Z.mul_le_mono_nonneg_l; [| lia].
      apply Z.mul_nonneg_nonneg; lia. }
    assert (0 <= rnd F32.prec ((da - db) * 2 ^ 149 * q) (2 ^ 149)).
    { apply rnd_nonneg; [exact Hp | | lia].
      apply Z.mul_nonneg_nonneg; [apply Z.mul_nonneg_nonneg |]; lia. }
    apply rnd_mono; [exact Hp | lia ..].
  - assert (E : forall k, 0 <= k ->
                  srnd F32.prec ((da - db) * 2 ^ 149 * k) (2 ^ 149)
                  = - rnd F32.prec ((db - da) * 2 ^ 149 * k) (2 ^ 149)).
    { intros k Hk. rewrite srnd_neg_arg; [| exact Hp | lia |].
      - do 2 f_equal. ring.
      - apply Z.mul_nonpos_nonneg; [| lia].
        apply Z.mul_nonpos_nonneg; lia. }
    rewrite !E by lia.
    assert (Hpp : rnd F32.prec ((db - da) * 2 ^ 149 * q) (2 ^ 149)
                  <= rnd F32.prec ((db - da) * 2 ^ 149 * q') (2 ^ 149)).
    { apply rnd_mono; [exact Hp | | lia | | lia |];
        try (apply Z.mul_nonneg_nonneg; [apply Z.mul_nonneg_nonneg |]; lia).
      apply Z.mul_le_mono_nonneg_r; [lia |].
      apply Z.mul_le_mono_nonneg_l; [| lia].
      apply Z.mul_nonneg_nonneg; lia. }
    assert (Hup : rnd F32.prec ((db - da) * 2 ^ 149 * q') (2 ^ 149)
                  <= (db - da) * 2 ^ 149).
    { apply rnd_upper; [exact Hp | | lia | |].
      - apply Z.mul_nonneg_nonneg; [apply Z.mul_nonneg_nonneg |]; lia.
      - apply repr_small; [exact Hp | | lia]. unfold F32.prec. lia.
      - apply Z.mul_le_mono_nonneg_l; [apply Z.mul_nonneg_nonneg; lia |].
        assert (n' <= den) by (apply rnd_mono; [exact Hp | lia ..]).
        apply rnd_upper; [exact Hp | lia | lia | |].
        + apply repr_pow2; [exact Hp | lia].
        + rewrite (Z.mul_comm (2 ^ 149)).
          apply Z.mul_le_mono_nonneg_r; lia. }
    apply rnd_mono; [exact Hp | lia ..].
Qed.
End InterpUlps.

Lemma interpolate_segment (l : list SchedulePoint) (cur : float) :
  interpolate l cur
  = if (negb (foundBefore (scan l cur)) && negb (foundAfter (scan l cur)))%bool
    then F0
    else segment (fst (bracket l (scan l cur)))
                 (snd (bracket l (scan l cur))) cur.
Proof.
  unfold interpolate, segment.
  destruct (negb _ && negb _)%bool; [reflexivity |].
  destruct (bracket l (scan l cur)) as [b a]. reflexivity.
Qed.

Lemma of_int_ulps (d : Z) :
  0 <= d <= 100 ->
  F32.valid (F32.of_int d) = true /\ nonneg (F32.of_int d) = true /\
  ulps (F32.of_int d) = d * 2 ^ 149.
Proof.
  intros H. destruct (of_int_sval d ltac:(lia)) as [F Sd].
  assert (N : nonneg (F32.of_int d) = true)
    by (apply fin32_nonneg; [exact F | rewrite Sd; lia]).
  split; [exact (proj1 (fin32_valid _ F)) |]. split; [exact N |].
  now rewrite <- ulps_sval.
Qed.

Lemma constrain_id (r : float) :
  F32.valid r = true -> nonneg r = true -> ulps r <= 100 * 2 ^ 149 ->
  constrain r F0 F100 = r.
Proof.
  intros V N H. unfold constrain.
  rewrite (ltb_ulps r F0) by (assumption || reflexivity).
  rewrite (ltb_ulps F100 r) by (assumption || reflexivity).
  pose proof (ulps_nonneg r V).
  change (ulps F0) with 0. change (ulps F100) with (100 * 2 ^ 149).
  destruct (Z.ltb_spec (ulps r) 0); [lia |].
  destruct (Z.ltb_spec (100 * 2 ^ 149) (ulps r)); [lia | reflexivity].
Qed.

(** The value on a segment. *)
Lemma segment_spec (b a : SchedulePoint) (cur : float) :
  day_closed (time b) -> day_closed (time a) -> day_closed cur ->
  ulps (time b) <= ulps cur <= ulps (time a) ->
  0 <= duty b <= 100 -> 0 <= duty a <= 100 ->
  F32.valid (segment b a cur) = true /\
  nonneg (segment b a cur) = true /\
  Z.min (duty b) (duty a) * 2 ^ 149 <= ulps (segment b a cur)
  <= Z.max (duty b) (duty a) * 2 ^ 149 /\
  (ulps (time b) = ulps (time a) ->
   ulps (segment b a cur) = duty b * 2 ^ 149) /\
  (ulps (time b) <> ulps (time a) ->
   ulps (segment b a cur) = segment_ulps b a cur).
Proof.
  intros Db Da Dc Hord Rb Ra. unfold segment.
  destruct Db as (Vb & Nb & Ub). destruct Da as (Va & Na & Ua).
  rewrite eqb_ulps by assumption.
  destruct (Z.eqb_spec (ulps (time b)) (ulps (time a))) as [E | N].
  - destruct (of_int_ulps (duty b) Rb) as (V & Nn & U).
    split; [exact V |]. split; [exact Nn |]. rewrite U.
    split; [lia |]. split; [reflexivity | intros; contradiction].
  - pose proof (interpolation_between (time b) (time a) cur (duty b) (duty a)
                  (conj Vb (conj Nb Ub)) (conj Va (conj Na Ua)) Dc Hord N
                  Rb Ra) as H.
    cbv zeta in H. destruct H as (V & Nn & U & B).
    rewrite constrain_id by (assumption || lia).
    split; [exact V |]. split; [exact Nn |]. split; [exact B |].
    split; [intros; contradiction | intros _; exact U].
Qed.

(** ** The scan of a sorted vector *)

Lemma scan_app (l l' : list SchedulePoint) (cur : float) :
  scan (l ++ l') cur = fold_left (scan_step cur) l' (scan l cur).
Proof. unfold scan. apply fold_left_app. Qed.

Lemma scan_snoc_before (l : list SchedulePoint) (b : SchedulePoint)
      (cur : float) :
  F32.leb (time b) cur = true ->
  sc_before (scan (l ++ [b]) cur) = b /\
  foundBefore (scan (l ++ [b]) cur) = true.
Proof.
  intros H. rewrite scan_app. cbn [fold_left]. unfold scan_step.
  rewrite H. destruct (_ && _)%bool; split; reflexivity.
Qed.

Lemma scan_later_points (cur : float) (l : list SchedulePoint) :
  (forall p, In p l -> F32.leb (time p) cur = false) ->
  forall s,
    let s' := fold_left (scan_step cur) l s in
    sc_before s' = sc_before s /\ foundBefore s' = foundBefore s /\
    (foundAfter s = true ->
     sc_after s' = sc_after s /\ foundAfter s' = true) /\
    (foundAfter s = false ->
     forall a l', l = a :: l' -> F32.leb cur (time a) = true ->
                  sc_after s' = a /\ foundAfter s' = true).
Proof.
  induction l as [| p l IH]; intros Hl s; cbn [fold_left]; cbv zeta.
  - split; [reflexivity |]. split; [reflexivity |].
    split; [intros F; split; [reflexivity | exact F] |].
    intros _ a l' E. discriminate E.
  - assert (Hp : F32.leb (time p) cur = false) by (apply Hl; now left).
    assert (Hl' : forall q, In q l -> F32.leb (time q) cur = false)
      by (intros q Hq; apply Hl; now right).
    pose proof (IH Hl' (scan_step cur s p)) as I. cbv zeta in I.
    destruct I as (I1 & I2 & I3 & I4).
    assert (E1 : sc_before (scan_step cur s p) = sc_before s /\
                 foundBefore (scan_step cur s p) = foundBefore s).
    { unfold scan_step. rewrite Hp. destruct (_ && _)%bool; auto. }
    destruct E1 as [E1 E2]. rewrite I1, I2, E1, E2.
    split; [reflexivity |]. split; [reflexivity |]. split.
    + intros FA.
      assert (Es : scan_step cur s p = s)
        by (unfold scan_step; rewrite Hp, FA; now rewrite andb_false_r).
      rewrite Es in *. now apply I3.
    + intros FA a l' E La. injection E as <- <-.
      assert (Es : scan_step cur s p
                   = mkScan (sc_before s) p (foundBefore s) true)
        by (unfold scan_step; rewrite Hp, FA, La; reflexivity).
      rewrite Es in *. now apply I3.
Qed.

Lemma sorted_app_before (R : SchedulePoint -> SchedulePoint -> Prop)
      (l1 l2 : list SchedulePoint) (b : SchedulePoint) :
  StronglySorted R (l1 ++ b :: l2) -> forall x, In x l1 -> R x b.
Proof.
  induction l1 as [| y l1 IH]; intros H x Hx; [destruct Hx |].
  cbn [app] in H. inversion H as [| ? ? Hs Hf]; subst.
  destruct Hx as [<- | Hx].
  - rewrite Forall_forall in Hf. apply Hf. apply in_app_iff. right. now left.
  - now apply IH.
Qed.

Lemma sorted_app_after (R : SchedulePoint -> SchedulePoint -> Prop)
      (l1 l2 : list SchedulePoint) (a : SchedulePoint) :
  StronglySorted R (l1 ++ a :: l2) -> forall y, In y l2 -> R a y.
Proof.
  induction l1 as [| y0 l1 IH]; intros H y Hy.
  - cbn [app] in H. inversion H as [| ? ? Hs Hf]; subst.
    rewrite Forall_forall in Hf. now apply Hf.
  - cbn [app] in H. inversion H as [| ? ? Hs Hf]; subst. now apply IH.
Qed.

Lemma in_domain_cmp (cur : float) (p : SchedulePoint) :
  in_day cur -> in_domain p ->
  day_closed (time p) /\ 0 <= duty p <= 100 /\ ulps (time p) < ulps F24 /\
  F32.leb (time p) cur = (ulps (time p) <=? ulps cur) /\
  F32.leb cur (time p) = (ulps cur <=? ulps (time p)) /\
  F32.ltb cur (time p) = (ulps cur <? ulps (time p)).
Proof.
  intros Hc [Hd Hr].
  destruct (in_day_closed cur Hc) as [(Vc & Nc & _) _].
  destruct (in_day_closed _ Hd) as [(Vp & Np & Up) Lp].
  repeat split; try assumption; try lia;
    (now apply leb_ulps) || (now apply ltb_ulps).
Qed.

Lemma by_time_ulps (x y : SchedulePoint) :
  in_domain x -> in_domain y -> by_time x y ->
  ulps (time x) <= ulps (time y).
Proof.
  intros [Hx _] [Hy _] H. unfold by_time in H.
  destruct (in_day_closed _ Hx) as [(Vx & Nx & _) _].
  destruct (in_day_closed _ Hy) as [(Vy & Ny & _) _].
  rewrite ltb_ulps in H by assumption. apply Z.ltb_ge in H. exact H.
Qed.

Section SortedScan.
Variable cur : float.
Hypothesis Hcur : in_day cur.

Lemma interpolate_inner (l1 l2 : list SchedulePoint) (b a : SchedulePoint) :
  Forall in_domain (l1 ++ b :: a :: l2) ->
  StronglySorted by_time (l1 ++ b :: a :: l2) ->
  F32.leb (time b) cur = true -> F32.ltb cur (time a) = true ->
  let v := interpolate (l1 ++ b :: a :: l2) cur in
  F32.valid v = true /\ nonneg v = true /\ ulps v = segment_ulps b a cur.
Proof using Hcur.
  intros Hd Hs Lb La v.
  destruct (in_day_closed cur Hcur) as [Dc Lc].
  pose proof Dc as (Vc & Nc & _).
  rewrite Forall_forall in Hd.
  assert (Ib : In b (l1 ++ b :: a :: l2))
    by (apply in_app_iff; right; now left).
  assert (Ia : In a (l1 ++ b :: a :: l2))
    by (apply in_app_iff; right; right; now left).
  destruct (in_domain_cmp cur b Hcur (Hd b Ib))
    as (Db & Rb & Ub & Eb & _ & _).
  destruct (in_domain_cmp cur a Hcur (Hd a Ia))
    as (Da & Ra & Ua & _ & _ & Ea).
  rewrite Eb in Lb. apply Z.leb_le in Lb.
  rewrite Ea in La. apply Z.ltb_lt in La.
  pose proof (ulps_nonneg _ (proj1 Db)) as Pb.
  (* the points from [a] on lie after the current time *)
  assert (E : l1 ++ b :: a :: l2 = (l1 ++ [b]) ++ a :: l2)
    by (rewrite <- app_assoc; reflexivity).
  assert (Hlater : forall p, In p (a :: l2) ->
                             F32.leb (time p) cur = false).
  { intros p [<- | Hp].
    - destruct (in_domain_cmp cur a Hcur (Hd a Ia)) as (_ & _ & _ & E1 & _).
      rewrite E1. apply Z.leb_gt. lia.
    - assert (Ip : In p (l1 ++ b :: a :: l2))
        by (apply in_app_iff; right; right; now right).
      destruct (in_domain_cmp cur p Hcur (Hd p Ip)) as (_ & _ & _ & E1 & _).
      rewrite E1. apply Z.leb_gt.
      rewrite E in Hs.
      pose proof (sorted_app_after by_time _ _ _ Hs p Hp) as Rp.
      pose proof (by_time_ulps a p (Hd a Ia) (Hd p Ip) Rp). lia. }
  (* the scan *)
  destruct (scan_snoc_before l1 b cur) as [B1 B2].
  { rewrite Eb. now apply Z.leb_le. }
  pose proof (scan_inv cur (l1 ++ [b])) as (_ & I2 & _ & _).
  pose proof (scan_later_points cur (a :: l2) Hlater (scan (l1 ++ [b]) cur))
    as S. cbv zeta in S. rewrite <- scan_app, <- E in S.
  destruct S as (S1 & S2 & S3 & S4). rewrite B1 in S1. rewrite B2 in S2.
  unfold v. rewrite interpolate_segment. rewrite S2. cbn [negb andb].
  unfold bracket. rewrite S2. cbn [negb].
  destruct (foundAfter (scan (l1 ++ [b]) cur)) eqn:FA.
  - (* a point at the current time was met before [a] *)
    destruct (S3 eq_refl) as [A1 A2]. rewrite A2. cbn [negb fst snd].
    rewrite S1, A1.
    destruct (I2 eq_refl) as [Iq Lq].
    set (q := sc_after (scan (l1 ++ [b]) cur)) in *.
    assert (Iq' : In q (l1 ++ b :: a :: l2)).
    { rewrite E. apply in_app_iff. now left. }
    destruct (in_domain_cmp cur q Hcur (Hd q Iq'))
      as (Dq & Rq & Uq & _ & Eq' & _).
    rewrite Eq' in Lq. apply Z.leb_le in Lq.
    assert (Hqb : ulps (time q) <= ulps (time b)).
    { apply in_app_iff in Iq. destruct Iq as [Iq | [<- | []]]; [| lia].
      apply by_time_ulps; [now apply Hd | now apply Hd |].
      exact (sorted_app_before by_time _ _ _ Hs q Iq). }
    destruct (segment_spec b q cur Db Dq Dc ltac:(lia) Rb Rq)
      as (V & N & _ & Heq & _).
    split; [exact V |]. split; [exact N |].
    rewrite Heq by lia. unfold segment_ulps.
    replace (ulps cur) with (ulps (time b)) by lia.
    symmetry. apply interp_ulps_at_before; lia.
  - destruct (S4 eq_refl a l2 eq_refl) as [A1 A2].
    { destruct (in_domain_cmp cur a Hcur (Hd a Ia)) as (_ & _ & _ & _ & E2 & _).
      rewrite E2. apply Z.leb_le. lia. }
    rewrite A2. cbn [negb fst snd]. rewrite S1, A1.
    destruct (segment_spec b a cur Db Da Dc ltac:(lia) Rb Ra)
      as (V & N & _ & _ & Hne).
    split; [exact V |]. split; [exact N |]. apply Hne. lia.
Qed.

Lemma interpolate_head (l2 : list SchedulePoint) (a : SchedulePoint) :
  Forall in_domain (a :: l2) ->
  StronglySorted by_time (a :: l2) ->
  F32.ltb cur (time a) = true ->
  let v := interpolate (a :: l2) cur in
  F32.valid v = true /\ nonneg v = true /\
  ulps v = segment_ulps (mkPoint F0 0) a cur.
Proof using Hcur.
  intros Hd Hs La v.
  destruct (in_day_closed cur Hcur) as [Dc Lc].
  pose proof Dc as (Vc & Nc & _).
  rewrite Forall_forall in Hd.
  assert (Ia : In a (a :: l2)) by now left.
  destruct (in_domain_cmp cur a Hcur (Hd a Ia))
    as (Da & Ra & Ua & _ & Ea' & Ea).
  rewrite Ea in La. apply Z.ltb_lt in La.
  assert (Hlater : forall p, In p (a :: l2) ->
                             F32.leb (time p) cur = false).
  { intros p Hp.
    destruct (in_domain_cmp cur p Hcur (Hd p Hp)) as (_ & _ & _ & E1 & _).
    rewrite E1. apply Z.leb_gt. destruct Hp as [<- | Hp]; [lia |].
    pose proof (sorted_app_after by_time [] _ _ Hs p Hp) as Rp.
    pose proof (by_time_ulps a p (Hd a Ia) (Hd p (or_intror Hp)) Rp). lia. }
  pose proof (scan_later_points cur (a :: l2) Hlater scan_init) as S.
  cbv zeta in S. fold (scan (a :: l2) cur) in S.
  destruct S as (S1 & S2 & _ & S4).
  destruct (S4 eq_refl a l2 eq_refl) as [A1 A2].
  { rewrite Ea'. apply Z.leb_le. lia. }
  unfold v. rewrite interpolate_segment. rewrite S2, A2. cbn [negb andb].
  unfold bracket. rewrite S2, A2.
  cbn [scan_init foundBefore negb fst snd hd].
  pose proof (ulps_nonneg _ Vc) as Pc.
  destruct (segment_spec (mkPoint F0 0) a cur day_closed_F0 Da Dc)
    as (V & N & _ & _ & Hne); cbn [time duty]; try lia.
  { change (ulps F0) with 0. lia. }
  split; [exact V |]. split; [exact N |]. apply Hne.
  cbn [time]. change (ulps F0) with 0. lia.
Qed.

Lemma interpolate_tail (l1 : list SchedulePoint) (b : SchedulePoint) :
  Forall in_domain (l1 ++ [b]) ->
  StronglySorted by_time (l1 ++ [b]) ->
  F32.leb (time b) cur = true ->
  let v := interpolate (l1 ++ [b]) cur in
  F32.valid v = true /\ nonneg v = true /\
  ulps v = segment_ulps b (mkPoint F24 0) cur.
Proof using Hcur.
  intros Hd Hs Lb v.
  destruct (in_day_closed cur Hcur) as [Dc Lc].
  pose proof Dc as (Vc & Nc & _).
  rewrite Forall_forall in Hd.
  assert (Ib : In b (l1 ++ [b])) by (apply in_app_iff; right; now left).
  destruct (in_domain_cmp cur b Hcur (Hd b Ib))
    as (Db & Rb & Ub & Eb & _ & _).
  pose proof Lb as Lb'.
  rewrite Eb in Lb. apply Z.leb_le in Lb.
  pose proof (ulps_nonneg _ (proj1 Db)) as Pb.
  destruct (scan_snoc_before l1 b cur Lb') as [B1 B2].
  pose proof (scan_inv cur (l1 ++ [b])) as (_ & I2 & _ & _).
  unfold v. rewrite interpolate_segment. rewrite B2. cbn [negb andb].
  unfold bracket. rewrite B2. cbn [negb].
  destruct (foundAfter (scan (l1 ++ [b]) cur)) eqn:FA; cbn [negb fst snd].
  - rewrite B1. destruct (I2 eq_refl) as [Iq Lq].
    set (q := sc_after (scan (l1 ++ [b]) cur)) in *.
    destruct (in_domain_cmp cur q Hcur (Hd q Iq))
      as (Dq & Rq & Uq & _ & Eq' & _).
    rewrite Eq' in Lq. apply Z.leb_le in Lq.
    assert (Hqb : ulps (time q) <= ulps (time b)).
    { apply in_app_iff in Iq. destruct Iq as [Iq | [<- | []]]; [| lia].
      apply by_time_ulps; [apply Hd, in_app_iff; now left | now apply Hd |].
      exact (sorted_app_before by_time _ _ _ Hs q Iq). }
    destruct (segment_spec b q cur Db Dq Dc ltac:(lia) Rb Rq)
      as (V & N & _ & Heq & _).
    split; [exact V |]. split; [exact N |].
    rewrite Heq by lia. unfold segment_ulps. cbn [time duty].
    replace (ulps cur) with (ulps (time b)) by lia.
    symmetry. apply interp_ulps_at_before; lia.
  - rewrite last_last.
    destruct (segment_spec b (mkPoint F24 0) cur Db day_closed_F24 Dc)
      as (V & N & _ & _ & Hne); cbn [time duty]; try lia.
    split; [exact V |]. split; [exact N |]. apply Hne. cbn [time]. lia.
Qed.
End SortedScan.

Lemma srnd_exact_scaled (prec z B : Z) :
  0 < prec -> 0 < B -> repr prec (Z.abs z) -> srnd prec (z * B) B = z.
Proof.
  intros Hp HB H. unfold srnd. destruct (Z.ltb_spec (z * B) 0) as [L | G].
  - assert (z < 0) by nia.
    replace (- (z * B)) with (Z.abs z * B) by (rewrite Z.abs_neq by lia; ring).
    rewrite rnd_exact by (assumption || lia). lia.
  - assert (0 <= z) by nia.
    replace (z * B) with (Z.abs z * B) by (rewrite Z.abs_eq by lia; ring).
    rewrite rnd_exact by (assumption || lia). lia.
Qed.

Section InterpUlpsMore.
Variables ub ua db da : Z.
Hypothesis Hb : 0 <= ub.
Hypothesis Hab : ub < ua.
Hypothesis Hdb : 0 <= db <= 100.
Hypothesis Hda : 0 <= da <= 100.

Lemma interp_ulps_at_after : interp_ulps ub ua ua db da = da * 2 ^ 149.
Proof using Hb Hab Hdb Hda.
  unfold interp_ulps. cbv zeta.
  pose proof prec32_pos as Hp.
  set (den := rnd F32.prec (ua - ub) 1).
  assert (Hden : 1 <= den).
  { apply rnd_lower; [exact Hp | lia | lia | lia | | lia].
    apply (repr_pow2 F32.prec Hp 0). lia. }
  assert (E1 : rnd F32.prec (den * 2 ^ 149) den = 2 ^ 149).
  { rewrite (Z.mul_comm den).
    apply rnd_exact; [exact Hp | lia | lia |].
    apply repr_pow2; [exact Hp | lia]. }
  rewrite E1.
  rewrite srnd_exact_scaled; [| exact Hp | lia |].
  - replace (db * 2 ^ 149 + (da - db) * 2 ^ 149) with (da * 2 ^ 149 * 1)
      by ring.
    apply rnd_exact; [exact Hp | lia | lia |].
    apply repr_small; [exact Hp | | lia]. unfold F32.prec. lia.
  - rewrite Z.abs_mul, (Z.abs_eq (2 ^ 149)) by lia.
    apply repr_small; [exact Hp | | lia]. unfold F32.prec. lia.
Qed.

Lemma interp_ulps_between (uc : Z) :
  ub <= uc <= ua ->
  Z.min db da * 2 ^ 149 <= interp_ulps ub ua uc db da
  <= Z.max db da * 2 ^ 149.
Proof using Hb Hab Hdb Hda.
  intros Hc.
  destruct (interp_ulps_mono ub ua db da Hb Hab Hdb Hda ub uc
                             ltac:(lia) ltac:(lia)) as [U1 D1].
  destruct (interp_ulps_mono ub ua db da Hb Hab Hdb Hda uc ua
                             ltac:(lia) ltac:(lia)) as [U2 D2].
  rewrite (interp_ulps_at_before ub ua db da Hb Hab Hdb Hda) in U1, D1.
  rewrite interp_ulps_at_after in U2, D2.
  destruct (Z_le_gt_dec db da) as [L | G].
  - specialize (U1 L). specialize (U2 L).
    rewrite Z.min_l, Z.max_r by lia. lia.
  - specialize (D1 ltac:(lia)). specialize (D2 ltac:(lia)).
    rewrite Z.min_r, Z.max_l by lia. lia.
Qed.
End InterpUlpsMore.

(** ** The duty on the segments of a schedule *)

Section Segments.
Context {P : Platform}.
Hypothesis HP : SortPermutes P.
Hypothesis HS : SortOrders P.
Variable model : list SchedulePoint.
Hypothesis Hmodel : Forall in_domain model.

Lemma sorted_in_domain : Forall in_domain (std_sort model).
Proof using HP Hmodel.
  rewrite Forall_forall in *. intros p Hp. apply Hmodel.
  eapply Permutation_in; [apply Permutation_sym, HP | exact Hp].
Qed.

Lemma computeDuty_sorted :
  std_sort model <> [] ->
  forall cur, computeDuty model cur = interpolate (std_sort model) cur.
Proof using HP Hmodel.
  intros Hne cur. unfold computeDuty. destruct model as [| p0 m']; [| reflexivity].
  exfalso. apply Hne. pose proof (HP []) as H.
  now apply Permutation_nil in H.
Qed.

Lemma follows_segment_cases (cur : float) :
  in_day cur ->
  (forall l1 b a l2,
      std_sort model = l1 ++ b :: a :: l2 ->
      F32.leb (time b) cur = true -> F32.ltb cur (time a) = true ->
      follows_segment (computeDuty model cur) b a cur) /\
  (forall a l2,
      std_sort model = a :: l2 -> F32.ltb cur (time a) = true ->
      follows_segment (computeDuty model cur) (mkPoint F0 0) a cur) /\
  (forall l1 b,
      std_sort model = l1 ++ [b] -> F32.leb (time b) cur = true ->
      follows_segment (computeDuty model cur) b (mkPoint F24 0) cur).
Proof using HP HS Hmodel.
  intros Hc. pose proof sorted_in_domain as Hd. pose proof (HS model) as Hs.
  split; [| split].
  - intros l1 b a l2 E Lb La.
    rewrite computeDuty_sorted by (rewrite E; now destruct l1).
    rewrite E in *. now apply interpolate_inner.
  - intros a l2 E La.
    rewrite computeDuty_sorted by (rewrite E; discriminate).
    rewrite E in *. now apply interpolate_head.
  - intros l1 b E Lb.
    rewrite computeDuty_sorted by (rewrite E; now destruct l1).
    rewrite E in *. now apply interpolate_tail.
Qed.
End Segments.

Lemma bracket_members (l : list SchedulePoint) (cur : float) :
  (foundBefore (scan l cur) || foundAfter (scan l cur))%bool = true ->
  (In (fst (bracket l (scan l cur))) l \/
   fst (bracket l (scan l cur)) = mkPoint F0 0) /\
  (In (snd (bracket l (scan l cur))) l \/
   snd (bracket l (scan l cur)) = mkPoint F24 0) /\
  (foundBefore (scan l cur) = true -> foundAfter (scan l cur) = true ->
   In (fst (bracket l (scan l cur))) l /\
   In (snd (bracket l (scan l cur))) l).
Proof.
  intros Hf. pose proof (scan_inv cur l) as (I1 & I2 & _ & _).
  unfold bracket.
  destruct (foundBefore (scan l cur)) eqn:FB,
           (foundAfter (scan l cur)) eqn:FA; try discriminate;
    cbn [negb fst snd].
  - destruct (I1 eq_refl) as [Hb _]. destruct (I2 eq_refl) as [Ha _]. tauto.
  - destruct (I1 eq_refl) as [Hb _].
    assert (Hne : l <> []) by (intros ->; destruct Hb).
    pose proof (last_in (mkPoint F0 0) l Hne).
    split; [now left |]. split; [now right | discriminate].
  - destruct (I2 eq_refl) as [Ha _].
    assert (Hne : l <> []) by (intros ->; destruct Ha).
    pose proof (hd_in (mkPoint F0 0) l Hne).
    split; [now right |]. split; [now left | discriminate].
Qed.

Lemma follows_segment_leb (v v' : float) (b a b' a' : SchedulePoint)
      (cur cur' : float) :
  follows_segment v b a cur -> follows_segment v' b' a' cur' ->
  segment_ulps b a cur <= segment_ulps b' a' cur' ->
  F32.leb v v' = true.
Proof.
  intros (V & N & U) (V' & N' & U') H.
  rewrite leb_ulps by assumption. apply Z.leb_le. lia.
Qed.

Lemma list_eq_dec_nil (l : list SchedulePoint) : {l = []} + {l <> []}.
Proof. destruct l; [now left | now right]. Qed.

Lemma computeDuty_nonempty {P : Platform} (model : list SchedulePoint)
      (cur : float) :
  model <> [] -> computeDuty model cur = interpolate (std_sort model) cur.
Proof. destruct model; [congruence | reflexivity]. Qed.

Section SegmentFacts.
Context {P : Platform}.
Hypothesis HP : SortPermutes P.
Hypothesis HS : SortOrders P.
Variable model : list SchedulePoint.
Hypothesis Hmodel : Forall in_domain model.

(** X8.  What [calculateCurrentDuty] returns for points of the documented
    domain is, bit for bit, the interpolation formula with every operation
    rounded to nearest: on the segment between two neighbouring points,
    on the one from the virtual point (0 h, 0 %) to the first point, and
    on the one from the last point to the virtual point (24 h, 0 %). *)
Theorem duty_follows_segment (cur : float) :
  in_day cur ->
  (forall l1 b a l2,
      std_sort model = l1 ++ b :: a :: l2 ->
      F32.leb (time b) cur = true -> F32.ltb cur (time a) = true ->
      follows_segment (computeDuty model cur) b a cur) /\
  (forall a l2,
      std_sort model = a :: l2 -> F32.ltb cur (time a) = true ->
      follows_segment (computeDuty model cur) (mkPoint F0 0) a cur) /\
  (forall l1 b,
      std_sort model = l1 ++ [b] -> F32.leb (time b) cur = true ->
      follows_segment (computeDuty model cur) b (mkPoint F24 0) cur).
Proof using HP HS Hmodel.
  exact (follows_segment_cases HP HS model Hmodel cur).
Qed.

(** X9.  For a schedule whose points all lie in the documented domain (a time
    of the day and a duty from 0 to 100), at a time of the day and with
    a sort that permutes and orders: between two neighbouring points of
    the schedule the duty lies between their duties, and at the time of
    the earlier one it is the duty of that point.  (Stored duties outside
    0 to 100 are cut by [constrain], and then this fails.) *)
Theorem duty_between_neighbours (cur : float)
        (l1 l2 : list SchedulePoint) (b a : SchedulePoint) :
  in_day cur ->
  std_sort model = l1 ++ b :: a :: l2 ->
  F32.leb (time b) cur = true -> F32.ltb cur (time a) = true ->
  F32.leb (F32.of_int (Z.min (duty b) (duty a))) (computeDuty model cur)
  = true /\
  F32.leb (computeDuty model cur) (F32.of_int (Z.max (duty b) (duty a)))
  = true /\
  (F32.eqb (time b) cur = true ->
   F32.eqb (computeDuty model cur) (F32.of_int (duty b)) = true).
Proof using HP HS Hmodel.
  intros Hc E Lb La.
  destruct (follows_segment_cases HP HS model Hmodel cur Hc) as (H & _ & _).
  destruct (H l1 b a l2 E Lb La) as (V & N & U).
  pose proof (sorted_in_domain HP model Hmodel) as Hd.
  rewrite Forall_forall in Hd.
  assert (Ib : In b (std_sort model))
    by (rewrite E; apply in_app_iff; right; now left).
  assert (Ia : In a (std_sort model))
    by (rewrite E; apply in_app_iff; right; right; now left).
  destruct (in_domain_cmp cur b Hc (Hd b Ib)) as (Db & Rb & Ub & Eb & Eb' & _).
  destruct (in_domain_cmp cur a Hc (Hd a Ia)) as (Da & Ra & Ua & _ & _ & Ea).
  rewrite Eb in Lb. apply Z.leb_le in Lb.
  rewrite Ea in La. apply Z.ltb_lt in La.
  pose proof (ulps_nonneg _ (proj1 Db)) as Pb.
  pose proof (interp_ulps_between (ulps (time b)) (ulps (time a))
                (duty b) (duty a) Pb ltac:(lia) Rb Ra (ulps cur) ltac:(lia))
    as B.
  fold (segment_ulps b a cur) in B. rewrite <- U in B.
  destruct (of_int_ulps (Z.min (duty b) (duty a)) ltac:(lia))
    as (V1 & N1 & U1).
  destruct (of_int_ulps (Z.max (duty b) (duty a)) ltac:(lia))
    as (V2 & N2 & U2).
  destruct (of_int_ulps (duty b) Rb) as (V3 & N3 & U3).
  split; [rewrite leb_ulps by assumption; apply Z.leb_le; lia |].
  split; [rewrite leb_ulps by assumption; apply Z.leb_le; lia |].
  intros Heq.
  destruct (in_day_closed cur Hc) as [(Vc & Nc & _) _].
  rewrite eqb_ulps in Heq by (assumption || apply Db).
  apply Z.eqb_eq in Heq.
  rewrite eqb_ulps by assumption. apply Z.eqb_eq.
  rewrite U, U3. unfold segment_ulps. rewrite <- Heq.
  apply interp_ulps_at_before; lia.
Qed.

(** X10.  For a schedule whose points all lie in the documented domain (a time
    of the day and a duty from 0 to 100), at times of the day and with a
    sort that permutes and orders: on a segment of the schedule the duty
    moves in one direction as the time advances: it does not fall where
    the later point is the brighter one, and does not rise where it is
    the darker one.  The same holds before the first point, where the
    duty rises from 0, and after the last one, where it falls to 0. *)
Theorem duty_monotone_on_segment (cur cur' : float) :
  in_day cur -> in_day cur' -> F32.leb cur cur' = true ->
  (forall l1 b a l2,
      std_sort model = l1 ++ b :: a :: l2 ->
      F32.leb (time b) cur = true -> F32.ltb cur' (time a) = true ->
      (duty b <= duty a ->
       F32.leb (computeDuty model cur) (computeDuty model cur') = true) /\
      (duty a <= duty b ->
       F32.leb (computeDuty model cur') (computeDuty model cur) = true)) /\
  (forall a l2,
      std_sort model = a :: l2 -> F32.ltb cur' (time a) = true ->
      F32.leb (computeDuty model cur) (computeDuty model cur') = true) /\
  (forall l1 b,
      std_sort model = l1 ++ [b] -> F32.leb (time b) cur = true ->
      F32.leb (computeDuty model cur') (computeDuty model cur) = true).
Proof using HP HS Hmodel.
  intros Hc Hc' Hcc.
  destruct (in_day_closed cur Hc) as [(Vc & Nc & _) Lc].
  destruct (in_day_closed cur' Hc') as [(Vc' & Nc' & _) Lc'].
  rewrite leb_ulps in Hcc by assumption. apply Z.leb_le in Hcc.
  pose proof (ulps_nonneg _ Vc) as Pc.
  destruct (follows_segment_cases HP HS model Hmodel cur Hc) as (H1 & H2 & H3).
  destruct (follows_segment_cases HP HS model Hmodel cur' Hc')
    as (H1' & H2' & H3').
  pose proof (sorted_in_domain HP model Hmodel) as Hd.
  rewrite Forall_forall in Hd.
  split; [| split].
  - intros l1 b a l2 E Lb La.
    assert (Ib : In b (std_sort model))
      by (rewrite E; apply in_app_iff; right; now left).
    assert (Ia : In a (std_sort model))
      by (rewrite E; apply in_app_iff; right; right; now left).
    destruct (in_domain_cmp cur b Hc (Hd b Ib)) as (Db & Rb & Ub & Eb & _).
    destruct (in_domain_cmp cur' b Hc' (Hd b Ib)) as (_ & _ & _ & Eb' & _).
    destruct (in_domain_cmp cur a Hc (Hd a Ia))
      as (Da & Ra & Ua & _ & _ & Ea).
    destruct (in_domain_cmp cur' a Hc' (Hd a Ia))
      as (_ & _ & _ & _ & _ & Ea').
    pose proof Lb as Lb0. pose proof La as La0.
    rewrite Eb in Lb. apply Z.leb_le in Lb.
    rewrite Ea' in La. apply Z.ltb_lt in La.
    assert (Lb' : F32.leb (time b) cur' = true)
      by (rewrite Eb'; apply Z.leb_le; lia).
    assert (La' : F32.ltb cur (time a) = true)
      by (rewrite Ea; apply Z.ltb_lt; lia).
    pose proof (H1 l1 b a l2 E Lb0 La') as F.
    pose proof (H1' l1 b a l2 E Lb' La0) as F'.
    pose proof (ulps_nonneg _ (proj1 Db)) as Pb.
    destruct (interp_ulps_mono (ulps (time b)) (ulps (time a))
                (duty b) (duty a) Pb ltac:(lia) Rb Ra
                (ulps cur) (ulps cur') ltac:(lia) ltac:(lia)) as [Up Down].
    split; intros Hd'.
    + exact (follows_segment_leb _ _ _ _ _ _ _ _ F F' (Up Hd')).
    + exact (follows_segment_leb _ _ _ _ _ _ _ _ F' F (Down Hd')).
  - intros a l2 E La.
    assert (Ia : In a (std_sort model)) by (rewrite E; now left).
    destruct (in_domain_cmp cur a Hc (Hd a Ia))
      as (Da & Ra & Ua & _ & _ & Ea).
    destruct (in_domain_cmp cur' a Hc' (Hd a Ia))
      as (_ & _ & _ & _ & _ & Ea').
    pose proof La as La0. rewrite Ea' in La. apply Z.ltb_lt in La.
    assert (La' : F32.ltb cur (time a) = true)
      by (rewrite Ea; apply Z.ltb_lt; lia).
    pose proof (H2 a l2 E La') as F. pose proof (H2' a l2 E La0) as F'.
    destruct (interp_ulps_mono 0 (ulps (time a)) 0 (duty a)
                ltac:(lia) ltac:(lia) ltac:(lia) Ra
                (ulps cur) (ulps cur') ltac:(lia) ltac:(lia)) as [Up _].
    exact (follows_segment_leb _ _ _ _ _ _ _ _ F F' (Up (proj1 Ra))).
  - intros l1 b E Lb.
    assert (Ib : In b (std_sort model))
      by (rewrite E; apply in_app_iff; right; now left).
    destruct (in_domain_cmp cur b Hc (Hd b Ib)) as (Db & Rb & Ub & Eb & _).
    destruct (in_domain_cmp cur' b Hc' (Hd b Ib)) as (_ & _ & _ & Eb' & _).
    pose proof Lb as Lb0. rewrite Eb in Lb. apply Z.leb_le in Lb.
    assert (Lb' : F32.leb (time b) cur' = true)
      by (rewrite Eb'; apply Z.leb_le; lia).
    pose proof (H3 l1 b E Lb0) as F. pose proof (H3' l1 b E Lb') as F'.
    pose proof (ulps_nonneg _ (proj1 Db)) as Pb.
    assert (U24 : ulps F24 = 24 * 2 ^ 149) by reflexivity.
    destruct (interp_ulps_mono (ulps (time b)) (ulps F24) (duty b) 0
                Pb ltac:(lia) Rb ltac:(lia)
                (ulps cur) (ulps cur') ltac:(lia) ltac:(lia)) as [_ Down].
    exact (follows_segment_leb _ _ _ _ _ _ _ _ F' F (Down (proj1 Rb))).
Qed.

(** X11.  For a schedule whose points all lie in the documented domain (a time
    of the day and a duty from 0 to 100), at a time of the day and with
    a sort that permutes: the duty never exceeds a bound, itself from 0
    to 100, that no duty of the schedule exceeds; and where every point
    has the same duty, the duty is that one at all times between the
    first and the last point. *)
Theorem duty_within_schedule_duties (cur : float) :
  in_day cur ->
  (forall D, 0 <= D <= 100 ->
             (forall p, In p model -> duty p <= D) ->
             F32.leb (computeDuty model cur) (F32.of_int D) = true) /\
  (forall d, (forall p, In p model -> duty p = d) ->
             (exists p, In p model /\ F32.leb (time p) cur = true) ->
             (exists q, In q model /\ F32.leb cur (time q) = true) ->
             F32.eqb (computeDuty model cur) (F32.of_int d) = true).
Proof using HP Hmodel.
  intros Hc.
  destruct (in_day_closed cur Hc) as [Dc Lc].
  pose proof (sorted_in_domain HP model Hmodel) as Hd.
  set (l := std_sort model) in *.
  assert (Hin : forall p, In p l -> In p model).
  { intros p Hp. eapply Permutation_in; [apply Permutation_sym, HP | exact Hp]. }
  assert (Hin' : forall p, In p model -> In p l).
  { intros p Hp. eapply Permutation_in; [apply HP | exact Hp]. }
  pose proof (bracket_spec cur l Hd Hc) as B.
  pose proof (bracket_members l cur) as M.
  pose proof (scan_inv cur l) as (_ & _ & I3 & I4).
  split.
  - intros D HD Hmax.
    destruct (of_int_ulps D HD) as (VD & ND & UD).
    assert (Z : F32.leb F0 (F32.of_int D) = true).
    { rewrite leb_ulps by (assumption || reflexivity).
      apply Z.leb_le. rewrite UD. change (ulps F0) with 0. lia. }
    destruct (list_eq_dec_nil model) as [-> | Hne]; [exact Z |].
    rewrite computeDuty_nonempty by exact Hne.
    fold l. rewrite interpolate_segment.
    destruct (foundBefore (scan l cur)) eqn:FB,
             (foundAfter (scan l cur)) eqn:FA;
      cbn [negb andb orb] in *; try exact Z;
      specialize (B eq_refl); destruct (M eq_refl) as (Mb & Ma & _);
      destruct (bracket l (scan l cur)) as [b a]; cbn [fst snd] in *;
      destruct B as (Db & Da & Hord & Rb & Ra);
      destruct (segment_spec b a cur Db Da Dc Hord Rb Ra)
        as (V & N & [_ Up] & _);
      (assert (Hb : duty b <= D)
        by (destruct Mb as [Mb | ->]; [apply Hmax, Hin, Mb | simpl; lia]));
      (assert (Ha : duty a <= D)
        by (destruct Ma as [Ma | ->]; [apply Hmax, Hin, Ma | simpl; lia]));
      rewrite leb_ulps by assumption; apply Z.leb_le; rewrite UD; nia.
  - intros d Hall (p & Ip & Lp) (q & Iq & Lq).
    assert (FB : foundBefore (scan l cur) = true).
    { destruct (foundBefore (scan l cur)) eqn:FB; [reflexivity |].
      rewrite (I3 eq_refl p (Hin' p Ip)) in Lp. discriminate. }
    assert (FA : foundAfter (scan l cur) = true).
    { destruct (foundAfter (scan l cur)) eqn:FA; [reflexivity |].
      rewrite (I4 eq_refl q (Hin' q Iq)) in Lq. discriminate. }
    rewrite computeDuty_nonempty by (intros ->; destruct Ip).
    fold l. rewrite interpolate_segment.
    rewrite FB, FA in *. cbn [negb andb orb] in *.
    specialize (B eq_refl). destruct (M eq_refl) as (_ & _ & Mba).
    destruct (Mba eq_refl eq_refl) as [Mb Ma].
    destruct (bracket l (scan l cur)) as [b a]; cbn [fst snd] in *.
    destruct B as (Db & Da & Hord & Rb & Ra).
    destruct (segment_spec b a cur Db Da Dc Hord Rb Ra)
      as (V & N & Bd & _).
    rewrite (Hall b (Hin b Mb)), (Hall a (Hin a Ma)) in Bd.
    rewrite Z.min_id, Z.max_id in Bd.
    assert (Rd : 0 <= d <= 100) by (rewrite <- (Hall b (Hin b Mb)); exact Rb).
    destruct (of_int_ulps d Rd) as (VD & ND & UD).
    rewrite eqb_ulps by assumption. apply Z.eqb_eq. lia.
Qed.
End SegmentFacts.

(** ** The fade towards a fixed target *)

Lemma srnd_abs (prec z B : Z) :
  0 < prec -> 0 < B -> Z.abs (srnd prec z B) = rnd prec (Z.abs z) B.
Proof.
  intros Hp HB. unfold srnd. destruct (Z.ltb_spec z 0) as [L | G].
  - rewrite Z.abs_opp, (Z.abs_neq z) by lia.
    apply Z.abs_eq. apply rnd_nonneg; lia.
  - rewrite (Z.abs_eq z) by lia. apply Z.abs_eq. apply rnd_nonneg; lia.
Qed.

Lemma abs_sval (x : float) :
  fin F32.prec F32.emax x = true ->
  F32.valid (F32.abs x) = true /\ nonneg (F32.abs x) = true /\
  ulps (F32.abs x) = Z.abs (sval F32.prec F32.emax x).
Proof.
  intros F. destruct x as [s | s | | s m e]; try discriminate F;
    try (repeat split; reflexivity).
  pose proof (fin_finite F32.prec F32.emax prec32_pos emax32_ok _ _ _ F)
    as [[He _] _].
  split; [exact (proj1 (fin32_valid _ F)) |]. split; [reflexivity |].
  assert (0 < Z.pos m * 2 ^ (e - emin F32.prec F32.emax))
    by (apply Z.mul_pos_pos; [reflexivity | apply Z.pow_pos_nonneg; lia]).
  unfold F32.abs, SFabs, ulps, sval.
  change (e + 149) with (e - emin F32.prec F32.emax).
  destruct s; cbn [cond_Zopp]; lia.
Qed.

Lemma percent_fin (x : float) :
  percent x ->
  fin F32.prec F32.emax x = true /\ sval F32.prec F32.emax x = ulps x /\
  0 <= ulps x /\ repr F32.prec (ulps x).
Proof.
  intros (V & N & U). pose proof (valid_nonneg_fin x V N) as F.
  pose proof (ulps_sval x N) as S. pose proof (ulps_nonneg x V) as P.
  split; [exact F |]. split; [exact S |]. split; [exact P |].
  pose proof (fin_repr F32.prec F32.emax prec32_pos emax32_ok x F) as [R _].
  rewrite S, Z.abs_eq in R by exact P. exact R.
Qed.

(** One tick of the fade. *)
Lemma fade_step (t c s : float) :
  percent t -> percent c -> percent s ->
  let r := fade t c s in
  percent r /\
  Z.min (ulps t) (ulps c) <= ulps r <= Z.max (ulps t) (ulps c) /\
  (r = t \/
   Z.abs (ulps t - ulps r) + (ulps s - 2 ^ 131) <= Z.abs (ulps t - ulps c)).
Proof.
  intros Ht Hc Hs r.
  destruct (percent_fin t Ht) as (Ft & St & Pt & Rt).
  destruct (percent_fin c Hc) as (Fc & Sc & Pc & Rc).
  destruct (percent_fin s Hs) as (Fs & Ss & Ps & Rs).
  pose proof Ht as (Vt & Nt & Ut). pose proof Hc as (Vc & Nc & Uc).
  pose proof Hs as (Vs & Ns & Us).
  pose proof prec32_pos as Hp.
  (* the difference *)
  assert (Rmax : repr F32.prec (Z.max (ulps t) (ulps c)))
    by (destruct (Z.max_spec (ulps t) (ulps c)) as [[_ ->] | [_ ->]];
        assumption).
  assert (Bd : rnd F32.prec (Z.abs (ulps t - ulps c)) 1
               <= Z.max (ulps t) (ulps c))
    by (apply rnd_upper; [exact Hp | lia | lia | exact Rmax | lia]).
  destruct (sub32 t c Ft Fc) as [Fd Sd].
  { rewrite St, Sc. apply ovf32_big. lia. }
  rewrite St, Sc in Sd.
  destruct (abs_sval _ Fd) as (Va & Na & Ua).
  rewrite Sd, srnd_abs in Ua by (exact Hp || lia).
  unfold r, fade.
  rewrite (leb_ulps (F32.abs (F32.sub t c)) s) by assumption.
  rewrite Ua.
  destruct (Z.leb_spec (rnd F32.prec (Z.abs (ulps t - ulps c)) 1) (ulps s))
    as [Hsnap | Hfar].
  { split; [exact Ht |]. split; [lia | now left]. }
  assert (Hgap : ulps s < Z.abs (ulps t - ulps c)).
  { destruct (Z_lt_ge_dec (ulps s) (Z.abs (ulps t - ulps c))) as [L | G];
      [exact L |].
    exfalso.
    assert (rnd F32.prec (Z.abs (ulps t - ulps c)) 1 <= ulps s)
      by (apply rnd_upper; [exact Hp | lia | lia | exact Rs | lia]).
    lia. }
  rewrite (ltb_ulps c t) by assumption.
  assert (Hgrid : forall A, 0 <= A <= 100 * 2 ^ 149 ->
                            2 * Z.abs (rnd F32.prec A 1 * 1 - A) <= 2 ^ 132).
  { intros A HA.
    pose proof (rnd_error F32.prec Hp A 1 ltac:(lia) ltac:(lia)) as E.
    rewrite Z.div_1_r, Z.mul_1_l in E.
    apply Z.le_trans with (1 := E).
    apply Z.pow_le_mono_r; [lia |]. unfold grid.
    assert (Zdigits2 A <= 156)
      by (apply Zdigits2_le_of_lt_pow2; lia).
    unfold F32.prec. lia. }
  destruct (Z.ltb_spec (ulps c) (ulps t)) as [Hup | Hdown].
  - destruct (add32 c s Fc Fs) as [Fr Sr].
    { rewrite Sc, Ss, Z.abs_eq by lia. apply ovf32_big.
      apply Z.le_trans with (ulps t); [| lia].
      apply rnd_upper; [exact Hp | lia | lia | exact Rt | lia]. }
    rewrite Sc, Ss, srnd_nonneg_arg in Sr by lia.
    assert (Bup : rnd F32.prec (ulps c + ulps s) 1 <= ulps t)
      by (apply rnd_upper; [exact Hp | lia | lia | exact Rt | lia]).
    assert (Blo : ulps c <= rnd F32.prec (ulps c + ulps s) 1)
      by (apply rnd_lower; [exact Hp | lia | lia | lia | exact Rc | lia]).
    assert (Nr : nonneg (F32.add c s) = true)
      by (apply fin32_nonneg; [exact Fr | rewrite Sr; lia]).
    rewrite <- (ulps_sval _ Nr) in *. rewrite Sr.
    pose proof (Hgrid (ulps c + ulps s) ltac:(lia)) as E.
    split; [split; [exact (proj1 (fin32_valid _ Fr)) | split; [exact Nr |]];
            rewrite <- (ulps_sval _ Nr), Sr; lia |].
    split; [lia |]. right. lia.
  - destruct (sub32 c s Fc Fs) as [Fr Sr].
    { rewrite Sc, Ss, Z.abs_eq by lia. apply ovf32_big.
      apply Z.le_trans with (ulps c); [| lia].
      apply rnd_upper; [exact Hp | lia | lia | exact Rc | lia]. }
    rewrite Sc, Ss, srnd_nonneg_arg in Sr by lia.
    assert (Bup : rnd F32.prec (ulps c - ulps s) 1 <= ulps c)
      by (apply rnd_upper; [exact Hp | lia | lia | exact Rc | lia]).
    assert (Blo : ulps t <= rnd F32.prec (ulps c - ulps s) 1)
      by (apply rnd_lower; [exact Hp | lia | lia | lia | exact Rt | lia]).
    assert (Nr : nonneg (F32.sub c s) = true)
      by (apply fin32_nonneg; [exact Fr | rewrite Sr; lia]).
    pose proof (Hgrid (ulps c - ulps s) ltac:(lia)) as E.
    split; [split; [exact (proj1 (fin32_valid _ Fr)) | split; [exact Nr |]];
            rewrite <- (ulps_sval _ Nr), Sr; lia |].
    rewrite <- (ulps_sval _ Nr), Sr.
    split; [lia |]. right. lia.
Qed.

Lemma percent_of_int (d : Z) : 0 <= d <= 100 -> percent (F32.of_int d).
Proof.
  intros H. destruct (of_int_ulps d H) as (V & N & U).
  split; [exact V |]. split; [exact N |]. rewrite U. lia.
Qed.

Lemma percent_step : percent fadeStep_init.
Proof. repeat split. vm_compute. discriminate. Qed.

Lemma ulps_step : ulps fadeStep_init = 13421773 * 2 ^ 123.
Proof. reflexivity. Qed.

Lemma fade_to_succ (t : float) (n : nat) (c : float) :
  fade_to t (S n) c = fade t (fade_to t n c) fadeStep_init.
Proof. reflexivity. Qed.

Lemma fade_to_progress (t c : float) (n : nat) :
  percent t -> percent c ->
  let r := fade_to t n c in
  percent r /\
  Z.min (ulps t) (ulps c) <= ulps r <= Z.max (ulps t) (ulps c) /\
  (r = t \/
   Z.abs (ulps t - ulps r) + Z.of_nat n * (13421517 * 2 ^ 123)
   <= Z.abs (ulps t - ulps c)).
Proof.
  intros Ht Hc. induction n as [| n IH].
  - cbv zeta. change (fade_to t 0 c) with c.
    split; [exact Hc |]. split; [lia |]. right. lia.
  - cbv zeta in *. rewrite fade_to_succ.
    destruct IH as (Pn & Bn & Dn).
    pose proof (fade_step t (fade_to t n c) fadeStep_init Ht Pn percent_step)
      as Hstep.
    cbv zeta in Hstep. destruct Hstep as (Pr & Br & Dr).
    rewrite ulps_step in Dr.
    split; [exact Pr |]. split; [lia |].
    destruct Dr as [E | Dr]; [now left |].
    destruct Dn as [E | Dn].
    + rewrite E in Dr. rewrite Z.sub_diag in Dr. simpl Z.abs in Dr.
      exfalso. lia.
    + right. lia.
Qed.

Lemma fade_to_settles (t c : float) (n : nat) :
  percent t -> percent c -> (501 <= n)%nat -> fade_to t n c = t.
Proof.
  intros Ht Hc Hn.
  destruct (fade_to_progress t c n Ht Hc) as (_ & _ & [E | D]); [exact E |].
  exfalso. destruct Ht as (Vt & Nt & Ut). destruct Hc as (Vc & Nc & Uc).
  pose proof (ulps_nonneg t Vt). pose proof (ulps_nonneg c Vc). lia.
Qed.

(** X15.  The fade towards a target that does not move: every tick brings
    [currentDutyPWM] nearer to the target without passing it, and after
    501 ticks at the latest it is the target. *)
Theorem fade_reaches_target (t c : float) :
  percent t -> percent c ->
  fade_to t 501 c = t /\
  (forall n, (501 <= n)%nat -> fade_to t n c = t) /\
  (forall n, F32.valid (fade_to t n c) = true /\
             (F32.leb c t = true ->
              F32.leb c (fade_to t n c) = true /\
              F32.leb (fade_to t n c) t = true) /\
             (F32.leb t c = true ->
              F32.leb t (fade_to t n c) = true /\
              F32.leb (fade_to t n c) c = true)).
Proof.
  intros Ht Hc.
  pose proof (fun n => fade_to_settles t c n Ht Hc) as R.
  split; [apply R; lia |]. split; [exact R |].
  intros n. destruct (fade_to_progress t c n Ht Hc) as (Pr & Br & _).
  destruct Ht as (Vt & Nt & Ut). destruct Hc as (Vc & Nc & Uc).
  destruct Pr as (Vr & Nr & Ur).
  split; [exact Vr |].
  rewrite !leb_ulps by assumption.
  split; intros H; apply Z.leb_le in H; split; apply Z.leb_le; lia.
Qed.

Lemma fade_reaches_target_witness :
  fade_to (F32.of_int 30) 501 (F32.of_int 80) = F32.of_int 30.
Proof.
  exact (proj1 (fade_reaches_target (F32.of_int 30) (F32.of_int 80)
                  (percent_of_int 30 ltac:(lia))
                  (percent_of_int 80 ltac:(lia)))).
Defined.

(** ** The operations of binary64 and the clock reading *)

Lemma prec64_pos : 0 < F64.prec.
Proof. reflexivity. Qed.

Lemma emax64_ok : 2 <= F64.emax.
Proof. discriminate. Qed.

Lemma ovf64_big (U : Z) : U <= 2 ^ 2000 -> U < ovf F64.prec F64.emax.
Proof. intros H. apply Z.le_lt_trans with (1 := H). reflexivity. Qed.

Lemma of_int64_signed (n : Z) :
  Z.abs n < 2 ^ 53 ->
  fin F64.prec F64.emax (F64.of_int n) = true /\
  sval F64.prec F64.emax (F64.of_int n) = n * 2 ^ 1074.
Proof.
  intros Hn.
  pose proof (normalize_sval F64.prec F64.emax prec64_pos emax64_ok n 0 false)
    as H. cbv zeta in H.
  change (Z.max (0 - emin F64.prec F64.emax) 0) with 1074 in H.
  change (2 ^ Z.max (emin F64.prec F64.emax - 0) 0) with 1 in H.
  assert (E : Z.abs (n * 2 ^ 1074) = Z.abs n * 2 ^ 1074)
    by (rewrite Z.abs_mul, (Z.abs_eq (2 ^ 1074)) by lia; reflexivity).
  assert (R : repr F64.prec (Z.abs (n * 2 ^ 1074))).
  { rewrite E. apply repr_small; [reflexivity | | lia]. unfold F64.prec. lia. }
  fold (F64.of_int n) in H.
  rewrite srnd_exact in H by (assumption || reflexivity).
  apply H.
  replace (Z.abs (n * 2 ^ 1074)) with (Z.abs (n * 2 ^ 1074) * 1) by lia.
  rewrite rnd_exact by (assumption || reflexivity || lia).
  apply ovf64_big. rewrite E.
  apply Z.le_trans with (2 ^ 53 * 2 ^ 1074); [| rewrite <- Z.pow_add_r; lia].
  apply Z.mul_le_mono_nonneg_r; lia.
Qed.

Lemma of_int64_sval (n : Z) :
  0 <= n < 2 ^ 53 ->
  fin F64.prec F64.emax (F64.of_int n) = true /\
  sval F64.prec F64.emax (F64.of_int n) = n * 2 ^ 1074.
Proof. intros Hn. apply of_int64_signed. lia. Qed.

(** A quotient of two small integers, bounded by a dyadic number:
    [n / k <= u / 2^14]. *)
Lemma div64_small (n k u : Z) :
  0 <= n < 2 ^ 53 -> 0 < k < 2 ^ 53 -> 0 <= u < 2 ^ 53 ->
  n * 2 ^ 14 <= u * k ->
  let q := F64.div (F64.of_int n) (F64.of_int k) in
  fin F64.prec F64.emax q = true /\
  0 <= sval F64.prec F64.emax q <= u * 2 ^ 1060.
Proof.
  intros Hn Hk Hu H q.
  destruct (of_int64_sval n Hn) as [Fn Sn].
  destruct (of_int64_sval k ltac:(lia)) as [Fk Sk].
  pose proof (div_sval F64.prec F64.emax prec64_pos emax64_ok _ _ Fn Fk)
    as D.
  rewrite Sn, Sk in D.
  change (2 ^ (- emin F64.prec F64.emax)) with (2 ^ 1074) in D.
  assert (Pk : 0 < k * 2 ^ 1074) by lia.
  assert (Pn : 0 <= n * 2 ^ 1074 * 2 ^ 1074) by lia.
  assert (R : repr F64.prec (u * 2 ^ 1060)).
  { apply repr_small; [reflexivity | | lia]. unfold F64.prec. lia. }
  assert (B : rnd F64.prec (n * 2 ^ 1074 * 2 ^ 1074) (k * 2 ^ 1074)
              <= u * 2 ^ 1060).
  { apply rnd_upper; [reflexivity | exact Pn | exact Pk | exact R |].
    replace (n * 2 ^ 1074 * 2 ^ 1074)
      with (n * 2 ^ 14 * (2 ^ 1060 * 2 ^ 1074))
      by (replace 1074 with (14 + 1060) at 1 by lia;
          rewrite Z.pow_add_r by lia; ring).
    replace (u * 2 ^ 1060 * (k * 2 ^ 1074))
      with (u * k * (2 ^ 1060 * 2 ^ 1074)) by ring.
    apply Z.mul_le_mono_nonneg_r; lia. }
  destruct D as [Fq Sq]; try lia.
  { apply ovf64_big. apply Z.le_trans with (1 := B).
    apply Z.le_trans with (2 ^ 53 * 2 ^ 1060); [| rewrite <- Z.pow_add_r; lia].
    apply Z.mul_le_mono_nonneg_r; lia. }
  change (SFdiv F64.prec F64.emax (F64.of_int n) (F64.of_int k)) with q
    in Fq, Sq.
  split; [exact Fq |]. rewrite Sq. split; [| exact B].
  apply rnd_nonneg; [reflexivity | exact Pn | exact Pk].
Qed.

Lemma add64_bounded (x y : double) (ux uy : Z) :
  fin F64.prec F64.emax x = true -> fin F64.prec F64.emax y = true ->
  0 <= sval F64.prec F64.emax x <= ux * 2 ^ 1060 ->
  0 <= sval F64.prec F64.emax y <= uy * 2 ^ 1060 ->
  0 <= ux + uy < 2 ^ 53 ->
  fin F64.prec F64.emax (F64.add x y) = true /\
  0 <= sval F64.prec F64.emax (F64.add x y) <= (ux + uy) * 2 ^ 1060.
Proof.
  intros Fx Fy Hx Hy Hu.
  pose proof (add_sval F64.prec F64.emax prec64_pos emax64_ok x y Fx Fy) as A.
  set (sx := sval F64.prec F64.emax x) in *.
  set (sy := sval F64.prec F64.emax y) in *.
  rewrite Z.abs_eq, srnd_nonneg_arg in A by lia.
  assert (R : repr F64.prec ((ux + uy) * 2 ^ 1060)).
  { apply repr_small; [reflexivity | | lia]. unfold F64.prec. lia. }
  assert (B : rnd F64.prec (sx + sy) 1 <= (ux + uy) * 2 ^ 1060)
    by (apply rnd_upper; [reflexivity | lia | lia | exact R | lia]).
  destruct A as [Fa Sa].
  { apply ovf64_big. apply Z.le_trans with (1 := B).
    apply Z.le_trans with (2 ^ 53 * 2 ^ 1060); [| rewrite <- Z.pow_add_r; lia].
    apply Z.mul_le_mono_nonneg_r; lia. }
  change (SFadd F64.prec F64.emax x y) with (F64.add x y) in Fa, Sa.
  split; [exact Fa |]. rewrite Sa.
  split; [| exact B]. apply rnd_nonneg; [reflexivity | lia | lia].
Qed.

(** Narrowing a [double] that is not negative. *)
Lemma to_float_signed (d : double) :
  fin F64.prec F64.emax d = true ->
  rnd F32.prec (Z.abs (sval F64.prec F64.emax d)) (2 ^ 925)
  < ovf F32.prec F32.emax ->
  fin F32.prec F32.emax (F64.to_float d) = true /\
  sval F32.prec F32.emax (F64.to_float d)
  = srnd F32.prec (sval F64.prec F64.emax d) (2 ^ 925).
Proof.
  intros Fd Hovf.
  destruct d as [s | s | | s m e]; try discriminate Fd.
  - split; [reflexivity |]. cbn [F64.to_float sval].
    rewrite srnd_nonneg_arg by lia.
    now rewrite rnd_0 by (reflexivity || lia).
  - pose proof (fin_finite F64.prec F64.emax prec64_pos emax64_ok _ _ _ Fd)
      as [[He _] _].
    change (emin F64.prec F64.emax) with (-1074) in He.
    cbn [F64.to_float].
    unfold sval in Hovf |- *.
    change (e - emin F64.prec F64.emax) with (e + 1074) in *.
    assert (P3 : 0 < 2 ^ (e + 1074)) by (apply Z.pow_pos_nonneg; lia).
    assert (Ea : Z.abs (cond_Zopp s (Z.pos m * 2 ^ (e + 1074)))
                 = Z.pos m * 2 ^ (e + 1074))
      by (destruct s; cbn [cond_Zopp]; lia).
    rewrite Ea in Hovf.
    pose proof (normalize_sval F32.prec F32.emax prec32_pos emax32_ok
                               (cond_Zopp s (Z.pos m)) e s) as H.
    cbv zeta in H.
    change (emin F32.prec F32.emax) with (-149) in H.
    assert (P1 : 0 < 2 ^ Z.max (e - -149) 0) by apply pow2_max_pos.
    assert (P2 : 0 < 2 ^ Z.max (-149 - e) 0) by apply pow2_max_pos.
    assert (Hext : rnd F32.prec (Z.pos m * 2 ^ Z.max (e - -149) 0)
                       (2 ^ Z.max (-149 - e) 0)
                   = rnd F32.prec (Z.pos m * 2 ^ (e + 1074)) (2 ^ 925)).
    { apply rnd_ext; [reflexivity | | assumption | | lia |].
      - apply Z.mul_nonneg_nonneg; lia.
      - apply Z.mul_nonneg_nonneg; lia.
      - clear - He.
        rewrite <- !Z.mul_assoc, <- !Z.pow_add_r by lia.
        do 2 f_equal. lia. }
    assert (Ec : cond_Zopp s (Z.pos m) * 2 ^ Z.max (e - -149) 0
                 = cond_Zopp s (Z.pos m * 2 ^ Z.max (e - -149) 0))
      by (destruct s; cbn [cond_Zopp]; lia).
    rewrite Ec in H.
    assert (Ea' : Z.abs (cond_Zopp s (Z.pos m * 2 ^ Z.max (e - -149) 0))
                  = Z.pos m * 2 ^ Z.max (e - -149) 0)
      by (destruct s; cbn [cond_Zopp]; lia).
    rewrite Ea' in H.
    rewrite !srnd_cond_Zopp in *
      by (reflexivity || assumption || lia
          || (apply Z.mul_nonneg_nonneg; lia)).
    rewrite Hext in H. exact (H Hovf).
Qed.

Lemma to_float_sval (d : double) :
  fin F64.prec F64.emax d = true ->
  0 <= sval F64.prec F64.emax d ->
  rnd F32.prec (sval F64.prec F64.emax d) (2 ^ 925) < ovf F32.prec F32.emax ->
  fin F32.prec F32.emax (F64.to_float d) = true /\
  sval F32.prec F32.emax (F64.to_float d)
  = rnd F32.prec (sval F64.prec F64.emax d) (2 ^ 925).
Proof.
  intros Fd Hd Hovf.
  rewrite <- (srnd_nonneg_arg F32.prec _ (2 ^ 925) Hd).
  apply to_float_signed; [exact Fd | now rewrite Z.abs_eq].
Qed.

(** The hours, minutes and seconds of a clock, as the sketch adds them
    up. *)
Lemma clock_sum_in_day (h m s : Z) :
  0 <= h < 24 -> 0 <= m < 60 -> 0 <= s < 60 ->
  in_day
    (F64.to_float
       (F64.add
          (F64.add (F64.of_int h) (F64.div (F64.of_int m) (F64.of_int 60)))
          (F64.div (F64.of_int s) (F64.of_int 3600)))).
Proof.
  intros Hh Hm Hs.
  destruct (of_int64_sval h ltac:(lia)) as [Fh Sh].
  destruct (div64_small m 60 16113 ltac:(lia) ltac:(lia) ltac:(lia) ltac:(lia))
    as [Fm Bm].
  destruct (div64_small s 3600 269 ltac:(lia) ltac:(lia) ltac:(lia) ltac:(lia))
    as [Fs Bs].
  destruct (add64_bounded _ _ (h * 16384) 16113 Fh Fm) as [F1 B1];
    [rewrite Sh; replace 1074 with (14 + 1060) by lia;
     rewrite Z.pow_add_r by lia; lia | exact Bm | lia |].
  destruct (add64_bounded _ _ (h * 16384 + 16113) 269 F1 Fs B1 Bs ltac:(lia))
    as [F2 B2].
  set (d := F64.add _ (F64.div (F64.of_int s) (F64.of_int 3600))) in *.
  assert (R : repr F32.prec (393214 * 2 ^ 135)).
  { apply repr_small; [reflexivity | | lia]. unfold F32.prec. lia. }
  assert (B : rnd F32.prec (sval F64.prec F64.emax d) (2 ^ 925)
              <= 393214 * 2 ^ 135).
  { apply rnd_upper; [reflexivity | lia | lia | exact R |].
    replace (393214 * 2 ^ 135 * 2 ^ 925) with (393214 * 2 ^ 1060)
      by (rewrite <- Z.mul_assoc, <- Z.pow_add_r by lia; reflexivity).
    lia. }
  destruct (to_float_sval d F2 ltac:(lia)) as [Fr Sr].
  { apply ovf32_big. lia. }
  assert (P : 0 <= rnd F32.prec (sval F64.prec F64.emax d) (2 ^ 925))
    by (apply rnd_nonneg; [reflexivity | lia | lia]).
  assert (Nr : nonneg (F64.to_float d) = true)
    by (apply fin32_nonneg; [exact Fr | rewrite Sr; exact P]).
  pose proof (proj1 (fin32_valid _ Fr)) as Vr.
  split; [exact Vr |]. split.
  - rewrite leb_ulps by (assumption || reflexivity).
    apply Z.leb_le. change (ulps F0) with 0. now apply ulps_nonneg.
  - rewrite ltb_ulps by (assumption || reflexivity).
    apply Z.ltb_lt. rewrite <- (ulps_sval _ Nr), Sr.
    change (ulps F24) with (24 * 2 ^ 149). lia.
Qed.

Lemma timeInHours_clock (h m : Z) :
  timeInHours h m
  = F64.to_float
      (F64.add (F64.of_int h) (F64.div (F64.of_int m) (F64.of_int 60))).
Proof. reflexivity. Qed.

(** Hours and minutes alone, as [loadScheduleFromPreferences] adds them
    up. *)
Lemma timeInHours_in_day (h m : Z) :
  0 <= h < 24 -> 0 <= m < 60 -> in_day (timeInHours h m).
Proof.
  intros Hh Hm. rewrite timeInHours_clock.
  destruct (of_int64_sval h ltac:(lia)) as [Fh Sh].
  destruct (div64_small m 60 16113 ltac:(lia) ltac:(lia) ltac:(lia) ltac:(lia))
    as [Fm Bm].
  destruct (add64_bounded _ _ (h * 16384) 16113 Fh Fm) as [F1 B1];
    [rewrite Sh; replace 1074 with (14 + 1060) by lia;
     rewrite Z.pow_add_r by lia; lia | exact Bm | lia |].
  set (d := F64.add _ _) in *.
  assert (R : repr F32.prec (392945 * 2 ^ 135)).
  { apply repr_small; [reflexivity | | lia]. unfold F32.prec. lia. }
  assert (B : rnd F32.prec (sval F64.prec F64.emax d) (2 ^ 925)
              <= 392945 * 2 ^ 135).
  { apply rnd_upper; [reflexivity | lia | lia | exact R |].
    replace (392945 * 2 ^ 135 * 2 ^ 925) with (392945 * 2 ^ 1060)
      by (rewrite <- Z.mul_assoc, <- Z.pow_add_r by lia; reflexivity).
    lia. }
  destruct (to_float_sval d F1 ltac:(lia)) as [Fr Sr].
  { apply ovf32_big. lia. }
  assert (P : 0 <= rnd F32.prec (sval F64.prec F64.emax d) (2 ^ 925))
    by (apply rnd_nonneg; [reflexivity | lia | lia]).
  assert (Nr : nonneg (F64.to_float d) = true)
    by (apply fin32_nonneg; [exact Fr | rewrite Sr; exact P]).
  pose proof (proj1 (fin32_valid _ Fr)) as Vr.
  split; [exact Vr |]. split.
  - rewrite leb_ulps by (assumption || reflexivity).
    apply Z.leb_le. change (ulps F0) with 0. now apply ulps_nonneg.
  - rewrite ltb_ulps by (assumption || reflexivity).
    apply Z.ltb_lt. rewrite <- (ulps_sval _ Nr), Sr.
    change (ulps F24) with (24 * 2 ^ 149). lia.
Qed.

Section ClockFacts.
Context {P : Platform}.

Lemma getCurrentTimeInHours_in_day (st : State) :
  in_day (getCurrentTimeInHours st).
Proof.
  unfold getCurrentTimeInHours. cbv zeta.
  apply clock_sum_in_day; apply Z.mod_pos_bound; lia.
Qed.

(** X4.  Whatever the clock and the time zone, [getCurrentTimeInHours] returns
    a time of the day: a number from 0 up to, and not including, 24. *)
Theorem clock_reading_is_a_time_of_day (st : State) :
  F32.valid (getCurrentTimeInHours st) = true /\
  F32.leb F0 (getCurrentTimeInHours st) = true /\
  F32.ltb (getCurrentTimeInHours st) F24 = true.
Proof.
  unfold getCurrentTimeInHours. cbv zeta.
  apply clock_sum_in_day; apply Z.mod_pos_bound; lia.
Qed.
End ClockFacts.

(** ** The level of the PWM channel *)

Lemma to_double_sval (x : float) :
  F32.valid x = true -> nonneg x = true ->
  fin F64.prec F64.emax (Cast.to_double x) = true /\
  sval F64.prec F64.emax (Cast.to_double x) = ulps x * 2 ^ 925.
Proof.
  intros V N. destruct x as [s | s | | [|] m e]; try discriminate N;
    try (split; reflexivity).
  pose proof (valid32_finite _ _ _ V) as (He & Hd & _).
  cbn [Cast.to_double cond_Zopp]. unfold ulps.
  pose proof (normalize_sval F64.prec F64.emax prec64_pos emax64_ok
                             (Z.pos m) e false) as H.
  cbv zeta in H. change (emin F64.prec F64.emax) with (-1074) in H.
  rewrite (Z.max_l (e - -1074) 0), (Z.max_r (-1074 - e) 0) in H by lia.
  change (2 ^ 0) with 1 in H.
  assert (E : Z.pos m * 2 ^ (e - -1074) = Z.pos m * 2 ^ (e + 149) * 2 ^ 925).
  { rewrite <- Z.mul_assoc, <- Z.pow_add_r by lia. do 2 f_equal. lia. }
  rewrite E in H.
  assert (P : 0 <= Z.pos m * 2 ^ (e + 149) * 2 ^ 925)
    by (apply Z.mul_nonneg_nonneg; [apply Z.mul_nonneg_nonneg |]; lia).
  assert (R : repr F64.prec (Z.pos m * 2 ^ (e + 149) * 2 ^ 925)).
  { rewrite <- E. apply repr_small; [reflexivity | | lia].
    pose proof (Zdigits2_lt_pow2 (Z.pos m) ltac:(lia)) as U.
    assert (2 ^ Zdigits2 (Z.pos m) <= 2 ^ 24)
      by (apply Z.pow_le_mono_r; lia).
    unfold F64.prec. lia. }
  rewrite Z.abs_eq in H by exact P.
  rewrite srnd_exact in H
    by (reflexivity || (rewrite Z.abs_eq by exact P; exact R)).
  apply H.
  replace (Z.pos m * 2 ^ (e + 149) * 2 ^ 925)
    with (Z.pos m * 2 ^ (e + 149) * 2 ^ 925 * 1) by lia.
  rewrite rnd_exact by (assumption || reflexivity || lia).
  apply ovf64_big. rewrite <- E.
  pose proof (Zdigits2_lt_pow2 (Z.pos m) ltac:(lia)) as U.
  assert (2 ^ Zdigits2 (Z.pos m) <= 2 ^ 24) by (apply Z.pow_le_mono_r; lia).
  apply Z.le_trans with (2 ^ 24 * 2 ^ (e - -1074)).
  - apply Z.mul_le_mono_nonneg_r; [apply Z.pow_nonneg; lia | lia].
  - rewrite <- Z.pow_add_r by lia. apply Z.pow_le_mono_r; lia.
Qed.

Lemma to_int_sval (d : double) :
  fin F64.prec F64.emax d = true ->
  0 <= sval F64.prec F64.emax d < 2 ^ 31 * 2 ^ 1074 ->
  Cast.to_int d = Some (sval F64.prec F64.emax d / 2 ^ 1074).
Proof.
  intros F H. destruct d as [s | s | | s m e]; try discriminate F.
  - reflexivity.
  - pose proof (fin_finite F64.prec F64.emax prec64_pos emax64_ok _ _ _ F)
      as [[He _] _].
    change (emin F64.prec F64.emax) with (-1074) in He.
    unfold sval in H |- *. change (emin F64.prec F64.emax) with (-1074) in *.
    assert (Pp : 0 < 2 ^ (e - -1074)) by (apply Z.pow_pos_nonneg; lia).
    assert (Es : s = false).
    { destruct s; [| reflexivity]. exfalso. cbn [cond_Zopp] in H.
      assert (0 < Z.pos m * 2 ^ (e - -1074)); [| lia].
      apply Z.mul_pos_pos; [reflexivity | exact Pp]. }
    subst s. cbn [cond_Zopp] in *. unfold Cast.to_int. cbn [cond_Zopp].
    assert (Et : (if 0 <=? e then Z.pos m * 2 ^ e
                  else Z.quot (Z.pos m) (2 ^ (- e)))
                 = Z.pos m * 2 ^ (e - -1074) / 2 ^ 1074).
    { destruct (Z.leb_spec 0 e) as [L | G].
      - replace (e - -1074) with (e + 1074) by lia.
        rewrite Z.pow_add_r, Z.mul_assoc by lia.
        symmetry. apply Z.div_mul. lia.
      - rewrite Z.quot_div_nonneg by (try apply Z.pow_pos_nonneg; lia).
        rewrite <- (Z.div_mul_cancel_r (Z.pos m) (2 ^ (- e)) (2 ^ (e - -1074)))
          by (apply Z.pow_nonzero; lia).
        rewrite <- Z.pow_add_r by lia.
        now replace (- e + (e - -1074)) with 1074 by lia. }
    rewrite Et.
    set (t := Z.pos m * 2 ^ (e - -1074) / 2 ^ 1074).
    assert (Ht : 0 <= t < 2 ^ 31).
    { unfold t. split; [apply Z.div_pos; lia |].
      apply Z.div_lt_upper_bound; lia. }
    unfold Cast.INT_MIN, Cast.INT_MAX.
    destruct (Z.leb_spec (- 2 ^ 31) t); [| lia].
    destruct (Z.leb_spec t (2 ^ 31 - 1)); [reflexivity | lia].
Qed.

Lemma level_ulps_mono (u u' : Z) :
  0 <= u <= u' -> level_ulps u <= level_ulps u'.
Proof.
  intros H. unfold level_ulps. cbv zeta.
  pose proof prec64_pos as Hp.
  apply Z.div_le_mono; [lia |].
  set (q := rnd F64.prec (u * 2 ^ 925 * 2 ^ 1074) (100 * 2 ^ 1074)).
  set (q' := rnd F64.prec (u' * 2 ^ 925 * 2 ^ 1074) (100 * 2 ^ 1074)).
  assert (Hq : 0 <= q) by (apply rnd_nonneg; [exact Hp | lia | lia]).
  assert (Hqq : q <= q').
  { apply rnd_mono; [exact Hp | lia | lia | lia | lia |].
    apply Z.mul_le_mono_nonneg_r; lia. }
  set (p := rnd F64.prec (q * (4095 * 2 ^ 1074)) (2 ^ 1074)).
  set (p' := rnd F64.prec (q' * (4095 * 2 ^ 1074)) (2 ^ 1074)).
  assert (Hp0 : 0 <= p) by (apply rnd_nonneg; [exact Hp | lia | lia]).
  assert (Hpp : p <= p').
  { apply rnd_mono; [exact Hp | lia | lia | lia | lia |].
    apply Z.mul_le_mono_nonneg_r; lia. }
  apply rnd_mono; [exact Hp | lia ..].
Qed.

Lemma level_ulps_range (u : Z) :
  0 <= u <= 100 * 2 ^ 149 -> 0 <= level_ulps u <= 4095.
Proof.
  intros H.
  assert (E0 : level_ulps 0 = 0) by (vm_compute; reflexivity).
  assert (E1 : level_ulps (100 * 2 ^ 149) = 4095) by (vm_compute; reflexivity).
  pose proof (level_ulps_mono 0 u ltac:(lia)).
  pose proof (level_ulps_mono u (100 * 2 ^ 149) ltac:(lia)). lia.
Qed.

Lemma pwmValue_percent (d : float) :
  percent d -> pwmValue d = Some (level_ulps (ulps d)).
Proof.
  intros (V & N & U). pose proof (ulps_nonneg d V) as P0.
  pose proof prec64_pos as Hp.
  unfold pwmValue, level_ulps. cbv zeta.
  rewrite constrain_id by assumption.
  destruct (to_double_sval d V N) as [FD SD].
  destruct (of_int64_sval 100 ltac:(lia)) as [F100' S100].
  destruct (of_int64_sval 4095 ltac:(lia)) as [F4095 S4095].
  (* the quotient *)
  pose proof (div_sval F64.prec F64.emax prec64_pos emax64_ok _ _ FD F100')
    as Q.
  rewrite SD, S100 in Q.
  change (2 ^ (- emin F64.prec F64.emax)) with (2 ^ 1074) in Q.
  set (q := rnd F64.prec (ulps d * 2 ^ 925 * 2 ^ 1074) (100 * 2 ^ 1074)) in *.
  assert (Bq : 0 <= q <= 2 ^ 1074).
  { split; [apply rnd_nonneg; [exact Hp | lia | lia] |].
    apply rnd_upper; [exact Hp | lia | lia | apply repr_pow2; [exact Hp | lia]
                     |].
    replace (2 ^ 1074 * (100 * 2 ^ 1074))
      with (100 * 2 ^ 149 * 2 ^ 925 * 2 ^ 1074)
      by (replace 1074 with (149 + 925) at 1 by lia;
          rewrite Z.pow_add_r by lia; ring).
    apply Z.mul_le_mono_nonneg_r; [lia |].
    apply Z.mul_le_mono_nonneg_r; lia. }
  destruct Q as [Fq Sq]; try lia.
  { apply ovf64_big. lia. }
  change (SFdiv F64.prec F64.emax) with F64.div in Fq, Sq.
  (* the product *)
  pose proof (mul_sval F64.prec F64.emax prec64_pos emax64_ok _ _ Fq F4095)
    as M.
  rewrite Sq, S4095 in M.
  change (2 ^ (- emin F64.prec F64.emax)) with (2 ^ 1074) in M.
  rewrite Z.abs_eq, srnd_nonneg_arg in M by lia.
  set (p := rnd F64.prec (q * (4095 * 2 ^ 1074)) (2 ^ 1074)) in *.
  assert (Bp : 0 <= p <= 4095 * 2 ^ 1074).
  { split; [apply rnd_nonneg; [exact Hp | lia | lia] |].
    apply rnd_upper; [exact Hp | lia | lia | |].
    - apply repr_small; [exact Hp | | lia]. unfold F64.prec. lia.
    - rewrite (Z.mul_comm q). apply Z.mul_le_mono_nonneg_l; lia. }
  destruct M as [Fp Sp]; [apply ovf64_big; lia |].
  change (SFmul F64.prec F64.emax) with F64_mul in Fp, Sp.
  (* the sum *)
  assert (Fh : fin F64.prec F64.emax F64_half = true) by reflexivity.
  assert (Sh : sval F64.prec F64.emax F64_half = 2 ^ 1073) by reflexivity.
  pose proof (add_sval F64.prec F64.emax prec64_pos emax64_ok _ _ Fp Fh) as A.
  rewrite Sp, Sh in A.
  rewrite Z.abs_eq, srnd_nonneg_arg in A by lia.
  set (a := rnd F64.prec (p + 2 ^ 1073) 1) in *.
  assert (Ba : 0 <= a <= 8191 * 2 ^ 1073).
  { split; [apply rnd_nonneg; [exact Hp | lia | lia] |].
    apply rnd_upper; [exact Hp | lia | lia | | lia].
    apply repr_small; [exact Hp | | lia]. unfold F64.prec. lia. }
  destruct A as [Fa Sa]; [apply ovf64_big; lia |].
  change (SFadd F64.prec F64.emax) with F64.add in Fa, Sa.
  rewrite to_int_sval by (assumption || (rewrite Sa; lia)).
  rewrite Sa. reflexivity.
Qed.

Lemma constrain_percent (d : float) :
  F32.valid d = true -> F32.is_nan d = false ->
  percent (constrain d F0 F100).
Proof.
  intros V N. unfold constrain.
  destruct (F32.ltb d F0) eqn:L0; [now apply (percent_of_int 0) |].
  destruct (F32.ltb F100 d) eqn:L1; [now apply (percent_of_int 100) |].
  assert (Nn : nonneg d = true).
  { destruct d as [s | [|] | | [|] m e]; try reflexivity; try discriminate. }
  split; [exact V |]. split; [exact Nn |].
  rewrite ltb_ulps in L1 by (assumption || reflexivity).
  apply Z.ltb_ge in L1. exact L1.
Qed.

Lemma constrain_idem (d : float) :
  F32.valid d = true -> F32.is_nan d = false ->
  pwmValue d = pwmValue (constrain d F0 F100).
Proof.
  intros V N. destruct (constrain_percent d V N) as (V' & N' & U').
  unfold pwmValue. now rewrite (constrain_id (constrain d F0 F100)).
Qed.

Lemma pwmValue_defined (d : float) :
  F32.valid d = true -> F32.is_nan d = false ->
  exists v, pwmValue d = Some v /\ 0 <= v <= 4095.
Proof.
  intros V N.
  pose proof (constrain_percent d V N) as Pc.
  pose proof (pwmValue_percent _ Pc) as E.
  rewrite <- constrain_idem in E by assumption.
  exists (level_ulps (ulps (constrain d F0 F100))). split; [exact E |].
  destruct Pc as (Vc & Nc & Uc). apply level_ulps_range.
  pose proof (ulps_nonneg _ Vc). lia.
Qed.

(** X18.  The level that [setPWMDuty] writes: for every duty that is a number
    it is one of the 4096 levels of the 12-bit channel, 0 for a duty of
    0 or less and 4095 for a duty of 100 or more, and a duty that is not
    smaller gives a level that is not smaller.  A NaN has no level. *)
Theorem pwm_level_in_range (d : float) :
  F32.valid d = true -> F32.is_nan d = false ->
  (exists v, pwmValue d = Some v /\ 0 <= v <= 4095) /\
  (F32.leb d F0 = true -> pwmValue d = Some 0) /\
  (F32.leb F100 d = true -> pwmValue d = Some 4095) /\
  (forall d', percent d -> percent d' -> F32.leb d d' = true ->
              exists v v', pwmValue d = Some v /\ pwmValue d' = Some v' /\
                           v <= v') /\
  pwmValue S754_nan = None.
Proof.
  intros V N.
  pose proof (constrain_percent d V N) as Pc.
  pose proof (pwmValue_percent _ Pc) as E.
  rewrite <- constrain_idem in E by assumption.
  split; [| split; [| split; [| split]]].
  - exact (pwmValue_defined d V N).
  - intros L. rewrite E. f_equal.
    assert (Elow : ulps (constrain d F0 F100) = 0).
    { unfold constrain. destruct (F32.ltb d F0) eqn:L0; [reflexivity |].
      assert (Ez : ulps d = 0).
      { destruct d as [s | [|] | | [|] m e]; try reflexivity;
          try discriminate. }
      destruct (F32.ltb F100 d) eqn:L1; [| exact Ez].
      exfalso. destruct d as [s | [|] | | [|] m e]; discriminate. }
    rewrite Elow. vm_compute. reflexivity.
  - intros L. rewrite E. f_equal.
    assert (Ehigh : ulps (constrain d F0 F100) = 100 * 2 ^ 149).
    { unfold constrain.
      destruct (F32.ltb d F0) eqn:L0.
      { exfalso. destruct d as [s | [|] | | [|] m e]; discriminate. }
      destruct (F32.ltb F100 d) eqn:L1; [reflexivity |].
      assert (Nn : nonneg d = true).
      { destruct d as [s | [|] | | [|] m e]; try reflexivity;
          try discriminate. }
      rewrite ltb_ulps in L1 by (assumption || reflexivity).
      rewrite leb_ulps in L by (assumption || reflexivity).
      apply Z.ltb_ge in L1. apply Z.leb_le in L.
      change (ulps F100) with (100 * 2 ^ 149) in *. lia. }
    rewrite Ehigh. vm_compute. reflexivity.
  - intros d' Pd Pd' L.
    exists (level_ulps (ulps d)), (level_ulps (ulps d')).
    split; [now apply pwmValue_percent |].
    split; [now apply pwmValue_percent |].
    destruct Pd as (V1 & N1 & U1). destruct Pd' as (V2 & N2 & U2).
    rewrite leb_ulps in L by assumption. apply Z.leb_le in L.
    apply level_ulps_mono. pose proof (ulps_nonneg d V1). lia.
  - reflexivity.
Qed.

Lemma pwm_level_in_range_witness :
  exists v, pwmValue (F32.of_int 50) = Some v /\ 0 <= v <= 4095.
Proof.
  exact (proj1 (pwm_level_in_range (F32.of_int 50) eq_refl eq_refl)).
Defined.

(** ** Start-up, routes and the main loop *)

Section BootFacts.
Context {P : Platform} {R : Radio}.

Lemma awaitConnection_frame (fuel : nat) (ssid pass : string) (start : Z) :
  forall st,
  exists d, 0 <= d <= 500 * Z.of_nat fuel /\
            awaitConnection fuel ssid pass start st = delay d st.
Proof.
  induction fuel as [| fuel IH]; intros st; cbn [awaitConnection].
  - exists 0. split; [lia |]. now rewrite delay_0.
  - destruct (_ && _)%bool.
    + destruct (IH (delay 500 st)) as (d & Hd & E).
      exists (500 + d). split; [lia |]. now rewrite E, delay_delay.
    + exists 0. split; [lia |]. now rewrite delay_0.
Qed.

Lemma awaitConnection_never (ssid pass : string) :
  (forall t, connected ssid pass t = false) ->
  forall (fuel : nat) (k : Z) (st0 st : State),
    st = delay (500 * k) st0 -> 0 <= k -> k + Z.of_nat fuel = 30 ->
    0 <= uptime_ms st0 ->
    awaitConnection fuel ssid pass (millis st0) st = delay 15000 st0.
Proof.
  intros Hoff. induction fuel as [| fuel IH]; intros k st0 st E Hk Hf Hu;
    cbn [awaitConnection].
  - rewrite E. f_equal. lia.
  - rewrite Hoff. cbn [negb andb].
    assert (Hel : (millis st - millis st0) mod 2 ^ 32 = 500 * k).
    { rewrite E. unfold millis, delay. cbn [uptime_ms].
      rewrite <- Zminus_mod.
      replace (uptime_ms st0 + 500 * k - uptime_ms st0) with (500 * k) by lia.
      apply Z.mod_small. lia. }
    rewrite Hel.
    destruct (Z.ltb_spec (500 * k) 15000) as [L | G]; [| lia].
    apply (IH (k + 1)); try lia.
    rewrite E, delay_delay. f_equal. lia.
Qed.

Lemma dark_tick (dev : Device) :
  dark dev -> dark (everySecond dev).
Proof.
  intros (M & Hsp & C & F & L). unfold everySecond.
  destruct (1000 <=? _); [| repeat split; assumption].
  unfold updatePWM. cbn [set_lastPWMUpdate globals].
  rewrite (update_empty (globals dev) Hsp), C, F.
  change (fade F0 F0 fadeStep_init) with F0.
  unfold dark.
  cbn [setPWMDuty set_globals set_ledc globals currentDutyPWM
       set_currentDutyPWM mode settings lastPWMUpdate ledc].
  set (g := set_currentDutyPWM F0 (globals dev)).
  assert (Hs : forall st, schedulePoints (syncTimeIfNeeded st)
                          = schedulePoints st /\
                          currentDutyPWM (syncTimeIfNeeded st)
                          = currentDutyPWM st /\
                          fadeStep (syncTimeIfNeeded st) = fadeStep st).
  { intros st. unfold syncTimeIfNeeded. destruct (syncDue st); [| auto].
    unfold setupTime.
    destruct (setupTime_loop_frame 10 (time_at (uptime_ms (configTime st)))
                                   0 (configTime st)) as (d & _ & ->).
    auto. }
  destruct (Hs g) as (H1 & H2 & H3).
  split; [exact M |]. split; [rewrite H1; exact Hsp |].
  split; [rewrite H2; reflexivity |].
  split; [rewrite H3; exact F | reflexivity].
Qed.

Lemma dark_route (rq : HttpRequest) (dev : Device) :
  dark dev ->
  match snd (route rq dev) with
  | Running dev' => dark dev'
  | Restarting _ => True
  end.
Proof.
  intros D. pose proof D as (M & _). unfold route. rewrite M.
  destruct (String.eqb (path rq) "/"); [exact D |].
  destruct (String.eqb (path rq) "/save"); [| exact D].
  destruct (method rq); [exact D |].
  unfold handleSave. destruct (_ && _)%bool; [exact I | exact D].
Qed.

Lemma dark_run (passes : list (Z * option HttpRequest)) :
  forall dev, dark dev ->
  match run passes dev with
  | Running dev' => dark dev'
  | Restarting _ => True
  end.
Proof.
  induction passes as [| [ms rq] passes IH]; intros dev D; cbn [run];
    [exact D |].
  assert (D1 : dark (set_globals (delay ms (globals dev)) dev))
    by (destruct D as (M & Hsp & C & F & L); repeat split; assumption).
  set (dev1 := set_globals (delay ms (globals dev)) dev) in *.
  unfold loop. destruct rq as [rq |].
  - pose proof (dark_route rq dev1 D1) as D2.
    destruct (route rq dev1) as [a [dev2 | dev2]]; cbn [snd] in *.
    + apply IH. now apply dark_tick.
    + exact I.
  - cbn [snd]. apply IH. now apply dark_tick.
Qed.
End BootFacts.

Section BootTheorems.
Context {P : Platform} {R : Radio}.

Lemma awaitConnection_first (ssid pass : string) (k : Z) :
  0 <= k <= 30 ->
  (forall j, 0 <= j < k -> connected ssid pass (1000 + 500 * j) = false) ->
  (k < 30 -> connected ssid pass (1000 + 500 * k) = true) ->
  forall (fuel : nat) (i : Z) (st0 st : State),
    uptime_ms st0 = 1000 ->
    st = delay (500 * i) st0 -> 0 <= i <= k -> k - i <= Z.of_nat fuel ->
    awaitConnection fuel ssid pass (millis st0) st = delay (500 * k) st0.
Proof.
  intros Hk Hoff Hon. induction fuel as [| fuel IH];
    intros i st0 st Hu E Hi Hf; cbn [awaitConnection].
  - rewrite E. f_equal. lia.
  - assert (Hup : uptime_ms st = 1000 + 500 * i)
      by (rewrite E; unfold delay; cbn [uptime_ms]; lia).
    assert (Hel : (millis st - millis st0) mod 2 ^ 32 = 500 * i).
    { unfold millis. rewrite Hup, Hu, <- Zminus_mod.
      replace (1000 + 500 * i - 1000) with (500 * i) by lia.
      apply Z.mod_small. lia. }
    rewrite Hel, Hup.
    destruct (Z.eq_dec i k) as [-> | Hne].
    + destruct (Z.eq_dec k 30) as [-> | Hk30].
      * destruct (Z.ltb_spec (500 * 30) 15000) as [L | G]; [lia |].
        rewrite andb_false_r. now rewrite E.
      * rewrite Hon by lia. cbn [negb andb]. now rewrite E.
    + rewrite Hoff by lia. cbn [negb andb].
      destruct (Z.ltb_spec (500 * i) 15000) as [L | G]; [| lia].
      apply (IH (i + 1) st0 (delay 500 st) Hu); [| lia | lia].
      rewrite E, delay_delay. f_equal. lia.
Qed.

Lemma startSTAMode_unjoined (dev : Device) :
  let ssid := getString (preferences (globals dev)) "wifi" "ssid" EmptyString in
  let pass :=
    getString (preferences (globals dev)) "wifi" "password" EmptyString in
  ssid = EmptyString \/
  (forall k, 0 <= k <= 30 -> connected ssid pass (1000 + 500 * k) = false) ->
  uptime_ms (globals dev) = 1000 ->
  startSTAMode dev
  = startAPMode
      (set_globals (if String.eqb ssid EmptyString then globals dev
                    else delay 15000 (globals dev)) dev).
Proof.
  intros ssid pass H Hu. unfold startSTAMode. fold ssid pass.
  destruct (String.eqb_spec ssid EmptyString) as [E | N].
  - now destruct dev.
  - destruct H as [H | H]; [contradiction |].
    rewrite (awaitConnection_first ssid pass 30 ltac:(lia)
               (fun j Hj => H j ltac:(lia)) ltac:(lia)
               30%nat 0 (globals dev) (globals dev) Hu)
      by (try lia; now rewrite delay_0).
    change (500 * 30) with 15000.
    replace (uptime_ms (delay 15000 (globals dev))) with (1000 + 500 * 30)
      by (unfold delay; cbn [uptime_ms]; lia).
    now rewrite (H 30) by lia.
Qed.

(** X21.  A device that has no network name stored, or whose radio is not
    connected at any of the times at which [startSTAMode] reads its
    status, every 500 ms from 1000 ms to 16000 ms after power-up, starts
    as an access point with an empty schedule: the lamp is off, whatever
    schedule the store holds, and stays off until the device restarts,
    also when the network appears later. *)
Theorem no_network_no_light (strings : Preferences) (ints : IntPreferences) :
  let ssid := getString strings "wifi" "ssid" EmptyString in
  let pass := getString strings "wifi" "password" EmptyString in
  ssid = EmptyString \/
  (forall k, 0 <= k <= 30 -> connected ssid pass (1000 + 500 * k) = false) ->
  let dev := setup (powerUp strings ints) in
  dark dev /\
  (ssid = EmptyString -> uptime_ms (globals dev) = 1000) /\
  (ssid <> EmptyString -> uptime_ms (globals dev) = 16000) /\
  (forall passes,
      match run passes dev with
      | Running dev' => dark dev'
      | Restarting _ => True
      end).
Proof.
  intros ssid pass H dev.
  assert (D : dark dev /\
              (ssid = EmptyString -> uptime_ms (globals dev) = 1000) /\
              (ssid <> EmptyString -> uptime_ms (globals dev) = 16000)).
  { unfold dev, setup.
    rewrite startSTAMode_unjoined by (try exact H; reflexivity).
    cbn [powerUp globals set_globals setupPWM set_ledc preferences delay
         set_preferences].
    fold ssid.
    destruct (String.eqb_spec ssid EmptyString) as [E | N].
    - cbn. repeat split; try reflexivity. congruence.
    - cbn. repeat split; try reflexivity. congruence. }
  destruct D as (D1 & D2 & D3).
  split; [exact D1 |]. split; [exact D2 |]. split; [exact D3 |].
  intros passes. now apply dark_run.
Qed.
End BootTheorems.

Lemma no_network_no_light_witness :
  let strings :=
    putString
      (putString (fun _ _ => None) "wifi" "ssid" "reef")
      "schedule" "points" "[{'time':'00:00','duty':100}]" in
  dark (setup (P := refPlatform 43200) (R := radioFrom 16001)
              (powerUp strings (fun _ _ => None))).
Proof.
  intros strings.
  apply (no_network_no_light (P := refPlatform 43200) (R := radioFrom 16001)
                             strings (fun _ _ => None)).
  right. intros k Hk. apply Z.leb_gt. lia.
Defined.

Section StationFacts.
Context {P : Platform} {R : Radio}.

Lemma setupTime_frame (st : State) :
  exists d v, 0 <= d <= 10000 /\
              setupTime st = set_lastNTPSync v (delay d (configTime st)).
Proof.
  unfold setupTime.
  destruct (setupTime_loop_frame 10 (time_at (uptime_ms (configTime st)))
                                 0 (configTime st)) as (d & Hd & E).
  exists d, (millis (delay d (configTime st))). rewrite E.
  split; [lia | reflexivity].
Qed.

Lemma load_points_store (st st' : State) :
  preferences st = preferences st' ->
  schedulePoints (loadScheduleFromPreferences st)
  = schedulePoints (loadScheduleFromPreferences st').
Proof.
  intros E. unfold loadScheduleFromPreferences. rewrite E.
  destruct (deserializeJson _); reflexivity.
Qed.

(** X22.  A device that joins its network at the poll number [k] of
    [startSTAMode] serves the routes of a station; its time zone is the
    one of the store, its schedule is the stored one, and the lamp is
    set to the duty of the schedule at once, without a fade. *)
Theorem boot_with_network (strings : Preferences) (ints : IntPreferences)
        (k : Z) :
  let ssid := getString strings "wifi" "ssid" EmptyString in
  let pass := getString strings "wifi" "password" EmptyString in
  ssid <> EmptyString ->
  0 <= k <= 30 ->
  (forall j, 0 <= j < k -> connected ssid pass (1000 + 500 * j) = false) ->
  connected ssid pass (1000 + 500 * k) = true ->
  let dev := setup (powerUp strings ints) in
  let loaded :=
    schedulePoints
      (loadScheduleFromPreferences (set_preferences strings boot)) in
  mode dev = Some Station /\
  timezoneOffset (globals dev) = getInt ints "settings" "timezone" 0 /\
  schedulePoints (globals dev)
  = match loaded with [] => [] | _ :: _ => std_sort loaded end /\
  currentDutyPWM (globals dev)
  = computeDuty loaded (getCurrentTimeInHours (globals dev)) /\
  ledc dev = pwmValue (currentDutyPWM (globals dev)) /\
  sntpStarts (globals dev) = 1%nat /\
  1000 + 500 * k <= uptime_ms (globals dev) <= 11000 + 500 * k.
Proof.
  intros ssid pass Hs Hk Hoff Hon dev loaded.
  unfold dev, setup, startSTAMode.
  cbn [powerUp globals set_globals setupPWM set_ledc settings
       lastPWMUpdate mode].
  set (g0 := delay 1000 (set_preferences strings boot)).
  change (preferences g0) with strings.
  fold ssid pass.
  destruct (String.eqb_spec ssid EmptyString) as [E | _]; [contradiction |].
  assert (Hu0 : uptime_ms g0 = 1000) by reflexivity.
  rewrite (awaitConnection_first ssid pass k Hk Hoff (fun _ => Hon)
                                 30%nat 0 g0 g0 Hu0)
    by (try lia; now rewrite delay_0).
  assert (Hu1 : uptime_ms (delay (500 * k) g0) = 1000 + 500 * k)
    by reflexivity.
  rewrite Hu1, Hon.
  set (g2 := set_timezoneOffset _ _).
  destruct (setupTime_frame g2) as (d & v & Hd & Et).
  set (g3 := loadScheduleFromPreferences (setupTime g2)).
  assert (Hl : schedulePoints g3 = loaded).
  { unfold g3, loaded. apply load_points_store. rewrite Et. reflexivity. }
  assert (Hg3 : g3 = set_schedulePoints loaded (setupTime g2)).
  { unfold g3. rewrite load_frame. fold g3. now rewrite Hl. }
  pose proof (calculateCurrentDuty_value g3) as Hv.
  pose proof (calculateCurrentDuty_points g3) as Hp.
  pose proof (calculateCurrentDuty_state g3) as Hst.
  cbn [set_mode set_globals globals].
  destruct (calculateCurrentDuty g3) as [duty g4]. cbn [fst snd] in *.
  cbn [setPWMDuty set_ledc set_globals globals mode ledc].
  assert (Hf : forall l c, getCurrentTimeInHours
                             (set_currentDutyPWM c (set_schedulePoints l g3))
                           = getCurrentTimeInHours g3) by reflexivity.
  rewrite Hst. rewrite Hf.
  cbn [timezoneOffset set_currentDutyPWM set_schedulePoints schedulePoints
       currentDutyPWM sntpStarts uptime_ms].
  rewrite Hp, Hl, Hv, Hl.
  split; [reflexivity |].
  rewrite Hg3, Et.
  cbn [timezoneOffset set_schedulePoints set_lastNTPSync delay configTime
       sntpStarts uptime_ms].
  split; [reflexivity |]. split; [reflexivity |]. split; [reflexivity |].
  split; [reflexivity |]. split; [reflexivity |].
  unfold g2. cbn [uptime_ms set_timezoneOffset delay]. rewrite Hu0. lia.
Qed.

Lemma setup_station_timezone (strings : Preferences) (ints : IntPreferences) :
  mode (setup (powerUp strings ints)) = Some Station ->
  timezoneOffset (globals (setup (powerUp strings ints)))
  = getInt ints "settings" "timezone" 0.
Proof.
  unfold setup. cbv zeta.
  set (dev1 := setupPWM (set_globals (delay 1000 _) _)).
  assert (Hs : settings dev1 = ints) by reflexivity.
  assert (Hm : mode dev1 = None) by reflexivity.
  clearbody dev1.
  assert (G : mode (startSTAMode dev1) = Some Station ->
              timezoneOffset (globals (startSTAMode dev1))
              = getInt ints "settings" "timezone" 0).
  { unfold startSTAMode.
    destruct (String.eqb _ _); [cbn [startAPMode set_mode mode]; discriminate |].
    destruct (connected _ _ _);
      [| cbn [startAPMode set_mode mode]; discriminate].
    intros _. cbn [globals set_mode set_globals]. rewrite load_frame.
    cbn [timezoneOffset set_schedulePoints].
    destruct (setupTime_frame
                (set_timezoneOffset
                   (getInt (settings dev1) "settings" "timezone" 0)
                   (awaitConnection
                      30
                      (getString (preferences (globals dev1)) "wifi" "ssid"
                                 EmptyString)
                      (getString (preferences (globals dev1)) "wifi"
                                 "password" EmptyString)
                      (millis (globals dev1)) (globals dev1))))
      as (d & v & _ & ->).
    cbn [timezoneOffset set_lastNTPSync delay configTime set_timezoneOffset].
    now rewrite Hs. }
  pose proof (calculateCurrentDuty_state (globals (startSTAMode dev1))) as E.
  destruct (calculateCurrentDuty (globals (startSTAMode dev1))) as [duty g].
  cbn [snd] in E. cbn [setPWMDuty set_ledc set_globals mode globals].
  intros M. rewrite E. cbn [timezoneOffset set_currentDutyPWM
                             set_schedulePoints].
  exact (G M).
Qed.

(** X25.  [handleSetTimezone]: the offset is applied at once and stored, and a
    later start that ends as a station begins with that offset; a request
    without the argument is refused and changes nothing. *)
Theorem timezone_is_applied_and_stored (req : Request) (dev : Device) :
  (hasArg req "offset" = true ->
   let dev' := snd (handleSetTimezone req dev) in
   fst (handleSetTimezone req dev) = SeeOther "/" /\
   timezoneOffset (globals dev') = toInt (arg req "offset") /\
   (forall strings,
       mode (setup (powerUp strings (settings dev'))) = Some Station ->
       timezoneOffset (globals (setup (powerUp strings (settings dev'))))
       = toInt (arg req "offset")) /\
   LONG_MIN <= timezoneOffset (globals dev') <= LONG_MAX /\
   schedulePoints (globals dev') = schedulePoints (globals dev) /\
   currentDutyPWM (globals dev') = currentDutyPWM (globals dev) /\
   preferences (globals dev') = preferences (globals dev) /\
   ledc dev' = ledc dev) /\
  (hasArg req "offset" = false ->
   handleSetTimezone req dev
   = (Reply (mkResponse 400 "text/plain" (Text "Missing timezone offset")),
      dev)).
Proof.
  unfold handleSetTimezone. split; intros H; rewrite H; [| reflexivity].
  cbn [fst snd set_settings set_globals globals settings
       set_timezoneOffset timezoneOffset schedulePoints currentDutyPWM
       preferences ledc].
  split; [reflexivity |]. split; [reflexivity |]. split.
  - intros strings M. rewrite (setup_station_timezone _ _ M).
    unfold getInt, putInt. now rewrite !String.eqb_refl.
  - repeat split; try reflexivity; unfold toInt, LONG_MIN, LONG_MAX;
      cbv zeta; lia.
Qed.

(** X26.  The cadence of [loop]: once [updatePWMFromSchedule] has run, it runs
    again in the first pass that comes 1000 ms or more later, also when
    [millis()] has wrapped around in between; such a pass moves
    [currentDutyPWM] by one step of the fade, writes its level to the
    register and renews the time if that is due. *)
Theorem tick_every_second (dev : Device) (d : Z) :
  lastPWMUpdate dev = millis (globals dev) ->
  0 <= d < 2 ^ 32 ->
  let dev1 := set_globals (delay d (globals dev)) dev in
  let dev' := everySecond dev1 in
  (d < 1000 -> dev' = dev1) /\
  (1000 <= d ->
   lastPWMUpdate dev' = millis (globals dev1) /\
   globals dev' = syncTimeIfNeeded (updatePWMFromSchedule (globals dev1)) /\
   currentDutyPWM (globals dev')
   = fade (computeDuty (schedulePoints (globals dev))
                       (getCurrentTimeInHours (globals dev1)))
          (currentDutyPWM (globals dev)) (fadeStep (globals dev)) /\
   ledc dev' = pwmValue (currentDutyPWM (globals dev'))).
Proof.
  intros Hl Hd dev1 dev'.
  assert (Hel : (millis (globals dev1) - lastPWMUpdate dev1) mod 2 ^ 32 = d).
  { unfold dev1. cbn [set_globals globals lastPWMUpdate]. rewrite Hl.
    unfold millis, delay. cbn [uptime_ms]. rewrite <- Zminus_mod.
    replace (uptime_ms (globals dev) + d - uptime_ms (globals dev)) with d
      by lia.
    now apply Z.mod_small. }
  unfold dev', everySecond. rewrite Hel.
  split; intros H.
  - destruct (Z.leb_spec 1000 d); [lia | reflexivity].
  - destruct (Z.leb_spec 1000 d); [| lia].
    unfold updatePWM.
    cbn [set_lastPWMUpdate set_globals globals setPWMDuty set_ledc
         lastPWMUpdate ledc].
    set (g := updatePWMFromSchedule (globals dev1)).
    assert (Hc : currentDutyPWM (syncTimeIfNeeded g) = currentDutyPWM g).
    { unfold syncTimeIfNeeded. destruct (syncDue g); [| reflexivity].
      destruct (setupTime_frame g) as (w & v & _ & ->). reflexivity. }
    split; [reflexivity |]. split; [reflexivity |].
    rewrite Hc. split; [| reflexivity].
    unfold g. rewrite update_frame. reflexivity.
Qed.
End StationFacts.

(** ** Numbers of either sign *)

Lemma sval_finite_sign (s : bool) (m : positive) (e : Z) :
  F32.valid (S754_finite s m e) = true ->
  sval F32.prec F32.emax (S754_finite s m e)
  = cond_Zopp s (ulps (S754_finite false m e)) /\
  0 < ulps (S754_finite false m e).
Proof.
  intros V.
  assert (V' : F32.valid (S754_finite false m e) = true) by exact V.
  pose proof (ulps_sval (S754_finite false m e) eq_refl) as E.
  split.
  - rewrite <- E. reflexivity.
  - apply ulps_finite_pos. apply valid32_finite in V'. lia.
Qed.

(** On finite floats the comparison of [SFcompare] is that of the
    values. *)
Lemma compare_sval (x y : float) :
  fin F32.prec F32.emax x = true -> fin F32.prec F32.emax y = true ->
  SFcompare x y
  = Some (sval F32.prec F32.emax x ?= sval F32.prec F32.emax y).
Proof.
  intros Fx Fy.
  pose proof (proj1 (fin32_valid x Fx)) as Vx.
  pose proof (proj1 (fin32_valid y Fy)) as Vy.
  destruct x as [sx | sx | | sx mx ex]; try discriminate Fx;
    destruct y as [sy | sy | | sy my ey]; try discriminate Fy.
  - reflexivity.
  - destruct (sval_finite_sign sy my ey Vy) as [E P]. rewrite E.
    cbn [sval SFcompare]. f_equal. symmetry.
    destruct sy; cbn [cond_Zopp];
      [apply Z.compare_gt_iff | apply Z.compare_lt_iff]; lia.
  - destruct (sval_finite_sign sx mx ex Vx) as [E P]. rewrite E.
    cbn [sval SFcompare]. f_equal. symmetry.
    destruct sx; cbn [cond_Zopp];
      [apply Z.compare_lt_iff | apply Z.compare_gt_iff]; lia.
  - destruct (sval_finite_sign sx mx ex Vx) as [Ex Px].
    destruct (sval_finite_sign sy my ey Vy) as [Ey Py].
    rewrite Ex, Ey.
    pose proof (compare_ulps (S754_finite false mx ex)
                             (S754_finite false my ey) Vx Vy eq_refl eq_refl)
      as C.
    rewrite SFcompare_finite in C |- *. injection C as C.
    f_equal. destruct sx, sy; cbn [cond_Zopp].
    + rewrite C. rewrite <- Z.compare_opp. symmetry. apply Z.compare_antisym.
    + symmetry. apply Z.compare_lt_iff. lia.
    + symmetry. apply Z.compare_gt_iff. lia.
    + exact C.
Qed.

Lemma leb_sval (x y : float) :
  fin F32.prec F32.emax x = true -> fin F32.prec F32.emax y = true ->
  F32.leb x y = (sval F32.prec F32.emax x <=? sval F32.prec F32.emax y).
Proof.
  intros Fx Fy. unfold F32.leb, SFleb. rewrite (compare_sval x y Fx Fy).
  unfold Z.leb.
  destruct (sval F32.prec F32.emax x ?= sval F32.prec F32.emax y);
    reflexivity.
Qed.

Lemma ltb_sval (x y : float) :
  fin F32.prec F32.emax x = true -> fin F32.prec F32.emax y = true ->
  F32.ltb x y = (sval F32.prec F32.emax x <? sval F32.prec F32.emax y).
Proof.
  intros Fx Fy. unfold F32.ltb, SFltb. rewrite (compare_sval x y Fx Fy).
  unfold Z.ltb.
  destruct (sval F32.prec F32.emax x ?= sval F32.prec F32.emax y);
    reflexivity.
Qed.

Lemma eqb_sval (x y : float) :
  fin F32.prec F32.emax x = true -> fin F32.prec F32.emax y = true ->
  F32.eqb x y = (sval F32.prec F32.emax x =? sval F32.prec F32.emax y).
Proof.
  intros Fx Fy. unfold F32.eqb, SFeqb. rewrite (compare_sval x y Fx Fy).
  rewrite <- Z.eqb_compare.
  destruct (sval F32.prec F32.emax x ?= sval F32.prec F32.emax y);
    reflexivity.
Qed.

Lemma srnd_upper (prec z B U : Z) :
  0 < prec -> 0 < B -> repr prec (Z.abs U) -> z <= U * B ->
  srnd prec z B <= U.
Proof.
  intros Hp HB R H. unfold srnd. destruct (Z.ltb_spec z 0) as [L | G].
  - pose proof (rnd_nonneg prec Hp (- z) B ltac:(lia) HB).
    destruct (Z_lt_le_dec U 0) as [N | N]; [| lia].
    rewrite Z.abs_neq in R by lia.
    pose proof (rnd_lower prec Hp (- z) B (- U) ltac:(lia) HB ltac:(lia) R
                          ltac:(lia)).
    lia.
  - assert (0 <= U) by nia. rewrite Z.abs_eq in R by lia.
    apply rnd_upper; assumption.
Qed.

Lemma srnd_opp (prec z B : Z) :
  0 < prec -> 0 < B -> srnd prec (- z) B = - srnd prec z B.
Proof.
  intros Hp HB. unfold srnd.
  destruct (Z.ltb_spec (- z) 0), (Z.ltb_spec z 0); try lia.
  - rewrite !Z.opp_involutive. reflexivity.
  - replace z with 0 by lia. cbn [Z.opp]. rewrite rnd_0 by assumption.
    reflexivity.
Qed.

Lemma srnd_lower (prec z B U : Z) :
  0 < prec -> 0 < B -> repr prec (Z.abs U) -> U * B <= z ->
  U <= srnd prec z B.
Proof.
  intros Hp HB R H.
  pose proof (srnd_upper prec (- z) B (- U) Hp HB) as G.
  rewrite Z.abs_opp, srnd_opp in G by assumption.
  specialize (G R ltac:(lia)). lia.
Qed.

Lemma srnd_within (prec z B U : Z) :
  0 < prec -> 0 < B -> repr prec U -> 0 <= U -> Z.abs z <= U * B ->
  Z.abs (srnd prec z B) <= U.
Proof.
  intros Hp HB R HU H. rewrite srnd_abs by assumption.
  apply rnd_upper; try assumption; lia.
Qed.

Lemma repr32_pow2 (k : Z) : 0 <= k -> repr F32.prec (2 ^ k).
Proof. intros H. apply repr_pow2; [reflexivity | exact H]. Qed.

Lemma of_int_within (n : Z) :
  Cast.INT_MIN <= n <= Cast.INT_MAX ->
  within (2 ^ 31 * 2 ^ 149) (F32.of_int n).
Proof.
  unfold Cast.INT_MIN, Cast.INT_MAX. intros Hn.
  pose proof (normalize_sval F32.prec F32.emax prec32_pos emax32_ok n 0 false)
    as H. cbv zeta in H.
  change (Z.max (0 - emin F32.prec F32.emax) 0) with 149 in H.
  change (2 ^ Z.max (emin F32.prec F32.emax - 0) 0) with 1 in H.
  fold (F32.of_int n) in H.
  assert (E : Z.abs (n * 2 ^ 149) = Z.abs n * 2 ^ 149)
    by (rewrite Z.abs_mul, (Z.abs_eq (2 ^ 149)) by lia; reflexivity).
  assert (R : repr F32.prec (2 ^ 31 * 2 ^ 149))
    by (rewrite <- Z.pow_add_r by lia; apply repr32_pow2; lia).
  assert (B : Z.abs (n * 2 ^ 149) <= 2 ^ 31 * 2 ^ 149 * 1).
  { rewrite E, Z.mul_1_r. apply Z.mul_le_mono_nonneg_r; lia. }
  destruct H as [F Sv].
  { apply Z.le_lt_trans with (2 ^ 31 * 2 ^ 149).
    - apply rnd_upper; try (reflexivity || lia || assumption).
    - apply ovf32_big. rewrite <- Z.pow_add_r by lia.
      apply Z.pow_le_mono_r; lia. }
  split; [exact F |]. rewrite Sv.
  apply srnd_within; try (reflexivity || lia || assumption).
Qed.

Lemma timeInHours_within (h m : Z) :
  LONG_MIN <= h <= LONG_MAX -> LONG_MIN <= m <= LONG_MAX ->
  within (2 ^ 32 * 2 ^ 149) (timeInHours h m).
Proof.
  unfold LONG_MIN, LONG_MAX. intros Hh Hm. rewrite timeInHours_clock.
  destruct (of_int64_signed h ltac:(lia)) as [Fh Sh].
  destruct (of_int64_signed m ltac:(lia)) as [Fm Sm].
  destruct (of_int64_signed 60 ltac:(lia)) as [F60 S60].
  assert (R26 : repr F64.prec (2 ^ 26 * 2 ^ 1074))
    by (rewrite <- Z.pow_add_r by lia; apply repr_pow2; [reflexivity | lia]).
  assert (R32 : repr F64.prec (2 ^ 32 * 2 ^ 1074))
    by (rewrite <- Z.pow_add_r by lia; apply repr_pow2; [reflexivity | lia]).
  assert (P : 0 < 2 ^ 1074) by (apply Z.pow_pos_nonneg; lia).
  (* the quotient *)
  pose proof (div_abs_sval F64.prec F64.emax prec64_pos emax64_ok
                           (F64.of_int m) (F64.of_int 60) Fm F60) as D.
  rewrite Sm, S60 in D.
  change (- emin F64.prec F64.emax) with 1074 in D.
  assert (Bq : rnd F64.prec (Z.abs (m * 2 ^ 1074) * 2 ^ 1074)
                   (Z.abs (60 * 2 ^ 1074))
               <= 2 ^ 26 * 2 ^ 1074).
  { rewrite !Z.abs_mul, !(Z.abs_eq (2 ^ 1074)) by lia.
    apply rnd_upper; [reflexivity | | | exact R26 |].
    - apply Z.mul_nonneg_nonneg; [apply Z.mul_nonneg_nonneg |]; lia.
    - apply Z.mul_pos_pos; [reflexivity | exact P].
    - change (Z.abs 60) with 60.
      replace (2 ^ 26 * 2 ^ 1074 * (60 * 2 ^ 1074))
        with ((2 ^ 26 * 60) * 2 ^ 1074 * 2 ^ 1074) by ring.
      apply Z.mul_le_mono_nonneg_r; [lia |].
      apply Z.mul_le_mono_nonneg_r; lia. }
  destruct D as [Fq Sq]; [lia | |].
  { apply ovf64_big. eapply Z.le_trans; [exact Bq |].
    rewrite <- Z.pow_add_r by lia. apply Z.pow_le_mono_r; lia. }
  fold (F64.div (F64.of_int m) (F64.of_int 60)) in Fq, Sq.
  set (q := F64.div (F64.of_int m) (F64.of_int 60)) in *.
  assert (Aq : Z.abs (sval F64.prec F64.emax q) <= 2 ^ 26 * 2 ^ 1074).
  { rewrite Sq. destruct (xorb _ _); cbn [cond_Zopp];
      [rewrite Z.abs_opp |]; rewrite Z.abs_eq; try exact Bq;
      (apply rnd_nonneg; [reflexivity | | ]);
      rewrite ?Z.abs_mul, ?(Z.abs_eq (2 ^ 1074)) by lia;
      try (apply Z.mul_nonneg_nonneg; [apply Z.mul_nonneg_nonneg |]; lia);
      apply Z.mul_pos_pos; (reflexivity || exact P). }
  clearbody q. clear Sq Bq.
  (* the sum *)
  pose proof (add_sval F64.prec F64.emax prec64_pos emax64_ok
                       (F64.of_int h) q Fh Fq) as A.
  rewrite Sh in A.
  assert (Ba : Z.abs (h * 2 ^ 1074 + sval F64.prec F64.emax q)
               <= 2 ^ 32 * 2 ^ 1074).
  { assert (Z.abs (h * 2 ^ 1074) <= 2 ^ 31 * 2 ^ 1074).
    { rewrite Z.abs_mul, (Z.abs_eq (2 ^ 1074)) by lia.
      apply Z.mul_le_mono_nonneg_r; lia. }
    lia. }
  destruct A as [Fs Ss].
  { apply Z.le_lt_trans with (2 ^ 32 * 2 ^ 1074).
    - apply rnd_upper; try (reflexivity || lia || assumption).
    - apply ovf64_big. rewrite <- Z.pow_add_r by lia.
      apply Z.pow_le_mono_r; lia. }
  fold (F64.add (F64.of_int h) q) in Fs, Ss.
  set (d := F64.add (F64.of_int h) q) in *.
  assert (As : Z.abs (sval F64.prec F64.emax d) <= 2 ^ 32 * 2 ^ 1074).
  { rewrite Ss. apply srnd_within; try (reflexivity || lia || assumption). }
  clearbody d. clear Ss Ba.
  (* the narrowing *)
  assert (R : repr F32.prec (2 ^ 32 * 2 ^ 149))
    by (rewrite <- Z.pow_add_r by lia; apply repr32_pow2; lia).
  assert (Bn : Z.abs (sval F64.prec F64.emax d)
               <= 2 ^ 32 * 2 ^ 149 * 2 ^ 925).
  { replace (2 ^ 32 * 2 ^ 149 * 2 ^ 925) with (2 ^ 32 * 2 ^ 1074)
      by (rewrite <- Z.mul_assoc, <- (Z.pow_add_r 2 149 925) by lia;
          reflexivity).
    exact As. }
  destruct (to_float_signed d Fs) as [Fr Sr].
  { apply Z.le_lt_trans with (2 ^ 32 * 2 ^ 149).
    - apply rnd_upper; try (reflexivity || lia || assumption).
    - apply ovf32_big. rewrite <- Z.pow_add_r by lia.
      apply Z.pow_le_mono_r; lia. }
  split; [exact Fr |]. rewrite Sr.
  apply srnd_within; try (reflexivity || lia || assumption).
Qed.

(** ** Any schedule at all *)

Lemma pow2_le_200 (a b : Z) :
  0 <= a -> 0 <= b -> a + b <= 200 -> 2 ^ a * 2 ^ b <= 2 ^ 200.
Proof.
  intros. rewrite <- Z.pow_add_r by lia. apply Z.pow_le_mono_r; lia.
Qed.

Lemma repr32_pow2_mul (a b : Z) :
  0 <= a -> 0 <= b -> repr F32.prec (2 ^ a * 2 ^ b).
Proof.
  intros. rewrite <- Z.pow_add_r by lia. apply repr32_pow2. lia.
Qed.

Lemma sub32_within (x y : float) (Kx Ky U : Z) :
  within Kx x -> within Ky y ->
  repr F32.prec U -> Kx + Ky <= U -> U <= 2 ^ 200 ->
  fin F32.prec F32.emax (F32.sub x y) = true /\
  sval F32.prec F32.emax (F32.sub x y)
  = srnd F32.prec (sval F32.prec F32.emax x - sval F32.prec F32.emax y) 1 /\
  Z.abs (sval F32.prec F32.emax (F32.sub x y)) <= U.
Proof.
  intros [Fx Bx] [Fy By] R HU H200.
  assert (B : Z.abs (sval F32.prec F32.emax x - sval F32.prec F32.emax y)
              <= U * 1) by lia.
  destruct (sub32 x y Fx Fy) as [F E].
  { apply Z.le_lt_trans with U; [| now apply ovf32_big].
    apply rnd_upper; try (reflexivity || lia || assumption). }
  split; [exact F |]. split; [exact E |]. rewrite E.
  apply srnd_within; try (reflexivity || lia || assumption).
Qed.

Lemma add32_within (x y : float) (Kx Ky U : Z) :
  within Kx x -> within Ky y ->
  repr F32.prec U -> Kx + Ky <= U -> U <= 2 ^ 200 ->
  fin F32.prec F32.emax (F32.add x y) = true /\
  sval F32.prec F32.emax (F32.add x y)
  = srnd F32.prec (sval F32.prec F32.emax x + sval F32.prec F32.emax y) 1 /\
  Z.abs (sval F32.prec F32.emax (F32.add x y)) <= U.
Proof.
  intros [Fx Bx] [Fy By] R HU H200.
  assert (B : Z.abs (sval F32.prec F32.emax x + sval F32.prec F32.emax y)
              <= U * 1) by lia.
  destruct (add32 x y Fx Fy) as [F E].
  { apply Z.le_lt_trans with U; [| now apply ovf32_big].
    apply rnd_upper; try (reflexivity || lia || assumption). }
  split; [exact F |]. split; [exact E |]. rewrite E.
  apply srnd_within; try (reflexivity || lia || assumption).
Qed.

Lemma mul32_within (x y : float) (Kx Ky U : Z) :
  within Kx x -> within Ky y ->
  repr F32.prec U -> 0 <= U -> Kx * Ky <= U * 2 ^ 149 -> U <= 2 ^ 200 ->
  fin F32.prec F32.emax (F32.mul x y) = true /\
  Z.abs (sval F32.prec F32.emax (F32.mul x y)) <= U.
Proof.
  intros [Fx Bx] [Fy By] R HU0 HU H200.
  assert (B : Z.abs (sval F32.prec F32.emax x * sval F32.prec F32.emax y)
              <= U * 2 ^ 149).
  { rewrite Z.abs_mul. eapply Z.le_trans; [| exact HU].
    apply Z.mul_le_mono_nonneg; try assumption; apply Z.abs_nonneg. }
  destruct (mul32 x y Fx Fy) as [F E].
  { apply Z.le_lt_trans with U; [| now apply ovf32_big].
    apply rnd_upper; try (reflexivity || lia || assumption). }
  split; [exact F |]. rewrite E.
  apply srnd_within; try (reflexivity || lia || assumption).
Qed.

(** The formula of the interpolation between two times that enclose the
    current one never leaves the numbers, whatever the times and the
    duties are. *)
Lemma interpolation_within (tb ta cur : float) (db da : Z) :
  within (2 ^ 32 * 2 ^ 149) tb -> within (2 ^ 32 * 2 ^ 149) ta ->
  within (2 ^ 32 * 2 ^ 149) cur ->
  sval F32.prec F32.emax tb <= sval F32.prec F32.emax cur ->
  sval F32.prec F32.emax cur <= sval F32.prec F32.emax ta ->
  sval F32.prec F32.emax tb <> sval F32.prec F32.emax ta ->
  Cast.INT_MIN <= db <= Cast.INT_MAX -> Cast.INT_MIN <= da <= Cast.INT_MAX ->
  fin F32.prec F32.emax
      (F32.add (F32.of_int db)
               (F32.mul (F32.sub (F32.of_int da) (F32.of_int db))
                        (F32.div (F32.sub cur tb) (F32.sub ta tb))))
  = true.
Proof.
  intros Wb Wa Wc Hbc Hca Hne Hdb Hda.
  set (sb := sval F32.prec F32.emax tb) in *.
  set (sa := sval F32.prec F32.emax ta) in *.
  set (sc := sval F32.prec F32.emax cur) in *.
  assert (P149 : 0 < 2 ^ 149) by (apply Z.pow_pos_nonneg; lia).
  destruct (sub32_within cur tb _ _ (2 ^ 33 * 2 ^ 149) Wc Wb)
    as (Fn & Sn & _);
    [apply repr32_pow2_mul; lia | lia | apply pow2_le_200; lia |].
  destruct (sub32_within ta tb _ _ (2 ^ 33 * 2 ^ 149) Wa Wb)
    as (Fd & Sd & _);
    [apply repr32_pow2_mul; lia | lia | apply pow2_le_200; lia |].
  fold sb sa sc in Sn, Sd.
  rewrite srnd_nonneg_arg in Sn, Sd by lia.
  set (num := F32.sub cur tb) in *. set (den := F32.sub ta tb) in *.
  assert (Nn : 0 <= sval F32.prec F32.emax num)
    by (rewrite Sn; apply rnd_nonneg; [reflexivity | lia | lia]).
  assert (Pd : 0 < sval F32.prec F32.emax den).
  { rewrite Sd.
    assert (1 <= rnd F32.prec (sa - sb) 1); [| lia].
    apply rnd_lower; try (reflexivity || lia). }
  assert (Hle : sval F32.prec F32.emax num <= sval F32.prec F32.emax den).
  { rewrite Sn, Sd. apply rnd_mono; try (reflexivity || lia). }
  assert (Br : rnd F32.prec (sval F32.prec F32.emax num * 2 ^ 149)
                   (sval F32.prec F32.emax den) <= 2 ^ 149).
  { apply rnd_upper; [reflexivity | | exact Pd | apply repr32_pow2; lia |].
    - apply Z.mul_nonneg_nonneg; lia.
    - rewrite (Z.mul_comm (2 ^ 149)).
      apply Z.mul_le_mono_nonneg_r; lia. }
  destruct (div32 num den Fn Fd Nn Pd) as [Fr Sr].
  { apply ovf32_big. eapply Z.le_trans; [exact Br |].
    apply Z.pow_le_mono_r; lia. }
  assert (Wr : within (2 ^ 149) (F32.div num den)).
  { split; [exact Fr |]. rewrite Sr, Z.abs_eq; [exact Br |].
    apply rnd_nonneg; [reflexivity | | exact Pd].
    apply Z.mul_nonneg_nonneg; lia. }
  clearbody num den. clear Sn Sd Nn Pd Hle Br Sr.
  pose proof (of_int_within db Hdb) as Wdb.
  pose proof (of_int_within da Hda) as Wda.
  destruct (sub32_within (F32.of_int da) (F32.of_int db) _ _
                         (2 ^ 32 * 2 ^ 149) Wda Wdb) as (Fx & _ & Bx);
    [apply repr32_pow2_mul; lia | lia | apply pow2_le_200; lia |].
  destruct (mul32_within (F32.sub (F32.of_int da) (F32.of_int db))
                         (F32.div num den) _ _ (2 ^ 32 * 2 ^ 149)
                         (conj Fx Bx) Wr) as (Fp & Bp);
    [apply repr32_pow2_mul; lia | lia | lia | apply pow2_le_200; lia |].
  destruct (add32_within (F32.of_int db) _ _ _ (2 ^ 33 * 2 ^ 149)
                         Wdb (conj Fp Bp)) as (Fs & _);
    [apply repr32_pow2_mul; lia | lia | apply pow2_le_200; lia |].
  exact Fs.
Qed.

Lemma toInt_range (s : string) : LONG_MIN <= toInt s <= LONG_MAX.
Proof. unfold toInt, LONG_MIN, LONG_MAX. cbv zeta. lia. Qed.

Lemma within_le (K K' : Z) (x : float) :
  K <= K' -> within K x -> within K' x.
Proof. intros H [F B]. split; [exact F | lia]. Qed.

Lemma fin_not_nan (x : float) :
  fin F32.prec F32.emax x = true ->
  F32.valid x = true /\ F32.is_nan x = false.
Proof.
  intros F. destruct (fin32_valid x F) as [V Fi].
  split; [exact V |]. now destruct x.
Qed.

Lemma percent_within (x : float) :
  percent x -> within (2 ^ 31 * 2 ^ 149) x.
Proof.
  intros Hp. destruct (percent_fin x Hp) as (F & E & N & _).
  destruct Hp as (_ & _ & U).
  split; [exact F |]. rewrite E, Z.abs_eq by exact N.
  eapply Z.le_trans; [exact U |]. apply Z.mul_le_mono_nonneg_r; lia.
Qed.

Lemma in_day_within (cur : float) :
  in_day cur ->
  within (2 ^ 32 * 2 ^ 149) cur /\
  0 <= sval F32.prec F32.emax cur < 24 * 2 ^ 149.
Proof.
  intros Hc. destruct (in_day_closed cur Hc) as [(V & N & _) L].
  pose proof (ulps_nonneg cur V) as P.
  change (ulps F24) with (24 * 2 ^ 149) in L.
  rewrite (ulps_sval cur N).
  split; [| lia]. split; [now apply valid_nonneg_fin |].
  rewrite (ulps_sval cur N), Z.abs_eq by exact P.
  apply Z.le_trans with (24 * 2 ^ 149); [lia |].
  apply Z.mul_le_mono_nonneg_r; lia.
Qed.

Lemma storable_virtual (t : float) :
  in_day t \/ t = F24 -> storable (mkPoint t 0).
Proof.
  intros H. split; [| cbn [duty]; unfold Cast.INT_MIN, Cast.INT_MAX; lia].
  cbn [time]. destruct H as [H | ->].
  - exact (proj1 (in_day_within t H)).
  - split; [reflexivity |].
    change (sval F32.prec F32.emax F24) with (24 * 2 ^ 149).
    rewrite Z.abs_eq by lia. apply Z.mul_le_mono_nonneg_r; lia.
Qed.

(** The two points of the interpolation are storable points, and the
    current time lies between their times, in whatever order the vector
    is. *)
Lemma bracket_within (cur : float) (l : list SchedulePoint) :
  Forall storable l -> in_day cur ->
  (foundBefore (scan l cur) || foundAfter (scan l cur))%bool = true ->
  let '(b, a) := bracket l (scan l cur) in
  storable b /\ storable a /\
  sval F32.prec F32.emax (time b) <= sval F32.prec F32.emax cur /\
  sval F32.prec F32.emax cur <= sval F32.prec F32.emax (time a).
Proof.
  intros Hl Hc Hf.
  destruct (in_day_within cur Hc) as [[Fc Bc] Rc].
  pose proof (scan_inv cur l) as (I1 & I2 & I3 & I4).
  rewrite Forall_forall in Hl.
  assert (Dom : forall p, In p l ->
                  storable p /\
                  F32.leb (time p) cur
                  = (sval F32.prec F32.emax (time p)
                     <=? sval F32.prec F32.emax cur) /\
                  F32.leb cur (time p)
                  = (sval F32.prec F32.emax cur
                     <=? sval F32.prec F32.emax (time p))).
  { intros p Hp. pose proof (Hl p Hp) as Sp.
    destruct Sp as [[Fp Bp] Dp].
    split; [exact (conj (conj Fp Bp) Dp) |].
    split; now apply leb_sval. }
  assert (S0 : storable (mkPoint F0 0))
    by (apply storable_virtual; left; repeat split; reflexivity).
  assert (S24 : storable (mkPoint F24 0))
    by (apply storable_virtual; now right).
  unfold bracket.
  destruct (foundBefore (scan l cur)) eqn:FB,
           (foundAfter (scan l cur)) eqn:FA; try discriminate;
    cbn [negb].
  - destruct (I1 eq_refl) as [Hb Lb]. destruct (I2 eq_refl) as [Ha La].
    destruct (Dom _ Hb) as (Sb & Eb & _).
    destruct (Dom _ Ha) as (Sa & _ & Ea).
    rewrite Eb in Lb. rewrite Ea in La.
    apply Z.leb_le in Lb, La. auto.
  - destruct (I1 eq_refl) as [Hb _].
    assert (Hne : l <> []) by (intros ->; destruct Hb).
    pose proof (last_in (mkPoint F0 0) l Hne) as Hlast.
    destruct (Dom _ Hlast) as (Sb & _ & Eb).
    pose proof (I4 eq_refl _ Hlast) as Lb. rewrite Eb in Lb.
    apply Z.leb_gt in Lb. cbn [time].
    change (sval F32.prec F32.emax F24) with (24 * 2 ^ 149).
    split; [exact Sb |]. split; [exact S24 |]. lia.
  - destruct (I2 eq_refl) as [Ha _].
    assert (Hne : l <> []) by (intros ->; destruct Ha).
    pose proof (hd_in (mkPoint F0 0) l Hne) as Hhd.
    destruct (Dom _ Hhd) as (Sa & Ea & _).
    pose proof (I3 eq_refl _ Hhd) as La. rewrite Ea in La.
    apply Z.leb_gt in La. cbn [time].
    change (sval F32.prec F32.emax F0) with 0.
    split; [exact S0 |]. split; [exact Sa |]. lia.
Qed.

(** Whatever points are stored, the duty that [calculateCurrentDuty]
    computes from the sorted vector is a number. *)
Lemma interpolate_within (l : list SchedulePoint) (cur : float) :
  Forall storable l -> in_day cur ->
  within (2 ^ 31 * 2 ^ 149) (interpolate l cur).
Proof.
  intros Hl Hc. unfold interpolate.
  pose proof (bracket_within cur l Hl Hc) as B.
  assert (W0 : within (2 ^ 31 * 2 ^ 149) F0).
  { split; [reflexivity |]. cbn [sval Z.abs].
    apply Z.mul_nonneg_nonneg; lia. }
  destruct (foundBefore (scan l cur)) eqn:FB,
           (foundAfter (scan l cur)) eqn:FA;
    cbn [negb andb orb] in *; try exact W0;
    specialize (B eq_refl);
    destruct (bracket l (scan l cur)) as [b a];
    destruct B as ((Wb & Db) & (Wa & Da) & Hbc & Hca);
    (rewrite (eqb_sval _ _ (proj1 Wb) (proj1 Wa));
     destruct (Z.eqb_spec (sval F32.prec F32.emax (time b))
                          (sval F32.prec F32.emax (time a))) as [E | N];
     [ now apply of_int_within
     | apply percent_within;
       pose proof (interpolation_within
                     (time b) (time a) cur (duty b) (duty a) Wb Wa
                     (proj1 (in_day_within cur Hc)) Hbc Hca N Db Da) as F;
       destruct (fin_not_nan _ F) as [V Nn];
       now apply constrain_percent ]).
Qed.

(** One step of the fade, for numbers of either sign: the result lies
    between the current duty and the target. *)
Lemma fade_between (t c : float) :
  within (2 ^ 31 * 2 ^ 149) t -> within (2 ^ 31 * 2 ^ 149) c ->
  fin F32.prec F32.emax (fade t c fadeStep_init) = true /\
  Z.min (sval F32.prec F32.emax t) (sval F32.prec F32.emax c)
  <= sval F32.prec F32.emax (fade t c fadeStep_init)
  <= Z.max (sval F32.prec F32.emax t) (sval F32.prec F32.emax c).
Proof.
  intros Wt Wc.
  pose proof Wt as [Ft Bt]. pose proof Wc as [Fc Bc].
  destruct (fin_repr F32.prec F32.emax prec32_pos emax32_ok t Ft) as [Rt _].
  destruct (fin_repr F32.prec F32.emax prec32_pos emax32_ok c Fc) as [Rc _].
  pose proof percent_step as Hs.
  destruct (percent_fin _ Hs) as (Fs & Ss & Ps & Rs).
  pose proof Hs as (Vs & Ns & _).
  rewrite ulps_step in *.
  set (S_ := 13421773 * 2 ^ 123) in *.
  assert (Ws : within (2 ^ 31 * 2 ^ 149) fadeStep_init).
  { split; [exact Fs |]. rewrite Ss, Z.abs_eq by exact Ps.
    unfold S_. clear.
    replace (2 ^ 149) with (2 ^ 26 * 2 ^ 123)
      by (rewrite <- Z.pow_add_r by lia; reflexivity).
    rewrite Z.mul_assoc. apply Z.mul_le_mono_nonneg_r; lia. }
  set (st := sval F32.prec F32.emax t) in *.
  set (sc := sval F32.prec F32.emax c) in *.
  destruct (sub32_within t c _ _ (2 ^ 32 * 2 ^ 149) Wt Wc) as (Fd & Sd & _);
    [apply repr32_pow2_mul; lia | lia | apply pow2_le_200; lia |].
  fold st sc in Sd.
  destruct (abs_sval _ Fd) as (Va & Na & Ua).
  rewrite Sd, srnd_abs in Ua by (reflexivity || lia).
  unfold fade.
  rewrite (leb_ulps (F32.abs (F32.sub t c)) fadeStep_init) by assumption.
  rewrite Ua, ulps_step. fold S_.
  destruct (Z.leb_spec (rnd F32.prec (Z.abs (st - sc)) 1) S_)
    as [Hsnap | Hfar].
  { split; [exact Ft |]. fold st. lia. }
  assert (Hgap : S_ < Z.abs (st - sc)).
  { destruct (Z_lt_ge_dec S_ (Z.abs (st - sc))) as [L | G]; [exact L |].
    exfalso.
    assert (rnd F32.prec (Z.abs (st - sc)) 1 <= S_)
      by (apply rnd_upper; [reflexivity | lia | lia | exact Rs | lia]).
    lia. }
  rewrite (ltb_sval c t Fc Ft). fold st sc.
  destruct (Z.ltb_spec sc st) as [Hup | Hdown].
  - destruct (add32_within c fadeStep_init _ _ (2 ^ 32 * 2 ^ 149) Wc Ws)
      as (Fr & Sr & _);
      [apply repr32_pow2_mul; lia | lia | apply pow2_le_200; lia |].
    fold sc in Sr. rewrite Ss in Sr.
    split; [exact Fr |]. rewrite Sr. split.
    + apply Z.le_trans with sc; [lia |].
      apply srnd_lower; [reflexivity | lia | exact Rc | lia].
    + apply Z.le_trans with st; [| lia].
      apply srnd_upper; [reflexivity | lia | exact Rt | lia].
  - destruct (sub32_within c fadeStep_init _ _ (2 ^ 32 * 2 ^ 149) Wc Ws)
      as (Fr & Sr & _);
      [apply repr32_pow2_mul; lia | lia | apply pow2_le_200; lia |].
    fold sc in Sr. rewrite Ss in Sr.
    split; [exact Fr |]. rewrite Sr. split.
    + apply Z.le_trans with st; [lia |].
      apply srnd_lower; [reflexivity | lia | exact Rt | lia].
    + apply Z.le_trans with sc; [| lia].
      apply srnd_upper; [reflexivity | lia | exact Rc | lia].
Qed.

Lemma fade_within (t c : float) :
  within (2 ^ 31 * 2 ^ 149) t -> within (2 ^ 31 * 2 ^ 149) c ->
  within (2 ^ 31 * 2 ^ 149) (fade t c fadeStep_init).
Proof.
  intros Wt Wc. destruct (fade_between t c Wt Wc) as [F B].
  destruct Wt as [_ Bt], Wc as [_ Bc]. split; [exact F | lia].
Qed.

(** ** What every run keeps *)

Section Invariant.
Context {P : Platform} {R : Radio}.
Variable okDuty : Z -> Prop.
Variable okLight : float -> Prop.
Hypothesis HP : SortPermutes P.
Hypothesis Htarget :
  forall l cur, Forall (pointOK okDuty) l -> in_day cur ->
                okLight (interpolate l cur).
Hypothesis Hfade :
  forall t c, okLight t -> okLight c -> okLight (fade t c fadeStep_init).
Hypothesis Hdark : okLight F0.

Lemma lightOK_frame (st st' : State) :
  schedulePoints st' = schedulePoints st ->
  currentDutyPWM st' = currentDutyPWM st ->
  fadeStep st' = fadeStep st ->
  lightOK okDuty okLight st -> lightOK okDuty okLight st'.
Proof using Type.
  intros E1 E2 E3 (H1 & H2 & H3). unfold lightOK.
  rewrite E1, E2, E3. auto.
Qed.

Lemma parseEntry_pointOK (obj : JsonEntry) (p : SchedulePoint) :
  parseEntry obj = Some p -> okDuty (entry_duty obj) -> pointOK okDuty p.
Proof using Type.
  intros H Hd. apply parseEntry_some_iff in H.
  destruct H as (pre & post & _ & _ & _ & ->).
  split; [| exact Hd]. cbn [time].
  apply timeInHours_within; apply toInt_range.
Qed.

Lemma load_points_ok (st : State) :
  documentOK okDuty (getString (preferences st) "schedule" "points" "[]") ->
  Forall (pointOK okDuty) (schedulePoints (loadScheduleFromPreferences st)).
Proof using Type.
  intros Hdoc.
  destruct (deserializeJson
              (getString (preferences st) "schedule" "points" "[]"))
    as [array |] eqn:E.
  - rewrite (load_parsed st array E).
    pose proof (Hdoc _ E) as Ha. clear E Hdoc.
    induction Ha as [| obj array Hobj _ IH]; [constructor |].
    cbn [flat_map]. apply Forall_app. split; [| exact IH].
    unfold kept. destruct (parseEntry obj) as [p |] eqn:Ep; [| constructor].
    constructor; [| constructor].
    now apply (parseEntry_pointOK obj).
  - rewrite (load_parse_error st E). constructor.
Qed.

Lemma load_ok (st : State) :
  documentOK okDuty (getString (preferences st) "schedule" "points" "[]") ->
  lightOK okDuty okLight st ->
  lightOK okDuty okLight (loadScheduleFromPreferences st).
Proof using Type.
  intros Hdoc (_ & H2 & H3). rewrite load_frame.
  split; [now apply load_points_ok | split; assumption].
Qed.

Lemma sorted_points_ok (l : list SchedulePoint) :
  Forall (pointOK okDuty) l -> Forall (pointOK okDuty) (std_sort l).
Proof using HP.
  intros H. rewrite Forall_forall in *. intros p Hp. apply H.
  eapply Permutation_in; [apply Permutation_sym, HP | exact Hp].
Qed.

Lemma calculate_ok (st : State) :
  lightOK okDuty okLight st ->
  okLight (fst (calculateCurrentDuty st)) /\
  lightOK okDuty okLight (snd (calculateCurrentDuty st)).
Proof using HP Htarget Hdark.
  intros (H1 & H2 & H3). split.
  - rewrite calculateCurrentDuty_value. unfold computeDuty.
    destruct (schedulePoints st) as [| p l] eqn:E; [exact Hdark |].
    apply Htarget; [now apply sorted_points_ok |].
    apply getCurrentTimeInHours_in_day.
  - rewrite calculateCurrentDuty_state. split; [| split; assumption].
    cbn [schedulePoints set_schedulePoints].
    rewrite calculateCurrentDuty_points.
    destruct (schedulePoints st) as [| p l] eqn:E; [constructor |].
    now apply sorted_points_ok.
Qed.

Lemma update_ok (st : State) :
  lightOK okDuty okLight st ->
  lightOK okDuty okLight (updatePWMFromSchedule st).
Proof using HP Htarget Hfade Hdark.
  intros H. destruct (calculate_ok st H) as [Ht (H1 & H2 & H3)].
  destruct H as (_ & Hc & Hs).
  rewrite update_frame. rewrite <- calculateCurrentDuty_value.
  split; [exact H1 |]. split; [| exact H3].
  cbn [currentDutyPWM set_currentDutyPWM]. rewrite Hs. now apply Hfade.
Qed.

Lemma delay_ok (d : Z) (st : State) :
  lightOK okDuty okLight st -> lightOK okDuty okLight (delay d st).
Proof using Type. now apply lightOK_frame. Qed.

Lemma setupTime_ok (st : State) :
  lightOK okDuty okLight st -> lightOK okDuty okLight (setupTime st).
Proof using Type.
  destruct (setupTime_frame st) as (d & v & _ & ->).
  now apply lightOK_frame.
Qed.

Lemma sync_ok (st : State) :
  lightOK okDuty okLight st -> lightOK okDuty okLight (syncTimeIfNeeded st).
Proof using Type.
  unfold syncTimeIfNeeded. destruct (syncDue st); [apply setupTime_ok | auto].
Qed.

Lemma saveSchedule_ok (req : Request) (dev : Device) :
  (hasArg req "schedule" = true -> documentOK okDuty (arg req "schedule")) ->
  deviceOK okDuty okLight dev ->
  deviceOK okDuty okLight (snd (saveSchedule req dev)).
Proof using HP Htarget Hfade Hdark.
  intros Hdoc [H HL]. unfold saveSchedule, handleSaveSchedule.
  destruct (hasArg req "schedule"); cbn [snd].
  - split; [| reflexivity]. cbn [globals setPWMDuty set_ledc set_globals].
    apply update_ok, load_ok.
    + cbn [preferences set_preferences]. rewrite getString_putString.
      now apply Hdoc.
    + revert H. now apply lightOK_frame.
  - split; [exact H | exact HL].
Qed.

Lemma route_ok (rq : HttpRequest) (dev : Device) :
  (postsSchedule rq -> documentOK okDuty (arg (args rq) "schedule")) ->
  deviceOK okDuty okLight dev ->
  deviceOK okDuty okLight (device (snd (route rq dev))).
Proof using HP Htarget Hfade Hdark.
  intros Hdoc D. pose proof D as [H HL]. unfold route.
  destruct (mode dev) as [[|] |]; [| | exact D].
  - destruct (String.eqb (path rq) "/"); [exact D |].
    destruct (String.eqb (path rq) "/save"); [| exact D].
    destruct (method rq); [exact D |].
    unfold handleSave. destruct (_ && _)%bool; [| exact D].
    cbn [snd device]. split; [| exact HL].
    cbn [globals set_globals]. revert H. now apply lightOK_frame.
  - destruct (String.eqb (path rq) "/").
    { cbn [running handleMain fst snd device]. split.
      - cbn [globals set_globals]. apply (calculate_ok _ H).
      - cbn [globals set_globals ledc]. rewrite HL.
        now rewrite calculateCurrentDuty_state. }
    destruct (String.eqb (path rq) "/settimezone").
    { destruct (method rq); [exact D |].
      unfold running, handleSetTimezone. destruct (hasArg _ _); [| exact D].
      cbn [fst snd device]. split; [| exact HL].
      cbn [globals set_globals set_settings]. revert H.
      now apply lightOK_frame. }
    destruct (String.eqb_spec (path rq) "/saveschedule") as [Ep | _].
    { destruct (method rq) eqn:Em; [exact D |].
      cbn [running snd device]. apply saveSchedule_ok; [| exact D].
      intros Ha. apply Hdoc. now repeat split. }
    destruct (String.eqb (path rq) "/loadschedule").
    { destruct (method rq); [| exact D]. exact D. }
    destruct (String.eqb (path rq) "/status"); [| exact D].
    destruct (method rq); [| exact D].
    unfold onGlobals, handleStatus.
    destruct (calculateCurrentDuty (globals dev)) as [d g] eqn:E.
    cbn [snd device].
    assert (Eg : g = snd (calculateCurrentDuty (globals dev)))
      by now rewrite E.
    split.
    + cbn [globals set_globals]. rewrite Eg. apply (calculate_ok _ H).
    + cbn [globals set_globals ledc]. rewrite HL, Eg.
      now rewrite calculateCurrentDuty_state.
Qed.

Lemma everySecond_ok (dev : Device) :
  deviceOK okDuty okLight dev -> deviceOK okDuty okLight (everySecond dev).
Proof using HP Htarget Hfade Hdark.
  intros D. pose proof D as [H HL]. unfold everySecond.
  destruct (1000 <=? _); [| exact D].
  unfold updatePWM.
  cbn [globals set_lastPWMUpdate setPWMDuty set_ledc set_globals].
  set (g := updatePWMFromSchedule (globals dev)).
  assert (Hg : lightOK okDuty okLight g) by now apply update_ok.
  split.
  - cbn [globals]. now apply sync_ok.
  - cbn [globals ledc]. f_equal. unfold syncTimeIfNeeded.
    destruct (syncDue g); [| reflexivity].
    destruct (setupTime_frame g) as (d & v & _ & ->). reflexivity.
Qed.

Lemma run_ok (passes : list (Z * option HttpRequest)) :
  Forall (passOK okDuty) passes ->
  forall dev,
    deviceOK okDuty okLight dev ->
    deviceOK okDuty okLight (device (run passes dev)).
Proof using HP Htarget Hfade Hdark.
  induction passes as [| [ms rq] passes IH]; intros Hpass dev D; [exact D |].
  apply Forall_cons_iff in Hpass. destruct Hpass as [Hrq Hpass].
  specialize (IH Hpass). unfold passOK in Hrq. cbn [snd] in Hrq.
  cbn [run].
  set (dev0 := set_globals (delay ms (globals dev)) dev).
  assert (D0 : deviceOK okDuty okLight dev0).
  { destruct D as [H HL]. split; [| exact HL].
    cbn [dev0 globals set_globals]. now apply delay_ok. }
  clearbody dev0. unfold loop.
  destruct rq as [rq |].
  - pose proof (route_ok rq dev0 Hrq D0) as D1.
    destruct (route rq dev0) as [a [dev1 | dev1]]; cbn [snd device] in *.
    + apply IH. now apply everySecond_ok.
    + exact D1.
  - cbn [snd]. apply IH. now apply everySecond_ok.
Qed.

Lemma startSTAMode_ok (dev : Device) :
  documentOK okDuty
    (getString (preferences (globals dev)) "schedule" "points" "[]") ->
  lightOK okDuty okLight (globals dev) ->
  lightOK okDuty okLight (globals (startSTAMode dev)).
Proof using Type.
  intros Hdoc H. unfold startSTAMode.
  destruct (String.eqb _ _); [exact H |].
  destruct (awaitConnection_frame
              30 (getString (preferences (globals dev)) "wifi" "ssid"
                            EmptyString)
              (getString (preferences (globals dev)) "wifi" "password"
                         EmptyString)
              (millis (globals dev)) (globals dev)) as (d & _ & ->).
  destruct (connected _ _ _); cbn [globals set_globals set_mode startAPMode].
  - apply load_ok.
    + destruct (setupTime_frame
                  (set_timezoneOffset
                     (getInt (settings dev) "settings" "timezone" 0)
                     (delay d (globals dev)))) as (w & v & _ & ->).
      exact Hdoc.
    + apply setupTime_ok. revert H. now apply lightOK_frame.
  - now apply delay_ok.
Qed.

Lemma setup_ok (strings : Preferences) (ints : IntPreferences) :
  documentOK okDuty (getString strings "schedule" "points" "[]") ->
  deviceOK okDuty okLight (setup (powerUp strings ints)).
Proof using HP Htarget Hfade Hdark.
  intros Hdoc.
  assert (H0 : lightOK okDuty okLight (globals (powerUp strings ints)))
    by (split; [constructor | split; [exact Hdark | reflexivity]]).
  unfold setup. cbv zeta.
  set (dev1 := setupPWM (set_globals (delay 1000 _) _)).
  assert (H1 : lightOK okDuty okLight (globals dev1))
    by (cbn [dev1 globals setupPWM set_ledc set_globals]; now apply delay_ok).
  assert (Hd1 : documentOK okDuty
                  (getString (preferences (globals dev1)) "schedule"
                             "points" "[]")) by exact Hdoc.
  clearbody dev1.
  pose proof (startSTAMode_ok dev1 Hd1 H1) as H2.
  destruct (calculate_ok _ H2) as [Ht (G1 & G2 & G3)].
  destruct (calculateCurrentDuty (globals (startSTAMode dev1))) as [d g].
  cbn [fst snd] in *. split; [| reflexivity].
  cbn [globals setPWMDuty set_ledc set_globals].
  split; [exact G1 |]. split; [exact Ht | exact G3].
Qed.
End Invariant.

Lemma clampingPlatform_permutes (lo hi t0 : Z) :
  SortPermutes (clampingPlatform lo hi t0).
Proof. intros l. apply insertion_sort_perm. Qed.

Lemma clampingPlatform_parses (lo hi t0 : Z) :
  lo <= hi ->
  ParsesDuties (clampingPlatform lo hi t0) (fun d => lo <= d <= hi).
Proof.
  intros H text array. cbn [deserializeJson clampingPlatform].
  destruct (readScheduleJson text) as [a |]; [| discriminate].
  cbn [option_map]. intros [= <-].
  apply Forall_forall. intros obj Hobj. apply in_map_iff in Hobj.
  destruct Hobj as (o & <- & _). cbn [clampDuty entry_duty]. lia.
Qed.

Lemma pointOK_storable (okDuty : Z -> Prop) (l : list SchedulePoint) :
  (forall d, okDuty d -> isInt d) ->
  Forall (pointOK okDuty) l -> Forall storable l.
Proof.
  intros Hd H. eapply Forall_impl; [| exact H].
  intros p [Hw Hp]. split; [exact Hw | exact (Hd _ Hp)].
Qed.

(** With duties of the documented range the interpolation gives a
    percentage, whatever the times of the points are. *)
Lemma interpolate_percent (l : list SchedulePoint) (cur : float) :
  Forall (pointOK isPercentage) l -> in_day cur ->
  percent (interpolate l cur).
Proof.
  intros Hl Hc.
  assert (Hs : Forall storable l).
  { apply (pointOK_storable isPercentage); [| exact Hl].
    unfold isPercentage, isInt, Cast.INT_MIN, Cast.INT_MAX. lia. }
  unfold interpolate.
  pose proof (bracket_within cur l Hs Hc) as B.
  pose proof (bracket_members l cur) as M.
  assert (P0 : percent F0) by (apply (percent_of_int 0); lia).
  destruct (foundBefore (scan l cur)) eqn:FB,
           (foundAfter (scan l cur)) eqn:FA;
    cbn [negb andb orb] in *; try exact P0;
    specialize (B eq_refl); destruct (M eq_refl) as (Mb & _);
    destruct (bracket l (scan l cur)) as [b a]; cbn [fst] in Mb;
    destruct B as ((Wb & Db) & (Wa & Da) & Hbc & Hca);
    (rewrite (eqb_sval _ _ (proj1 Wb) (proj1 Wa));
     destruct (Z.eqb_spec (sval F32.prec F32.emax (time b))
                          (sval F32.prec F32.emax (time a))) as [E | N];
     [ apply percent_of_int;
       destruct Mb as [Mb | ->]; [| cbn [duty]; lia];
       rewrite Forall_forall in Hl; exact (proj2 (Hl b Mb))
     | pose proof (interpolation_within
                     (time b) (time a) cur (duty b) (duty a) Wb Wa
                     (proj1 (in_day_within cur Hc)) Hbc Hca N Db Da) as F;
       destruct (fin_not_nan _ F) as [V Nn];
       now apply constrain_percent ]).
Qed.

Lemma fade_percent (t c : float) :
  percent t -> percent c -> percent (fade t c fadeStep_init).
Proof.
  intros Ht Hc. exact (proj1 (fade_step t c fadeStep_init Ht Hc percent_step)).
Qed.

Lemma percent_leb (x : float) :
  percent x ->
  F32.valid x = true /\ F32.leb F0 x = true /\ F32.leb x F100 = true.
Proof.
  intros (V & N & U). split; [exact V |].
  rewrite !leb_ulps by (assumption || reflexivity).
  change (ulps F0) with 0. change (ulps F100) with (100 * 2 ^ 149).
  pose proof (ulps_nonneg x V).
  split; apply Z.leb_le; lia.
Qed.

Section Always.
Context {P : Platform} {R : Radio}.

(** X19.  Whatever the store holds at power-up and whatever is sent to the
    device afterwards, times and duties of any size included: at every
    moment [currentDutyPWM] is a number, neither a NaN nor an infinity,
    and the register holds its level, one of the 4096 levels of the
    channel.  The conversion to [int] in [setPWMDuty] is never out of
    range. *)
Theorem level_is_always_defined
        (strings : Preferences) (ints : IntPreferences)
        (passes : list (Z * option HttpRequest)) :
  SortPermutes P -> ParsesDuties P isInt ->
  let dev := device (run passes (setup (powerUp strings ints))) in
  F32.valid (currentDutyPWM (globals dev)) = true /\
  F32.is_finite (currentDutyPWM (globals dev)) = true /\
  ledc dev = pwmValue (currentDutyPWM (globals dev)) /\
  exists v, ledc dev = Some v /\ 0 <= v <= 4095.
Proof.
  intros HP HI dev.
  assert (Hdoc : forall text, documentOK isInt text)
    by (intros text array; apply HI).
  assert (D : deviceOK isInt isNumber dev).
  { apply run_ok; try assumption.
    - intros l cur Hl Hc. apply interpolate_within; [| exact Hc].
      now apply (pointOK_storable isInt).
    - intros t c. apply fade_within.
    - apply percent_within. apply (percent_of_int 0). lia.
    - apply Forall_forall. intros [ms [rq |]] _; [| exact I].
      intros _. apply Hdoc.
    - apply setup_ok; try assumption.
      + intros l cur Hl Hc. apply interpolate_within; [| exact Hc].
        now apply (pointOK_storable isInt).
      + intros t c. apply fade_within.
      + apply percent_within. apply (percent_of_int 0). lia.
      + apply Hdoc. }
  destruct D as [(_ & [F _] & _) HL].
  destruct (fin32_valid _ F) as [V Fi].
  split; [exact V |]. split; [exact Fi |]. split; [exact HL |].
  rewrite HL. apply pwmValue_defined; [exact V |].
  now destruct (currentDutyPWM (globals dev)).
Qed.

(** X20.  If the duties of the documents of a run lie between 0 and 100, those
    documents being the schedule that the store holds at power-up and
    the schedules that are posted to [/saveschedule] during the run,
    then [currentDutyPWM] lies between 0 and 100 at every moment of the
    run, whatever the times of the points are; the register holds the
    level of that percentage.  Nothing is asked of documents that the
    run does not meet, nor of the parser. *)
Theorem percentages_give_percentages
        (strings : Preferences) (ints : IntPreferences)
        (passes : list (Z * option HttpRequest)) :
  SortPermutes P ->
  documentOK isPercentage (getString strings "schedule" "points" "[]") ->
  Forall (passOK isPercentage) passes ->
  let dev := device (run passes (setup (powerUp strings ints))) in
  F32.valid (currentDutyPWM (globals dev)) = true /\
  F32.leb F0 (currentDutyPWM (globals dev)) = true /\
  F32.leb (currentDutyPWM (globals dev)) F100 = true /\
  ledc dev = Some (level_ulps (ulps (currentDutyPWM (globals dev)))).
Proof.
  intros HP Hstored Hposted dev.
  assert (P0 : percent F0) by (apply (percent_of_int 0); lia).
  assert (D : deviceOK isPercentage percent dev).
  { apply run_ok; try assumption.
    - apply interpolate_percent.
    - apply fade_percent.
    - apply setup_ok; try assumption.
      + apply interpolate_percent.
      + apply fade_percent. }
  destruct D as [(_ & Hp & _) HL].
  destruct (percent_leb _ Hp) as (V & L0 & L1).
  split; [exact V |]. split; [exact L0 |]. split; [exact L1 |].
  rewrite HL. now apply pwmValue_percent.
Qed.
End Always.

Lemma level_is_always_defined_witness :
  let strings :=
    putString
      (putString (fun _ _ => None) "wifi" "ssid" "reef")
      "schedule" "points" "[{'time':'-7:99','duty':500}]" in
  let dev :=
    device (run (P := clampingPlatform Cast.INT_MIN Cast.INT_MAX 43200)
                (R := radioFrom 2400)
                [(1000, None);
                 (1000, Some (mkHttpRequest "/status" GET []))]
                (setup (P := clampingPlatform Cast.INT_MIN Cast.INT_MAX 43200)
                       (R := radioFrom 2400)
                       (powerUp strings (fun _ _ => None)))) in
  exists v, ledc dev = Some v /\ 0 <= v <= 4095.
Proof.
  intros strings dev.
  refine (proj2 (proj2 (proj2
            (level_is_always_defined
               (P := clampingPlatform Cast.INT_MIN Cast.INT_MAX 43200)
               (R := radioFrom 2400)
               strings (fun _ _ => None) _ _ _)))).
  - apply clampingPlatform_permutes.
  - apply (clampingPlatform_parses Cast.INT_MIN Cast.INT_MAX).
    unfold Cast.INT_MIN, Cast.INT_MAX. lia.
Defined.

Lemma percentages_give_percentages_witness :
  let strings :=
    putString
      (putString (fun _ _ => None) "wifi" "ssid" "reef")
      "schedule" "points" "[{'time':'31:75','duty':80}]" in
  let post :=
    mkHttpRequest "/saveschedule" POST
                  [("schedule", "[{'time':'07:30','duty':45}]")] in
  let dev :=
    device (run (P := refPlatform 43200) (R := radioFrom 2400)
                [(1000, None); (1500, Some post); (1000, None)]
                (setup (P := refPlatform 43200) (R := radioFrom 2400)
                       (powerUp strings (fun _ _ => None)))) in
  F32.leb (currentDutyPWM (globals dev)) F100 = true.
Proof.
  intros strings post dev.
  refine (proj1 (proj2 (proj2
            (percentages_give_percentages
               (P := refPlatform 43200) (R := radioFrom 2400)
               strings (fun _ _ => None) _
               (refPlatform_permutes 43200) _ _)))).
  - intros array E. vm_compute in E. injection E as <-.
    repeat constructor; cbn [entry_duty]; lia.
  - repeat constructor; unfold passOK; cbn [snd]; try exact I.
    intros _ array E. vm_compute in E. injection E as <-.
    repeat constructor; cbn [entry_duty]; lia.
Defined.

(** ** The time of a point *)

(** A sorted vector splits into the points up to the current time and the
    points after it. *)
Lemma sorted_split (cur : float) (l : list SchedulePoint) :
  fin F32.prec F32.emax cur = true ->
  Forall storable l -> StronglySorted by_time l ->
  exists l1 l2,
    l = l1 ++ l2 /\
    (forall x, In x l1 -> F32.leb (time x) cur = true) /\
    (forall y, In y l2 -> F32.leb (time y) cur = false).
Proof.
  intros Fc Hl Hs. induction l as [| x l IH].
  - exists [], []. repeat split; intros ? [].
  - apply Forall_cons_iff in Hl. destruct Hl as [[[Fx _] _] Hl].
    apply StronglySorted_inv in Hs. destruct Hs as [Hs Hx].
    destruct (F32.leb (time x) cur) eqn:E.
    + destruct (IH Hl Hs) as (l1 & l2 & -> & H1 & H2).
      exists (x :: l1), l2. split; [reflexivity |]. split; [| exact H2].
      intros y [<- | Hy]; [exact E | now apply H1].
    + exists [], (x :: l). split; [reflexivity |]. split; [intros ? [] |].
      intros y [<- | Hy]; [exact E |].
      rewrite Forall_forall in Hx, Hl.
      pose proof (Hx y Hy) as Hxy. unfold by_time in Hxy.
      destruct (Hl y Hy) as [[Fy _] _].
      rewrite ltb_sval in Hxy by assumption.
      rewrite leb_sval in E |- * by assumption.
      apply Z.ltb_ge in Hxy. apply Z.leb_gt in E. apply Z.leb_gt. lia.
Qed.

(** At the very time of a stored point the sorted vector gives the duty
    of a point of that time, as it is stored. *)
Lemma interpolate_at_point (cur : float) (l : list SchedulePoint)
      (p : SchedulePoint) :
  fin F32.prec F32.emax cur = true ->
  Forall storable l -> StronglySorted by_time l ->
  In p l -> F32.eqb (time p) cur = true ->
  exists q, In q l /\ F32.eqb (time q) cur = true /\
            interpolate l cur = F32.of_int (duty q).
Proof.
  intros Fc Hl Hs Hp Ep.
  destruct (sorted_split cur l Fc Hl Hs) as (l1 & l2 & -> & H1 & H2).
  rewrite Forall_forall in Hl.
  assert (Fp : fin F32.prec F32.emax (time p) = true)
    by (destruct (Hl p Hp) as [[F _] _]; exact F).
  rewrite eqb_sval in Ep by assumption. apply Z.eqb_eq in Ep.
  assert (Hp1 : In p l1).
  { apply in_app_or in Hp. destruct Hp as [Hp | Hp]; [exact Hp |].
    pose proof (H2 p Hp) as Hf. rewrite leb_sval in Hf by assumption.
    apply Z.leb_gt in Hf. lia. }
  destruct (exists_last (l := l1)) as (l1' & b & ->);
    [intros ->; destruct Hp1 |].
  assert (Hb : In b ((l1' ++ [b]) ++ l2))
    by (apply in_or_app; left; apply in_or_app; right; now left).
  assert (Fb : fin F32.prec F32.emax (time b) = true)
    by (destruct (Hl b Hb) as [[F _] _]; exact F).
  assert (Lb : F32.leb (time b) cur = true)
    by (apply H1, in_or_app; right; now left).
  assert (Eb : sval F32.prec F32.emax (time b) = sval F32.prec F32.emax cur).
  { pose proof Lb as Lb'. rewrite leb_sval in Lb' by assumption.
    apply Z.leb_le in Lb'.
    apply in_app_or in Hp1. destruct Hp1 as [Hp1 | [<- | []]]; [| lia].
    rewrite <- app_assoc in Hs. cbn [app] in Hs.
    pose proof (sorted_app_before by_time l1' l2 b Hs p Hp1) as Hpb.
    unfold by_time in Hpb. rewrite ltb_sval in Hpb by assumption.
    apply Z.ltb_ge in Hpb. lia. }
  (* the scan of the first part *)
  destruct (scan_snoc_before l1' b cur Lb) as [Sb Tb].
  pose proof (scan_inv cur (l1' ++ [b])) as (_ & I2 & _ & I4).
  assert (Ta : foundAfter (scan (l1' ++ [b]) cur) = true).
  { destruct (foundAfter (scan (l1' ++ [b]) cur)) eqn:E; [reflexivity |].
    pose proof (I4 eq_refl b ltac:(apply in_or_app; right; now left)) as Hf.
    rewrite leb_sval in Hf by assumption. apply Z.leb_gt in Hf. lia. }
  destruct (I2 Ta) as [Ha La].
  set (a := sc_after (scan (l1' ++ [b]) cur)) in *.
  assert (Ha' : In a ((l1' ++ [b]) ++ l2)) by (apply in_or_app; now left).
  assert (Fa : fin F32.prec F32.emax (time a) = true)
    by (destruct (Hl a Ha') as [[F _] _]; exact F).
  assert (Ea : sval F32.prec F32.emax (time a) = sval F32.prec F32.emax cur).
  { pose proof (H1 a Ha) as L. rewrite leb_sval in L, La by assumption.
    apply Z.leb_le in L, La. lia. }
  (* the scan of the second part *)
  pose proof (scan_later_points cur l2 H2 (scan (l1' ++ [b]) cur)) as K.
  cbv zeta in K. rewrite <- scan_app in K.
  destruct K as (Kb & Kf & Ka & _). destruct (Ka Ta) as [Ka1 Ka2].
  exists b. split; [exact Hb |]. split.
  { rewrite eqb_sval by assumption. now apply Z.eqb_eq. }
  unfold interpolate, bracket. rewrite Kf, Tb, Ka2. cbn [negb andb].
  rewrite Kb, Sb, Ka1. fold a.
  rewrite eqb_sval by assumption.
  replace (sval F32.prec F32.emax (time b) =? sval F32.prec F32.emax (time a))
    with true by (symmetry; apply Z.eqb_eq; lia).
  reflexivity.
Qed.

Lemma add64_zero (x : double) :
  match x with S754_zero true => False | _ => True end ->
  F64.add x (F64.div (F64.of_int 0) (F64.of_int 3600)) = x.
Proof.
  change (F64.div (F64.of_int 0) (F64.of_int 3600)) with (S754_zero false).
  destruct x as [[|] | s | | s m e]; intros H; try reflexivity.
  destruct H.
Qed.

Section Breakpoints.
Context {P : Platform}.

(** X12.  At the time of a stored point the duty is the duty of a point of that
    time, converted to [float] and nothing else: it is returned as it is
    stored, also when it is no percentage. *)
Theorem duty_at_the_time_of_a_point
        (model : list SchedulePoint) (cur : float) (p : SchedulePoint) :
  SortPermutes P -> SortOrders P ->
  Forall storable model -> in_day cur ->
  In p model -> F32.eqb (time p) cur = true ->
  exists q, In q model /\ F32.eqb (time q) cur = true /\
            computeDuty model cur = F32.of_int (duty q).
Proof.
  intros HP HS Hm Hc Hp Ep.
  assert (Hl : Forall storable (std_sort model)).
  { rewrite Forall_forall in *. intros x Hx. apply Hm.
    eapply Permutation_in; [apply Permutation_sym, HP | exact Hx]. }
  destruct (interpolate_at_point cur (std_sort model) p
              (proj1 (proj1 (in_day_within cur Hc))) Hl (HS model)
              (Permutation_in _ (HP model) Hp) Ep) as (q & Hq & Eq & E).
  exists q. split; [| split; [exact Eq |]].
  - eapply Permutation_in; [apply Permutation_sym, HP | exact Hq].
  - unfold computeDuty. destruct model; [destruct Hp | exact E].
Qed.

(** X5.  At a full minute of the local time, which is [time(nullptr)] moved
    by the [int] product of the offset and 3600, the clock reads, bit for
    bit, what [loadScheduleFromPreferences] stores for that hour and
    minute: the points of the schedule are met exactly. *)
Theorem full_minute_reads_as_stored (st : State) :
  let now := localNow st in
  now mod 60 = 0 ->
  getCurrentTimeInHours st
  = timeInHours ((now / 3600) mod 24) ((now / 60) mod 60).
Proof.
  intros now H0. unfold getCurrentTimeInHours. cbv zeta. fold now.
  rewrite H0, timeInHours_clock. f_equal. apply add64_zero.
  set (h := (now / 3600) mod 24). set (m := (now / 60) mod 60).
  assert (Hh : 0 <= h < 24) by (apply Z.mod_pos_bound; lia).
  assert (Hm : 0 <= m < 60) by (apply Z.mod_pos_bound; lia).
  destruct (of_int64_sval h ltac:(lia)) as [Fh Sh].
  destruct (div64_small m 60 16113 ltac:(lia) ltac:(lia) ltac:(lia) ltac:(lia))
    as [Fm Bm].
  destruct (Z.eq_dec h 0) as [-> | Nh].
  - change (F64.of_int 0) with (S754_zero false).
    destruct (F64.div (F64.of_int m) (F64.of_int 60)) as [[|] | | | ];
      exact I.
  - pose proof (add_sval F64.prec F64.emax prec64_pos emax64_ok
                         (F64.of_int h) _ Fh Fm) as A.
    rewrite Sh in A.
    set (q := sval F64.prec F64.emax (F64.div (F64.of_int m) (F64.of_int 60)))
      in *.
    assert (P1074 : 2 ^ 1074 = 2 ^ 14 * 2 ^ 1060)
      by (rewrite <- Z.pow_add_r by lia; reflexivity).
    assert (P1060 : 0 < 2 ^ 1060) by (apply Z.pow_pos_nonneg; lia).
    assert (Lo : 2 ^ 1074 * 1 <= h * 2 ^ 1074 + q) by nia.
    assert (Hi : h * 2 ^ 1074 + q <= 2 ^ 1080 * 1).
    { replace (2 ^ 1080) with (2 ^ 20 * 2 ^ 1060)
        by (rewrite <- Z.pow_add_r by lia; reflexivity).
      rewrite P1074. nia. }
    rewrite Z.abs_eq, srnd_nonneg_arg in A by lia.
    destruct A as [F1 S1].
    { apply ovf64_big. apply Z.le_trans with (2 ^ 1080).
      - apply rnd_upper;
          [reflexivity | lia | lia | apply repr_pow2; [reflexivity | lia]
           | exact Hi].
      - apply Z.pow_le_mono_r; lia. }
    assert (Pos : 2 ^ 1074 <= rnd F64.prec (h * 2 ^ 1074 + q) 1)
      by (apply rnd_lower;
          [reflexivity | lia | lia | lia
           | apply repr_pow2; [reflexivity | lia] | exact Lo]).
    fold (F64.add (F64.of_int h) (F64.div (F64.of_int m) (F64.of_int 60)))
      in S1.
    destruct (F64.add _ _) as [[|] | | |]; try exact I.
    cbn [sval] in S1. lia.
Qed.
End Breakpoints.

(** ** The order of the stored times *)

Lemma minuteTime_next :
  all_from (fun k => F32.ltb (minuteTime k) (minuteTime (k + 1))) 1439 0
  = true.
Proof. vm_compute. reflexivity. Qed.

Lemma minuteTime_mono (k k' : Z) :
  0 <= k -> k < k' -> k' < 1440 ->
  F32.ltb (minuteTime k) (minuteTime k') = true.
Proof.
  intros H0 Hlt H1.
  assert (G : forall n : nat,
             k + 1 + Z.of_nat n < 1440 ->
             F32.ltb (minuteTime k) (minuteTime (k + 1 + Z.of_nat n)) = true).
  { induction n as [| n IH]; intros Hn.
    - rewrite Z.add_0_r.
      apply (all_from_spec _ _ _ minuteTime_next k). lia.
    - eapply ltb_trans; [apply IH; lia |].
      replace (k + 1 + Z.of_nat (S n)) with (k + 1 + Z.of_nat n + 1) by lia.
      apply (all_from_spec _ _ _ minuteTime_next (k + 1 + Z.of_nat n)). lia. }
  replace k' with (k + 1 + Z.of_nat (Z.to_nat (k' - k - 1))) by lia.
  apply G. lia.
Qed.

Lemma minuteTime_clock (h m : Z) :
  0 <= m < 60 -> minuteTime (60 * h + m) = timeInHours h m.
Proof.
  intros Hm. unfold minuteTime. f_equal.
  - rewrite Z.mul_comm, Z.div_add_l by lia. rewrite Z.div_small by lia. lia.
  - rewrite Z.mul_comm, Z.add_comm, Z.mod_add by lia. now apply Z.mod_small.
Qed.

(** X6.  The times that [loadScheduleFromPreferences] stores for clock times
    keep the order of the clock: an earlier minute of the day gives a
    smaller float, and no two minutes give the same one.  Sorting the
    points by their floats is sorting them by their clock times. *)
Theorem stored_times_keep_the_order (h m h' m' : Z) :
  0 <= h < 24 -> 0 <= m < 60 -> 0 <= h' < 24 -> 0 <= m' < 60 ->
  (F32.ltb (timeInHours h m) (timeInHours h' m') = true <->
   60 * h + m < 60 * h' + m') /\
  (F32.eqb (timeInHours h m) (timeInHours h' m') = true <->
   h = h' /\ m = m').
Proof.
  intros Hh Hm Hh' Hm'.
  rewrite <- (minuteTime_clock h m Hm), <- (minuteTime_clock h' m' Hm').
  set (k := 60 * h + m). set (k' := 60 * h' + m').
  assert (Hk : 0 <= k < 1440) by (unfold k; lia).
  assert (Hk' : 0 <= k' < 1440) by (unfold k'; lia).
  assert (Fk : forall j, 0 <= j < 1440 ->
                         fin F32.prec F32.emax (minuteTime j) = true).
  { intros j Hj. unfold minuteTime.
    assert (0 <= j / 60 < 24)
      by (split; [apply Z.div_pos; lia | apply Z.div_lt_upper_bound; lia]).
    assert (0 <= j mod 60 < 60) by (apply Z.mod_pos_bound; lia).
    exact (proj1 (proj1 (in_day_within _ (timeInHours_in_day _ _ H H0)))). }
  pose proof (Fk k Hk) as F1. pose proof (Fk k' Hk') as F2.
  assert (Mono : forall a b, 0 <= a -> a < b -> b < 1440 ->
                   sval F32.prec F32.emax (minuteTime a)
                   < sval F32.prec F32.emax (minuteTime b)).
  { intros a b Ha Hab Hb. pose proof (minuteTime_mono a b Ha Hab Hb) as L.
    rewrite ltb_sval in L by (apply Fk; lia). now apply Z.ltb_lt. }
  rewrite ltb_sval, eqb_sval by assumption.
  rewrite Z.ltb_lt, Z.eqb_eq.
  destruct (Z.lt_trichotomy k k') as [L | [E | G]].
  - pose proof (Mono k k' ltac:(lia) L ltac:(lia)).
    split; split; intros; try lia; unfold k, k' in *; lia.
  - rewrite E. split; split; intros; try lia; unfold k, k' in *; lia.
  - pose proof (Mono k' k ltac:(lia) G ltac:(lia)).
    split; split; intros; try lia; unfold k, k' in *; lia.
Qed.

(** ** Waiting for the time *)

Section Waiting.
Context {P : Platform}.

Lemma setupTime_loop_waits (n : nat) :
  forall retry st k,
    retry + Z.of_nat n = 10 -> 0 <= retry ->
    0 <= k <= Z.of_nat n ->
    (forall j, 0 <= j < k ->
               time_at (uptime_ms st + 1000 * j) < 8 * 3600 * 2) ->
    (k = Z.of_nat n \/ 8 * 3600 * 2 <= time_at (uptime_ms st + 1000 * k)) ->
    setupTime_loop n (time_at (uptime_ms st)) retry st = delay (1000 * k) st.
Proof.
  induction n as [| n IH]; intros retry st k Hr Hr0 Hk Hbefore Hstop.
  - replace k with 0 by lia. cbn [setupTime_loop]. now rewrite delay_0.
  - cbn [setupTime_loop].
    replace (retry <? 10) with true by (symmetry; apply Z.ltb_lt; lia).
    rewrite andb_true_r.
    destruct (Z.eq_dec k 0) as [-> | Hk0].
    + destruct Hstop as [Hstop | Hstop]; [lia |].
      rewrite Z.mul_0_r, Z.add_0_r in Hstop.
      replace (_ <? _) with false by (symmetry; apply Z.ltb_ge; exact Hstop).
      now rewrite delay_0.
    + pose proof (Hbefore 0 ltac:(lia)) as H0.
      rewrite Z.mul_0_r, Z.add_0_r in H0.
      replace (_ <? _) with true by (symmetry; apply Z.ltb_lt; exact H0).
      cbv zeta.
      rewrite (IH (retry + 1) (delay 1000 st) (k - 1));
        [rewrite delay_delay; f_equal; lia | lia | lia | lia | |].
      * intros j Hj. cbn [uptime_ms delay].
        replace (uptime_ms st + 1000 + 1000 * j)
          with (uptime_ms st + 1000 * (j + 1)) by lia.
        apply Hbefore. lia.
      * cbn [uptime_ms delay].
        replace (uptime_ms st + 1000 + 1000 * (k - 1))
          with (uptime_ms st + 1000 * k) by lia.
        destruct Hstop as [Hstop | Hstop]; [left; lia | now right].
Qed.

(** X27.  [setupTime] starts SNTP and then waits, a second at a time, for the
    clock to show a time after 16 hours of 1970; it waits for ten seconds
    at most and then goes on without the time, marking the moment as the
    one of the last synchronisation all the same.  Nothing but the
    uptime, that mark and the count of SNTP starts changes. *)
Theorem setupTime_waits_ten_seconds_at_most (st : State) (k : Z) :
  0 <= k <= 10 ->
  (forall j, 0 <= j < k -> time_at (uptime_ms st + 1000 * j) < 57600) ->
  (k = 10 \/ 57600 <= time_at (uptime_ms st + 1000 * k)) ->
  setupTime st
  = set_lastNTPSync ((uptime_ms st + 1000 * k) mod 2 ^ 32)
                    (delay (1000 * k) (configTime st)) /\
  uptime_ms (setupTime st) = uptime_ms st + 1000 * k /\
  sntpStarts (setupTime st) = S (sntpStarts st) /\
  syncDue (setupTime st) = false.
Proof.
  intros Hk Hbefore Hstop.
  assert (E : setupTime st
              = set_lastNTPSync ((uptime_ms st + 1000 * k) mod 2 ^ 32)
                                (delay (1000 * k) (configTime st))).
  { unfold setupTime. cbv zeta.
    rewrite (setupTime_loop_waits 10 0 (configTime st) k);
      [reflexivity | lia | lia | lia | exact Hbefore | ].
    destruct Hstop as [-> | Hstop]; [now left | now right]. }
  split; [exact E |]. rewrite E. split; [reflexivity |].
  split; [reflexivity |].
  unfold syncDue, millis, NTP_SYNC_INTERVAL.
  cbn [uptime_ms lastNTPSync set_lastNTPSync delay configTime].
  rewrite Z.sub_diag. reflexivity.
Qed.

(** ** A schedule without points *)

Lemma updates_empty (waits : list Z) :
  forall st,
    schedulePoints st = [] -> fadeStep st = fadeStep_init ->
    schedulePoints (updates waits st) = [] /\
    fadeStep (updates waits st) = fadeStep_init /\
    currentDutyPWM (updates waits st)
    = fade_to F0 (List.length waits) (currentDutyPWM st).
Proof.
  induction waits as [| ms waits IH] using rev_ind; intros st Hs Hf.
  - now repeat split.
  - unfold updates in *. rewrite fold_left_app. cbn [fold_left].
    destruct (IH st Hs Hf) as (H1 & H2 & H3).
    set (st' := fold_left _ waits st) in *.
    rewrite (update_empty (delay ms st')) by exact H1.
    cbn [schedulePoints fadeStep currentDutyPWM set_currentDutyPWM delay].
    rewrite H2, H3, List.length_app, Nat.add_comm. cbn [List.length Nat.add].
    repeat split; assumption.
Qed.

(** X17.  Once the schedule has no points the light goes out: whatever the duty
    was, within 0 and 100, and however long the waits between the
    updates are, after 501 updates the duty is 0, its level is 0, and
    both stay there; on the way the duty never rises. *)
Theorem empty_schedule_turns_the_light_off
        (st : State) (waits : list Z) :
  schedulePoints st = [] ->
  fadeStep st = fadeStep_init ->
  F32.valid (currentDutyPWM st) = true ->
  F32.leb F0 (currentDutyPWM st) = true ->
  F32.leb (currentDutyPWM st) F100 = true ->
  F32.leb (currentDutyPWM (updates waits st)) (currentDutyPWM st) = true /\
  ((501 <= List.length waits)%nat ->
   currentDutyPWM (updates waits st) = F0 /\
   pwmValue (currentDutyPWM (updates waits st)) = Some 0).
Proof.
  intros Hs Hf V L0 L1.
  assert (Nn : nonneg (currentDutyPWM st) = true).
  { destruct (currentDutyPWM st) as [s | [|] | | [|] m e];
      try reflexivity; discriminate. }
  assert (Hc : percent (currentDutyPWM st)).
  { split; [exact V |]. split; [exact Nn |].
    rewrite leb_ulps in L1 by (assumption || reflexivity).
    apply Z.leb_le in L1. exact L1. }
  assert (H0 : percent F0) by (apply (percent_of_int 0); lia).
  destruct (updates_empty waits st Hs Hf) as (_ & _ & E). rewrite E.
  split.
  - destruct (fade_to_progress F0 (currentDutyPWM st) (List.length waits)
                               H0 Hc) as ((Vr & Nr & _) & B & _).
    rewrite leb_ulps by assumption. apply Z.leb_le.
    change (ulps F0) with 0 in B.
    pose proof (ulps_nonneg _ V). lia.
  - intros Hn. rewrite (fade_to_settles F0 _ _ H0 Hc Hn).
    split; reflexivity.
Qed.
End Waiting.

(** ** The credentials *)

Section Credentials.
Context {P : Platform}.

Lemma everySecond_preferences (dev : Device) :
  preferences (globals (everySecond dev)) = preferences (globals dev).
Proof.
  unfold everySecond. destruct (1000 <=? _); [| reflexivity].
  unfold updatePWM.
  cbn [globals set_globals setPWMDuty set_ledc set_lastPWMUpdate].
  set (g := updatePWMFromSchedule (globals dev)).
  assert (Eg : preferences g = preferences (globals dev)).
  { unfold g. rewrite update_frame, calculateCurrentDuty_state.
    reflexivity. }
  rewrite <- Eg. unfold syncTimeIfNeeded.
  destruct (syncDue g); [| reflexivity].
  destruct (setupTime_frame g) as (d & v & _ & ->). reflexivity.
Qed.

(** X24.  [handleSave], as the access point routes it: with both arguments the
    name and the password are stored under [wifi], where the next
    [startSTAMode] reads them, the page is sent and the device restarts
    two seconds later, without another update of the light; the schedule
    and the time zone in the store are left alone.  With an argument
    missing the answer is 400 and the store is unchanged. *)
Theorem credentials_are_kept_for_the_next_start
        (rq : HttpRequest) (dev : Device) :
  mode dev = Some AccessPoint ->
  path rq = "/save" -> method rq = POST ->
  (hasArg (args rq) "ssid" = true -> hasArg (args rq) "password" = true ->
   exists dev',
     loop (Some rq) dev = (Some (Html 200), Restarting dev') /\
     getString (preferences (globals dev')) "wifi" "ssid" EmptyString
     = arg (args rq) "ssid" /\
     getString (preferences (globals dev')) "wifi" "password" EmptyString
     = arg (args rq) "password" /\
     (forall key, preferences (globals dev') "schedule" key
                  = preferences (globals dev) "schedule" key) /\
     settings dev' = settings dev /\
     ledc dev' = ledc dev /\
     uptime_ms (globals dev') = uptime_ms (globals dev) + 2000) /\
  ((hasArg (args rq) "ssid" && hasArg (args rq) "password")%bool = false ->
   exists dev',
     loop (Some rq) dev
     = (Some (Reply (mkResponse 400 "text/plain"
                                (Text "Missing SSID or Password"))),
        Running dev') /\
     preferences (globals dev') = preferences (globals dev) /\
     mode dev' = Some AccessPoint).
Proof.
  intros M Hp Hm. unfold loop, route. rewrite M, Hp, Hm.
  cbn [String.eqb Ascii.eqb Bool.eqb andb]. unfold handleSave.
  split.
  - intros H1 H2. rewrite H1, H2. cbn [andb].
    eexists. split; [reflexivity |].
    cbn [globals set_globals preferences delay set_preferences settings
         ledc uptime_ms].
    split; [| split; [| split; [| auto]]].
    + unfold getString, putString. cbn [String.eqb Ascii.eqb Bool.eqb andb].
      reflexivity.
    + apply getString_putString.
    + intros key. unfold putString.
      cbn [String.eqb Ascii.eqb Bool.eqb andb]. reflexivity.
  - intros H. rewrite H. eexists. split; [reflexivity |].
    split; [apply everySecond_preferences |].
    unfold everySecond. destruct (1000 <=? _); exact M.
Qed.
End Credentials.

(** ** Schedules of clock times *)

Section ClockEntries.
Context {P : Platform}.

Lemma kept_clockEntry (obj : JsonEntry) :
  clockEntry obj ->
  exists p, kept obj = [p] /\ in_domain p /\ duty p = entry_duty obj.
Proof.
  intros (pre & post & Et & Hne & Hcol & Hh & Hm & Hd).
  set (p := mkPoint (timeInHours (toInt pre) (toInt post)) (entry_duty obj)).
  assert (E : parseEntry obj = Some p)
    by (apply parseEntry_some_iff; exists pre, post; auto).
  exists p. unfold kept. rewrite E. split; [reflexivity |].
  split; [| reflexivity]. split; [| exact Hd].
  now apply timeInHours_in_day.
Qed.

(** X7.  A document of clock times and percentages is loaded whole, and its
    points are points of the documented domain: every hour from 0 to 23
    with every minute from 0 to 59 becomes a time of the day below 24. *)
Theorem clock_entries_load_in_domain
        (st : State) (array : list JsonEntry) :
  deserializeJson (getString (preferences st) "schedule" "points" "[]")
  = Some array ->
  Forall clockEntry array ->
  Forall in_domain (schedulePoints (loadScheduleFromPreferences st)) /\
  map duty (schedulePoints (loadScheduleFromPreferences st))
  = map entry_duty array.
Proof.
  intros Hparse Ha. rewrite (load_parsed st array Hparse). clear Hparse.
  induction Ha as [| obj array Hobj _ [IH1 IH2]]; [split; constructor |].
  destruct (kept_clockEntry obj Hobj) as (p & E & Hp & Hd).
  cbn [flat_map map]. rewrite E. cbn [app map].
  split; [constructor; assumption | now rewrite Hd, IH2].
Qed.
End ClockEntries.

(** ** The mode *)

Section ModeFacts.
Context {P : Platform} {R : Radio}.

Lemma everySecond_mode (dev : Device) :
  mode (everySecond dev) = mode dev /\
  settings (everySecond dev) = settings dev.
Proof.
  unfold everySecond. destruct (1000 <=? _); split; reflexivity.
Qed.

Lemma route_mode (rq : HttpRequest) (dev : Device) :
  mode (device (snd (route rq dev))) = mode dev.
Proof.
  unfold route.
  destruct (mode dev) as [[|] |] eqn:M; [| | exact M].
  - destruct (String.eqb (path rq) "/"); [exact M |].
    destruct (String.eqb (path rq) "/save"); [| exact M].
    destruct (method rq); [exact M |].
    unfold handleSave. destruct (_ && _)%bool; exact M.
  - destruct (String.eqb (path rq) "/"); [exact M |].
    destruct (String.eqb (path rq) "/settimezone").
    { destruct (method rq); [exact M |].
      unfold running, handleSetTimezone. destruct (hasArg _ _); exact M. }
    destruct (String.eqb (path rq) "/saveschedule").
    { destruct (method rq); [exact M |].
      unfold running, saveSchedule.
      destruct (handleSaveSchedule _ _) as [r g]. cbn [snd device].
      destruct (hasArg _ _); exact M. }
    destruct (String.eqb (path rq) "/loadschedule").
    { destruct (method rq); exact M. }
    destruct (String.eqb (path rq) "/status"); [| exact M].
    destruct (method rq); [| exact M].
    unfold onGlobals. destruct (handleStatus _) as [r g]. exact M.
Qed.

Lemma route_accessPoint_store (rq : HttpRequest) (dev : Device) :
  mode dev = Some AccessPoint ->
  forall ns key, ns <> "wifi" ->
    preferences (globals (device (snd (route rq dev)))) ns key
    = preferences (globals dev) ns key.
Proof.
  intros M ns key Hns. unfold route. rewrite M.
  destruct (String.eqb (path rq) "/"); [reflexivity |].
  destruct (String.eqb (path rq) "/save"); [| reflexivity].
  destruct (method rq); [reflexivity |].
  unfold handleSave. destruct (_ && _)%bool; [| reflexivity].
  cbn [snd device globals set_globals preferences delay set_preferences].
  unfold putString.
  destruct (String.eqb_spec "wifi" ns) as [<- | _]; [contradiction |].
  reflexivity.
Qed.

Lemma route_accessPoint_settings (rq : HttpRequest) (dev : Device) :
  mode dev = Some AccessPoint ->
  settings (device (snd (route rq dev))) = settings dev.
Proof.
  intros M. unfold route. rewrite M.
  destruct (String.eqb (path rq) "/"); [reflexivity |].
  destruct (String.eqb (path rq) "/save"); [| reflexivity].
  destruct (method rq); [reflexivity |].
  unfold handleSave. destruct (_ && _)%bool; reflexivity.
Qed.

(** What a run leaves as it was: the mode, and on an access point every
    string of the store outside the [wifi] namespace and every integer
    of the store. *)
Lemma run_keeps (passes : list (Z * option HttpRequest)) :
  forall dev,
  mode (device (run passes dev)) = mode dev /\
  (mode dev = Some AccessPoint ->
   (forall ns key, ns <> "wifi" ->
      preferences (globals (device (run passes dev))) ns key
      = preferences (globals dev) ns key) /\
   settings (device (run passes dev)) = settings dev).
Proof.
  induction passes as [| [ms rq] passes IH]; intros dev.
  - split; [reflexivity | intros; split; [intros |]; reflexivity].
  - cbn [run].
    set (dev0 := set_globals (delay ms (globals dev)) dev).
    assert (M0 : mode dev0 = mode dev) by reflexivity.
    assert (P0 : preferences (globals dev0) = preferences (globals dev))
      by reflexivity.
    assert (S0 : settings dev0 = settings dev) by reflexivity.
    clearbody dev0. unfold loop. destruct rq as [rq |].
    + pose proof (route_mode rq dev0) as Mr.
      pose proof (route_accessPoint_store rq dev0) as Pr.
      pose proof (route_accessPoint_settings rq dev0) as Sr.
      destruct (route rq dev0) as [a [dev1 | dev1]]; cbn [snd device] in *.
      * destruct (IH (everySecond dev1)) as [IM IP].
        destruct (everySecond_mode dev1) as [Me Se].
        split; [congruence |].
        intros M. destruct IP as [IP IS]; [congruence |].
        split.
        -- intros ns key Hns. rewrite IP by exact Hns.
           rewrite everySecond_preferences, Pr by congruence.
           now rewrite P0.
        -- rewrite IS, Se, Sr by congruence. exact S0.
      * split; [congruence |].
        intros M. split.
        -- intros ns key Hns. rewrite Pr by congruence. now rewrite P0.
        -- rewrite Sr by congruence. exact S0.
    + cbn [snd]. destruct (IH (everySecond dev0)) as [IM IP].
      destruct (everySecond_mode dev0) as [Me Se].
      split; [congruence |].
      intros M. destruct IP as [IP IS]; [congruence |].
      split.
      -- intros ns key Hns. rewrite IP by exact Hns.
         rewrite everySecond_preferences. now rewrite P0.
      -- rewrite IS, Se. exact S0.
Qed.

(** X23.  The mode is chosen in [setup] and never changes afterwards: an access
    point does not become a station when the network appears, and a
    station does not become an access point when the network is lost;
    only the restart that [handleSave] ends with leads to a new choice.
    An access point writes nothing but the credentials: the strings of
    the store outside the [wifi] namespace and the integers of the store
    stay as they are, so the schedule and the time zone in the store can
    be changed on a station only. *)
Theorem mode_is_fixed_after_setup
        (passes : list (Z * option HttpRequest)) (dev : Device) :
  mode (device (run passes dev)) = mode dev /\
  (mode dev = Some AccessPoint ->
   forall ns key, ns <> "wifi" ->
     preferences (globals (device (run passes dev))) ns key
     = preferences (globals dev) ns key) /\
  (mode dev = Some AccessPoint ->
   settings (device (run passes dev)) = settings dev).
Proof.
  destruct (run_keeps passes dev) as [M K].
  split; [exact M |].
  split; intros A; destruct (K A) as [K1 K2]; [exact K1 | exact K2].
Qed.
End ModeFacts.

(** ** Midnight *)

Section Midnight.
Context {P : Platform}.

(** X13.  The schedule does not wrap around: the day starts at the virtual
    point (0 h, 0 %), so at 0:00 the duty is 0 unless a point stands at
    0:00 itself, however bright the last point of the evening is. *)
Theorem midnight_is_dark (model : list SchedulePoint) :
  SortPermutes P -> SortOrders P ->
  Forall in_domain model ->
  (forall p, In p model -> F32.ltb F0 (time p) = true) ->
  F32.eqb (computeDuty model F0) F0 = true.
Proof.
  intros HP HS Hm Hlate.
  destruct (std_sort model) as [| a l2] eqn:E.
  - pose proof (HP model) as Hp. rewrite E in Hp.
    apply Permutation_sym, Permutation_nil in Hp. subst model. reflexivity.
  - assert (Ha : In a model).
    { eapply Permutation_in; [apply Permutation_sym, HP |].
      rewrite E. now left. }
    assert (H0 : in_day F0) by (repeat split; reflexivity).
    destruct (follows_segment_cases HP HS model Hm F0 H0) as (_ & H & _).
    destruct (H a l2 E (Hlate a Ha)) as (V & N & U).
    rewrite Forall_forall in Hm. destruct (Hm a Ha) as [Da Ra].
    destruct (in_day_closed _ Da) as [(Va & Na & _) _].
    pose proof (Hlate a Ha) as L.
    rewrite ltb_ulps in L by (assumption || reflexivity).
    apply Z.ltb_lt in L. change (ulps F0) with 0 in L.
    unfold segment_ulps in U. cbn [time duty] in U.
    change (ulps F0) with 0 in U.
    rewrite (interp_ulps_at_before 0 (ulps (time a)) 0 (duty a)) in U
      by lia.
    rewrite eqb_ulps by (assumption || reflexivity).
    apply Z.eqb_eq. rewrite U. reflexivity.
Qed.
End Midnight.

(** ** The order of the points *)

(** Points of distinct times can be sorted in one way only. *)
Lemma sorted_unique (l1 : list SchedulePoint) :
  forall l2,
    Forall storable l1 -> distinctTimes l1 ->
    StronglySorted by_time l1 -> StronglySorted by_time l2 ->
    Permutation l1 l2 -> l1 = l2.
Proof.
  induction l1 as [| x l1 IH]; intros l2 Hs Hd S1 S2 Hp.
  - apply Permutation_nil in Hp. now subst.
  - destruct l2 as [| y l2];
      [apply Permutation_sym, Permutation_nil in Hp; discriminate |].
    apply StronglySorted_inv in S1, S2.
    destruct S1 as [S1 Hx], S2 as [S2 Hy].
    rewrite Forall_forall in Hx, Hy.
    assert (Hyl : In y (x :: l1))
      by (eapply Permutation_in; [apply Permutation_sym, Hp | now left]).
    assert (Hxl : In x (y :: l2))
      by (eapply Permutation_in; [exact Hp | now left]).
    pose proof Hs as Hs'. rewrite Forall_forall in Hs'.
    destruct (Hs' x ltac:(now left)) as [[Fx _] _].
    destruct (Hs' y Hyl) as [[Fy _] _].
    assert (E : x = y).
    { destruct Hyl as [E | Hyl]; [exact E |].
      destruct Hxl as [E | Hxl]; [now symmetry |].
      pose proof (Hx y Hyl) as L1. pose proof (Hy x Hxl) as L2.
      unfold by_time in L1, L2.
      rewrite ltb_sval in L1, L2 by assumption.
      apply Z.ltb_ge in L1, L2.
      apply Hd; [now left | now right |].
      rewrite eqb_sval by assumption. apply Z.eqb_eq. lia. }
    subst y. f_equal.
    apply IH; try assumption.
    + now apply Forall_inv_tail in Hs.
    + intros p q Hp' Hq'. apply Hd; now right.
    + now apply Permutation_cons_inv in Hp.
Qed.

Section Order.
Context {P : Platform}.

(** X14.  As long as no two points stand at the same time, the order in which
    the points are stored does not matter: the sorted vector is the same
    and so is the duty, at every time.  In particular the sort that a
    reading of the duty leaves behind changes no later reading. *)
Theorem duty_does_not_depend_on_the_order
        (l1 l2 : list SchedulePoint) (cur : float) :
  SortPermutes P -> SortOrders P ->
  Forall storable l1 -> distinctTimes l1 -> Permutation l1 l2 ->
  std_sort l1 = std_sort l2 /\
  computeDuty l1 cur = computeDuty l2 cur /\
  computeDuty (std_sort l1) cur = computeDuty l1 cur.
Proof.
  intros HP HS Hs Hd Hp.
  assert (Hsort : forall l, Permutation l1 l -> std_sort l1 = std_sort l).
  { intros l Hl. apply sorted_unique.
    - rewrite Forall_forall in *. intros p Hin. apply Hs.
      eapply Permutation_in; [apply Permutation_sym, HP | exact Hin].
    - intros p q Hin1 Hin2. apply Hd;
        (eapply Permutation_in; [apply Permutation_sym, HP | eassumption]).
    - apply HS.
    - apply HS.
    - eapply Permutation_trans; [apply Permutation_sym, HP |].
      eapply Permutation_trans; [exact Hl | apply HP]. }
  assert (Hduty : forall l, Permutation l1 l ->
                            computeDuty l1 cur = computeDuty l cur).
  { intros l Hl. unfold computeDuty.
    destruct l1 as [| p1 l1'].
    - apply Permutation_nil in Hl. now subst.
    - destruct l as [| p l'];
        [apply Permutation_sym, Permutation_nil in Hl; discriminate |].
      now rewrite (Hsort _ Hl). }
  split; [exact (Hsort l2 Hp) |]. split; [exact (Hduty l2 Hp) |].
  symmetry. apply Hduty, HP.
Qed.
End Order.

(** ** The size of a step *)

Lemma rnd_error_percent (A : Z) :
  0 <= A <= 100 * 2 ^ 149 -> 2 * Z.abs (rnd F32.prec A 1 - A) <= 2 ^ 132.
Proof.
  intros HA.
  pose proof (rnd_error F32.prec prec32_pos A 1 ltac:(lia) ltac:(lia)) as E.
  rewrite Z.div_1_r, Z.mul_1_l, Z.mul_1_r in E.
  apply Z.le_trans with (1 := E).
  apply Z.pow_le_mono_r; [lia |]. unfold grid.
  assert (Zdigits2 A <= 156) by (apply Zdigits2_le_of_lt_pow2; lia).
  unfold F32.prec. lia.
Qed.

Lemma fade_moves_a_step (t c : float) :
  percent t -> percent c ->
  Z.abs (ulps (fade t c fadeStep_init) - ulps c)
  <= 13421773 * 2 ^ 123 + 2 ^ 131.
Proof.
  intros Ht Hc.
  destruct (percent_fin t Ht) as (Ft & St & Pt & Rt).
  destruct (percent_fin c Hc) as (Fc & Sc & Pc & Rc).
  pose proof percent_step as Hs.
  destruct (percent_fin _ Hs) as (Fs & Ss & Ps & Rs).
  pose proof Ht as (Vt & Nt & Ut). pose proof Hc as (Vc & Nc & Uc).
  pose proof Hs as (Vs & Ns & Us).
  rewrite ulps_step in *.
  set (S_ := 13421773 * 2 ^ 123) in *.
  assert (HS : 0 < S_ < 2 ^ 147).
  { unfold S_. split; [lia |].
    replace (2 ^ 147) with (2 ^ 24 * 2 ^ 123)
      by (rewrite <- Z.pow_add_r by lia; reflexivity).
    apply Z.mul_lt_mono_pos_r; lia. }
  destruct (sub32 t c Ft Fc) as [Fd Sd].
  { rewrite St, Sc. apply ovf32_big.
    apply Z.le_trans with (Z.max (ulps t) (ulps c)); [| lia].
    apply rnd_upper; [reflexivity | lia | lia | | lia].
    destruct (Z.max_spec (ulps t) (ulps c)) as [[_ ->] | [_ ->]];
      assumption. }
  rewrite St, Sc in Sd.
  destruct (abs_sval _ Fd) as (Va & Na & Ua).
  rewrite Sd, srnd_abs in Ua by (reflexivity || lia).
  pose proof (rnd_error_percent (Z.abs (ulps t - ulps c)) ltac:(lia)) as Ed.
  unfold fade.
  rewrite (leb_ulps (F32.abs (F32.sub t c)) fadeStep_init) by assumption.
  rewrite Ua, ulps_step. fold S_.
  destruct (Z.leb_spec (rnd F32.prec (Z.abs (ulps t - ulps c)) 1) S_)
    as [Hsnap | Hfar]; [lia |].
  assert (Hgap : S_ < Z.abs (ulps t - ulps c)).
  { destruct (Z_lt_ge_dec S_ (Z.abs (ulps t - ulps c))) as [L | G];
      [exact L |].
    exfalso.
    assert (rnd F32.prec (Z.abs (ulps t - ulps c)) 1 <= S_)
      by (apply rnd_upper; [reflexivity | lia | lia | exact Rs | lia]).
    lia. }
  rewrite (ltb_ulps c t) by assumption.
  destruct (Z.ltb_spec (ulps c) (ulps t)) as [Hup | Hdown].
  - destruct (add32 c fadeStep_init Fc Fs) as [Fr Sr].
    { rewrite Sc, Ss, Z.abs_eq by lia. apply ovf32_big.
      apply Z.le_trans with (ulps t); [| lia].
      apply rnd_upper; [reflexivity | lia | lia | exact Rt | lia]. }
    rewrite Sc, Ss, srnd_nonneg_arg in Sr by lia.
    assert (Blo : ulps c <= rnd F32.prec (ulps c + S_) 1)
      by (apply rnd_lower; [reflexivity | lia | lia | lia | exact Rc | lia]).
    assert (Nr : nonneg (F32.add c fadeStep_init) = true)
      by (apply fin32_nonneg; [exact Fr | rewrite Sr; lia]).
    rewrite <- (ulps_sval _ Nr), Sr.
    pose proof (rnd_error_percent (ulps c + S_) ltac:(lia)). lia.
  - destruct (sub32 c fadeStep_init Fc Fs) as [Fr Sr].
    { rewrite Sc, Ss, Z.abs_eq by lia. apply ovf32_big.
      apply Z.le_trans with (ulps c); [| lia].
      apply rnd_upper; [reflexivity | lia | lia | exact Rc | lia]. }
    rewrite Sc, Ss, srnd_nonneg_arg in Sr by lia.
    assert (Blo : ulps t <= rnd F32.prec (ulps c - S_) 1)
      by (apply rnd_lower; [reflexivity | lia | lia | lia | exact Rt | lia]).
    assert (Nr : nonneg (F32.sub c fadeStep_init) = true)
      by (apply fin32_nonneg; [exact Fr | rewrite Sr; lia]).
    rewrite <- (ulps_sval _ Nr), Sr.
    pose proof (rnd_error_percent (ulps c - S_) ltac:(lia)). lia.
Qed.

Section Smooth.
Context {P : Platform}.

(** X16.  The fade keeps its promise: with duties from 0 to 100 in the
    schedule, an update moves [currentDutyPWM] by one step at most,
    0.2 and the rounding of one addition, whatever the schedule asks
    for, and leaves it between 0 and 100.  Only [setup] sets the duty
    without a fade. *)
Theorem an_update_moves_one_step_at_most (st : State) :
  SortPermutes P ->
  Forall (pointOK isPercentage) (schedulePoints st) ->
  fadeStep st = fadeStep_init ->
  percent (currentDutyPWM st) ->
  percent (currentDutyPWM (updatePWMFromSchedule st)) /\
  Z.abs (ulps (currentDutyPWM (updatePWMFromSchedule st))
         - ulps (currentDutyPWM st))
  <= ulps fadeStep_init + 2 ^ 131.
Proof.
  intros HP Hl Hf Hc.
  assert (Ht : percent (computeDuty (schedulePoints st)
                                    (getCurrentTimeInHours st))).
  { unfold computeDuty. destruct (schedulePoints st) as [| p l] eqn:E.
    - apply (percent_of_int 0). lia.
    - apply interpolate_percent; [| apply getCurrentTimeInHours_in_day].
      rewrite Forall_forall in *. intros x Hx. apply Hl.
      eapply Permutation_in; [apply Permutation_sym, HP | exact Hx]. }
  rewrite update_frame. cbn [currentDutyPWM set_currentDutyPWM].
  rewrite Hf. split; [now apply fade_percent |].
  rewrite ulps_step. now apply fade_moves_a_step.
Qed.
End Smooth.

(** ** The theorems at work *)

Lemma in_day_of_int (h : Z) : 0 <= h < 24 -> in_day (F32.of_int h).
Proof.
  intros H.
  assert (A : all_from
                (fun h => (F32.valid (F32.of_int h)
                           && F32.leb F0 (F32.of_int h)
                           && F32.ltb (F32.of_int h) F24)%bool) 24 0 = true)
    by (vm_compute; reflexivity).
  pose proof (all_from_spec _ _ _ A h ltac:(lia)) as B.
  apply andb_prop in B as [B B3]. apply andb_prop in B as [B1 B2].
  now split; [| split].
Qed.

Lemma dayModel_in_domain : Forall in_domain dayModel.
Proof.
  repeat constructor; try (apply in_day_of_int; lia); cbn [duty]; lia.
Qed.

Lemma saved_text_is_served_back_witness :
  body (fst (handleLoadSchedule
               (snd (handleSaveSchedule (P := refPlatform 0)
                       [("schedule", "[{'time':'07:30','duty':45}]")] boot))))
  = Text "[{'time':'07:30','duty':45}]".
Proof.
  exact (proj1 (proj2 (saved_text_is_served_back
                         (P := refPlatform 0)
                         [("schedule", "[{'time':'07:30','duty':45}]")] boot
                         eq_refl))).
Defined.

Lemma save_replaces_and_fades_witness :
  currentDutyPWM
    (snd (handleSaveSchedule (P := refPlatform 43200)
            [("schedule", "[{'time':'12:00','duty':80}]")] boot))
  = fade (computeDuty (P := refPlatform 43200)
                      (flat_map kept [mkEntry "12:00" 80])
                      (getCurrentTimeInHours (P := refPlatform 43200) boot))
         F0 fadeStep_init.
Proof.
  exact (proj2 (save_replaces_and_fades
                  (P := refPlatform 43200)
                  [("schedule", "[{'time':'12:00','duty':80}]")] boot
                  [mkEntry "12:00" 80]
                  (refPlatform_permutes 43200) eq_refl eq_refl)).
Defined.

Lemma reading_repeats_daily_witness :
  getCurrentTimeInHours (P := refPlatform 0)
                        (set_timezoneOffset 1000000 boot)
  = getCurrentTimeInHours (P := refPlatform 0) (delay 34304000 boot).
Proof.
  exact (proj1 (reading_repeats_daily (P := refPlatform 0)
                  (set_timezoneOffset 1000000 boot)
                  (delay 34304000 boot) eq_refl)).
Defined.

Lemma duty_follows_segment_witness :
  follows_segment
    (computeDuty (P := refPlatform 0) dayModel (timeInHours 13 30))
    (mkPoint (F32.of_int 8) 20) (mkPoint (F32.of_int 20) 100)
    (timeInHours 13 30).
Proof.
  exact (proj1 (duty_follows_segment
                  (P := refPlatform 0) (refPlatform_permutes 0)
                  (refPlatform_orders 0) dayModel dayModel_in_domain
                  (timeInHours 13 30)
                  (timeInHours_in_day 13 30 ltac:(lia) ltac:(lia)))
               [] (mkPoint (F32.of_int 8) 20) (mkPoint (F32.of_int 20) 100) []
               eq_refl eq_refl eq_refl).
Defined.

Lemma duty_between_neighbours_witness :
  F32.leb (F32.of_int 20)
          (computeDuty (P := refPlatform 0) dayModel (timeInHours 13 30))
  = true /\
  F32.leb (computeDuty (P := refPlatform 0) dayModel (timeInHours 13 30))
          (F32.of_int 100)
  = true.
Proof.
  destruct (duty_between_neighbours
              (P := refPlatform 0) (refPlatform_permutes 0)
              (refPlatform_orders 0) dayModel dayModel_in_domain
              (timeInHours 13 30) [] []
              (mkPoint (F32.of_int 8) 20) (mkPoint (F32.of_int 20) 100)
              (timeInHours_in_day 13 30 ltac:(lia) ltac:(lia))
              eq_refl eq_refl eq_refl) as (H1 & H2 & _).
  split; assumption.
Defined.

Lemma duty_monotone_on_segment_witness :
  F32.leb (computeDuty (P := refPlatform 0) dayModel (timeInHours 9 15))
          (computeDuty (P := refPlatform 0) dayModel (timeInHours 13 30))
  = true.
Proof.
  destruct (duty_monotone_on_segment
              (P := refPlatform 0) (refPlatform_permutes 0)
              (refPlatform_orders 0) dayModel dayModel_in_domain
              (timeInHours 9 15) (timeInHours 13 30)
              (timeInHours_in_day 9 15 ltac:(lia) ltac:(lia))
              (timeInHours_in_day 13 30 ltac:(lia) ltac:(lia))
              eq_refl) as (H & _ & _).
  exact (proj1 (H [] (mkPoint (F32.of_int 8) 20) (mkPoint (F32.of_int 20) 100)
                  [] eq_refl eq_refl eq_refl) ltac:(cbn [duty]; lia)).
Defined.

Lemma duty_within_schedule_duties_witness :
  F32.leb (computeDuty (P := refPlatform 0) dayModel (timeInHours 23 59))
          (F32.of_int 100)
  = true.
Proof.
  apply (proj1 (duty_within_schedule_duties
                  (P := refPlatform 0) (refPlatform_permutes 0)
                  dayModel dayModel_in_domain (timeInHours 23 59)
                  (timeInHours_in_day 23 59 ltac:(lia) ltac:(lia)))).
  - lia.
  - intros p [<- | [<- | []]]; cbn [duty]; lia.
Defined.

Lemma boot_with_network_witness :
  let strings :=
    putString
      (putString (fun _ _ => None) "wifi" "ssid" "reef")
      "schedule" "points" "[{'time':'00:00','duty':100}]" in
  mode (setup (P := refPlatform 43200) (R := radioFrom 2400)
              (powerUp strings (fun _ _ => None)))
  = Some Station.
Proof.
  intros strings.
  refine (proj1 (boot_with_network (P := refPlatform 43200)
                                   (R := radioFrom 2400)
                                   strings (fun _ _ => None) 3 _ _ _ _)).
  - discriminate.
  - lia.
  - intros j Hj. cbn [connected radioFrom]. apply Z.leb_gt. lia.
  - reflexivity.
Defined.

Lemma tick_every_second_witness :
  let dev :=
    setup (P := refPlatform 43200) (R := noRadio)
          (powerUp (fun _ _ => None) (fun _ _ => None)) in
  let dev1 := set_lastPWMUpdate (millis (globals dev)) dev in
  everySecond (P := refPlatform 43200)
              (set_globals (delay 999 (globals dev1)) dev1)
  = set_globals (delay 999 (globals dev1)) dev1.
Proof.
  intros dev dev1.
  exact (proj1 (tick_every_second (P := refPlatform 43200) dev1 999
                                  eq_refl ltac:(lia)) ltac:(lia)).
Defined.

Lemma storable_of_int (h d : Z) :
  0 <= h < 24 -> Cast.INT_MIN <= d <= Cast.INT_MAX ->
  storable (mkPoint (F32.of_int h) d).
Proof.
  intros Hh Hd. split; [| exact Hd].
  exact (proj1 (in_day_within _ (in_day_of_int h Hh))).
Qed.

Lemma duty_at_the_time_of_a_point_witness :
  exists q,
    In q [mkPoint (F32.of_int 12) 500] /\
    F32.eqb (time q) (F32.of_int 12) = true /\
    computeDuty (P := refPlatform 0) [mkPoint (F32.of_int 12) 500]
                (F32.of_int 12)
    = F32.of_int (duty q).
Proof.
  apply (duty_at_the_time_of_a_point
           (P := refPlatform 0) [mkPoint (F32.of_int 12) 500]
           (F32.of_int 12) (mkPoint (F32.of_int 12) 500)
           (refPlatform_permutes 0) (refPlatform_orders 0)).
  - constructor; [| constructor]. apply storable_of_int; [lia |].
    unfold Cast.INT_MIN, Cast.INT_MAX. lia.
  - apply in_day_of_int. lia.
  - now left.
  - reflexivity.
Defined.

Lemma full_minute_reads_as_stored_witness :
  getCurrentTimeInHours (P := refPlatform 45240) boot = timeInHours 12 34.
Proof.
  exact (full_minute_reads_as_stored (P := refPlatform 45240) boot eq_refl).
Defined.

Lemma stored_times_keep_the_order_witness :
  F32.ltb (timeInHours 7 30) (timeInHours 19 5) = true.
Proof.
  apply (proj2 (proj1 (stored_times_keep_the_order
                         7 30 19 5 ltac:(lia) ltac:(lia) ltac:(lia)
                         ltac:(lia)))).
  lia.
Defined.

Lemma setupTime_waits_ten_seconds_at_most_witness :
  uptime_ms (setupTime (P := refPlatform 0) boot) = 10000.
Proof.
  refine (proj1 (proj2 (setupTime_waits_ten_seconds_at_most
                          (P := refPlatform 0) boot 10 ltac:(lia) _ _))).
  - intros j Hj. cbn [time_at refPlatform uptime_ms boot].
    assert ((0 + 1000 * j) / 1000 < 57600); [| lia].
    apply Z.div_lt_upper_bound; lia.
  - now left.
Defined.

Lemma empty_schedule_turns_the_light_off_witness :
  currentDutyPWM
    (updates (P := refPlatform 0) (repeat 1000 501)
             (set_currentDutyPWM (F32.of_int 80) boot))
  = F0.
Proof.
  refine (proj1 (proj2 (empty_schedule_turns_the_light_off
                          (P := refPlatform 0)
                          (set_currentDutyPWM (F32.of_int 80) boot)
                          (repeat 1000 501)
                          eq_refl eq_refl eq_refl eq_refl eq_refl) _)).
  rewrite repeat_length. apply le_n.
Defined.

Lemma credentials_are_kept_for_the_next_start_witness :
  let rq :=
    mkHttpRequest "/save" POST [("ssid", "reef"); ("password", "anemone")] in
  let dev :=
    setup (P := refPlatform 0) (R := noRadio)
          (powerUp (fun _ _ => None) (fun _ _ => None)) in
  exists dev',
    loop (P := refPlatform 0) (Some rq) dev
    = (Some (Html 200), Restarting dev') /\
    getString (preferences (globals dev')) "wifi" "ssid" EmptyString
    = "reef".
Proof.
  intros rq dev.
  destruct (proj1 (credentials_are_kept_for_the_next_start
                     (P := refPlatform 0) rq dev
                     eq_refl eq_refl eq_refl) eq_refl eq_refl)
    as (dev' & E & Hs & _).
  exists dev'. split; [exact E | exact Hs].
Defined.

Lemma clock_entries_load_in_domain_witness :
  Forall in_domain
    (schedulePoints
       (loadScheduleFromPreferences
          (P := refPlatform 0)
          (with_schedule_text "[{'time':'07:30','duty':45}]"))).
Proof.
  refine (proj1 (clock_entries_load_in_domain
                   (P := refPlatform 0)
                   (with_schedule_text "[{'time':'07:30','duty':45}]")
                   [mkEntry "07:30" 45] eq_refl _)).
  constructor; [| constructor].
  exists "07", "30". split; [reflexivity |]. split; [discriminate |].
  split; [intros [H | [H | []]]; discriminate |].
  change (toInt "07") with 7. change (toInt "30") with 30.
  cbn [entry_duty]. lia.
Defined.

Lemma midnight_is_dark_witness :
  F32.eqb (computeDuty (P := refPlatform 0) dayModel F0) F0 = true.
Proof.
  apply (midnight_is_dark (P := refPlatform 0) dayModel
                          (refPlatform_permutes 0) (refPlatform_orders 0)
                          dayModel_in_domain).
  intros p [<- | [<- | []]]; reflexivity.
Defined.

Lemma duty_does_not_depend_on_the_order_witness :
  computeDuty (P := refPlatform 0) dayModel (timeInHours 13 30)
  = computeDuty (P := refPlatform 0)
                [mkPoint (F32.of_int 20) 100; mkPoint (F32.of_int 8) 20]
                (timeInHours 13 30).
Proof.
  refine (proj1 (proj2 (duty_does_not_depend_on_the_order
                          (P := refPlatform 0) dayModel
                          [mkPoint (F32.of_int 20) 100;
                           mkPoint (F32.of_int 8) 20]
                          (timeInHours 13 30)
                          (refPlatform_permutes 0) (refPlatform_orders 0)
                          _ _ _))).
  - repeat constructor; apply storable_of_int;
      unfold Cast.INT_MIN, Cast.INT_MAX; lia.
  - intros p q [<- | [<- | []]] [<- | [<- | []]] H;
      (reflexivity || (vm_compute in H; discriminate H)).
  - apply perm_swap.
Defined.

Lemma an_update_moves_one_step_at_most_witness :
  let st := set_schedulePoints dayModel
              (set_currentDutyPWM (F32.of_int 30) boot) in
  Z.abs (ulps (currentDutyPWM
                 (updatePWMFromSchedule (P := refPlatform 43200) st))
         - ulps (currentDutyPWM st))
  <= ulps fadeStep_init + 2 ^ 131.
Proof.
  intros st.
  refine (proj2 (an_update_moves_one_step_at_most
                   (P := refPlatform 43200) st (refPlatform_permutes 43200)
                   _ eq_refl (percent_of_int 30 ltac:(lia)))).
  repeat constructor; cbn [time duty];
    try exact (proj1 (proj1 (in_day_within _ (in_day_of_int 8 ltac:(lia)))));
    try exact (proj2 (proj1 (in_day_within _ (in_day_of_int 8 ltac:(lia)))));
    try exact (proj1 (proj1 (in_day_within _ (in_day_of_int 20 ltac:(lia)))));
    try exact (proj2 (proj1 (in_day_within _ (in_day_of_int 20 ltac:(lia)))));
    unfold isPercentage; lia.
Defined.
